(** * cell_type_mapper: CPM conversion, CSR row iteration, bootstrap election

    A shallow embedding of the parts of the hierarchical cell type mapper
    that normalise counts, stream rows of a CSR matrix, assemble the
    reference rows of a parent node, tally bootstrap votes and walk the
    taxonomy.

    Conventions.
    - A numpy float is an exact rational ([Q], compared with [==]); a
      division whose divisor is zero gives [None], standing for the
      non-finite value (nan or inf) numpy produces there.
    - A numpy integer is a [Z], with the wrap-around of its dtype
      written out where numpy computes in that dtype.
    - A 2-D array is the list of its rows.
    - A Python exception is the [Raise] of the error monad [res]; a
      generator of random numbers is a state threaded through the calls. *)

From Stdlib Require Import QArith Qround Lia Lqa.
From stdpp Require Import base option list sorting strings gmap.

Local Open Scope Q_scope.

(** ** Exceptions *)

Inductive exn : Set :=
  | RuntimeError | ValueError | IndexError | KeyError.

Inductive res (A : Type) : Type :=
  | Ok (a : A)
  | Raise (e : exn).
Arguments Ok {A} a.
Arguments Raise {A} e.

#[global] Instance res_ret : MRet res := fun A a => Ok a.
#[global] Instance res_bind : MBind res := fun A B f m =>
  match m with Ok a => f a | Raise e => Raise e end.
#[global] Instance res_fmap : FMap res := fun A B f m =>
  match m with Ok a => Ok (f a) | Raise e => Raise e end.

(** [x] if present, else the exception [e] (a failed subscript). *)
Definition or_raise {A} (e : exn) (x : option A) : res A :=
  match x with Some a => Ok a | None => Raise e end.

(** Run [f] on every element, left to right, stopping at the first
    exception. *)
Fixpoint res_mapM {A B} (f : A -> res B) (l : list A) : res (list B) :=
  match l with
  | [] => Ok []
  | x :: l' => y ← f x; ys ← res_mapM f l'; Ok (y :: ys)
  end.

(** ** numpy helpers *)

Abbreviation array1 := (list Q).
Abbreviation array2 := (list (list Q)).

(** [np.sum(row)] *)
Definition np_sum (row : array1) : Q := foldr Qplus 0 row.

(** [x / d] on floats: a finite quotient, or [None] on a zero divisor. *)
Definition np_true_divide (x d : Q) : option Q :=
  if Qeq_bool d 0 then None else Some (x / d).

(** An integer dtype of numpy, by the bounds of [np.iinfo]. *)
Record int_dtype : Type := { iinfo_min : Z; iinfo_max : Z }.

(** Storing the integer [v] in an array of dtype [d] wraps it around. *)
Definition dtype_wrap (d : int_dtype) (v : Z) : Z :=
  (iinfo_min d + (v - iinfo_min d) mod (iinfo_max d - iinfo_min d + 1))%Z.

(** [np.int64], the dtype numpy gives an array of Python integers and
    the one in which it adds integers up. *)
Definition int64 : int_dtype :=
  {| iinfo_min := - 2 ^ 63; iinfo_max := 2 ^ 63 - 1 |}.

(** A 2-D array as numpy holds it: of floats, or of integers, each an
    [int64]. *)
Inductive ndarray : Type :=
  | FloatArray (data : array2)
  | IntArray (data : list (list Z)).

(** The entries as floats: what a division by floats makes of them. *)
Definition as_float (data : ndarray) : array2 :=
  match data with
  | FloatArray a => a
  | IntArray a => map (map inject_Z) a
  end.

(** [np.sum(data, axis=1)]: the sum of a row of integers is an [int64]
    again, and wraps around. *)
Definition np_sum_rows (data : ndarray) : list Q :=
  match data with
  | FloatArray a => map np_sum a
  | IntArray a =>
      map (fun row => inject_Z (dtype_wrap int64 (foldr Z.add 0%Z row))) a
  end.

(** Pointwise equality of arrays up to [==]. *)
Definition array1_eq (r1 r2 : array1) : Prop := Forall2 Qeq r1 r2.

(** ** cell_by_gene/utils.py *)

Module CellByGene.

(** [np.where(row_sums > 0.0, row_sums, 1.)], one entry *)
Definition denom_of (row_sum : Q) : Q :=
  if Qlt_le_dec 0 row_sum then row_sum else 1.

(** One row of [1.0e6 * (data.transpose() / denom)], transposed back:
    entry [x] of a row with denominator [d] becomes [1.0e6 * (x / d)]. *)
Definition cpm_row (d : Q) (row : array1) : option array1 :=
  mapM (fun x => q ← np_true_divide x d; Some (1000000 * q)) row.

(** [convert_to_cpm(data)]: the transposes only serve numpy's
    broadcasting, which divides row [i] of [data] by [denom[i]]; the
    quotient by the floats of [denom] is an array of floats. *)
Definition convert_to_cpm (data : ndarray) : option array2 :=
  let row_sums := np_sum_rows data in
  let denom := map denom_of row_sums in
  mapM (fun rd => cpm_row rd.2 rd.1) (zip (as_float data) denom).

End CellByGene.

(** ** anndata_iterator/anndata_iterator.py *)

Module AnnDataIterator.

(** The three datasets of a CSR group in the HDF5 file. *)
Record csr_group : Type := {
  data : list Q;
  indices : list nat;
  indptr : list nat
}.

(** [l[a:b]] for [a <= b] within range; Python clips a slice that runs
    past the end. *)
Definition slice {A} (l : list A) (a b : nat) : list A :=
  take (b - a) (drop a l).

(** [result[this_row, these_cols] = vals]: the scatter of one row. A
    column outside [0, n_cols) is an [IndexError]. *)
Fixpoint scatter_row (row : array1) (cols : list nat) (vals : list Q)
  : res array1 :=
  match cols, vals with
  | c :: cols', v :: vals' =>
      if decide (c < length row)%nat
      then scatter_row (<[c := v]> row) cols' vals'
      else Raise IndexError
  | [], [] => Ok row
  | _, _ => Raise ValueError
  end.

(** Modelled from the spec: [load_csr] (utils/sparse_utils.py) is missing
    from the sources. "For CSR: read [indptr[r0]..indptr[r1]], then
    [data]/[indices] slice, scatter to a zero-initialized dense buffer."
    Row [r] of the matrix owns the entries [indptr[r] .. indptr[r+1]). *)
Definition load_csr_row (n_cols : nat) (g : csr_group) (r : nat)
  : res array1 :=
  p0 ← or_raise IndexError (indptr g !! r);
  p1 ← or_raise IndexError (indptr g !! S r);
  scatter_row (replicate n_cols 0)
              (slice (indices g) p0 p1) (slice (data g) p0 p1).

Definition load_csr (row_spec : nat * nat) (n_cols : nat) (g : csr_group)
  : res array2 :=
  res_mapM (load_csr_row n_cols g)
           (seq row_spec.1 (row_spec.2 - row_spec.1)).

(** The fields of a [CSRRowIterator]; [h5_handle] is whether the file
    handle is still open. *)
Record CSRRowIterator : Type := {
  h5_file : csr_group;
  h5_handle : bool;
  row_chunk_size : nat;
  r0 : nat;
  n_rows : nat;
  n_cols : nat
}.

(** [CSRRowIterator.__init__] *)
Definition init (h5 : csr_group) (row_chunk_size : nat)
    (array_shape : nat * nat) : CSRRowIterator :=
  {| h5_file := h5; h5_handle := true; row_chunk_size := row_chunk_size;
     r0 := 0; n_rows := array_shape.1; n_cols := array_shape.2 |}.

(** What a call of [__next__] does: return a triple, raise
    [StopIteration], or fail with an exception of [load_csr]. *)
Inductive next_result : Type :=
  | Yield (chunk : array2) (old_r0 r1 : nat)
  | StopIteration
  | Failure (e : exn).

(** [CSRRowIterator.__next__]: the result and the iterator afterwards. *)
Definition next (self : CSRRowIterator) : next_result * CSRRowIterator :=
  if decide (n_rows self <= r0 self)%nat then
    (StopIteration,
     {| h5_file := h5_file self; h5_handle := false;
        row_chunk_size := row_chunk_size self; r0 := r0 self;
        n_rows := n_rows self; n_cols := n_cols self |})
  else
    let r1 := Nat.min (n_rows self) (r0 self + row_chunk_size self) in
    match load_csr (r0 self, r1) (n_cols self) (h5_file self) with
    | Raise e => (Failure e, self)
    | Ok chunk =>
        (Yield chunk (r0 self) r1,
         {| h5_file := h5_file self; h5_handle := h5_handle self;
            row_chunk_size := row_chunk_size self; r0 := r1;
            n_rows := n_rows self; n_cols := n_cols self |})
    end.

(** [for chunk in iterator]: call [__next__] until [StopIteration],
    at most [fuel] times; the triples yielded and the exhausted
    iterator. [None] when the fuel runs out first. *)
Fixpoint iterate (fuel : nat) (self : CSRRowIterator)
  : option (res (list (array2 * nat * nat) * CSRRowIterator)) :=
  match fuel with
  | O => None
  | S fuel' =>
      match next self with
      | (StopIteration, self') => Some (Ok ([], self'))
      | (Failure e, _) => Some (Raise e)
      | (Yield chunk a b, self') =>
          match iterate fuel' self' with
          | Some (Ok (rest, final)) => Some (Ok ((chunk, a, b) :: rest, final))
          | other => other
          end
      end
  end.

(** A well-formed CSR group for a matrix of the given shape. *)
Definition csr_wf (g : csr_group) (shape : nat * nat) : Prop :=
  length (indptr g) = S shape.1 /\
  Sorted le (indptr g) /\
  Forall (fun p => p <= length (indices g))%nat (indptr g) /\
  length (data g) = length (indices g) /\
  Forall (fun c => c < shape.2)%nat (indices g).

(** The intervals [[a, b)] of the triples follow one another from
    [start] to [stop], and none is empty. *)
Fixpoint tiles (start stop : nat) (triples : list (array2 * nat * nat))
  : Prop :=
  match triples with
  | [] => start = stop
  | (_, a, b) :: rest => a = start /\ (a < b)%nat /\ tiles b stop rest
  end.

(** The chunk of a triple is a dense array of shape
    [(r1 - r0, n_cols)]. *)
Definition dense_chunk (n_cols : nat) (t : array2 * nat * nat) : Prop :=
  length t.1.1 = (t.2 - t.1.2)%nat /\
  Forall (fun row => length row = n_cols) t.1.1.

End AnnDataIterator.

(** ** Collaborators of the election that are not part of the sources *)

(** The random number generator, the nearest-neighbour search of
    [distance_utils] and the dtype chooser of [utils.utils], which
    [tally_votes] calls and the sources do not contain.
    - [rng_choice rng population size] is
      [rng.choice(population, size, replace=False)]: the sample and the
      generator afterwards.
    - [correlation_nearest_neighbors baseline query] returns, for every
      row of [query], the index of its nearest row of [baseline] and the
      correlation with it. *)
Class Collaborators : Type := {
  rng_state : Type;
  rng_choice : rng_state -> list nat -> Z -> res (list nat * rng_state);
  correlation_nearest_neighbors :
    array2 -> array2 -> res (list nat * list Q);
  choose_int_dtype : Z * Z -> int_dtype
}.

(** ** type_assignment/election.py: the vote *)

Module Election.

Section WithCollaborators.
Context `{Collaborators}.

(** [np.round(x).astype(int)]: to the nearest integer, a tie to the
    even one. *)
Definition np_round (x : Q) : Z :=
  let f := Qfloor x in
  match Qcompare (x - inject_Z f) (1 # 2) with
  | Lt => f
  | Gt => (f + 1)%Z
  | Eq => if Z.even f then f else (f + 1)%Z
  end.

(** [a.shape[1]] of a 2-D array held as its rows. An array without rows
    does not record its width; the election never assembles one, since
    a parent without cells is skipped. *)
Definition shape1 (a : array2) : nat :=
  match a with [] => O | row :: _ => length row end.

(** [a[:, chosen_idx]] *)
Definition take_columns (a : array2) (chosen_idx : list nat) : res array2 :=
  res_mapM (fun row =>
              res_mapM (fun j => or_raise IndexError (row !! j)) chosen_idx)
           a.

(** [n_bootstrap = np.round(bootstrap_factor*n_markers).astype(int)] *)
Definition n_bootstrap_of (bootstrap_factor : Q) (n_markers : nat) : Z :=
  np_round (bootstrap_factor * inject_Z (Z.of_nat n_markers)).

(** The body of the first loop of [tally_votes]: the sorted sample of
    marker indices, the neighbours and correlations found on it, and the
    generator afterwards. *)
Definition bootstrap_step (query_gene_data reference_gene_data : array2)
    (marker_idx : list nat) (n_bootstrap : Z) (rng : rng_state)
  : res (list nat * (list nat * list Q) * rng_state) :=
  '(chosen_idx, rng) ← rng_choice rng marker_idx n_bootstrap;
  let chosen_idx := merge_sort le chosen_idx in
  bootstrap_query ← take_columns query_gene_data chosen_idx;
  bootstrap_reference ← take_columns reference_gene_data chosen_idx;
  nc ← correlation_nearest_neighbors bootstrap_reference bootstrap_query;
  Ok (chosen_idx, nc, rng).

(** [for i_iteration in range(bootstrap_iteration)]: the lists
    [neighbors] and [corr], one entry per iteration. *)
Fixpoint bootstrap_loop (query_gene_data reference_gene_data : array2)
    (marker_idx : list nat) (n_bootstrap : Z)
    (n_iteration : nat) (rng : rng_state)
  : res (list (list nat * list Q) * rng_state) :=
  match n_iteration with
  | O => Ok ([], rng)
  | S n =>
      '(_, nc, rng) ← bootstrap_step query_gene_data reference_gene_data
                                      marker_idx n_bootstrap rng;
      '(rest, rng) ← bootstrap_loop query_gene_data reference_gene_data
                                    marker_idx n_bootstrap n rng;
      Ok (nc :: rest, rng)
  end.

(** [votes[i, j] += 1] in an array of dtype [d]; a column outside the
    row is an [IndexError]. *)
Definition add_vote (d : int_dtype) (row : list Z) (j : nat) : res (list Z) :=
  v ← or_raise IndexError (row !! j);
  Ok (<[j := dtype_wrap d (v + 1)]> row).

(** [corr_sum[i, j] += c] *)
Definition add_corr (row : array1) (j : nat) (c : Q) : res array1 :=
  s ← or_raise IndexError (row !! j);
  Ok (<[j := s + c]> row).

(** [votes[query_idx, nearest_neighbors] += 1] with
    [query_idx = np.arange(n_query)]: row [i] gets one vote in column
    [nearest_neighbors[i]]. The index arrays must have one entry per
    row, else the shapes do not broadcast. *)
Fixpoint vote_rows (d : int_dtype) (votes : list (list Z))
    (nearest_neighbors : list nat) : res (list (list Z)) :=
  match votes, nearest_neighbors with
  | [], [] => Ok []
  | row :: votes', j :: nn' =>
      row' ← add_vote d row j;
      rest ← vote_rows d votes' nn';
      Ok (row' :: rest)
  | _, _ => Raise IndexError
  end.

(** [corr_sum[query_idx, nearest_neighbors] += corr_values] *)
Fixpoint corr_rows (corr_sum : array2) (nearest_neighbors : list nat)
    (corr_values : list Q) : res array2 :=
  match corr_sum, nearest_neighbors, corr_values with
  | [], [], [] => Ok []
  | row :: corr_sum', j :: nn', c :: corr' =>
      row' ← add_corr row j c;
      rest ← corr_rows corr_sum' nn' corr';
      Ok (row' :: rest)
  | _, _, _ => Raise IndexError
  end.

(** [for nearest_neighbors, corr_values in zip(neighbors, corr)] *)
Fixpoint tally_loop (d : int_dtype) (votes : list (list Z))
    (corr_sum : array2) (neighbors_corr : list (list nat * list Q))
  : res (list (list Z) * array2) :=
  match neighbors_corr with
  | [] => Ok (votes, corr_sum)
  | (nearest_neighbors, corr_values) :: rest =>
      votes ← vote_rows d votes nearest_neighbors;
      corr_sum ← corr_rows corr_sum nearest_neighbors corr_values;
      tally_loop d votes corr_sum rest
  end.

(** [tally_votes]: the arrays [votes] and [corr_sum], of shape
    [(n_query, n_reference)]. *)
Definition tally_votes (query_gene_data reference_gene_data : array2)
    (bootstrap_factor : Q) (bootstrap_iteration : nat) (rng : rng_state)
  : res (list (list Z) * array2 * rng_state) :=
  let n_markers := shape1 query_gene_data in
  let marker_idx := seq 0 n_markers in
  let n_bootstrap := n_bootstrap_of bootstrap_factor n_markers in
  let n_query := length query_gene_data in
  let n_reference := length reference_gene_data in
  let vote_dtype := choose_int_dtype (0%Z, Z.of_nat bootstrap_iteration) in
  let votes := replicate n_query (replicate n_reference 0%Z) in
  let corr_sum := replicate n_query (replicate n_reference 0) in
  '(neighbors_corr, rng) ←
     bootstrap_loop query_gene_data reference_gene_data
                    marker_idx n_bootstrap bootstrap_iteration rng;
  '(votes, corr_sum) ← tally_loop vote_dtype votes corr_sum neighbors_corr;
  Ok (votes, corr_sum, rng).

(** [np.argmax(row)]: the first index holding the maximum. *)
Fixpoint np_argmax_from (best_i : nat) (best : Z) (i : nat) (row : list Z)
  : nat :=
  match row with
  | [] => best_i
  | x :: row' =>
      if (best <? x)%Z then np_argmax_from i x (S i) row'
      else np_argmax_from best_i best (S i) row'
  end.

Definition np_argmax (row : list Z) : res nat :=
  match row with
  | [] => Raise ValueError
  | x :: row' => Ok (np_argmax_from 0 x 1 row')
  end.

(** What [choose_node] returns for one query row. *)
Record choice : Type := {
  result : string;
  vote_fraction : option Q;
  avg_corr : option Q
}.

(** The second half of [choose_node], for one row of [votes] and
    [corr_sum]. *)
Definition choose_row (reference_types : list string)
    (bootstrap_iteration : nat) (votes_row : list Z) (corr_row : array1)
  : res choice :=
  chosen_type ← np_argmax votes_row;
  result ← or_raise IndexError (reference_types !! chosen_type);
  n_votes ← or_raise IndexError (votes_row !! chosen_type);
  corr ← or_raise IndexError (corr_row !! chosen_type);
  Ok {| result := result;
        vote_fraction :=
          np_true_divide (inject_Z n_votes)
                         (inject_Z (Z.of_nat bootstrap_iteration));
        avg_corr := np_true_divide corr (inject_Z n_votes) |}.

Fixpoint choose_rows (reference_types : list string)
    (bootstrap_iteration : nat) (votes : list (list Z)) (corr_sum : array2)
  : res (list choice) :=
  match votes, corr_sum with
  | [], [] => Ok []
  | votes_row :: votes', corr_row :: corr_sum' =>
      c ← choose_row reference_types bootstrap_iteration votes_row corr_row;
      rest ← choose_rows reference_types bootstrap_iteration votes' corr_sum';
      Ok (c :: rest)
  | _, _ => Raise IndexError
  end.

(** [choose_node]: the three returned arrays, zipped into one record
    per query row. *)
Definition choose_node (query_gene_data reference_gene_data : array2)
    (reference_types : list string)
    (bootstrap_factor : Q) (bootstrap_iteration : nat) (rng : rng_state)
  : res (list choice * rng_state) :=
  '(votes, corr_sum, rng) ←
     tally_votes query_gene_data reference_gene_data
                 bootstrap_factor bootstrap_iteration rng;
  choices ← choose_rows reference_types bootstrap_iteration votes corr_sum;
  Ok (choices, rng).

End WithCollaborators.

End Election.

(** ** taxonomy/taxonomy_tree.py *)

Module Taxonomy.

(** Python's order on [str], by code point. *)
Definition str_le (s1 s2 : string) : Prop := String.leb s1 s2 = true.

#[global] Instance str_le_dec : RelDecision str_le.
Proof. intros s1 s2; unfold str_le; apply _. Defined.

(** [l.sort()] on a list of names *)
Definition sort_names (l : list string) : list string := merge_sort str_le l.

(** [list(d.keys())]; every caller sorts the list or looks only at its
    length and single element, so the order of the keys is immaterial. *)
Definition keys {V} (d : gmap string V) : list string := (map_to_list d).*1.

(** The dict behind a [TaxonomyTree]: the ordered level names under
    ['hierarchy'], and for each level the dict from node to its value,
    the names of its children. For a node of the leaf level the value is
    the list of its reference rows; nothing here reads it, and it is held
    as a list of names like the others. *)
Record TaxonomyTree : Type := {
  hierarchy : list string;
  _data : gmap string (gmap string (list string))
}.

(** [TaxonomyTree.nodes_at_level] *)
Definition nodes_at_level (t : TaxonomyTree) (this_level : string)
  : res (list string) :=
  nodes ← or_raise RuntimeError (_data t !! this_level);
  Ok (keys nodes).

(** [TaxonomyTree.children]; the parent [None] is the pair of arguments
    [(None, None)]. *)
Definition children (t : TaxonomyTree) (parent : option (string * string))
  : res (list string) :=
  match parent with
  | None =>
      level0 ← or_raise IndexError (hierarchy t !! O);
      nodes ← or_raise KeyError (_data t !! level0);
      Ok (keys nodes)
  | Some (level, node) =>
      nodes ← or_raise RuntimeError (_data t !! level);
      value ← or_raise RuntimeError (nodes !! node);
      Ok value
  end.

(** The leaves under [node], a node of the first level of [levels]; the
    last level of the hierarchy is the leaf level. *)
Fixpoint leaves_below (data : gmap string (gmap string (list string)))
    (levels : list string) (node : string) : list string :=
  match levels with
  | [] => []
  | level :: rest =>
      match rest with
      | [] => [node]
      | _ :: _ =>
          match data !! level ≫= (fun nodes => nodes !! node) with
          | Some value => flat_map (leaves_below data rest) value
          | None => []
          end
      end
  end.

(** [{level: idx for idx, level in enumerate(hierarchy)}]: a later
    entry replaces an earlier one of the same name. *)
Definition level_to_idx (hierarchy : list string) : gmap string nat :=
  foldl (fun d il => <[il.2 := il.1]> d) ∅ (imap pair hierarchy).

(** Modelled from the spec: [convert_tree_to_leaves]
    (utils/taxonomy_utils.py) is missing from the sources. By the
    docstring of [TaxonomyTree.as_leaves] it maps a level and a node of
    that level to the "list of leaf nodes making up that node"; the spec
    calls them the node's descendant leaves. [as_leaves t level node] is
    [convert_tree_to_leaves(tree)[level][node]]. *)
Definition as_leaves (t : TaxonomyTree) (level node : string)
  : res (list string) :=
  idx ← or_raise KeyError (level_to_idx (hierarchy t) !! level);
  nodes ← or_raise KeyError (_data t !! level);
  _ ← or_raise KeyError (nodes !! node);
  Ok (leaves_below (_data t) (drop idx (hierarchy t)) node).

(** Consecutive levels: [zip(levels[:-1], levels[1:])]. *)
Definition level_pairs {A} (levels : list A) : list (A * A) :=
  zip levels (drop 1 levels).

(** All values of the nodes of one level, in one list. *)
Definition all_children (nodes : gmap string (list string)) : list string :=
  mjoin (map_to_list nodes).*2.

(** The children of the nodes of level [pc.1] are nodes of level [pc.2],
    and none is listed twice, be it under one parent or under two. *)
Definition valid_level_pair (data : gmap string (gmap string (list string)))
    (pc : string * string) : Prop :=
  match data !! pc.1, data !! pc.2 with
  | Some nodes, Some next =>
      NoDup (all_children nodes) /\
      Forall (fun c => is_Some (next !! c)) (all_children nodes)
  | _, _ => False
  end.

#[global] Instance valid_level_pair_dec data pc :
  Decision (valid_level_pair data pc).
Proof.
  unfold valid_level_pair.
  destruct (data !! pc.1); [destruct (data !! pc.2)|]; apply _.
Defined.

(** What [validate_taxonomy_tree] (missing from the sources) ensures of
    a tree, as far as the classifier relies on it. The data model of the
    spec: "Every internal node's children are exactly the nodes at the
    next level whose ancestor chain includes it"; "hierarchy is non-empty
    and each level is a non-empty mapping from node name to
    (children | leaf rows)". So the level names are distinct and each has
    its dict, the children of a node are nodes of the next level, and no
    node is the child of two parents. *)
Definition valid_taxonomy_tree (t : TaxonomyTree) : Prop :=
  NoDup (hierarchy t) /\
  Forall (fun level => is_Some (_data t !! level)) (hierarchy t) /\
  Forall (valid_level_pair (_data t)) (level_pairs (hierarchy t)).

#[global] Instance valid_taxonomy_tree_dec t :
  Decision (valid_taxonomy_tree t).
Proof. unfold valid_taxonomy_tree; apply _. Defined.

End Taxonomy.

(** ** type_assignment/matching.py *)

Module Matching.
Import Taxonomy.

(** The datasets [reference] and [query] of one group of the marker
    cache file. *)
Record marker_group : Type := {
  reference : list nat;
  query : list nat
}.

(** [f"{parent_node[0]}/{parent_node[1]}"], or ['None'] for the root *)
Definition parent_grp (parent_node : option (string * string)) : string :=
  match parent_node with
  | None => "None"
  | Some (level, node) => level +:+ "/" +:+ node
  end.

(** [a[idx]] for an index array [idx] *)
Definition take_indices (a : array1) (idx : list nat) : res array1 :=
  res_mapM (fun j => or_raise IndexError (a !! j)) idx.

(** The loop filling [leaf_to_type]: every leaf below a child is mapped
    to that child. *)
Fixpoint fill_leaf_to_type (t : TaxonomyTree) (child_level : string)
    (immediate_children : list string) (leaf_to_type : gmap string string)
  : res (gmap string string) :=
  match immediate_children with
  | [] => Ok leaf_to_type
  | child :: rest =>
      leaves ← as_leaves t child_level child;
      fill_leaf_to_type t child_level rest
        (foldl (fun d leaf => <[leaf := child]> d) leaf_to_type leaves)
  end.

(** The loop over the sorted leaves: the type and the reference row of
    each. *)
Fixpoint reference_rows (leaf_to_type : gmap string string)
    (mean_profile_lookup : gmap string array1) (reference_markers : list nat)
    (leaves : list string) : res (list (string * array1)) :=
  match leaves with
  | [] => Ok []
  | child :: rest =>
      type ← or_raise KeyError (leaf_to_type !! child);
      this_mu ← or_raise KeyError (mean_profile_lookup !! child);
      row ← take_indices this_mu reference_markers;
      others ← reference_rows leaf_to_type mean_profile_lookup
                              reference_markers rest;
      Ok ((type, row) :: others)
  end.

(** What [assemble_query_data] returns. *)
Record query_data : Type := {
  query_data_ : array2;
  reference_data : array2;
  reference_types : list string
}.

(** [assemble_query_data] *)
Definition assemble_query_data (full_query_data : array2)
    (mean_profile_lookup : gmap string array1) (taxonomy_tree : TaxonomyTree)
    (marker_cache : gmap string marker_group)
    (parent_node : option (string * string)) : res query_data :=
  let hierarchy := hierarchy taxonomy_tree in
  '(immediate_children, child_level) ←
     match parent_node with
     | None =>
         level0 ← or_raise IndexError (hierarchy !! O);
         nodes ← or_raise KeyError (_data taxonomy_tree !! level0);
         Ok (keys nodes, level0)
     | Some (level, node) =>
         nodes ← or_raise KeyError (_data taxonomy_tree !! level);
         value ← or_raise KeyError (nodes !! node);
         idx ← or_raise KeyError (level_to_idx hierarchy !! level);
         child_level ← or_raise IndexError (hierarchy !! S idx);
         Ok (value, child_level)
     end;
  let immediate_children := sort_names immediate_children in
  leaf_to_type ← fill_leaf_to_type taxonomy_tree child_level
                                   immediate_children ∅;
  grp ← or_raise KeyError (marker_cache !! parent_grp parent_node);
  query_data ← res_mapM (fun row => take_indices row (query grp))
                        full_query_data;
  let children := sort_names (keys leaf_to_type) in
  rows ← reference_rows leaf_to_type mean_profile_lookup (reference grp)
                        children;
  Ok {| query_data_ := query_data;
        reference_data := rows.*2;
        reference_types := rows.*1 |}.

End Matching.

(** ** type_assignment/election.py: the walk down the taxonomy *)

Module Assignment.
Import Taxonomy Matching Election.

(** The dict stored under a level in the result of one cell. *)
Record assignment_record : Type := {
  assignment : string;
  bootstrapping_probability : option Q;
  avg_correlation : option Q
}.

(** The result of one cell: level to [None] or to its record. *)
Abbreviation cell_result := (gmap string (option assignment_record)).

(** [previously_assigned]: level, then node, to the rows of
    [full_query_gene_data] assigned to that node. *)
Abbreviation assigned_rows := (gmap string (gmap string (list nat))).

Section WithCollaborators.
Context `{Collaborators}.

(** [full_query_gene_data.downsample_cells(selected_cells=chosen_idx)]:
    the rows of the chosen cells. *)
Definition downsample_cells (full_query_gene_data : array2)
    (chosen_idx : list nat) : res array2 :=
  res_mapM (fun i => or_raise IndexError (full_query_gene_data !! i))
           chosen_idx.

(** [_run_type_assignment]: [assemble_query_data], then [choose_node].
    The matrix of leaf means is the lookup from leaf to mean profile. *)
Definition _run_type_assignment (full_query_gene_data : array2)
    (leaf_node_matrix : gmap string array1)
    (marker_gene_cache : gmap string marker_group)
    (taxonomy_tree : TaxonomyTree) (parent_node : option (string * string))
    (bootstrap_factor : Q) (bootstrap_iteration : nat) (rng : rng_state)
  : res (list choice * rng_state) :=
  query_data ← assemble_query_data full_query_gene_data leaf_node_matrix
                                   taxonomy_tree marker_gene_cache
                                   parent_node;
  choose_node (query_data_ query_data) (reference_data query_data)
              (reference_types query_data)
              bootstrap_factor bootstrap_iteration rng.

(** [chosen_idx[assignment_idx == idx]]: the rows whose cell was
    assigned [celltype]. *)
Definition rows_assigned (chosen_idx : list nat) (assignment : list string)
    (celltype : string) : list nat :=
  (filter (fun ia : nat * string => ia.2 = celltype)
          (zip chosen_idx assignment)).*1.

(** The loop over [idx_to_type], the distinct types of [assignment]:
    [previously_assigned[child_level][celltype] = assigned_this]. *)
Definition record_partition (child_level : string) (chosen_idx : list nat)
    (assignment : list string) (previously_assigned : assigned_rows)
  : assigned_rows :=
  foldl (fun pa celltype =>
           alter (insert celltype
                         (rows_assigned chosen_idx assignment celltype))
                 child_level pa)
        previously_assigned (remove_dups assignment).

(** The dict [{'assignment': ..., 'bootstrapping_probability': ...,
    'avg_correlation': ...}] of one cell. *)
Definition record_of (c : choice) : assignment_record :=
  {| assignment := Election.result c;
     bootstrapping_probability := vote_fraction c;
     avg_correlation := Election.avg_corr c |}.

(** The loop over [zip(chosen_idx, assignment, bootstrapping_probability,
    avg_corr)]: [result[i_cell][child_level] = {...}]. *)
Definition record_results (child_level : string) (chosen_idx : list nat)
    (choices : list choice) (result : list cell_result) : list cell_result :=
  foldl (fun result ic =>
           alter (insert child_level (Some (record_of ic.2))) ic.1 result)
        result (zip chosen_idx choices).

(** [chosen_idx], the query cells assigned to the current parent: all
    cells for the root, else
    [previously_assigned[parent_level][parent_node[1]]], or none when
    the node is not a key. A missing level is a [KeyError]. *)
Definition chosen_idx_of (n_cells : nat) (previously_assigned : assigned_rows)
    (parent_node : option (string * string)) : option (list nat) :=
  match parent_node with
  | None => Some (seq 0 n_cells)
  | Some (parent_level, node) =>
      assigned ← previously_assigned !! parent_level;
      Some (default [] (assigned !! node))
  end.

(** The state of the loops of [run_type_assignment]. *)
Record walk_state : Type := {
  previously_assigned : assigned_rows;
  results : list cell_result;
  rng : rng_state
}.

(** The body of [for parent_node in parent_node_list]. *)
Definition assign_parent (full_query_gene_data : array2)
    (leaf_node_matrix : gmap string array1)
    (marker_gene_cache : gmap string marker_group)
    (taxonomy_tree : TaxonomyTree)
    (bootstrap_factor : Q) (bootstrap_iteration : nat)
    (child_level : string) (parent_node : option (string * string))
    (st : walk_state) : res walk_state :=
  chosen_idx ←
    or_raise KeyError
      (chosen_idx_of (length full_query_gene_data) (previously_assigned st)
                     parent_node);
  match chosen_idx with
  | [] => Ok st
  | _ :: _ =>
      chosen_query_data ← downsample_cells full_query_gene_data chosen_idx;
      possible_children ← children taxonomy_tree parent_node;
      '(choices, rng) ←
        match possible_children with
        | [] => Raise RuntimeError
        | [only_child] =>
            Ok (replicate (length chosen_query_data)
                  {| Election.result := only_child;
                     vote_fraction := Some 1;
                     Election.avg_corr := Some 1 |},
                rng st)
        | _ :: _ :: _ =>
            _run_type_assignment chosen_query_data leaf_node_matrix
                                 marker_gene_cache taxonomy_tree parent_node
                                 bootstrap_factor bootstrap_iteration (rng st)
        end;
      Ok {| previously_assigned :=
              record_partition child_level chosen_idx
                               (Election.result <$> choices)
                               (previously_assigned st);
            results := record_results child_level chosen_idx choices
                                      (results st);
            rng := rng |}
  end.

(** A loop in the error monad: [for x in l: st = body(x, st)]. *)
Fixpoint for_each {A S} (body : A -> S -> res S) (l : list A) (st : S)
  : res S :=
  match l with
  | [] => Ok st
  | x :: l' => st' ← body x st; for_each body l' st'
  end.

(** The body of [for parent_level, child_level in zip(...)]. *)
Definition assign_level (full_query_gene_data : array2)
    (leaf_node_matrix : gmap string array1)
    (marker_gene_cache : gmap string marker_group)
    (taxonomy_tree : TaxonomyTree)
    (bootstrap_factor : Q) (bootstrap_iteration : nat)
    (levels : option string * string) (st : walk_state) : res walk_state :=
  let '(parent_level, child_level) := levels in
  parent_node_list ←
    match parent_level with
    | None => Ok [None]
    | Some parent_level =>
        k_list ← nodes_at_level taxonomy_tree parent_level;
        Ok ((fun k => Some (parent_level, k)) <$> sort_names k_list)
    end;
  for_each (assign_parent full_query_gene_data leaf_node_matrix
                          marker_gene_cache taxonomy_tree
                          bootstrap_factor bootstrap_iteration child_level)
           parent_node_list
           {| previously_assigned :=
                <[child_level := ∅]> (previously_assigned st);
              results := results st;
              rng := rng st |}.

(** [run_type_assignment]: one result per cell of
    [full_query_gene_data], and the generator afterwards. *)
Definition run_type_assignment (full_query_gene_data : array2)
    (leaf_node_matrix : gmap string array1)
    (marker_gene_cache : gmap string marker_group)
    (taxonomy_tree : TaxonomyTree)
    (bootstrap_factor : Q) (bootstrap_iteration : nat) (rng0 : rng_state)
  : res (list cell_result * rng_state) :=
  let hierarchy := hierarchy taxonomy_tree in
  let result :=
    replicate (length full_query_gene_data)
              (foldl (fun d level => <[level := None]> d)
                     (∅ : cell_result) hierarchy) in
  let level_list := None :: (Some <$> hierarchy) in
  st ← for_each (assign_level full_query_gene_data leaf_node_matrix
                              marker_gene_cache taxonomy_tree
                              bootstrap_factor bootstrap_iteration)
                (zip level_list hierarchy)
                {| previously_assigned := ∅; results := result; rng := rng0 |};
  Ok (results st, rng st).

End WithCollaborators.

End Assignment.

(** ** utils/utils.py *)

Module Utils.

(** [np.unique(index_list)]: the distinct values, ascending. The
    list is an array of [int64]. *)
Definition np_unique (index_list : list Z) : list Z :=
  merge_sort Z.le (remove_dups index_list).

(** [np.diff(a)]: the differences [a[i+1] - a[i]], each an [int64]
    again, wrapped around. *)
Definition np_diff (a : list Z) : list Z :=
  zip_with (fun x y => dtype_wrap int64 (y - x)) a (drop 1 a).

(** [np.where(diff_list > 1)[0]]: the indices of the entries above 1,
    counted from [i] for the first entry. *)
Fixpoint np_where_gt1 (i : nat) (diff_list : list Z) : list nat :=
  match diff_list with
  | [] => []
  | d :: rest =>
      if decide (1 < d)%Z then i :: np_where_gt1 (S i) rest
      else np_where_gt1 (S i) rest
  end.

(** The loop [for max_dex in breaks]: the ranges appended to [result],
    and [min_dex] afterwards. [index_list[max_dex]+1] is an [int64]
    and wraps around. *)
Fixpoint merge_loop (index_list : list Z) (breaks : list nat)
    (min_dex : nat) (result : list (Z * Z)) : res (list (Z * Z) * nat) :=
  match breaks with
  | [] => Ok (result, min_dex)
  | max_dex :: breaks' =>
      lo ← or_raise IndexError (index_list !! min_dex);
      hi ← or_raise IndexError (index_list !! max_dex);
      merge_loop index_list breaks' (S max_dex)
                 (result ++ [(lo, dtype_wrap int64 (hi + 1))])
  end.

(** [merge_index_list] *)
Definition merge_index_list (index_list : list Z) : res (list (Z * Z)) :=
  let index_list := np_unique index_list in
  let diff_list := np_diff index_list in
  let breaks := np_where_gt1 0 diff_list in
  '(result, min_dex) ← merge_loop index_list breaks 0 [];
  lo ← or_raise IndexError (index_list !! min_dex);
  hi ← or_raise IndexError (last index_list);
  Ok (result ++ [(lo, dtype_wrap int64 (hi + 1))]).

End Utils.

(** ** taxonomy/taxonomy_tree.py: the other methods *)

Module TaxonomyMethods.
Import Taxonomy.

(** [TaxonomyTree.leaf_level]: [hierarchy[-1]] *)
Definition leaf_level (t : TaxonomyTree) : res string :=
  or_raise IndexError (last (hierarchy t)).

(** [TaxonomyTree.leaf_to_rows] *)
Definition leaf_to_rows (t : TaxonomyTree) : res (gmap string (list string)) :=
  level ← leaf_level t;
  or_raise KeyError (_data t !! level).

(** [TaxonomyTree.all_leaves] *)
Definition all_leaves (t : TaxonomyTree) : res (list string) :=
  nodes ← leaf_to_rows t;
  Ok (keys nodes).

(** [l[:-1]] *)
Definition but_last {A} (l : list A) : list A := take (length l - 1) l.

(** [TaxonomyTree.all_parents]: the root, then the nodes of every level
    but the last. Within a level the nodes come in the order of [keys],
    which need not be the order of the Python dict. *)
Definition all_parents (t : TaxonomyTree)
  : res (list (option (string * string))) :=
  per_level ←
    res_mapM (fun level =>
                nodes ← or_raise KeyError (_data t !! level);
                Ok ((fun node => Some (level, node)) <$> keys nodes))
             (but_last (hierarchy t));
  Ok (None :: mjoin per_level).

(** [TaxonomyTree.rows_for_leaf] *)
Definition rows_for_leaf (t : TaxonomyTree) (leaf_node : string)
  : res (list string) :=
  level ← leaf_level t;
  nodes ← or_raise KeyError (_data t !! level);
  or_raise RuntimeError (nodes !! leaf_node).

End TaxonomyMethods.

(** ** type_assignment/marker_cache_v2.py *)

Module MarkerCache.
Import Taxonomy Matching Assignment.

(** The marker cache file: its five datasets and, by their path, the
    groups of the parents, each with its datasets [reference] and
    [query]. How h5py resolves a path whose level or node contains a
    ['/'] is not modelled, nor is the [ValueError] of [create_group] on
    a name that the file already has: of the file only what a run that
    returns has written is stated. *)
Record marker_cache_file : Type := {
  parent_node_list : list (option (string * string));
  all_query_markers : list nat;
  all_reference_markers : list nat;
  query_gene_names : list string;
  reference_gene_names : list string;
  groups : gmap string marker_group
}.

(** [{n: ii for ii, n in enumerate(names)}] *)
Definition name_to_int (names : list string) : gmap string nat :=
  level_to_idx names.

(** [np.sort(np.array(list(s)))] for a set [s] *)
Definition np_sort_set (s : gset nat) : list nat := merge_sort le (elements s).

(** The body of the first loop for one gene: its two indices are added
    to [query_genes] and [reference_genes]. *)
Definition add_gene (query_name_to_int reference_name_to_int : gmap string nat)
    (gene : string) (acc : gset nat * gset nat) : res (gset nat * gset nat) :=
  qi ← or_raise KeyError (query_name_to_int !! gene);
  ri ← or_raise KeyError (reference_name_to_int !! gene);
  Ok ({[qi]} ∪ acc.1, {[ri]} ∪ acc.2).

(** The body of the second loop for one parent: [created_groups] and
    the groups of the file afterwards. *)
Definition write_group (query_name_to_int reference_name_to_int : gmap string nat)
    (entry : option (string * string) * list string)
    (st : gset string * gmap string marker_group)
  : res (gset string * gmap string marker_group) :=
  let parent_grp := parent_grp entry.1 in
  if decide (parent_grp ∈ st.1) then Raise RuntimeError
  else
    idx ← res_mapM (fun gene =>
                      ri ← or_raise KeyError (reference_name_to_int !! gene);
                      qi ← or_raise KeyError (query_name_to_int !! gene);
                      Ok (ri, qi))
                   entry.2;
    Ok ({[parent_grp]} ∪ st.1,
        <[parent_grp := {| reference := idx.*1; query := idx.*2 |}]> st.2).

(** [create_marker_cache_from_reference_markers], from the point where
    it holds [marker_lookup], the dict of [select_all_markers] from a
    parent to the names of its marker genes, and [reference_gene_names],
    read from the input file; neither [select_all_markers] nor the
    input file is part of the sources. The dict is the list of its
    items. The result is the file written when no exception is
    raised. *)
Definition create_marker_cache_from_reference_markers
    (marker_lookup : list (option (string * string) * list string))
    (query_gene_names reference_gene_names : list string)
  : res marker_cache_file :=
  let parent_node_list := marker_lookup.*1 in
  let query_name_to_int := name_to_int query_gene_names in
  let reference_name_to_int := name_to_int reference_gene_names in
  '(query_genes, reference_genes) ←
    for_each (fun entry : option (string * string) * list string =>
                for_each (add_gene query_name_to_int reference_name_to_int)
                         entry.2)
             marker_lookup (∅, ∅);
  let query_genes := np_sort_set query_genes in
  let reference_genes := np_sort_set reference_genes in
  '(_, groups) ←
    for_each (write_group query_name_to_int reference_name_to_int)
             marker_lookup (∅, ∅);
  Ok {| parent_node_list := parent_node_list;
        all_query_markers := query_genes;
        all_reference_markers := reference_genes;
        query_gene_names := query_gene_names;
        reference_gene_names := reference_gene_names;
        groups := groups |}.

End MarkerCache.

(** ** type_assignment/election.py: the worker of a chunk of cells *)

Module Worker.
Import Taxonomy Matching Election Assignment AnnDataIterator.

(** A value in the dict of one cell once the worker is through: under a
    level its record or [None], under ['cell_id'] the name of the
    cell. *)
Inductive result_value : Type :=
  | LevelValue (r : option assignment_record)
  | CellId (name : string).

Abbreviation named_result := (gmap string result_value).

(** [for idx in range(len(assignment)):
       assignment[idx]['cell_id'] = query_cell_names[idx]] *)
Definition set_cell_ids (assignment : list cell_result)
    (query_cell_names : list string) : res (list named_result) :=
  res_mapM (fun ir : nat * cell_result =>
              name ← or_raise IndexError (query_cell_names !! ir.1);
              Ok (<["cell_id" := CellId name]> (LevelValue <$> ir.2)))
           (imap pair assignment).

(** What the worker leaves behind: the file [{r0}_{r1}_assignment.json]
    of the directory [results_output_path], or the shared list with its
    results appended. *)
Inductive worker_output : Type :=
  | Saved (results_output_path : string) (r0 r1 : nat)
          (result : list named_result)
  | Appended (output_list : list named_result).

(** An exception that the classifier itself never raises. *)
Inductive zero_division : Set := ZeroDivisionError.

(** [max_chunk_size = max(1, np.ceil(n_rows/n_processors).astype(int))]
    and [chunk_size = min(max_chunk_size, chunk_size)] of
    [run_type_assignment_on_h5ad_cpu]. *)
Definition chunk_size_of (n_rows : nat) (n_processors chunk_size : Z)
  : zero_division + Z :=
  if decide (n_processors = 0)%Z then inl ZeroDivisionError
  else
    let max_chunk_size :=
      Z.max 1 (Qceiling (inject_Z (Z.of_nat n_rows) / inject_Z n_processors))
    in
    inr (Z.min max_chunk_size chunk_size).

(** [name_chunk = query_cell_names[r0:r1]] for a chunk of the iterator:
    the names that [run_type_assignment_on_h5ad_cpu] hands to the worker
    of the chunk. *)
Definition name_chunk (query_cell_names : list string)
    (chunk : array2 * nat * nat) : list string :=
  slice query_cell_names chunk.1.2 chunk.2.

Section WithCollaborators.
Context `{Collaborators}.

(** [_run_type_assignment_on_h5ad_worker]; [results_output_path] counts
    as given when it is neither [None] nor the empty string. *)
Definition _run_type_assignment_on_h5ad_worker (r0 r1 : nat)
    (query_cell_chunk : array2) (query_cell_names : list string)
    (leaf_node_matrix : gmap string array1)
    (marker_gene_cache : gmap string marker_group)
    (taxonomy_tree : TaxonomyTree)
    (bootstrap_factor : Q) (bootstrap_iteration : nat) (rng : rng_state)
    (output_list : list named_result) (results_output_path : option string)
  : res worker_output :=
  '(assignment, _) ←
    run_type_assignment query_cell_chunk leaf_node_matrix marker_gene_cache
                        taxonomy_tree bootstrap_factor bootstrap_iteration
                        rng;
  assignment ← set_cell_ids assignment query_cell_names;
  match results_output_path with
  | Some path =>
      if decide (path = "") then Ok (Appended (output_list ++ assignment))
      else Ok (Saved path r0 r1 assignment)
  | None => Ok (Appended (output_list ++ assignment))
  end.

End WithCollaborators.

End Worker.

(** ** diff_exp/precompute.py *)

Module Precompute.
Import AnnDataIterator Assignment Worker.

(** A dict from the name of a cluster: the list of its items in the
    order of insertion, each key once. *)
Abbreviation dict V := (list (string * V)).

(** [d[k]] *)
Fixpoint dict_get {V} (d : dict V) (k : string) : option V :=
  match d with
  | [] => None
  | (k', v) :: d' => if decide (k' = k) then Some v else dict_get d' k
  end.

(** [d[k] = v]: the value of a key already there is replaced where it
    stands, a new key comes last. *)
Fixpoint dict_set {V} (d : dict V) (k : string) (v : V) : dict V :=
  match d with
  | [] => [(k, v)]
  | (k', v') :: d' =>
      if decide (k' = k) then (k, v) :: d' else (k', v') :: dict_set d' k v
  end.

(** The position that [l[j]] reads for a Python integer [j]: a negative
    index counts from the end. *)
Definition py_position {A} (l : list A) (j : Z) : option nat :=
  let k := if decide (j < 0)%Z then (j + Z.of_nat (length l))%Z else j in
  if decide (0 <= k < Z.of_nat (length l))%Z then Some (Z.to_nat k) else None.

(** [n_per = np.ceil(len(cluster_to_input_row)/n_processors).astype(int)] *)
Definition n_per_of (n_clusters : nat) (n_processors : Z)
  : zero_division + Z :=
  if decide (n_processors = 0)%Z then inl ZeroDivisionError
  else inr (Qceiling (inject_Z (Z.of_nat n_clusters) / inject_Z n_processors)).

(** The loop [for ii, cluster in enumerate(cluster_to_input_row.keys())],
    from [ii] on: [worker_division[ii // n_per][cluster] = this]. The
    quotient of numpy by 0 is 0, as that of [Z]. *)
Fixpoint divide_loop (n_per : Z) (items : dict (list nat)) (ii : nat)
    (worker_division : list (dict (list nat))) : res (list (dict (list nat))) :=
  match items with
  | [] => Ok worker_division
  | (cluster, this) :: rest =>
      let jj := (Z.of_nat ii / n_per)%Z in
      pos ← or_raise IndexError (py_position worker_division jj);
      divide_loop n_per rest (S ii)
        (alter (fun d => dict_set d cluster this) pos worker_division)
  end.

(** [precompute_summary_stats], lines 101 to 111: the clusters are
    divided among [n_processors] dicts, one for each worker. *)
Definition divide_clusters (cluster_to_input_row : dict (list nat))
    (n_processors : Z) : zero_division + res (list (dict (list nat))) :=
  let worker_division := replicate (Z.to_nat n_processors) [] in
  match n_per_of (length cluster_to_input_row) n_processors with
  | inl e => inl e
  | inr n_per =>
      inr (divide_loop n_per cluster_to_input_row 0 worker_division)
  end.

Section SummaryStats.

(** What the sources do not contain: the summary statistics of a chunk
    of cells ([summary_stats_for_chunk] of utils/stats_utils.py), and
    [_load_disjoint_csr] of utils/sparse_utils.py with the
    [scipy_sparse.csr_array] made of what it returns, here the matrix
    of the rows asked for. *)
Context {stats : Type}.
Variable load_disjoint_csr : list nat -> res array2.
Variable summary_stats_for_chunk : array2 -> stats.

(** The inner [while] of [_summary_stats_worker]: clusters are taken
    from [todo], which is [cluster_list[i_cluster:]], until
    [rows_at_a_time] rows are gathered. *)
Fixpoint gather_rows (rows_at_a_time : Z)
    (cluster_to_input_row : dict (list nat)) (todo : list string)
    (i_cluster : nat) (these_rows : list nat)
    (sub_row_mapping : dict (nat * nat))
  : res (nat * list nat * dict (nat * nat)) :=
  match todo with
  | [] => Ok (i_cluster, these_rows, sub_row_mapping)
  | cluster :: todo' =>
      if decide (Z.of_nat (length these_rows) < rows_at_a_time)%Z then
        rows ← or_raise KeyError (dict_get cluster_to_input_row cluster);
        let i0 := length these_rows in
        let these_rows := these_rows ++ rows in
        let i1 := length these_rows in
        gather_rows rows_at_a_time cluster_to_input_row todo' (S i_cluster)
                    these_rows (dict_set sub_row_mapping cluster (i0, i1))
      else Ok (i_cluster, these_rows, sub_row_mapping)
  end.

(** The loop [for cluster in sub_row_mapping]. *)
Definition chunk_stats (cluster_to_output_row : gmap string nat)
    (parent_csr : array2) (sub_row_mapping : dict (nat * nat))
    (results : gmap nat stats) : res (gmap nat stats) :=
  for_each (fun (entry : string * (nat * nat)) (results : gmap nat stats) =>
              let csr := slice parent_csr entry.2.1 entry.2.2 in
              let summary_stats := summary_stats_for_chunk csr in
              output_idx ← or_raise KeyError
                             (cluster_to_output_row !! entry.1);
              Ok (<[output_idx := summary_stats]> results))
           sub_row_mapping results.

(** The loop [while keep_going], at most [fuel] times round; [None]
    when it is not through by then. *)
Fixpoint worker_loop (fuel : nat) (rows_at_a_time : Z)
    (cluster_to_input_row : dict (list nat))
    (cluster_to_output_row : gmap string nat)
    (i_cluster : nat) (results : gmap nat stats)
  : option (res (gmap nat stats)) :=
  match fuel with
  | O => None
  | S fuel' =>
      let cluster_list := cluster_to_input_row.*1 in
      match gather_rows rows_at_a_time cluster_to_input_row
                        (drop i_cluster cluster_list) i_cluster [] [] with
      | Raise e => Some (Raise e)
      | Ok (i_cluster, these_rows, sub_row_mapping) =>
          match load_disjoint_csr these_rows with
          | Raise e => Some (Raise e)
          | Ok parent_csr =>
              match chunk_stats cluster_to_output_row parent_csr
                                sub_row_mapping results with
              | Raise e => Some (Raise e)
              | Ok results =>
                  if decide (length cluster_list <= i_cluster)%nat
                  then Some (Ok results)
                  else worker_loop fuel' rows_at_a_time cluster_to_input_row
                                   cluster_to_output_row i_cluster results
              end
          end
      end
  end.

(** [_summary_stats_worker]: the dict [results] that it writes to the
    output file, row by row, once the loop is through. *)
Definition _summary_stats_worker (fuel : nat)
    (cluster_to_input_row : dict (list nat))
    (cluster_to_output_row : gmap string nat) (rows_at_a_time : Z)
  : option (res (gmap nat stats)) :=
  worker_loop fuel rows_at_a_time cluster_to_input_row cluster_to_output_row
              0 ∅.

End SummaryStats.

End Precompute.

(** ** diff_exp/precompute_from_anndata.py *)

Module PrecomputeFromAnndata.
Import AnnDataIterator Assignment Precompute.

(** [anndata_row_to_output_row[these_rows] = output_idx] with
    [these_rows = np.array(rows)]: a row past the end of the array is
    an [IndexError]; so is an empty list of rows, of which [np.array]
    makes an array of floats, and numpy takes no floats as indices. *)
Definition set_rows (these_rows : list nat) (output_idx : nat)
    (arr : list nat) : res (list nat) :=
  match these_rows with
  | [] => Raise IndexError
  | _ :: _ =>
      if decide (Forall (fun r => r < length arr)%nat these_rows)
      then Ok (foldl (fun arr r => <[r := output_idx]> arr) arr these_rows)
      else Raise IndexError
  end.

(** The array [anndata_row_to_output_row], from the rows of the
    [h5ad] file to the rows of the output: zeros, then the loop
    [for cluster in cluster_to_input_row]. The dict
    [cluster_to_output_row] is [{c: ii for ii, c in
    enumerate(cluster_list)}]. *)
Definition anndata_row_to_output_row
    (cluster_to_input_row : dict (list nat)) (n_cells : nat)
  : res (list nat) :=
  let cluster_list := cluster_to_input_row.*1 in
  let cluster_to_output_row := Taxonomy.level_to_idx cluster_list in
  for_each (fun (cluster : string) (arr : list nat) =>
              these_rows ← or_raise KeyError
                             (dict_get cluster_to_input_row cluster);
              output_idx ← or_raise KeyError
                             (cluster_to_output_row !! cluster);
              set_rows these_rows output_idx arr)
           cluster_list (replicate n_cells 0%nat).

(** [np.unique(cluster_chunk)]: the distinct values, ascending *)
Definition np_unique (cluster_chunk : list nat) : list nat :=
  merge_sort le (remove_dups cluster_chunk).

(** [np.where(cluster_chunk == unq_cluster)[0]], the positions counted
    from [i]; they ascend, so that [np.sort] leaves them as they are. *)
Fixpoint np_where_eq (i : nat) (cluster_chunk : list nat)
    (unq_cluster : nat) : list nat :=
  match cluster_chunk with
  | [] => []
  | c :: rest =>
      if decide (c = unq_cluster)
      then i :: np_where_eq (S i) rest unq_cluster
      else np_where_eq (S i) rest unq_cluster
  end.

Section SummaryStats.

(** What the sources do not contain: the conversion of a
    [CellByGeneMatrix] to log2CPM (cell_by_gene/cell_by_gene.py) and
    the summary statistics of a chunk of cells
    ([summary_stats_for_chunk] of utils/stats_utils.py). The five
    arrays of [buffer_dict] are held as one list, with an entry for
    every cluster: [zero] is what [np.zeros] gives a cluster and [add]
    is the [+=] of the loop over the keys of [summary_chunk]. *)
Context {stats : Type}.
Variable to_log2CPM : array2 -> array2.
Variable summary_stats_for_chunk : array2 -> stats.
Variable zero : stats.
Variable add : stats -> stats -> stats.

(** The statistics of the cells of one cluster in one chunk, converted
    first unless they are log2CPM already. *)
Definition chunk_summary (normalization : string) (this_cluster : array2)
  : stats :=
  summary_stats_for_chunk
    (if decide (normalization = "log2CPM"%string) then this_cluster
     else to_log2CPM this_cluster).

(** The body of [for unq_cluster in np.unique(cluster_chunk)]. *)
Definition accumulate_cluster (normalization : string) (data : array2)
    (cluster_chunk : list nat) (unq_cluster : nat) (buffer : list stats)
  : res (list stats) :=
  let valid := np_where_eq 0 cluster_chunk unq_cluster in
  this_cluster ← res_mapM (fun i => or_raise IndexError (data !! i)) valid;
  let summary_chunk := chunk_summary normalization this_cluster in
  if decide (unq_cluster < length buffer)%nat
  then Ok (alter (fun b => add b summary_chunk) unq_cluster buffer)
  else Raise IndexError.

(** The body of [for chunk in chunk_iterator], for a chunk
    [(data, r0, r1)]. *)
Definition accumulate_chunk (normalization : string) (row_map : list nat)
    (chunk : array2 * nat * nat) (buffer : list stats) : res (list stats) :=
  let cluster_chunk := slice row_map chunk.1.2 chunk.2 in
  for_each (accumulate_cluster normalization chunk.1.1 cluster_chunk)
           (np_unique cluster_chunk) buffer.

(** [precompute_summary_stats_from_h5ad_and_tree]: the buffer that is
    written to the output file. [cluster_to_input_row] is the dict of
    the last level of the taxonomy, [n_cells] the number of rows of
    the matrix and [chunks] what [a_data.chunked_X] yields. *)
Definition precompute_summary_stats_from_h5ad_and_tree
    (cluster_to_input_row : dict (list nat)) (n_cells : nat)
    (chunks : list (array2 * nat * nat)) (normalization : string)
  : res (list stats) :=
  let n_clusters := length cluster_to_input_row.*1 in
  anndata_row_to_output_row ←
    anndata_row_to_output_row cluster_to_input_row n_cells;
  for_each (accumulate_chunk normalization anndata_row_to_output_row)
           chunks (replicate n_clusters zero).

End SummaryStats.

End PrecomputeFromAnndata.

(** ** Properties the theorems are stated with *)

(** The row that [cpm_row] computes when the denominator is not zero. *)
Definition scaled_row (d : Q) (row : array1) : array1 :=
  map (fun x => 1000000 * (x / d)) row.

(** The sum of a row of integers. *)
Definition zsum (row : list Z) : Z := foldr Z.add 0%Z row.

(** [w] is the first index of [row] that holds its maximum. *)
Definition first_max (row : list Z) (w : nat) : Prop :=
  exists v, row !! w = Some v /\
    Forall (fun x => (x <= v)%Z) row /\
    forall j x, (j < w)%nat -> row !! j = Some x -> (x < v)%Z.

(** The dtype [d] holds every integer from [lo] to [hi]: what
    [choose_int_dtype((lo, hi))] is called for. *)
Definition dtype_holds (d : int_dtype) (lo hi : Z) : Prop :=
  (iinfo_min d <= lo)%Z /\ (hi <= iinfo_max d)%Z.

(** What numpy documents of [rng.choice(population, size,
    replace=False)] when it returns: [size] elements of the population,
    no position of which is drawn twice. *)
Definition rng_choice_sound `{Collaborators} : Prop :=
  forall rng population size sample rng',
    rng_choice rng population size = Ok (sample, rng') ->
    Z.of_nat (length sample) = size /\
    sample ⊆ population /\
    (NoDup population -> NoDup sample).

(** The winner as the spec has it: a row with the most votes; among
    those one with the largest summed correlation; among those the one
    whose id comes first. *)
Definition spec_winner (votes_row : list Z) (corr_row : array1)
    (reference_types : list string) (w : nat) : Prop :=
  exists v s t,
    votes_row !! w = Some v /\ corr_row !! w = Some s /\
    reference_types !! w = Some t /\
    forall j v' s' t',
      votes_row !! j = Some v' -> corr_row !! j = Some s' ->
      reference_types !! j = Some t' ->
      (v' < v)%Z \/
      (v' = v /\ (s' < s \/ (s' == s /\ Taxonomy.str_le t t'))).

(** The level of the children of a parent: the first level for the
    root, else the level after the parent's. *)
Definition child_level_of (t : Taxonomy.TaxonomyTree)
    (parent_node : option (string * string)) : option string :=
  match parent_node with
  | None => Taxonomy.hierarchy t !! O
  | Some (level, _) =>
      idx ← Taxonomy.level_to_idx (Taxonomy.hierarchy t) !! level;
      Taxonomy.hierarchy t !! S idx
  end.

(** [leaf] is a leaf below [child], one of the nodes [cs] of the level
    [child_level]. *)
Definition leaf_below (t : Taxonomy.TaxonomyTree) (child_level : string)
    (cs : list string) (leaf child : string) : Prop :=
  child ∈ cs /\
  exists leaves,
    Taxonomy.as_leaves t child_level child = Ok leaves /\ leaf ∈ leaves.

(** The node a cell is assigned at a level, if it has a record there. *)
Definition assigned_at (r : Assignment.cell_result) (level : string)
  : option string :=
  match r !! level with
  | Some (Some rec) => Some (Assignment.assignment rec)
  | _ => None
  end.

(** The walk of one cell down [levels], below [parent]: at every level
    the cell has a record, and the node assigned there is a child of the
    node assigned one level up. *)
Fixpoint walk_ok (t : Taxonomy.TaxonomyTree) (parent : option (string * string))
    (levels : list string) (r : Assignment.cell_result) : Prop :=
  match levels with
  | [] => True
  | level :: rest =>
      exists c cs,
        assigned_at r level = Some c /\
        Taxonomy.children t parent = Ok cs /\ c ∈ cs /\
        walk_ok t (Some (level, c)) rest r
  end.

(** Cell [i] of [rs] is assigned to [parent]; every cell is assigned to
    the root. *)
Definition cell_of_parent (rs : list Assignment.cell_result)
    (parent : option (string * string)) (i : nat) : Prop :=
  match parent with
  | None => (i < length rs)%nat
  | Some (level, node) =>
      exists r, rs !! i = Some r /\ assigned_at r level = Some node
  end.

(** [parent] is a parent of the level [parent_level]; the root is the
    parent of no level. *)
Definition parent_at (parent_level : option string)
    (parent : option (string * string)) : Prop :=
  match parent_level, parent with
  | None, None => True
  | Some level, Some (level', _) => level' = level
  | _, _ => False
  end.

(** [inner], the dict of [previously_assigned] for [level], lists every
    cell of [rs] under the node it is assigned at [level], and nothing
    else. *)
Definition level_listed (rs : list Assignment.cell_result) (level : string)
    (inner : gmap string (list nat)) : Prop :=
  (forall i r, rs !! i = Some r ->
     exists c idxs,
       assigned_at r level = Some c /\ inner !! c = Some idxs /\ i ∈ idxs) /\
  (forall c idxs, inner !! c = Some idxs ->
     NoDup idxs /\
     forall idx, idx ∈ idxs ->
       exists r, rs !! idx = Some r /\ assigned_at r level = Some c).

(** The state of the loop over the parents of one level, once the
    parents [done] are through: the results of the cells of these
    parents are set at [child_level] to a child of their parent, and
    [inner], the dict of [previously_assigned] for [child_level], lists
    exactly these cells, each under its child. [rs0] are the results
    when the loop started. *)
Definition parents_done (t : Taxonomy.TaxonomyTree)
    (rs0 : list Assignment.cell_result) (child_level : string)
    (done : list (option (string * string)))
    (rs : list Assignment.cell_result) (inner : gmap string (list nat))
  : Prop :=
  length rs = length rs0 /\
  (forall i r0, rs0 !! i = Some r0 ->
     exists r, rs !! i = Some r /\
       forall level, level <> child_level -> r !! level = r0 !! level) /\
  (forall parent i, parent ∈ done -> cell_of_parent rs0 parent i ->
     exists r c cs idxs,
       rs !! i = Some r /\ assigned_at r child_level = Some c /\
       Taxonomy.children t parent = Ok cs /\ c ∈ cs /\
       inner !! c = Some idxs /\ i ∈ idxs) /\
  (forall c idxs, inner !! c = Some idxs ->
     NoDup idxs /\
     exists parent cs,
       parent ∈ done /\ Taxonomy.children t parent = Ok cs /\ c ∈ cs /\
       forall idx, idx ∈ idxs ->
         cell_of_parent rs0 parent idx /\
         exists r, rs !! idx = Some r /\ assigned_at r child_level = Some c).

(** The state of [run_type_assignment] once the levels [done] are
    through: every cell has walked down these levels, and the dict of
    [previously_assigned] for the last of them lists every cell under
    the node it is assigned there, a node of that level. *)
Definition levels_done (t : Taxonomy.TaxonomyTree) (n_cells : nat)
    (done : list string) (pa : Assignment.assigned_rows)
    (rs : list Assignment.cell_result) : Prop :=
  length rs = n_cells /\
  (forall i r, rs !! i = Some r -> walk_ok t None done r) /\
  match last done with
  | None => True
  | Some level =>
      exists inner nodes,
        pa !! level = Some inner /\ level_listed rs level inner /\
        Taxonomy._data t !! level = Some nodes /\
        forall i r c, rs !! i = Some r -> assigned_at r level = Some c ->
                      is_Some (nodes !! c)
  end.

(** [parent] and [child_level] are a turn of the loops of
    [run_type_assignment] over [levels]: the root with the first level,
    or a node of a level with the level after it. *)
Definition walk_step (levels : list string)
    (parent : option (string * string)) (child_level : string) : Prop :=
  match parent with
  | None => levels !! O = Some child_level
  | Some (parent_level, _) =>
      (parent_level, child_level) ∈ Taxonomy.level_pairs levels
  end.

Section Votes.
Context `{Collaborators}.
Context (full_query_gene_data : array2)
        (leaf_node_matrix : gmap string array1)
        (marker_gene_cache : gmap string Matching.marker_group)
        (taxonomy_tree : Taxonomy.TaxonomyTree)
        (bootstrap_factor : Q) (bootstrap_iteration : nat).

(** The choices that the body of the loop over the parents obtains for
    the cells [chosen_query_data] of a parent with the children
    [possible_children]: the branch on [len(possible_children)]. *)
Definition parent_vote (parent_node : option (string * string))
    (possible_children : list string) (chosen_query_data : array2)
    (rng : rng_state) : res (list Election.choice * rng_state) :=
  match possible_children with
  | [] => Raise RuntimeError
  | [only_child] =>
      Ok (replicate (length chosen_query_data)
            {| Election.result := only_child;
               Election.vote_fraction := Some 1;
               Election.avg_corr := Some 1 |},
          rng)
  | _ :: _ :: _ =>
      Assignment._run_type_assignment chosen_query_data leaf_node_matrix
        marker_gene_cache taxonomy_tree parent_node
        bootstrap_factor bootstrap_iteration rng
  end.

(** The results [rs] hold a vote for [parent] over the rows [cells] of
    the query data: the data was cut down to these rows, in this order,
    the choices are those of [parent_vote] on this data alone, one per
    row and each a child of [parent], and the result of every row of
    [cells] has the record of its choice at [child_level]. *)
Definition voted (rs : list Assignment.cell_result)
    (parent : option (string * string)) (child_level : string)
    (cells : list nat) : Prop :=
  exists chosen_query_data possible_children choices rng rng',
    Assignment.downsample_cells full_query_gene_data cells
      = Ok chosen_query_data /\
    Taxonomy.children taxonomy_tree parent = Ok possible_children /\
    parent_vote parent possible_children chosen_query_data rng
      = Ok (choices, rng') /\
    length choices = length cells /\
    Forall (fun c => Election.result c ∈ possible_children) choices /\
    forall k j c, cells !! k = Some j -> choices !! k = Some c ->
      exists r, rs !! j = Some r /\
        r !! child_level = Some (Some (Assignment.record_of c)).

(** [parent] had its vote in [rs]: over the cells that [rs0] assigns to
    it, each once, if there is one. *)
Definition parent_voted (rs0 rs : list Assignment.cell_result)
    (parent : option (string * string)) (child_level : string) : Prop :=
  (exists i, cell_of_parent rs0 parent i) ->
  exists cells,
    NoDup cells /\
    (forall j, j ∈ cells <-> cell_of_parent rs0 parent j) /\
    voted rs parent child_level cells.

(** The votes of the loop over the parents of one level, once the
    parents [done] are through. [rs0] are the results when the loop
    started. *)
Definition parents_voted (rs0 : list Assignment.cell_result)
    (child_level : string) (done : list (option (string * string)))
    (rs : list Assignment.cell_result) : Prop :=
  forall parent, parent ∈ done -> parent_voted rs0 rs parent child_level.

(** The votes of [run_type_assignment] once the levels [done] are
    through: one for every parent of these levels that has a cell. *)
Definition levels_voted (done : list string)
    (rs : list Assignment.cell_result) : Prop :=
  forall parent child_level,
    walk_step done parent child_level ->
    parent_voted rs rs parent child_level.

End Votes.

(** [x] lies in the range [r], a pair [(min, max)] used as the slice
    [min:max]. *)
Definition in_range (x : Z) (r : Z * Z) : Prop := (r.1 <= x < r.2)%Z.

(** No range is empty, and each ends before the next starts, with at
    least one integer between them. *)
Fixpoint separated (ranges : list (Z * Z)) : Prop :=
  match ranges with
  | [] => True
  | r :: rest =>
      (r.1 < r.2)%Z /\
      match rest with [] => True | r' :: _ => (r.2 < r'.1)%Z end /\
      separated rest
  end.

(** numpy computes the differences and the [+ 1] of
    [merge_index_list] on [index_list] without wrapping around: every
    integer is an [int64] below the largest, and no two are further
    apart than the largest [int64]. *)
Definition int64_exact (index_list : list Z) : Prop :=
  Forall (fun x => (iinfo_min int64 <= x < iinfo_max int64)%Z) index_list /\
  forall x y, x ∈ index_list -> y ∈ index_list ->
    (y - x <= iinfo_max int64)%Z.

(** The number of integers in the ranges. *)
Definition range_sizes (ranges : list (Z * Z)) : Z :=
  foldr (fun r n => (r.2 - r.1 + n)%Z) 0%Z ranges.

(** The runs of consecutive integers of an ascending list, as ranges:
    [a] is where the current run started, [prev] its last element so
    far, [l] what is left of the list. *)
Fixpoint runs_from (a prev : Z) (l : list Z) : list (Z * Z) :=
  match l with
  | [] => [(a, (prev + 1)%Z)]
  | x :: l' =>
      if decide (1 < x - prev)%Z
      then (a, (prev + 1)%Z) :: runs_from x x l'
      else runs_from a x l'
  end.

(** The datasets of [grp] hold, gene by gene, the positions of [genes]
    in the two lists of names. *)
Definition group_of_genes (query_gene_names reference_gene_names : list string)
    (genes : list string) (grp : Matching.marker_group) : Prop :=
  Forall2 (fun gene qi => query_gene_names !! qi = Some gene)
          genes (Matching.query grp) /\
  Forall2 (fun gene ri => reference_gene_names !! ri = Some gene)
          genes (Matching.reference grp).

(** The same by the dicts from a name to its position. *)
Definition group_by (q2i r2i : gmap string nat)
    (genes : list string) (grp : Matching.marker_group) : Prop :=
  Forall2 (fun gene qi => q2i !! gene = Some qi) genes (Matching.query grp) /\
  Forall2 (fun gene ri => r2i !! gene = Some ri)
          genes (Matching.reference grp).

(** The results a worker has written, to its file or at the end of the
    shared list, which held [output_list] before. *)
Definition written (output_list : list Worker.named_result)
    (out : Worker.worker_output) (result : list Worker.named_result) : Prop :=
  match out with
  | Worker.Saved _ _ _ saved => saved = result
  | Worker.Appended l => l = output_list ++ result
  end.

(** The dicts of the workers when each but the last few gets [q]
    clusters in the order of [items]. *)
Definition division_by (q : nat) (items : Precompute.dict (list nat))
    (n_workers : nat) : list (Precompute.dict (list nat)) :=
  (fun j => AnnDataIterator.slice items (j * q) (j * q + q)) <$> seq 0 n_workers.

(** Where the rows of each cluster of [items] lie in the rows gathered
    for one load, the first of them at [offset]. *)
Fixpoint layout (items : Precompute.dict (list nat)) (offset : nat)
  : Precompute.dict (nat * nat) :=
  match items with
  | [] => []
  | (cluster, rows) :: rest =>
      (cluster, (offset, offset + length rows)%nat)
      :: layout rest (offset + length rows)
  end.

(** The dict [results] once the statistics of the clusters of [items]
    are set, each from the rows of its cluster alone; [row_of] gives
    the row of the matrix at an index. *)
Definition stats_of {stats : Type} (summary_stats_for_chunk : array2 -> stats)
    (row_of : nat -> array1) (cluster_to_output_row : gmap string nat)
    (items : Precompute.dict (list nat)) (results : gmap nat stats)
  : gmap nat stats :=
  foldl (fun (results : gmap nat stats) (cr : string * list nat) =>
           match cluster_to_output_row !! cr.1 with
           | Some output_idx =>
               <[output_idx := summary_stats_for_chunk (row_of <$> cr.2)]>
                 results
           | None => results
           end)
        results items.

(** Every cluster of [items] has a row, and its rows are rows of a
    matrix of [n_cells] cells. *)
Definition clusters_have_rows (n_cells : nat)
    (items : Precompute.dict (list nat)) : Prop :=
  Forall (fun cr : string * list nat =>
            cr.2 <> [] /\ Forall (fun i => i < n_cells)%nat cr.2) items.

(** What [_load_disjoint_csr] is taken to do: asked for at least one
    row, all of them rows of the matrix, it returns these rows in the
    order asked for. *)
Definition loads_rows (load_disjoint_csr : list nat -> res array2)
    (n_cells : nat) (row_of : nat -> array1) : Prop :=
  forall rows, rows <> [] -> Forall (fun i => i < n_cells)%nat rows ->
    load_disjoint_csr rows = Ok (row_of <$> rows).

(** What numpy documents of [rng.choice(population, size,
    replace=False)]: asked for no more elements than the population
    has, it returns. *)
Definition rng_choice_total `{Collaborators} : Prop :=
  forall rng population size,
    (0 <= size <= Z.of_nat (length population))%Z ->
    exists sample rng', rng_choice rng population size = Ok (sample, rng').

(** What [correlation_nearest_neighbors] is taken to do for a baseline
    of at least one row and rows of one length, which is not zero: it
    returns, for every row of the query, the index of a row of the
    baseline and a correlation. *)
Definition nearest_neighbors_total `{Collaborators} : Prop :=
  forall (baseline query : array2) (n : nat),
    baseline <> [] -> (1 <= n)%nat ->
    Forall (fun row => length row = n) baseline ->
    Forall (fun row => length row = n) query ->
    exists nn corr,
      correlation_nearest_neighbors baseline query = Ok (nn, corr) /\
      length nn = length query /\ length corr = length query /\
      Forall (fun j => j < length baseline)%nat nn.

(** What a returned neighbour search of one iteration has: an index
    of a reference row and a correlation for every query row. *)
Definition neighbors_ok (n_query n_reference : nat)
    (nc : list nat * list Q) : Prop :=
  length nc.1 = n_query /\ length nc.2 = n_query /\
  Forall (fun j => j < n_reference)%nat nc.1.

(** Every parent that [all_parents] lists, the root among them, has at
    least one child. *)
Definition no_childless_parent (t : Taxonomy.TaxonomyTree) : Prop :=
  forall ps p cs,
    TaxonomyMethods.all_parents t = Ok ps -> p ∈ ps ->
    Taxonomy.children t p = Ok cs -> cs <> [].

(** The group of a parent reads columns that the query rows have, and
    as many entries of the mean profile of every leaf, all of them
    entries that the profile has. *)
Definition markers_in_range (t : Taxonomy.TaxonomyTree)
    (full_query_data : array2) (mean_profile_lookup : gmap string array1)
    (grp : Matching.marker_group) : Prop :=
  length (Matching.reference grp) = length (Matching.query grp) /\
  Forall (fun row => Forall (fun j => j < length row)%nat (Matching.query grp))
         full_query_data /\
  exists leaves,
    TaxonomyMethods.all_leaves t = Ok leaves /\
    forall leaf, leaf ∈ leaves ->
      exists mu, mean_profile_lookup !! leaf = Some mu /\
                 Forall (fun j => j < length mu)%nat (Matching.reference grp).

(** The marker cache holds a group for every parent with two or more
    children: one that reads columns that the query rows have and
    entries that the mean profile of every leaf has, and of whose
    markers the bootstrap factor draws at least one. *)
Definition cache_ready (t : Taxonomy.TaxonomyTree)
    (full_query_gene_data : array2) (leaf_node_matrix : gmap string array1)
    (marker_gene_cache : gmap string Matching.marker_group)
    (bootstrap_factor : Q) : Prop :=
  forall ps p cs,
    TaxonomyMethods.all_parents t = Ok ps -> p ∈ ps ->
    Taxonomy.children t p = Ok cs -> (2 <= length cs)%nat ->
    exists grp,
      marker_gene_cache !! Matching.parent_grp p = Some grp /\
      markers_in_range t full_query_gene_data leaf_node_matrix grp /\
      (1 # 2) < bootstrap_factor
                * inject_Z (Z.of_nat (length (Matching.query grp))).

(** The rows of the matrix [X] whose cells [row_map] sends to the
    output row [k], in the order of the matrix. *)
Definition cluster_rows (row_map : list nat) (X : array2) (k : nat)
  : array2 :=
  (filter (fun mr : nat * array1 => mr.1 = k) (zip row_map X)).*2.

(** The statistics of two chunks of cells add up to those of the cells
    of both. *)
Definition additive {stats : Type} (add : stats -> stats -> stats)
    (f : array2 -> stats) : Prop :=
  forall a b, a <> [] -> b <> [] -> f (a ++ b) = add (f a) (f b).

(** The statistics [f] of the cells [rows], or [zero] when there is no
    cell. *)
Definition stats_of_rows {stats : Type} (zero : stats)
    (f : array2 -> stats) (rows : array2) : stats :=
  match rows with
  | [] => zero
  | _ :: _ => f rows
  end.

(** The chunks are the rows of [X] between their bounds. *)
Definition chunks_of (X : array2) (chunks : list (array2 * nat * nat))
  : Prop :=
  Forall (fun c : array2 * nat * nat =>
            c.1.1 = AnnDataIterator.slice X c.1.2 c.2) chunks.

(** ** Concrete inputs *)

Module Examples.

(** The matrix [[1, 0], [0, 2], [3, 4]] in CSR form. *)
Definition csr_3x2 : AnnDataIterator.csr_group :=
  {| AnnDataIterator.data := [1; 2; 3; 4];
     AnnDataIterator.indices := [0; 1; 0; 1]%nat;
     AnnDataIterator.indptr := [0; 1; 2; 4]%nat |}.

(** A generator that replays recorded draws; a draw that is not a
    sample of the asked size without replacement is refused. *)
Definition replay_choice (rng : list (list nat)) (population : list nat)
    (size : Z) : res (list nat * list (list nat)) :=
  match rng with
  | sample :: rest =>
      if decide (Z.of_nat (length sample) = size /\
                 sample ⊆ population /\ NoDup sample)
      then Ok (sample, rest) else Raise ValueError
  | [] => Raise ValueError
  end.

Definition mean (x : array1) : Q :=
  np_sum x / inject_Z (Z.of_nat (length x)).

Definition center (x : array1) : array1 := map (fun v => v - mean x) x.

Definition dot (x y : array1) : Q := np_sum (zip_with Qmult x y).

(** The square root of a rational that is a square. *)
Definition sqrt_exact (q : Q) : Q :=
  let r := Qred q in Z.sqrt (Qnum r) # Pos.sqrt (Qden r).

(** Pearson's correlation of two rows, zero when one has no variance. *)
Definition pearson (x y : array1) : Q :=
  let cx := center x in
  let cy := center y in
  let n2 := dot cx cx * dot cy cy in
  if Qeq_bool n2 0 then 0 else dot cx cy / sqrt_exact n2.

(** The first index of the largest entry, and that entry. *)
Fixpoint q_argmax_from (best_i : nat) (best : Q) (i : nat) (l : array1)
  : nat * Q :=
  match l with
  | [] => (best_i, best)
  | x :: l' =>
      if Qlt_le_dec best x then q_argmax_from i x (S i) l'
      else q_argmax_from best_i best (S i) l'
  end.

(** Modelled from the spec: [correlation_nearest_neighbors]
    (utils/distance_utils.py) is missing from the sources. "compute
    Pearson correlation of each query row against each child's mean row
    on the chosen subset; record the argmax child and the max
    correlation"; "rows with zero variance yield a defined-zero
    correlation". The square root is exact on the inputs below, where
    the product of the two sums of squares is the square of a
    rational. *)
Definition pearson_nearest_neighbors (baseline query : array2)
  : res (list nat * list Q) :=
  pairs ← res_mapM (fun q =>
                      match map (pearson q) baseline with
                      | [] => Raise ValueError
                      | c :: cs => Ok (q_argmax_from 0 c 1 cs)
                      end) query;
  Ok (pairs.*1, pairs.*2).

(** [np.uint8], the dtype for a range within [0, 255]. *)
Definition uint8 : int_dtype := {| iinfo_min := 0; iinfo_max := 255 |}.

(** Recorded draws, Pearson's nearest neighbour and votes in
    [np.uint8]. *)
Definition replay : Collaborators :=
  {| rng_state := list (list nat);
     rng_choice := replay_choice;
     correlation_nearest_neighbors := pearson_nearest_neighbors;
     choose_int_dtype := fun _ => uint8 |}.

(** A taxonomy of two classes over three clusters: class "A" has the
    clusters "c1" and "c2", class "B" has the cluster "c3". *)
Definition small_tree : Taxonomy.TaxonomyTree :=
  {| Taxonomy.hierarchy := ["class"; "cluster"]%string;
     Taxonomy._data :=
       {[ "class"%string :=
            {[ "A"%string := ["c1"; "c2"]%string;
               "B"%string := ["c3"]%string ]};
          "cluster"%string :=
            {[ "c1"%string := ["0"]%string; "c2"%string := ["1"]%string;
               "c3"%string := ["2"]%string ]} ]} |}.

(** The mean profiles of the three clusters over two genes. *)
Definition small_means : gmap string array1 :=
  {[ "c1"%string := [1; 2]; "c2"%string := [3; 4]; "c3"%string := [5; 6] ]}.

(** A marker cache whose parents all use both genes. *)
Definition small_cache : gmap string Matching.marker_group :=
  {[ "None"%string :=
       {| Matching.reference := [0; 1]%nat; Matching.query := [0; 1]%nat |};
     "class/A"%string :=
       {| Matching.reference := [0; 1]%nat; Matching.query := [0; 1]%nat |};
     "class/B"%string :=
       {| Matching.reference := [0; 1]%nat; Matching.query := [0; 1]%nat |} ]}.

(** Mean profiles of the three clusters over three genes, and a marker
    cache whose parents all use the three genes. *)
Definition walk_means : gmap string array1 :=
  {[ "c1"%string := [0; 1; 2]; "c2"%string := [2; 1; 0];
     "c3"%string := [1; 0; 2] ]}.

Definition three_markers : Matching.marker_group :=
  {| Matching.reference := [0; 1; 2]%nat; Matching.query := [0; 1; 2]%nat |}.

Definition walk_cache : gmap string Matching.marker_group :=
  {[ "None"%string := three_markers; "class/A"%string := three_markers;
     "class/B"%string := three_markers ]}.

(** Three query cells, the profiles of "c1", "c3" and "c2", and the
    four draws of all three markers that two iterations at the root and
    two at class "A" ask for. *)
Definition walk_query : array2 := [[0; 1; 2]; [1; 0; 2]; [2; 1; 0]].
Definition walk_draws : list (list nat) := replicate 4 [0; 1; 2]%nat.

(** The taxonomy of the repository's test of [assemble_query_data]
    (tests/type_assignment/test_matching.py). *)
Definition tree_fixture : Taxonomy.TaxonomyTree :=
  {| Taxonomy.hierarchy := ["class"; "subclass"; "cluster"]%string;
     Taxonomy._data :=
       {[ "class"%string :=
            {[ "A"%string := ["bb"; "cc"]%string;
               "B"%string := ["aa"; "dd"; "ee"]%string;
               "C"%string := ["ff"]%string ]};
          "subclass"%string :=
            {[ "aa"%string := ["1"; "3"; "4"]%string;
               "bb"%string := ["2"]%string;
               "cc"%string := ["0"; "5"; "6"]%string;
               "dd"%string := ["8"]%string;
               "ee"%string := ["7"; "9"]%string;
               "ff"%string := ["10"; "11"; "12"]%string ]};
          "cluster"%string :=
            {[ "0"%string := ["0"; "1"; "2"]%string;
               "1"%string := ["3"; "5"]%string;
               "2"%string := ["4"; "6"; "7"]%string;
               "3"%string := ["8"; "11"]%string;
               "4"%string := ["9"; "12"]%string;
               "5"%string := ["10"; "13"]%string;
               "6"%string := ["14"]%string;
               "7"%string := ["15"; "16"; "18"]%string;
               "8"%string := ["17"; "20"]%string;
               "9"%string := ["19"; "21"; "22"]%string;
               "10"%string := ["23"; "24"]%string;
               "11"%string := ["25"]%string;
               "12"%string := ["26"; "27"]%string ]} ]} |}.

(** A mean profile over one gene for each of the thirteen clusters:
    cluster [k] has the mean [k]. *)
Definition mean_lookup_fixture : gmap string array1 :=
  list_to_map
    [("0", [0]); ("1", [1]); ("2", [2]); ("3", [3]); ("4", [4]);
     ("5", [5]); ("6", [6]); ("7", [7]); ("8", [8]); ("9", [9]);
     ("10", [10]); ("11", [11]); ("12", [12])]%string.

Definition one_marker : Matching.marker_group :=
  {| Matching.reference := [0]%nat; Matching.query := [0]%nat |}.

Definition marker_fixture : gmap string Matching.marker_group :=
  {[ "None"%string := one_marker; "subclass/cc"%string := one_marker;
     "class/B"%string := one_marker ]}.

(** One query cell and two reference rows over four markers. On the
    markers [0, 1, 2] the cell correlates with the first row by 1/2 and
    with the second by -1/2; on the markers [1, 2, 3] with the first by
    1/2 and with the second by 1. *)
Definition tie_query : array2 := [[0; 1; 2; 3]].
Definition tie_reference : array2 := [[1; 0; 2; 1]; [2; 0; 1; 2]].
Definition tie_types : list string := ["a"; "b"]%string.
Definition tie_draws : list (list nat) := [[0; 1; 2]; [1; 2; 3]]%nat.

Definition small_marker_lookup
  : list (option (string * string) * list string) :=
  [(None, ["g2"; "g0"]);
   (Some ("class", "A"), ["g1"; "g2"])]%string.
Definition small_query_genes : list string := ["g0"; "g1"; "g2"; "g3"]%string.
Definition small_reference_genes : list string :=
  ["g3"; "g2"; "g1"; "g0"]%string.

Definition small_clusters : Precompute.dict (list nat) :=
  [("c1", [0; 3]); ("c2", [1]); ("c3", [2; 4; 5])]%string%nat.

(** The rows of a matrix of six cells and two genes. *)
Definition small_rows (i : nat) : array1 := [inject_Z (Z.of_nat i); 1].

(** A summary statistic: the number of cells of the chunk. *)
Definition count_cells (chunk : array2) : nat := length chunk.

(** Loading rows of the matrix; no rows, or a row past the sixth, is
    an [IndexError]. *)
Definition load_small_rows (rows : list nat) : res array2 :=
  match rows with
  | [] => Raise IndexError
  | _ :: _ =>
      res_mapM (fun i => if decide (i < 6)%nat then Ok (small_rows i)
                         else Raise IndexError) rows
  end.

(** A generator that draws the first elements of the population. *)
Definition first_choice (rng : unit) (population : list nat) (size : Z)
  : res (list nat * unit) :=
  if decide (0 <= size <= Z.of_nat (length population))%Z
  then Ok (take (Z.to_nat size) population, rng)
  else Raise ValueError.

(** The first elements as draws, Pearson's nearest neighbour and votes
    in [np.uint8]. *)
Definition steady : Collaborators :=
  {| rng_state := unit;
     rng_choice := first_choice;
     correlation_nearest_neighbors := pearson_nearest_neighbors;
     choose_int_dtype := fun _ => uint8 |}.

(** The six cells of [small_rows] as a matrix, and two chunks of it. *)
Definition small_matrix : array2 := small_rows <$> seq 0 6.

Definition small_chunks : list (array2 * nat * nat) :=
  [(AnnDataIterator.slice small_matrix 0 4, 0, 4);
   (AnnDataIterator.slice small_matrix 4 6, 4, 6)]%nat.

End Examples.

(** * Theorems *)

(** ** The error monad *)

Lemma res_bind_Ok {A B} (f : A -> res B) (m : res A) (b : B) :
  m ≫= f = Ok b <-> exists a, m = Ok a /\ f a = Ok b.
Proof.
  destruct m as [a|e]; simpl; split.
  - intros Hf; exists a; auto.
  - intros (a' & [= <-] & Hf); exact Hf.
  - discriminate.
  - intros (a' & [=] & _).
Qed.

Lemma or_raise_Ok {A} (e : exn) (x : option A) (a : A) :
  or_raise e x = Ok a <-> x = Some a.
Proof. destruct x; simpl; split; congruence. Qed.

(** Inverts hypotheses of the form [m ≫= f = Ok b]. *)
Ltac inv_res :=
  repeat match goal with
    | H : (_ ≫= _) = Ok _ |- _ =>
        apply res_bind_Ok in H; destruct H as (? & ? & H)
    | H : or_raise _ _ = Ok _ |- _ => apply or_raise_Ok in H
    | H : Ok _ = Ok _ |- _ => injection H as H
    | H : Raise _ = Ok _ |- _ => discriminate H
    | H : mret _ = Ok _ |- _ => injection H as H
    end.

Lemma res_mapM_Ok {A B} (f : A -> res B) (l : list A) (k : list B) :
  res_mapM f l = Ok k <-> Forall2 (fun x y => f x = Ok y) l k.
Proof.
  revert k; induction l as [|x l IH]; intros k; simpl.
  - split.
    + intros [= <-]; constructor.
    + intros Hk; inversion Hk; reflexivity.
  - split.
    + intros Hk. inv_res. subst k. constructor; [assumption|].
      apply IH; assumption.
    + intros Hk. inversion Hk as [|? y ? k' Hy Hk']; subst.
      rewrite Hy; simpl. apply IH in Hk'. rewrite Hk'. reflexivity.
Qed.

Lemma res_mapM_length {A B} (f : A -> res B) (l : list A) (k : list B) :
  res_mapM f l = Ok k -> length k = length l.
Proof.
  intros Hk; apply res_mapM_Ok in Hk.
  symmetry; eapply Forall2_length; eassumption.
Qed.

(** ** CPM conversion *)

Section CpmFacts.
Import CellByGene.

Lemma denom_of_pos (s : Q) : 0 < denom_of s.
Proof. unfold denom_of. destruct (Qlt_le_dec 0 s); [assumption|reflexivity]. Qed.

Lemma denom_of_nonpos (s : Q) : s <= 0 -> denom_of s = 1.
Proof.
  intros Hs. unfold denom_of.
  destruct (Qlt_le_dec 0 s) as [Hp|_]; [|reflexivity].
  exfalso. apply (Qlt_irrefl 0). eapply Qlt_le_trans; eassumption.
Qed.


Lemma np_true_divide_Some (x d : Q) :
  ~ d == 0 -> np_true_divide x d = Some (x / d).
Proof.
  intros Hd. unfold np_true_divide.
  destruct (Qeq_bool d 0) eqn:E; [|reflexivity].
  apply Qeq_bool_eq in E. contradiction.
Qed.

Lemma cpm_row_Some (d : Q) (row : array1) :
  ~ d == 0 -> cpm_row d row = Some (scaled_row d row).
Proof.
  intros Hd. unfold cpm_row, scaled_row.
  apply mapM_Some_2. induction row as [|x row IH]; constructor; [|exact IH].
  rewrite np_true_divide_Some by exact Hd. reflexivity.
Qed.

Lemma np_sum_rows_length (data : ndarray) :
  length (np_sum_rows data) = length (as_float data).
Proof. destruct data; simpl; rewrite !length_map; reflexivity. Qed.

(** What [convert_to_cpm] returns: every row over its denominator. *)
Lemma convert_to_cpm_Some (data : ndarray) :
  convert_to_cpm data
  = Some (zip_with (fun row s => scaled_row (denom_of s) row)
                   (as_float data) (np_sum_rows data)).
Proof.
  unfold convert_to_cpm. apply mapM_Some_2.
  generalize (np_sum_rows data) as sums.
  induction (as_float data) as [|row rows IH]; intros [|s sums]; simpl;
    try constructor; [|apply IH].
  simpl. apply cpm_row_Some.
  intros E. pose proof (denom_of_pos s) as Hp.
  rewrite E in Hp. discriminate Hp.
Qed.


Lemma np_sum_nonneg (row : array1) :
  Forall (fun x => 0 <= x) row -> 0 <= np_sum row.
Proof.
  induction 1 as [|x row Hx _ IH]; simpl; [discriminate|].
  replace 0 with (0 + 0) by reflexivity. apply Qplus_le_compat; assumption.
Qed.

Lemma np_sum_zero_all_zero (row : array1) :
  Forall (fun x => 0 <= x) row -> np_sum row == 0 ->
  Forall (fun x => x == 0) row.
Proof.
  induction 1 as [|x row Hx Hrow IH]; simpl; intros Hs; constructor.
  - pose proof (np_sum_nonneg row Hrow) as Hn.
    apply Qle_antisym; [|exact Hx].
    rewrite <- Hs. rewrite <- (Qplus_0_r x) at 1.
    apply Qplus_le_compat; [apply Qle_refl|exact Hn].
  - apply IH. pose proof (np_sum_nonneg row Hrow) as Hn.
    apply Qle_antisym; [|exact Hn].
    rewrite <- Hs. rewrite <- (Qplus_0_l (np_sum row)) at 1.
    apply Qplus_le_compat; [exact Hx|apply Qle_refl].
Qed.





Lemma int64_wrap_id (v : Z) :
  (iinfo_min int64 <= v <= iinfo_max int64)%Z -> dtype_wrap int64 v = v.
Proof.
  intros Hv. unfold dtype_wrap. simpl in *.
  rewrite Z.mod_small by lia. lia.
Qed.

Lemma scaled_row_zero (d : Q) (row : array1) :
  Forall (fun x => x == 0) row ->
  array1_eq (scaled_row d row) row /\
  Forall (fun x => x == 0) (scaled_row d row).
Proof.
  unfold array1_eq, scaled_row.
  induction 1 as [|x row Hx _ [IH1 IH2]]; simpl; split;
    try constructor; try assumption.
  - rewrite Hx. unfold Qdiv. ring.
  - rewrite Hx. unfold Qdiv. ring.
Qed.


End CpmFacts.




(** C9 (as amended). [convert_to_cpm] is total: every denominator is
    positive, so no quotient is by zero and the output has a row for
    every row of the input. A row whose sum, as numpy has it, is not
    positive is divided by 1: it comes out multiplied by [1e6]. When
    that sum is zero, is the sum of the entries and no entry is
    negative, the row is all zero and comes out as it is. *)
Theorem convert_to_cpm_total_zero_row (data : ndarray) :
  exists cpm,
    CellByGene.convert_to_cpm data = Some cpm /\
    length cpm = length (as_float data) /\
    Forall (fun s => 0 < CellByGene.denom_of s) (np_sum_rows data) /\
    forall (i : nat) (row : array1) (s : Q),
      as_float data !! i = Some row -> np_sum_rows data !! i = Some s ->
      s <= 0 ->
      CellByGene.denom_of s = 1 /\
      cpm !! i = Some (map (fun x => 1000000 * (x / 1)) row) /\
      (s == np_sum row -> Forall (fun x => 0 <= x) row ->
       exists out,
         cpm !! i = Some out /\ array1_eq out row /\
         Forall (fun x => x == 0) out).
Proof.
  rewrite convert_to_cpm_Some. eexists. split; [reflexivity|].
  split; [rewrite length_zip_with, np_sum_rows_length; lia|]. split.
  - apply Forall_forall. intros s _. apply denom_of_pos.
  - intros i row s Hrow Hs Hle.
    pose proof (denom_of_nonpos s Hle) as Hd.
    assert (Hout : zip_with (fun row s =>
                               scaled_row (CellByGene.denom_of s) row)
                            (as_float data) (np_sum_rows data) !! i
                   = Some (scaled_row 1 row)).
    { rewrite lookup_zip_with, Hrow. simpl. rewrite Hs. simpl.
      rewrite Hd. reflexivity. }
    split; [exact Hd|]. split; [exact Hout|].
    intros Hsum Hnn. eexists. split; [exact Hout|].
    apply scaled_row_zero, np_sum_zero_all_zero; [exact Hnn|].
    rewrite <- Hsum. apply Qle_antisym; [exact Hle|].
    rewrite Hsum. apply np_sum_nonneg. exact Hnn.
Qed.

(** C9 (as amended), at an array whose second row is all zero. *)
Lemma convert_to_cpm_total_zero_row_witness :
  exists cpm,
    CellByGene.convert_to_cpm (FloatArray [[1; 3]; [0; 0]]) = Some cpm /\
    length cpm = 2%nat /\
    exists out,
      cpm !! 1%nat = Some out /\ array1_eq out [0; 0] /\
      Forall (fun x => x == 0) out.
Proof.
  destruct (convert_to_cpm_total_zero_row (FloatArray [[1; 3]; [0; 0]]))
    as (cpm & Hc & Hl & _ & Hz).
  exists cpm. split; [exact Hc|]. split; [exact Hl|].
  destruct (Hz 1%nat [0; 0] 0) as (_ & _ & Hzero).
  - reflexivity.
  - reflexivity.
  - discriminate.
  - apply Hzero; [reflexivity|]. repeat constructor; discriminate.
Defined.

(** C9, the claim refuted. The row [1; -1] has the sum zero and is not
    all zero; it is divided by 1 and comes out as [1e6; -1e6], neither
    unchanged nor all zero. *)
Lemma convert_to_cpm_zero_sum_counterexample :
  np_sum [1; -1] == 0 /\
  exists out,
    CellByGene.convert_to_cpm (FloatArray [[1; -1]]) = Some [out] /\
    ~ array1_eq out [1; -1] /\
    ~ Forall (fun x => x == 0) out.
Proof.
  split; [reflexivity|]. eexists.
  split; [vm_compute; reflexivity|]. split.
  - intros Heq. apply Forall2_cons_1 in Heq. destruct Heq as [Heq _].
    vm_compute in Heq. discriminate Heq.
  - intros Hz. apply Forall_cons in Hz. destruct Hz as [Hz _].
    vm_compute in Hz. discriminate Hz.
Qed.

(** ** The CSR row iterator *)

Section IteratorFacts.
Import AnnDataIterator.

Lemma scatter_row_Ok (cols : list nat) (vals : list Q) :
  forall row : array1,
  length cols = length vals ->
  Forall (fun c => c < length row)%nat cols ->
  exists out, scatter_row row cols vals = Ok out /\ length out = length row.
Proof.
  revert vals. induction cols as [|c cols IH]; intros [|v vals] row Hlen Hc;
    simpl in *; try discriminate.
  - exists row; split; reflexivity.
  - inversion Hc as [|? ? Hc1 Hc2]; subst.
    destruct (decide (c < length row)%nat) as [_|Hn]; [|contradiction].
    destruct (IH vals (<[c := v]> row)) as (out & Ho & Hl).
    + congruence.
    + rewrite length_insert. exact Hc2.
    + exists out. split; [exact Ho|]. rewrite Hl. apply length_insert.
Qed.

Lemma Sorted_le_adjacent (l : list nat) :
  Sorted le l ->
  forall r p0 p1, l !! r = Some p0 -> l !! S r = Some p1 -> (p0 <= p1)%nat.
Proof.
  induction 1 as [|x l Hs IH Hd]; intros r p0 p1 H0 H1.
  - discriminate H0.
  - destruct r as [|r]; simpl in *.
    + injection H0 as <-. destruct l as [|y l]; [discriminate H1|].
      simpl in H1. injection H1 as <-. inversion Hd; assumption.
    + eapply IH; eassumption.
Qed.

Lemma load_csr_row_Ok (g : csr_group) (shape : nat * nat) (r : nat) :
  csr_wf g shape -> (r < shape.1)%nat ->
  exists row, load_csr_row shape.2 g r = Ok row /\ length row = shape.2.
Proof.
  intros (Hlen & Hsorted & Hbound & Hdata & Hcols) Hr.
  unfold load_csr_row.
  destruct (lookup_lt_is_Some_2 (indptr g) r) as [p0 H0]; [lia|].
  destruct (lookup_lt_is_Some_2 (indptr g) (S r)) as [p1 H1]; [lia|].
  rewrite H0, H1. simpl.
  pose proof (Sorted_le_adjacent _ Hsorted _ _ _ H0 H1) as Hle.
  assert (Hp1 : (p1 <= length (indices g))%nat).
  { rewrite Forall_forall in Hbound. apply Hbound.
    eapply list_elem_of_lookup_2; eassumption. }
  destruct (scatter_row_Ok (slice (indices g) p0 p1) (slice (data g) p0 p1)
              (replicate shape.2 0)) as (out & Ho & Hl).
  - unfold slice. rewrite !length_take, !length_drop. lia.
  - rewrite length_replicate. unfold slice.
    apply Forall_take, Forall_drop. exact Hcols.
  - exists out. split; [exact Ho|]. rewrite Hl. apply length_replicate.
Qed.

Lemma load_csr_rows_Ok (g : csr_group) (shape : nat * nat) (rows : list nat) :
  csr_wf g shape -> Forall (fun r => r < shape.1)%nat rows ->
  exists chunk,
    res_mapM (load_csr_row shape.2 g) rows = Ok chunk /\
    length chunk = length rows /\
    Forall (fun row => length row = shape.2) chunk.
Proof.
  intros Hwf Hrows.
  induction Hrows as [|r rows Hr _ (chunk & Hc & Hl & Hw)]; simpl.
  - exists []. repeat split; constructor.
  - destruct (load_csr_row_Ok g shape r Hwf Hr) as (row & Hrow & Hlrow).
    rewrite Hrow, Hc. simpl. exists (row :: chunk).
    split; [reflexivity|]. split; [simpl; rewrite Hl; reflexivity|].
    constructor; assumption.
Qed.

Lemma load_csr_Ok (g : csr_group) (shape : nat * nat) (a b : nat) :
  csr_wf g shape -> (b <= shape.1)%nat ->
  exists chunk,
    load_csr (a, b) shape.2 g = Ok chunk /\
    length chunk = (b - a)%nat /\
    Forall (fun row => length row = shape.2) chunk.
Proof.
  intros Hwf Hb. unfold load_csr. simpl.
  destruct (load_csr_rows_Ok g shape (seq a (b - a)) Hwf)
    as (chunk & Hc & Hl & Hw).
  - apply Forall_forall. intros r Hr. apply elem_of_seq in Hr. lia.
  - exists chunk. rewrite length_seq in Hl. auto.
Qed.

Lemma next_exhausted (self : CSRRowIterator) :
  (n_rows self <= r0 self)%nat ->
  exists final,
    next self = (StopIteration, final) /\
    h5_handle final = false /\
    next final = (StopIteration, final).
Proof.
  intros Hr. unfold next at 1.
  destruct (decide (n_rows self <= r0 self)%nat) as [_|Hn]; [|contradiction].
  eexists. split; [reflexivity|]. split; [reflexivity|].
  unfold next. simpl.
  destruct (decide (n_rows self <= r0 self)%nat) as [_|Hn]; [|contradiction].
  reflexivity.
Qed.

(** From any state within range the loop ends: more than
    [n_rows - r0] calls of [__next__] are never needed. *)
Lemma iterate_from (n : nat) :
  forall self : CSRRowIterator,
  (n_rows self - r0 self <= n)%nat ->
  (r0 self <= n_rows self)%nat ->
  csr_wf (h5_file self) (n_rows self, n_cols self) ->
  (1 <= row_chunk_size self)%nat ->
  exists triples final,
    (forall fuel, (n < fuel)%nat ->
       iterate fuel self = Some (Ok (triples, final))) /\
    tiles (r0 self) (n_rows self) triples /\
    Forall (dense_chunk (n_cols self)) triples /\
    h5_handle final = false /\
    next final = (StopIteration, final).
Proof.
  induction n as [|n IH]; intros self Hn Hle Hwf Hrcs.
  - destruct (next_exhausted self) as (final & Hnext & Hh & Hstop); [lia|].
    exists [], final. split; [|split; [simpl; lia|split; [constructor|auto]]].
    intros [|fuel] Hf; [lia|]. simpl. rewrite Hnext. reflexivity.
  - destruct (decide (n_rows self <= r0 self)%nat) as [Hdone|Hmore].
    + destruct (next_exhausted self) as (final & Hnext & Hh & Hstop); [lia|].
      exists [], final. split; [|split; [simpl; lia|split; [constructor|auto]]].
      intros [|fuel] Hf; [lia|]. simpl. rewrite Hnext. reflexivity.
    + set (r1 := Nat.min (n_rows self) (r0 self + row_chunk_size self)).
      destruct (load_csr_Ok (h5_file self) (n_rows self, n_cols self)
                  (r0 self) r1 Hwf) as (chunk & Hc & Hl & Hw);
        [simpl; lia|].
      simpl in Hc, Hw.
      set (self' := {| h5_file := h5_file self; h5_handle := h5_handle self;
                       row_chunk_size := row_chunk_size self; r0 := r1;
                       n_rows := n_rows self; n_cols := n_cols self |}).
      assert (Hnext : next self = (Yield chunk (r0 self) r1, self')).
      { unfold next.
        destruct (decide (n_rows self <= r0 self)%nat); [contradiction|].
        fold r1. rewrite Hc. reflexivity. }
      destruct (IH self') as (rest & final & Hrun & Ht & Hd & Hh & Hstop);
        simpl; try assumption; try lia.
      exists ((chunk, r0 self, r1) :: rest), final.
      split; [|split; [|split; [|auto]]].
      * intros [|fuel] Hf; [lia|]. simpl. rewrite Hnext.
        rewrite (Hrun fuel) by lia. reflexivity.
      * simpl. split; [reflexivity|]. split; [lia|exact Ht].
      * constructor; [|exact Hd]. split; assumption.
Qed.

End IteratorFacts.

(** C7. For a well-formed CSR matrix with [n_rows] rows and a
    [row_chunk_size] of at least 1, iterating a [CSRRowIterator] ends:
    it yields triples [(chunk, r0, r1)] whose intervals start at 0,
    follow one another, are not empty and end at [n_rows], each chunk a
    dense array of shape [(r1 - r0, n_cols)]; then [__next__] raises
    [StopIteration], also when called again. *)
Theorem csr_row_iterator_covers
    (g : AnnDataIterator.csr_group) (shape : nat * nat)
    (row_chunk_size : nat) :
  AnnDataIterator.csr_wf g shape ->
  (1 <= row_chunk_size)%nat ->
  exists triples final,
    (forall fuel, (shape.1 < fuel)%nat ->
       AnnDataIterator.iterate fuel
         (AnnDataIterator.init g row_chunk_size shape)
       = Some (Ok (triples, final))) /\
    AnnDataIterator.tiles 0 shape.1 triples /\
    Forall (AnnDataIterator.dense_chunk shape.2) triples /\
    AnnDataIterator.next final = (AnnDataIterator.StopIteration, final).
Proof.
  intros Hwf Hrcs.
  destruct (iterate_from shape.1 (AnnDataIterator.init g row_chunk_size shape))
    as (triples & final & Hrun & Ht & Hd & _ & Hstop); simpl; try lia.
  - destruct shape; exact Hwf.
  - exists triples, final. auto.
Qed.

(** The iterator over [csr_3x2] in chunks of two rows. *)
Example csr_3x2_chunks :
  exists final,
    AnnDataIterator.iterate 4
      (AnnDataIterator.init Examples.csr_3x2 2 (3, 2)%nat)
    = Some (Ok ([([[1; 0]; [0; 2]], 0%nat, 2%nat);
                 ([[3; 4]], 2%nat, 3%nat)], final)).
Proof. eexists. vm_compute. reflexivity. Qed.

(** C7, at the matrix [csr_3x2] read in chunks of two rows. *)
Lemma csr_row_iterator_covers_witness :
  exists triples final,
    (forall fuel, (3 < fuel)%nat ->
       AnnDataIterator.iterate fuel
         (AnnDataIterator.init Examples.csr_3x2 2 (3, 2)%nat)
       = Some (Ok (triples, final))) /\
    AnnDataIterator.tiles 0 3 triples /\
    Forall (AnnDataIterator.dense_chunk 2) triples /\
    AnnDataIterator.next final = (AnnDataIterator.StopIteration, final).
Proof.
  apply (csr_row_iterator_covers Examples.csr_3x2 (3, 2)%nat 2).
  - unfold AnnDataIterator.csr_wf. simpl.
    repeat split; repeat constructor; lia.
  - lia.
Defined.

(** ** The vote *)

Section ElectionFacts.
Context `{Collaborators}.
Import Election.

Lemma np_argmax_from_first_max (row pre : list Z) :
  forall (best_i : nat) (best : Z),
  pre !! best_i = Some best ->
  Forall (fun x => (x <= best)%Z) pre ->
  (forall j x, (j < best_i)%nat -> pre !! j = Some x -> (x < best)%Z) ->
  first_max (pre ++ row) (np_argmax_from best_i best (length pre) row).
Proof.
  revert pre. induction row as [|x row IH]; intros pre best_i best Hb Hle Hlt.
  - simpl. rewrite app_nil_r. exists best. auto.
  - simpl. replace (pre ++ x :: row) with ((pre ++ [x]) ++ row)
      by (rewrite <- app_assoc; reflexivity).
    replace (S (length pre)) with (length (pre ++ [x]))
      by (rewrite length_app; simpl; lia).
    destruct (best <? x)%Z eqn:E.
    + apply Z.ltb_lt in E.
      replace (length (pre ++ [x])) with (S (length pre)) at 1
        by (rewrite length_app; simpl; lia).
      replace (np_argmax_from (length pre) x (S (length pre)) row)
        with (np_argmax_from (length pre) x (length (pre ++ [x])) row)
        by (rewrite length_app; simpl; repeat f_equal; lia).
      apply IH.
      * rewrite lookup_app_r by lia. rewrite Nat.sub_diag. reflexivity.
      * apply Forall_app. split; [|constructor; [lia|constructor]].
        eapply Forall_impl; [exact Hle|]. simpl. intros; lia.
      * intros j y Hj Hy. rewrite lookup_app_l in Hy by exact Hj.
        rewrite Forall_forall in Hle.
        assert (y <= best)%Z
          by (apply Hle; eapply list_elem_of_lookup_2; exact Hy).
        lia.
    + apply Z.ltb_ge in E. apply IH.
      * rewrite lookup_app_l; [exact Hb|]. eapply lookup_lt_Some; exact Hb.
      * apply Forall_app. split; [exact Hle|constructor; [lia|constructor]].
      * intros j y Hj Hy. apply (Hlt j y Hj).
        rewrite lookup_app_l in Hy; [exact Hy|].
        apply lookup_lt_Some in Hb. lia.
Qed.

Lemma np_argmax_first_max (row : list Z) (w : nat) :
  np_argmax row = Ok w -> first_max row w.
Proof.
  destruct row as [|x row]; simpl; [discriminate|].
  intros [= <-].
  apply (np_argmax_from_first_max row [x] 0 x).
  - reflexivity.
  - constructor; [lia|constructor].
  - intros j y Hj; lia.
Qed.

Lemma zsum_insert (row : list Z) (j : nat) (v x : Z) :
  row !! j = Some v -> zsum (<[j := x]> row) = (zsum row - v + x)%Z.
Proof.
  revert j. induction row as [|y row IH]; intros [|j] Hj; simpl in *;
    try discriminate.
  - injection Hj as ->. lia.
  - rewrite (IH j Hj). lia.
Qed.

Lemma zsum_bound (row : list Z) (j : nat) (v : Z) :
  Forall (fun x => (0 <= x)%Z) row -> row !! j = Some v ->
  (0 <= v <= zsum row)%Z.
Proof.
  intros Hrow. revert j.
  induction Hrow as [|y row Hy Hrow IH]; intros [|j] Hj; simpl in *;
    try discriminate.
  - injection Hj as ->.
    assert (0 <= zsum row)%Z; [|lia].
    clear IH. induction Hrow; simpl; lia.
  - specialize (IH j Hj). lia.
Qed.

Lemma dtype_wrap_id (d : int_dtype) (lo hi v : Z) :
  dtype_holds d lo hi -> (lo <= v <= hi)%Z -> dtype_wrap d v = v.
Proof.
  intros [Hlo Hhi] Hv. unfold dtype_wrap.
  rewrite Z.mod_small by lia. lia.
Qed.

(** One vote: the row keeps its length and its entries stay
    non-negative; its sum grows by one as long as the dtype holds it. *)
Lemma add_vote_sum (d : int_dtype) (hi : Z) (row row' : list Z) (j : nat) :
  dtype_holds d 0 hi ->
  Forall (fun x => (0 <= x)%Z) row -> (zsum row < hi)%Z ->
  add_vote d row j = Ok row' ->
  length row' = length row /\
  Forall (fun x => (0 <= x)%Z) row' /\
  zsum row' = (zsum row + 1)%Z.
Proof.
  intros Hd Hrow Hs Hv. unfold add_vote in Hv. inv_res. subst row'.
  rename x into v, H0 into Hj.
  pose proof (zsum_bound row j v Hrow Hj) as Hb.
  rewrite (dtype_wrap_id d 0 hi) by (auto; lia).
  split; [apply length_insert|]. split.
  - apply Forall_insert; [exact Hrow|lia].
  - rewrite (zsum_insert row j v) by exact Hj. lia.
Qed.

Lemma vote_rows_sum (d : int_dtype) (hi k : Z) (votes : list (list Z)) :
  forall (nn : list nat) (votes' : list (list Z)),
  dtype_holds d 0 hi -> (k < hi)%Z ->
  Forall (fun row => Forall (fun x => (0 <= x)%Z) row /\ zsum row = k) votes ->
  vote_rows d votes nn = Ok votes' ->
  length votes' = length votes /\
  Forall2 (fun row row' => length row' = length row) votes votes' /\
  Forall (fun row => Forall (fun x => (0 <= x)%Z) row /\ zsum row = (k + 1)%Z)
         votes'.
Proof.
  induction votes as [|row votes IH]; intros [|j nn] votes' Hd Hk Hrows Hv;
    simpl in Hv; inv_res; try discriminate.
  - subst votes'. repeat split; constructor.
  - subst votes'. inversion Hrows as [|? ? [Hrow Hsum] Hrest]; subst.
    destruct (add_vote_sum d hi row x j Hd Hrow) as (Hl & Hp & Hs);
      [lia|assumption|].
    destruct (IH nn x0 Hd Hk Hrest H1) as (Hl' & Hf2 & Hf).
    split; [simpl; congruence|]. split; constructor; auto.
Qed.

Lemma corr_rows_length (corr_sum : array2) :
  forall (nn : list nat) (corr : list Q) (corr_sum' : array2),
  corr_rows corr_sum nn corr = Ok corr_sum' ->
  length corr_sum' = length corr_sum.
Proof.
  induction corr_sum as [|row corr_sum IH];
    intros [|j nn] [|c corr] corr_sum' Hc; simpl in Hc; inv_res;
    try discriminate.
  - subst. reflexivity.
  - subst. simpl. f_equal. eapply IH; eassumption.
Qed.

Lemma tally_loop_sum (d : int_dtype) (hi : Z)
    (ncs : list (list nat * list Q)) :
  forall (k : Z) (votes votes' : list (list Z)) (corr_sum corr_sum' : array2),
  dtype_holds d 0 hi -> (k + Z.of_nat (length ncs) <= hi)%Z ->
  Forall (fun row => Forall (fun x => (0 <= x)%Z) row /\ zsum row = k) votes ->
  tally_loop d votes corr_sum ncs = Ok (votes', corr_sum') ->
  length votes' = length votes /\
  length corr_sum' = length corr_sum /\
  Forall2 (fun row row' => length row' = length row) votes votes' /\
  Forall (fun row => Forall (fun x => (0 <= x)%Z) row /\
                     zsum row = (k + Z.of_nat (length ncs))%Z) votes'.
Proof.
  induction ncs as [|[nn corr] ncs IH];
    intros k votes votes' corr_sum corr_sum' Hd Hk Hrows Ht; simpl in Ht.
  - injection Ht as <- <-. simpl. rewrite Z.add_0_r.
    repeat split; try assumption.
    apply Forall_Forall2_diag, Forall_forall. auto.
  - inv_res. rename x into votes1, x0 into corr1.
    simpl length in Hk.
    destruct (vote_rows_sum d hi k votes nn votes1 Hd) as (Hl1 & Hf1 & Hs1);
      [lia|assumption|assumption|].
    destruct (IH (k + 1)%Z votes1 votes' corr1 corr_sum' Hd)
      as (Hl2 & Hl3 & Hf2 & Hs2); [lia|assumption|assumption|].
    apply corr_rows_length in H1.
    split; [congruence|]. split; [congruence|]. split.
    + apply Forall2_same_length_lookup_2; [congruence|].
      intros i r r' Hr Hr'.
      destruct (lookup_lt_is_Some_2 votes1 i) as [r1 Hr1].
      { rewrite Hl1. eapply lookup_lt_Some; exact Hr. }
      rewrite (Forall2_lookup_lr _ _ _ _ _ _ Hf2 Hr1 Hr').
      apply (Forall2_lookup_lr _ _ _ _ _ _ Hf1 Hr Hr1).
    + eapply Forall_impl; [exact Hs2|]. simpl. intros r [Hp Hs].
      split; [exact Hp|]. rewrite Hs. simpl length. lia.
Qed.

Lemma bootstrap_loop_length (query_gene_data reference_gene_data : array2)
    (marker_idx : list nat) (n_bootstrap : Z) (n : nat) :
  forall (rng rng' : rng_state) (ncs : list (list nat * list Q)),
  bootstrap_loop query_gene_data reference_gene_data marker_idx n_bootstrap
                 n rng = Ok (ncs, rng') ->
  length ncs = n.
Proof.
  induction n as [|n IH]; intros rng rng' ncs Hl; simpl in Hl.
  - injection Hl as <- _. reflexivity.
  - inv_res. destruct x as [[chosen nc] rng1]. inv_res.
    destruct x as [rest rng2]. inv_res. subst ncs.
    simpl. f_equal. eapply IH; eassumption.
Qed.

Lemma vote_rows_length (d : int_dtype) (votes : list (list Z)) :
  forall (nn : list nat) (votes' : list (list Z)),
  vote_rows d votes nn = Ok votes' -> length votes' = length votes.
Proof.
  induction votes as [|row votes IH]; intros [|j nn] votes' Hv;
    simpl in Hv; inv_res; try discriminate.
  - subst. reflexivity.
  - subst. simpl. f_equal. eapply IH; eassumption.
Qed.

Lemma tally_loop_length (d : int_dtype) (ncs : list (list nat * list Q)) :
  forall (votes votes' : list (list Z)) (corr_sum corr_sum' : array2),
  tally_loop d votes corr_sum ncs = Ok (votes', corr_sum') ->
  length votes' = length votes /\ length corr_sum' = length corr_sum.
Proof.
  induction ncs as [|[nn corr] ncs IH];
    intros votes votes' corr_sum corr_sum' Ht; simpl in Ht.
  - injection Ht as <- <-. auto.
  - inv_res. apply vote_rows_length in H0. apply corr_rows_length in H1.
    destruct (IH _ _ _ _ Ht) as [-> ->]. auto.
Qed.

(** The shape of the arrays of [tally_votes]. *)
Lemma tally_votes_length (query_gene_data reference_gene_data : array2)
    (bootstrap_factor : Q) (bootstrap_iteration : nat) (rng rng' : rng_state)
    (votes : list (list Z)) (corr_sum : array2) :
  tally_votes query_gene_data reference_gene_data bootstrap_factor
              bootstrap_iteration rng = Ok (votes, corr_sum, rng') ->
  length votes = length query_gene_data /\
  length corr_sum = length query_gene_data.
Proof.
  unfold tally_votes. intros Ht. inv_res.
  destruct x as [ncs rng1]. inv_res. destruct x as [v c]. inv_res.
  subst v c rng1.
  apply tally_loop_length in H1. rewrite !length_replicate in H1. exact H1.
Qed.

(** Every row of [votes] has one entry per reference row, none
    negative, and they sum to [bootstrap_iteration]: each iteration
    casts one vote per query row. *)
Lemma tally_votes_sum (query_gene_data reference_gene_data : array2)
    (bootstrap_factor : Q) (bootstrap_iteration : nat) (rng rng' : rng_state)
    (votes : list (list Z)) (corr_sum : array2) :
  dtype_holds (choose_int_dtype (0%Z, Z.of_nat bootstrap_iteration))
              0 (Z.of_nat bootstrap_iteration) ->
  tally_votes query_gene_data reference_gene_data bootstrap_factor
              bootstrap_iteration rng = Ok (votes, corr_sum, rng') ->
  Forall (fun row => length row = length reference_gene_data /\
                     Forall (fun x => (0 <= x)%Z) row /\
                     zsum row = Z.of_nat bootstrap_iteration) votes.
Proof.
  unfold tally_votes. intros Hd Ht. inv_res.
  destruct x as [ncs rng1]. inv_res. destruct x as [v c]. inv_res.
  subst v c rng1.
  pose proof (bootstrap_loop_length _ _ _ _ _ _ _ _ H0) as Hn.
  set (n_ref := length reference_gene_data) in *.
  assert (Hzero : forall n, zsum (replicate n 0%Z) = 0%Z)
    by (induction n; simpl; lia).
  pose proof (fun Hk Hz =>
                tally_loop_sum _ (Z.of_nat bootstrap_iteration) ncs 0%Z
                  _ _ _ _ Hd Hk Hz H1) as Hsum.
  destruct Hsum as (Hl1 & _ & Hf2 & Hs); [lia| |].
  { apply Forall_replicate. split; [apply Forall_replicate; lia|apply Hzero]. }
  apply Forall_lookup_2. intros i row Hrow.
  rewrite Forall_lookup in Hs. destruct (Hs i row Hrow) as [Hp Hsum].
  split; [|split; [exact Hp|lia]].
  destruct (lookup_lt_is_Some_2 (replicate (length query_gene_data)
                                           (replicate n_ref 0%Z)) i) as [z Hz].
  { rewrite <- Hl1. eapply lookup_lt_Some; exact Hrow. }
  rewrite (Forall2_lookup_lr _ _ _ _ _ _ Hf2 Hz Hrow).
  apply lookup_replicate in Hz. destruct Hz as [-> _].
  apply length_replicate.
Qed.

(** What [choose_row] returns, in terms of the row it is given. *)
Lemma choose_row_spec (reference_types : list string)
    (bootstrap_iteration : nat) (votes_row : list Z) (corr_row : array1)
    (c : choice) :
  choose_row reference_types bootstrap_iteration votes_row corr_row = Ok c ->
  exists (w : nat) (n_votes : Z) (s : Q),
    np_argmax votes_row = Ok w /\
    first_max votes_row w /\
    votes_row !! w = Some n_votes /\
    corr_row !! w = Some s /\
    reference_types !! w = Some (result c) /\
    vote_fraction c
      = np_true_divide (inject_Z n_votes)
                       (inject_Z (Z.of_nat bootstrap_iteration)) /\
    avg_corr c = np_true_divide s (inject_Z n_votes).
Proof.
  unfold choose_row. intros Hc. inv_res. subst c. simpl.
  rename x into w, x0 into r, x1 into n, x2 into s.
  exists w, n, s. repeat split; try assumption.
  apply np_argmax_first_max; assumption.
Qed.

Lemma choose_rows_lookup (reference_types : list string)
    (bootstrap_iteration : nat) (votes : list (list Z)) :
  forall (corr_sum : array2) (choices : list choice),
  choose_rows reference_types bootstrap_iteration votes corr_sum
    = Ok choices ->
  length choices = length votes /\
  forall i c, choices !! i = Some c ->
    exists votes_row corr_row,
      votes !! i = Some votes_row /\ corr_sum !! i = Some corr_row /\
      choose_row reference_types bootstrap_iteration votes_row corr_row
        = Ok c.
Proof.
  induction votes as [|vr votes IH]; intros [|cr corr_sum] choices Hc;
    simpl in Hc; inv_res; try discriminate.
  - subst. split; [reflexivity|]. intros i c Hi. discriminate Hi.
  - subst. destruct (IH _ _ H1) as [Hl Hrest].
    split; [simpl; congruence|].
    intros [|i] c Hi; simpl in Hi.
    + injection Hi as <-. exists vr, cr. auto.
    + apply Hrest. exact Hi.
Qed.

Lemma zsum_all_zero (row : list Z) :
  Forall (fun x => (0 <= x)%Z) row -> Forall (fun x => (x <= 0)%Z) row ->
  zsum row = 0%Z.
Proof.
  induction 1 as [|x row Hx _ IH]; intros Hle; [reflexivity|].
  inversion Hle; subst. simpl. rewrite IH by assumption. lia.
Qed.

Lemma vote_quotient_bounds (v b : Z) :
  (0 <= v <= b)%Z -> (1 <= b)%Z ->
  exists p, np_true_divide (inject_Z v) (inject_Z b) = Some p /\
            0 <= p /\ p <= 1.
Proof.
  intros Hv Hb.
  assert (Hpos : 0 < inject_Z b).
  { replace 0 with (inject_Z 0) by reflexivity. rewrite <- Zlt_Qlt. lia. }
  exists (inject_Z v / inject_Z b). split; [|split].
  - apply np_true_divide_Some. intros E. rewrite E in Hpos. discriminate.
  - apply Qle_shift_div_l; [exact Hpos|]. rewrite Qmult_0_l.
    replace 0 with (inject_Z 0) by reflexivity. rewrite <- Zle_Qle. lia.
  - apply Qle_shift_div_r; [exact Hpos|]. rewrite Qmult_1_l.
    rewrite <- Zle_Qle. lia.
Qed.

(** [np.round] on a rational between two integers stays between
    them, and is within one half of its argument. *)
Lemma np_round_bounds (x : Q) (lo hi : Z) :
  inject_Z lo <= x -> x <= inject_Z hi ->
  (lo <= np_round x <= hi)%Z /\
  inject_Z (np_round x) - (1 # 2) <= x /\
  x <= inject_Z (np_round x) + (1 # 2).
Proof.
  intros Hlo Hhi.
  pose proof (Qfloor_le x) as Hf1. pose proof (Qlt_floor x) as Hf2.
  rewrite inject_Z_plus in Hf2. change (inject_Z 1) with 1 in Hf2.
  assert (Hflo : (lo <= Qfloor x)%Z).
  { rewrite <- (Qfloor_Z lo). apply Qfloor_resp_le. exact Hlo. }
  assert (Hfhi : (Qfloor x <= hi)%Z).
  { rewrite <- (Qfloor_Z hi). apply Qfloor_resp_le. exact Hhi. }
  assert (Hstep : inject_Z (Qfloor x) < x -> (Qfloor x + 1 <= hi)%Z).
  { intros Hlt. assert (Qfloor x < hi)%Z; [|lia].
    rewrite Zlt_Qlt. lra. }
  unfold np_round.
  destruct (Qcompare_spec (x - inject_Z (Qfloor x)) (1 # 2)) as [E|E|E].
  - destruct (Z.even (Qfloor x)).
    + split; [lia|]. lra.
    + rewrite inject_Z_plus. change (inject_Z 1) with 1.
      split; [|lra]. split; [lia|]. apply Hstep. lra.
  - split; [lia|]. lra.
  - rewrite inject_Z_plus. change (inject_Z 1) with 1.
    split; [|lra]. split; [lia|]. apply Hstep. lra.
Qed.

(** [np.round] of a rational that is not negative is at least 1
    exactly above one half. *)
Lemma np_round_ge_1 (x : Q) :
  0 <= x -> ((1 <= np_round x)%Z <-> (1 # 2) < x).
Proof.
  intros Hx.
  pose proof (Qfloor_le x) as Hf1. pose proof (Qlt_floor x) as Hf2.
  rewrite inject_Z_plus in Hf2. change (inject_Z 1) with 1 in Hf2.
  assert (Hf0 : (0 <= Qfloor x)%Z).
  { rewrite <- (Qfloor_Z 0). apply Qfloor_resp_le. exact Hx. }
  destruct (Z.eq_dec (Qfloor x) 0%Z) as [E0|Hne].
  - unfold np_round. rewrite E0 in *. change (inject_Z 0) with 0 in *.
    destruct (Qcompare_spec (x - 0) (1 # 2)) as [E|E|E]; simpl.
    + split; [lia|]. intros Hlt. lra.
    + split; [lia|]. intros Hlt. lra.
    + split; [|lia]. intros _. lra.
  - assert (H1 : (1 <= Qfloor x)%Z) by lia.
    assert (H1q : 1 <= inject_Z (Qfloor x)).
    { change 1 with (inject_Z 1). rewrite <- Zle_Qle. exact H1. }
    split; [intros _; lra|]. intros _. unfold np_round.
    destruct (Qcompare (x - inject_Z (Qfloor x)) (1 # 2));
      [destruct (Z.even (Qfloor x))| |]; lia.
Qed.

End ElectionFacts.

(** C1 (as amended). For every query row, [choose_node] takes the first
    index holding the maximum of that row of [votes]: a tie in votes
    goes to the lowest row index, whatever the summed correlations. It
    returns the type of that reference row, [votes[winner]] divided by
    [bootstrap_iteration], and [corr_sum[winner]] divided by
    [votes[winner]]. *)
Theorem choose_node_first_max `{Collaborators}
    (query_gene_data reference_gene_data : array2)
    (reference_types : list string) (bootstrap_factor : Q)
    (bootstrap_iteration : nat) (rng rng' : rng_state)
    (choices : list Election.choice) :
  Election.choose_node query_gene_data reference_gene_data reference_types
                       bootstrap_factor bootstrap_iteration rng
    = Ok (choices, rng') ->
  exists votes corr_sum,
    Election.tally_votes query_gene_data reference_gene_data
                         bootstrap_factor bootstrap_iteration rng
      = Ok (votes, corr_sum, rng') /\
    length choices = length query_gene_data /\
    forall i c, choices !! i = Some c ->
      exists votes_row corr_row w n_votes s,
        votes !! i = Some votes_row /\ corr_sum !! i = Some corr_row /\
        first_max votes_row w /\
        votes_row !! w = Some n_votes /\ corr_row !! w = Some s /\
        reference_types !! w = Some (Election.result c) /\
        Election.vote_fraction c
          = np_true_divide (inject_Z n_votes)
                           (inject_Z (Z.of_nat bootstrap_iteration)) /\
        Election.avg_corr c = np_true_divide s (inject_Z n_votes).
Proof.
  unfold Election.choose_node. intros Hc. inv_res.
  destruct x as [[votes corr_sum] rng1]. inv_res. subst.
  rename select (Election.tally_votes _ _ _ _ _ = _) into Ht.
  rename select (Election.choose_rows _ _ _ _ = _) into Hch.
  exists votes, corr_sum. split; [assumption|].
  destruct (tally_votes_length _ _ _ _ _ _ _ _ Ht) as [Hlv _].
  destruct (choose_rows_lookup _ _ _ _ _ Hch) as [Hl Hrows].
  split; [congruence|].
  intros i c Hi. destruct (Hrows i c Hi) as (vr & cr & Hv & Hcr & Hrow).
  destruct (choose_row_spec _ _ _ _ _ Hrow)
    as (w & n & s & _ & Hmax & Hn & Hs & Hty & Hf & Ha).
  exists vr, cr, w, n, s. auto 10.
Qed.

(** C1 (as amended), at the tie of [tie_query]. *)
Lemma choose_node_first_max_witness :
  exists (votes : list (list Z)) (corr_sum : array2),
    Election.tally_votes (H := Examples.replay) Examples.tie_query
      Examples.tie_reference (3 # 4) 2 Examples.tie_draws
      = Ok (votes, corr_sum, []) /\
    forall i c,
      [{| Election.result := "a"; Election.vote_fraction := Some (1 # 2);
          Election.avg_corr := Some (729 # 1458) |}] !! i = Some c ->
      exists votes_row w,
        votes !! i = Some votes_row /\ first_max votes_row w /\
        Examples.tie_types !! w = Some (Election.result c).
Proof.
  destruct (choose_node_first_max (H := Examples.replay) Examples.tie_query
              Examples.tie_reference Examples.tie_types (3 # 4) 2
              Examples.tie_draws []
              [{| Election.result := "a";
                  Election.vote_fraction := Some (1 # 2);
                  Election.avg_corr := Some (729 # 1458) |}])
    as (votes & corr_sum & Ht & _ & Hrows).
  - vm_compute. reflexivity.
  - exists votes, corr_sum. split; [exact Ht|].
    intros i c Hi.
    destruct (Hrows i c Hi) as (vr & cr & w & n & s & Hv & _ & Hm & _ & _ & Hty & _).
    exists vr, w. auto.
Defined.

(** C1, the claim refuted. One cell, two reference rows of types "a"
    and "b", four markers of which three are drawn, two iterations that
    draw the markers [0, 1, 2] and [1, 2, 3]. Each row gets one vote;
    the summed correlations are 1/2 for "a" and 1 for "b". The winner
    of the spec is "b", by the larger sum; [choose_node] returns "a". *)
Lemma choose_node_tie_counterexample :
  exists c corr_row,
    Election.choose_node (H := Examples.replay) Examples.tie_query
      Examples.tie_reference Examples.tie_types (3 # 4) 2 Examples.tie_draws
      = Ok ([c], []) /\
    Election.tally_votes (H := Examples.replay) Examples.tie_query
      Examples.tie_reference (3 # 4) 2 Examples.tie_draws
      = Ok ([[1; 1]%Z], [corr_row], []) /\
    array1_eq corr_row [1 # 2; 1] /\
    Election.result c = "a"%string /\
    spec_winner [1; 1]%Z corr_row Examples.tie_types 1 /\
    forall w, spec_winner [1; 1]%Z corr_row Examples.tie_types w ->
              Examples.tie_types !! w = Some "b"%string.
Proof.
  eexists _, _. split; [vm_compute; reflexivity|].
  split; [vm_compute; reflexivity|].
  split; [repeat constructor|]. split; [reflexivity|]. split.
  - exists 1%Z, (1458 # 1458), "b"%string. repeat split.
    intros [|[|j]] v' s' t' Hv Hs Ht; simpl in *; try discriminate.
    + injection Hv as <-. injection Hs as <-. right. split; [reflexivity|].
      left. reflexivity.
    + injection Hv as <-. injection Hs as <-. injection Ht as <-.
      right. split; [reflexivity|]. right. split; reflexivity.
  - intros [|[|w]] (v & s & t & Hv & Hs & Ht & Hall); simpl in *;
      try discriminate; [|reflexivity].
    exfalso. injection Hv as <-. injection Hs as <-.
    destruct (Hall 1%nat 1%Z (1458 # 1458) "b"%string)
      as [Hlt|[_ [Hlt|[Heq _]]]]; try reflexivity.
    + lia.
    + discriminate Hlt.
    + discriminate Heq.
Qed.

(** C3 (as amended). When the dtype chosen for [votes] holds the range
    [0 .. bootstrap_iteration], every row of [votes] returned by
    [tally_votes] has one count per reference row, none negative, and
    the counts of a row sum to [bootstrap_iteration]. When moreover
    [bootstrap_iteration] is at least 1, every
    [bootstrapping_probability] returned by [choose_node] is a number
    in [[0, 1]]. *)
Theorem votes_sum_and_probability_bounds `{Collaborators}
    (query_gene_data reference_gene_data : array2)
    (reference_types : list string) (bootstrap_factor : Q)
    (bootstrap_iteration : nat) (rng rng' : rng_state)
    (choices : list Election.choice) :
  dtype_holds (choose_int_dtype (0%Z, Z.of_nat bootstrap_iteration))
              0 (Z.of_nat bootstrap_iteration) ->
  Election.choose_node query_gene_data reference_gene_data reference_types
                       bootstrap_factor bootstrap_iteration rng
    = Ok (choices, rng') ->
  exists votes corr_sum,
    Election.tally_votes query_gene_data reference_gene_data
                         bootstrap_factor bootstrap_iteration rng
      = Ok (votes, corr_sum, rng') /\
    length votes = length query_gene_data /\
    Forall (fun row => length row = length reference_gene_data /\
                       Forall (fun x => (0 <= x)%Z) row /\
                       zsum row = Z.of_nat bootstrap_iteration) votes /\
    ((1 <= bootstrap_iteration)%nat ->
     Forall (fun c => exists p, Election.vote_fraction c = Some p /\
                                0 <= p /\ p <= 1) choices).
Proof.
  intros Hd Hc. unfold Election.choose_node in Hc. inv_res.
  destruct x as [[votes corr_sum] rng1]. inv_res. subst.
  rename select (Election.tally_votes _ _ _ _ _ = _) into Ht.
  rename select (Election.choose_rows _ _ _ _ = _) into Hch.
  exists votes, corr_sum. split; [exact Ht|].
  split; [apply (tally_votes_length _ _ _ _ _ _ _ _ Ht)|].
  pose proof (tally_votes_sum _ _ _ _ _ _ _ _ Hd Ht) as Hsum.
  split; [exact Hsum|].
  destruct (choose_rows_lookup _ _ _ _ _ Hch) as [_ Hrows].
  intros Hbi. apply Forall_lookup_2. intros i c Hi.
  destruct (Hrows i c Hi) as (vr & cr & Hv & _ & Hrow).
  destruct (choose_row_spec _ _ _ _ _ Hrow)
    as (w & n & s & _ & _ & Hn & _ & _ & Hf & _).
  rewrite Forall_lookup in Hsum. destruct (Hsum i vr Hv) as (_ & Hp & Hs).
  pose proof (zsum_bound vr w n Hp Hn) as Hb.
  rewrite Hf. apply vote_quotient_bounds; lia.
Qed.

(** C3 (as amended), at the tie of [tie_query]. *)
Lemma votes_sum_and_probability_bounds_witness :
  exists votes : list (list Z),
    Forall (fun row => zsum row = 2%Z) votes /\
    Forall (fun c => exists p, Election.vote_fraction c = Some p /\
                               0 <= p /\ p <= 1)
           [{| Election.result := "a"; Election.vote_fraction := Some (1 # 2);
               Election.avg_corr := Some (729 # 1458) |}].
Proof.
  destruct (votes_sum_and_probability_bounds (H := Examples.replay)
              Examples.tie_query Examples.tie_reference Examples.tie_types
              (3 # 4) 2 Examples.tie_draws []
              [{| Election.result := "a";
                  Election.vote_fraction := Some (1 # 2);
                  Election.avg_corr := Some (729 # 1458) |}])
    as (votes & corr_sum & _ & _ & Hsum & Hp).
  - split; simpl; lia.
  - vm_compute. reflexivity.
  - exists votes. split.
    + eapply Forall_impl; [exact Hsum|]. simpl. intros row (_ & _ & Hs).
      exact Hs.
    + apply Hp. lia.
Defined.

(** C3, the claim refuted. With [bootstrap_iteration = 0] no vote is
    cast, the winner of the one cell has zero votes and its
    [bootstrapping_probability] is 0/0, not a number in [[0, 1]]. *)
Lemma probability_zero_iterations_counterexample :
  exists c,
    Election.choose_node (H := Examples.replay) Examples.tie_query
      Examples.tie_reference Examples.tie_types (3 # 4) 0 Examples.tie_draws
      = Ok ([c], Examples.tie_draws) /\
    Election.vote_fraction c = None /\
    ~ exists p, Election.vote_fraction c = Some p /\ 0 <= p /\ p <= 1.
Proof.
  eexists. split; [vm_compute; reflexivity|]. split; [reflexivity|].
  intros (p & Hp & _). discriminate Hp.
Qed.

(** C8. When [choose_node] returns with [bootstrap_iteration] at least
    1 (and the dtype of [votes] holds that count), the argmax of every
    row of [votes] has at least one vote, so the divisor of
    [avg_correlation] is not zero and the quotient is a number. *)
Theorem winner_has_a_vote `{Collaborators}
    (query_gene_data reference_gene_data : array2)
    (reference_types : list string) (bootstrap_factor : Q)
    (bootstrap_iteration : nat) (rng rng' : rng_state)
    (choices : list Election.choice) :
  (1 <= bootstrap_iteration)%nat ->
  dtype_holds (choose_int_dtype (0%Z, Z.of_nat bootstrap_iteration))
              0 (Z.of_nat bootstrap_iteration) ->
  Election.choose_node query_gene_data reference_gene_data reference_types
                       bootstrap_factor bootstrap_iteration rng
    = Ok (choices, rng') ->
  exists votes corr_sum,
    Election.tally_votes query_gene_data reference_gene_data
                         bootstrap_factor bootstrap_iteration rng
      = Ok (votes, corr_sum, rng') /\
    length choices = length votes /\
    forall i c, choices !! i = Some c ->
      exists votes_row corr_row w n_votes s,
        votes !! i = Some votes_row /\ corr_sum !! i = Some corr_row /\
        Election.np_argmax votes_row = Ok w /\
        votes_row !! w = Some n_votes /\ corr_row !! w = Some s /\
        (1 <= n_votes)%Z /\
        ~ inject_Z n_votes == 0 /\
        Election.avg_corr c = Some (s / inject_Z n_votes).
Proof.
  intros Hbi Hd Hc. unfold Election.choose_node in Hc. inv_res.
  destruct x as [[votes corr_sum] rng1]. inv_res. subst.
  rename select (Election.tally_votes _ _ _ _ _ = _) into Ht.
  rename select (Election.choose_rows _ _ _ _ = _) into Hch.
  exists votes, corr_sum. split; [exact Ht|].
  destruct (choose_rows_lookup _ _ _ _ _ Hch) as [Hl Hrows].
  split; [exact Hl|].
  pose proof (tally_votes_sum _ _ _ _ _ _ _ _ Hd Ht) as Hsum.
  intros i c Hi. destruct (Hrows i c Hi) as (vr & cr & Hv & Hcr & Hrow).
  destruct (choose_row_spec _ _ _ _ _ Hrow)
    as (w & n & s & Harg & (v & Hw & Hmax & _) & Hn & Hs & _ & _ & Ha).
  rewrite Forall_lookup in Hsum. destruct (Hsum i vr Hv) as (_ & Hp & Hz).
  assert (Hn1 : (1 <= n)%Z).
  { destruct (Z_lt_le_dec n 1) as [Hlt|Hge]; [exfalso|exact Hge].
    rewrite Hw in Hn. injection Hn as ->.
    rewrite (zsum_all_zero vr Hp) in Hz; [lia|].
    eapply Forall_impl; [exact Hmax|]. simpl. intros; lia. }
  assert (Hnz : ~ inject_Z n == 0).
  { change 0 with (inject_Z 0). rewrite inject_Z_injective. lia. }
  exists vr, cr, w, n, s. repeat split; try assumption.
  rewrite Ha. apply np_true_divide_Some. exact Hnz.
Qed.

(** C8, at the tie of [tie_query]. *)
Lemma winner_has_a_vote_witness :
  exists votes : list (list Z),
    forall i c,
      [{| Election.result := "a"; Election.vote_fraction := Some (1 # 2);
          Election.avg_corr := Some (729 # 1458) |}] !! i = Some c ->
      exists votes_row w n_votes,
        votes !! i = Some votes_row /\
        Election.np_argmax votes_row = Ok w /\
        votes_row !! w = Some n_votes /\ (1 <= n_votes)%Z.
Proof.
  destruct (winner_has_a_vote (H := Examples.replay)
              Examples.tie_query Examples.tie_reference Examples.tie_types
              (3 # 4) 2 Examples.tie_draws []
              [{| Election.result := "a";
                  Election.vote_fraction := Some (1 # 2);
                  Election.avg_corr := Some (729 # 1458) |}])
    as (votes & corr_sum & _ & _ & Hrows).
  - lia.
  - split; simpl; lia.
  - vm_compute. reflexivity.
  - exists votes. intros i c Hi.
    destruct (Hrows i c Hi)
      as (vr & cr & w & n & s & Hv & _ & Ha & Hn & _ & H1 & _).
    exists vr, w, n. auto.
Defined.

(** C4 (as amended). For a bootstrap factor between 0 and 1 the number
    [m] of markers drawn is [bootstrap_factor * n_markers] rounded to
    the nearest integer (a tie to the even one): it lies between 0 and
    [n_markers], and it is at least 1 exactly when
    [bootstrap_factor * n_markers] exceeds one half. With a generator
    that samples without replacement, an iteration that returns has
    drawn [m] distinct marker indices, sorted, each below
    [n_markers]. *)
Theorem n_bootstrap_draw `{Collaborators}
    (query_gene_data reference_gene_data : array2) (bootstrap_factor : Q)
    (rng rng' : rng_state) (chosen_idx : list nat)
    (nc : list nat * list Q) :
  0 <= bootstrap_factor -> bootstrap_factor <= 1 ->
  rng_choice_sound ->
  let n_markers := Election.shape1 query_gene_data in
  let m := Election.n_bootstrap_of bootstrap_factor n_markers in
  (0 <= m <= Z.of_nat n_markers)%Z /\
  ((1 <= m)%Z <->
   (1 # 2) < bootstrap_factor * inject_Z (Z.of_nat n_markers)) /\
  inject_Z m - (1 # 2) <= bootstrap_factor * inject_Z (Z.of_nat n_markers) /\
  bootstrap_factor * inject_Z (Z.of_nat n_markers) <= inject_Z m + (1 # 2) /\
  (Election.bootstrap_step query_gene_data reference_gene_data
                           (seq 0 n_markers) m rng
     = Ok (chosen_idx, nc, rng') ->
   Z.of_nat (length chosen_idx) = m /\
   NoDup chosen_idx /\ Sorted le chosen_idx /\
   Forall (fun j => j < n_markers)%nat chosen_idx).
Proof.
  intros Hf0 Hf1 Hrng n_markers m.
  set (x := bootstrap_factor * inject_Z (Z.of_nat n_markers)).
  assert (Hn : 0 <= inject_Z (Z.of_nat n_markers)).
  { change 0 with (inject_Z 0). rewrite <- Zle_Qle. lia. }
  assert (Hx0 : inject_Z 0 <= x).
  { change (inject_Z 0) with 0. unfold x. apply Qmult_le_0_compat; assumption. }
  assert (Hx1 : x <= inject_Z (Z.of_nat n_markers)).
  { unfold x. rewrite <- (Qmult_1_l (inject_Z (Z.of_nat n_markers))) at 2.
    apply Qmult_le_compat_r; assumption. }
  destruct (np_round_bounds x 0 (Z.of_nat n_markers) Hx0 Hx1)
    as (Hm & Hlo & Hhi).
  split; [exact Hm|]. split; [apply np_round_ge_1; exact Hx0|].
  split; [exact Hlo|]. split; [exact Hhi|].
  unfold Election.bootstrap_step. intros Hstep. inv_res.
  destruct x0 as [sample rng1]. inv_res. subst.
  rename select (rng_choice _ _ _ = _) into Hdraw.
  destruct (Hrng _ _ _ _ _ Hdraw) as (Hlen & Hsub & Hnd).
  split; [|split; [|split]].
  - rewrite merge_sort_Permutation. exact Hlen.
  - rewrite merge_sort_Permutation. apply Hnd, NoDup_seq.
  - apply Sorted_merge_sort. apply _.
  - apply Forall_forall. intros j Hj.
    rewrite merge_sort_Permutation in Hj. apply Hsub in Hj.
    apply elem_of_seq in Hj. lia.
Qed.

Lemma replay_choice_sound : rng_choice_sound (H := Examples.replay).
Proof.
  intros rng population size sample rng' Hc. simpl in Hc.
  unfold Examples.replay_choice in Hc.
  destruct rng as [|draw rest]; [discriminate|].
  destruct (decide _) as [(Hl & Hs & Hn)|]; [|discriminate].
  injection Hc as <- <-. auto.
Qed.

(** C4 (as amended), at the first iteration over [tie_query]: three of
    four markers. *)
Lemma n_bootstrap_draw_witness :
  (0 <= Election.n_bootstrap_of (3 # 4) 4 <= 4)%Z /\
  Z.of_nat (length [0; 1; 2]%nat) = Election.n_bootstrap_of (3 # 4) 4 /\
  NoDup [0; 1; 2]%nat.
Proof.
  destruct (n_bootstrap_draw (H := Examples.replay) Examples.tie_query
              Examples.tie_reference (3 # 4) Examples.tie_draws
              [[1; 2; 3]%nat] [0; 1; 2]%nat ([0%nat], [729 # 1458]))
    as (Hm & _ & _ & _ & Hdraw).
  - discriminate.
  - discriminate.
  - exact replay_choice_sound.
  - split; [exact Hm|].
    destruct Hdraw as (Hl & Hnd & _); [vm_compute; reflexivity|].
    split; [exact Hl|exact Hnd].
Defined.

(** C4, the claim refuted. With one marker and a bootstrap factor of
    1/4 the product is 1/4, below one half, and [m] is 0, not at least
    1; the draw of that size is the empty sample. *)
Lemma n_bootstrap_zero_counterexample :
  Election.n_bootstrap_of (1 # 4) 1 = 0%Z /\
  ~ (1 <= Election.n_bootstrap_of (1 # 4) 1)%Z /\
  rng_choice (Collaborators := Examples.replay) [[]] (seq 0 1)
             (Election.n_bootstrap_of (1 # 4) 1)
    = Ok ([], []).
Proof.
  assert (E : Election.n_bootstrap_of (1 # 4) 1 = 0%Z) by reflexivity.
  rewrite E. split; [reflexivity|]. split; [lia|reflexivity].
Qed.

(** ** The reference rows of a parent *)

#[global] Instance str_le_total : Total Taxonomy.str_le.
Proof. intros s1 s2. unfold Taxonomy.str_le. apply String.leb_total. Qed.

Section MatchingFacts.
Import Taxonomy Matching.

Lemma sort_names_elem_of (l : list string) (x : string) :
  x ∈ sort_names l <-> x ∈ l.
Proof. unfold sort_names. rewrite merge_sort_Permutation. reflexivity. Qed.

Lemma keys_elem_of {V} (d : gmap string V) (k : string) :
  k ∈ keys d <-> is_Some (d !! k).
Proof.
  unfold keys. rewrite list_elem_of_fmap. split.
  - intros ([k' v] & -> & Hkv). apply elem_of_map_to_list in Hkv.
    exists v. exact Hkv.
  - intros [v Hv]. exists (k, v). split; [reflexivity|].
    apply elem_of_map_to_list. exact Hv.
Qed.

Lemma keys_NoDup {V} (d : gmap string V) : NoDup (keys d).
Proof. apply NoDup_fst_map_to_list. Qed.

(** The dict after [for leaf in leaves: leaf_to_type[leaf] = child]. *)
Lemma set_leaves_lookup (child : string) (leaves : list string) :
  forall (d : gmap string string) (leaf : string),
  foldl (fun d leaf => <[leaf := child]> d) d leaves !! leaf
  = if decide (leaf ∈ leaves) then Some child else d !! leaf.
Proof.
  induction leaves as [|l leaves IH]; intros d leaf; simpl.
  - destruct (decide (leaf ∈ [])) as [Hin|_]; [|reflexivity].
    apply elem_of_nil in Hin. contradiction.
  - rewrite IH.
    destruct (decide (leaf ∈ leaves)) as [Hin|Hnin].
    + destruct (decide (leaf ∈ l :: leaves)) as [_|Hn]; [reflexivity|].
      exfalso. apply Hn. right. exact Hin.
    + destruct (decide (leaf = l)) as [->|Hne].
      * rewrite lookup_insert_eq.
        destruct (decide (l ∈ l :: leaves)) as [_|Hn]; [reflexivity|].
        exfalso. apply Hn. left.
      * rewrite lookup_insert_ne by congruence.
        destruct (decide (leaf ∈ l :: leaves)) as [Hin|_]; [|reflexivity].
        apply elem_of_cons in Hin. destruct Hin; contradiction.
Qed.

Lemma fill_leaf_to_type_spec (t : TaxonomyTree) (child_level : string)
    (cs : list string) :
  forall d d' : gmap string string,
  fill_leaf_to_type t child_level cs d = Ok d' ->
  (forall leaf child, d' !! leaf = Some child ->
     d !! leaf = Some child \/ leaf_below t child_level cs leaf child) /\
  (forall leaf, is_Some (d !! leaf) -> is_Some (d' !! leaf)) /\
  (forall leaf child, leaf_below t child_level cs leaf child ->
     is_Some (d' !! leaf)).
Proof.
  induction cs as [|c cs IH]; intros d d' Hf; simpl in Hf.
  - injection Hf as <-. split; [auto|]. split; [auto|].
    intros leaf child [Hin _]. apply elem_of_nil in Hin. contradiction.
  - inv_res. rename x into leaves.
    rename select (as_leaves _ _ _ = _) into Hl.
    destruct (IH _ _ Hf) as (H1 & H2 & H3).
    split; [|split].
    + intros leaf child Hd. destruct (H1 leaf child Hd) as [Hm|[Hin Hb]].
      * rewrite set_leaves_lookup in Hm.
        destruct (decide (leaf ∈ leaves)) as [Hleaf|_]; [|left; exact Hm].
        injection Hm as <-. right. split; [left|]. exists leaves. auto.
      * right. split; [right; exact Hin|exact Hb].
    + intros leaf Hs. apply H2. rewrite set_leaves_lookup.
      destruct (decide (leaf ∈ leaves)); [eexists; reflexivity|exact Hs].
    + intros leaf child [Hin (ls & Hls & Hleaf)].
      apply elem_of_cons in Hin. destruct Hin as [->|Hin].
      * apply H2. rewrite set_leaves_lookup. rewrite Hl in Hls.
        injection Hls as <-.
        destruct (decide (leaf ∈ leaves)); [eexists; reflexivity|].
        contradiction.
      * apply (H3 leaf child). split; [exact Hin|]. exists ls. auto.
Qed.

Lemma reference_rows_spec (leaf_to_type : gmap string string)
    (mean_profile_lookup : gmap string array1) (markers : list nat)
    (leaves : list string) :
  forall rows : list (string * array1),
  reference_rows leaf_to_type mean_profile_lookup markers leaves = Ok rows ->
  length rows = length leaves /\
  forall i leaf, leaves !! i = Some leaf ->
    exists child mu row,
      rows !! i = Some (child, row) /\
      leaf_to_type !! leaf = Some child /\
      mean_profile_lookup !! leaf = Some mu /\
      take_indices mu markers = Ok row.
Proof.
  induction leaves as [|l leaves IH]; intros rows Hr; simpl in Hr.
  - injection Hr as <-. split; [reflexivity|]. intros i leaf Hi.
    discriminate Hi.
  - inv_res. subst rows.
    rename select (reference_rows _ _ _ _ = _) into Hrest.
    destruct (IH _ Hrest) as [Hlen Hrows].
    split; [simpl; congruence|].
    intros [|i] leaf Hi; simpl in Hi.
    + injection Hi as <-. eexists _, _, _. repeat split; eassumption.
    + apply Hrows. exact Hi.
Qed.

End MatchingFacts.

(** C2 (as amended). The reference array that [assemble_query_data]
    returns for a parent has one row per leaf below the parent's
    immediate children, the leaves in the order of their names and each
    once. Row [i] is the mean profile of leaf [i] at the parent's
    reference markers, as it stands, and [reference_types[i]] is the
    immediate child that leaf [i] is below. *)
Theorem assemble_query_data_leaf_rows
    (full_query_data : array2) (mean_profile_lookup : gmap string array1)
    (taxonomy_tree : Taxonomy.TaxonomyTree)
    (marker_cache : gmap string Matching.marker_group)
    (parent_node : option (string * string)) (qd : Matching.query_data) :
  Matching.assemble_query_data full_query_data mean_profile_lookup
                               taxonomy_tree marker_cache parent_node
    = Ok qd ->
  exists immediate_children child_level grp leaves,
    Taxonomy.children taxonomy_tree parent_node = Ok immediate_children /\
    child_level_of taxonomy_tree parent_node = Some child_level /\
    marker_cache !! Matching.parent_grp parent_node = Some grp /\
    Sorted Taxonomy.str_le leaves /\ NoDup leaves /\
    (forall leaf, leaf ∈ leaves <->
       exists child,
         leaf_below taxonomy_tree child_level immediate_children leaf child) /\
    length (Matching.reference_data qd) = length leaves /\
    length (Matching.reference_types qd) = length leaves /\
    forall i leaf, leaves !! i = Some leaf ->
      exists child mu row,
        Matching.reference_types qd !! i = Some child /\
        leaf_below taxonomy_tree child_level immediate_children leaf child /\
        mean_profile_lookup !! leaf = Some mu /\
        Matching.take_indices mu (Matching.reference grp) = Ok row /\
        Matching.reference_data qd !! i = Some row.
Proof.
  unfold Matching.assemble_query_data. intros Ha. inv_res.
  destruct x as [cs child_level]. inv_res. subst qd. simpl.
  rename select (Matching.fill_leaf_to_type _ _ _ _ = _) into Hfill.
  rename select (Matching.reference_rows _ _ _ _ = _) into Hrows.
  rename select (marker_cache !! _ = _) into Hgrp.
  rename select (_ = Ok (cs, child_level)) into Hpar.
  lazymatch type of Hfill with _ = Ok ?m => rename m into ltt end.
  lazymatch type of Hgrp with _ = Some ?g => rename g into grp end.
  lazymatch type of Hrows with _ = Ok ?r => rename r into rows end.
  exists cs, child_level, grp, (Taxonomy.sort_names (Taxonomy.keys ltt)).
  assert (Hparent : Taxonomy.children taxonomy_tree parent_node = Ok cs /\
                    child_level_of taxonomy_tree parent_node
                      = Some child_level).
  { clear -Hpar.
    destruct parent_node as [[level node]|]; simpl in *; inv_res.
    - rename select (Taxonomy._data _ !! _ = _) into Hd.
      rename select (Taxonomy.level_to_idx _ !! _ = _) into Hi.
      rename select (Taxonomy.hierarchy _ !! _ = _) into Hh.
      rename select (_ !! node = _) into Hn.
      subst. rewrite Hd. simpl. rewrite Hn. simpl. rewrite Hi. simpl. auto.
    - rename select (Taxonomy.hierarchy _ !! _ = _) into Hh.
      rename select (Taxonomy._data _ !! _ = _) into Hd.
      subst. rewrite Hh. simpl. rewrite Hd. simpl. auto. }
  destruct Hparent as [Hc Hl].
  destruct (fill_leaf_to_type_spec _ _ _ _ _ Hfill) as (H1 & _ & H3).
  destruct (reference_rows_spec _ _ _ _ _ Hrows) as [Hlen Hrow].
  assert (Hbelow : forall leaf child,
            leaf_below taxonomy_tree child_level
                       (Taxonomy.sort_names cs) leaf child <->
            leaf_below taxonomy_tree child_level cs leaf child).
  { intros leaf child. unfold leaf_below. rewrite sort_names_elem_of.
    reflexivity. }
  split; [exact Hc|]. split; [exact Hl|]. split; [exact Hgrp|].
  split; [apply Sorted_merge_sort; apply _|].
  split.
  { unfold Taxonomy.sort_names. rewrite merge_sort_Permutation.
    apply keys_NoDup. }
  split.
  { intros leaf. rewrite sort_names_elem_of, keys_elem_of. split.
    - intros [child Hch]. exists child. apply Hbelow.
      destruct (H1 leaf child Hch) as [He|Hb]; [|exact Hb].
      rewrite lookup_empty in He. discriminate He.
    - intros [child Hb]. apply (H3 leaf child). apply Hbelow. exact Hb. }
  rewrite !length_fmap. split; [exact Hlen|]. split; [exact Hlen|].
  intros i leaf Hi.
  destruct (Hrow i leaf Hi) as (child & mu & row & Hr & Hch & Hmu & Htake).
  exists child, mu, row. rewrite !list_lookup_fmap, Hr. simpl.
  repeat split; try assumption.
  - destruct (H1 leaf child Hch) as [He|[Hin Hb]].
    + rewrite lookup_empty in He. discriminate He.
    + rewrite sort_names_elem_of in Hin. exact Hin.
  - destruct (H1 leaf child Hch) as [He|[Hin Hb]]; [|exact Hb].
    rewrite lookup_empty in He. discriminate He.
Qed.

(** C2 (as amended), at the root of [small_tree]. *)
Lemma assemble_query_data_leaf_rows_witness :
  exists leaves : list string,
    NoDup leaves /\
    (forall leaf, leaf ∈ leaves <->
       exists child,
         leaf_below Examples.small_tree "class" ["A"; "B"]%string
                    leaf child) /\
    length [[1; 2]; [3; 4]; [5; 6]] = length leaves.
Proof.
  destruct (assemble_query_data_leaf_rows [[1; 1]] Examples.small_means
              Examples.small_tree Examples.small_cache None
              {| Matching.query_data_ := [[1; 1]];
                 Matching.reference_data := [[1; 2]; [3; 4]; [5; 6]];
                 Matching.reference_types := ["A"; "A"; "B"]%string |})
    as (cs & child_level & grp & leaves & Hc & Hl & _ & _ & Hnd & Hin & Hlen & _).
  - vm_compute. reflexivity.
  - vm_compute in Hc. injection Hc as <-.
    vm_compute in Hl. injection Hl as <-.
    exists leaves. split; [exact Hnd|]. split; [exact Hin|exact Hlen].
Defined.

(** C2, the claim refuted. The root of [small_tree] has the two
    children "A" and "B"; "A" has the two leaves "c1" and "c2". The
    reference array has three rows, one per leaf, and the two rows of
    type "A" are the mean profiles of "c1" and "c2", not one row that
    averages them. *)
Lemma assemble_query_data_counterexample :
  Taxonomy.children Examples.small_tree None = Ok ["A"; "B"]%string /\
  Matching.assemble_query_data [[1; 1]] Examples.small_means
    Examples.small_tree Examples.small_cache None
  = Ok {| Matching.query_data_ := [[1; 1]];
          Matching.reference_data := [[1; 2]; [3; 4]; [5; 6]];
          Matching.reference_types := ["A"; "A"; "B"]%string |} /\
  length [[1; 2]; [3; 4]; [5; 6]] <> length ["A"; "B"]%string.
Proof.
  split; [vm_compute; reflexivity|].
  split; [vm_compute; reflexivity|].
  simpl. lia.
Qed.

(** ** The walk down the taxonomy *)

Section AssignmentFacts.
Context `{Collaborators}.
Import Taxonomy Matching Election Assignment.

Lemma rows_assigned_elem_of (chosen_idx : list nat) :
  forall (assignment : list string) (celltype : string) (idx : nat),
  idx ∈ rows_assigned chosen_idx assignment celltype <->
  exists k, chosen_idx !! k = Some idx /\ assignment !! k = Some celltype.
Proof.
  unfold rows_assigned.
  induction chosen_idx as [|i chosen_idx IH]; intros [|a assignment] ct idx;
    simpl.
  - rewrite elem_of_nil. split; [tauto|]. intros (k & Hk & _). discriminate.
  - rewrite elem_of_nil. split; [tauto|]. intros (k & Hk & _). discriminate.
  - rewrite elem_of_nil. split; [tauto|]. intros (k & _ & Hk). discriminate.
  - rewrite filter_cons. simpl. destruct (decide (a = ct)) as [->|Hne].
    + rewrite fmap_cons, elem_of_cons, IH. simpl. split.
      * intros [->|(k & Hk1 & Hk2)]; [exists O; auto|exists (S k); auto].
      * intros ([|k] & Hk1 & Hk2); simpl in *.
        -- left. congruence.
        -- right. exists k. auto.
    + rewrite IH. split.
      * intros (k & Hk1 & Hk2). exists (S k). auto.
      * intros ([|k] & Hk1 & Hk2); simpl in *; [congruence|].
        exists k. auto.
Qed.

Lemma rows_assigned_NoDup (chosen_idx : list nat) :
  forall (assignment : list string) (celltype : string),
  NoDup chosen_idx -> NoDup (rows_assigned chosen_idx assignment celltype).
Proof.
  unfold rows_assigned.
  induction chosen_idx as [|i chosen_idx IH]; intros [|a assignment] ct Hnd;
    simpl; try constructor.
  inversion Hnd as [|? ? Hi Hrest]; subst.
  rewrite filter_cons. simpl. destruct (decide (a = ct)) as [->|Hne].
  - rewrite fmap_cons. simpl. constructor; [|apply IH; exact Hrest].
    intros Hin. apply Hi.
    apply (rows_assigned_elem_of chosen_idx assignment ct i) in Hin.
    destruct Hin as (k & Hk & _). eapply list_elem_of_lookup_2; exact Hk.
  - apply IH; exact Hrest.
Qed.

Lemma record_results_spec (child_level : string) (chosen_idx : list nat) :
  forall (choices : list choice) (rs : list cell_result),
  NoDup chosen_idx ->
  length (record_results child_level chosen_idx choices rs) = length rs /\
  forall i,
    (i ∉ chosen_idx ->
     record_results child_level chosen_idx choices rs !! i = rs !! i) /\
    (forall k c, chosen_idx !! k = Some i -> choices !! k = Some c ->
       record_results child_level chosen_idx choices rs !! i
       = insert child_level (Some (record_of c)) <$> rs !! i).
Proof.
  unfold record_results.
  induction chosen_idx as [|i0 chosen_idx IH]; intros [|c0 choices] rs Hnd;
    simpl.
  - split; [reflexivity|]. intros i. split; [reflexivity|].
    intros k c Hk; discriminate.
  - split; [reflexivity|]. intros i. split; [reflexivity|].
    intros k c Hk; discriminate.
  - split; [reflexivity|]. intros i. split; [reflexivity|].
    intros k c _ Hk; discriminate.
  - inversion Hnd as [|? ? Hi0 Hrest]; subst.
    destruct (IH choices
                (alter (insert child_level (Some (record_of c0))) i0 rs) Hrest)
      as [Hlen Hlook].
    split; [rewrite Hlen; apply length_alter|].
    intros i. destruct (Hlook i) as [Hout Hin]. split.
    + intros Hni. apply not_elem_of_cons in Hni. destruct Hni as [Hne Hni].
      rewrite (Hout Hni). apply list_lookup_alter_ne. congruence.
    + intros [|k] c Hk Hc; simpl in *.
      * injection Hk as ->. injection Hc as ->.
        rewrite (Hout Hi0). apply list_lookup_alter_eq.
      * rewrite (Hin k c Hk Hc). rewrite list_lookup_alter_ne; [reflexivity|].
        intros ->. apply Hi0. eapply list_elem_of_lookup_2; exact Hk.
Qed.

(** The dict after the loop of [record_partition], level by level. *)
Lemma record_partition_spec (child_level : string) (chosen_idx : list nat)
    (assignment : list string) (pa : assigned_rows) :
  (forall level, level <> child_level ->
     record_partition child_level chosen_idx assignment pa !! level
     = pa !! level) /\
  forall inner, pa !! child_level = Some inner ->
    exists inner',
      record_partition child_level chosen_idx assignment pa !! child_level
        = Some inner' /\
      forall celltype,
        inner' !! celltype
        = if decide (celltype ∈ assignment)
          then Some (rows_assigned chosen_idx assignment celltype)
          else inner !! celltype.
Proof.
  unfold record_partition.
  assert (Hgen : forall (types : list string) (pa : assigned_rows),
    (forall level, level <> child_level ->
       foldl (fun pa celltype =>
                alter (insert celltype
                         (rows_assigned chosen_idx assignment celltype))
                      child_level pa) pa types !! level = pa !! level) /\
    forall inner, pa !! child_level = Some inner ->
      exists inner',
        foldl (fun pa celltype =>
                 alter (insert celltype
                          (rows_assigned chosen_idx assignment celltype))
                       child_level pa) pa types !! child_level = Some inner' /\
        forall celltype,
          inner' !! celltype
          = if decide (celltype ∈ types)
            then Some (rows_assigned chosen_idx assignment celltype)
            else inner !! celltype).
  { induction types as [|ct types IH]; intros pa0; simpl.
    - split; [reflexivity|]. intros inner Hin. exists inner.
      split; [exact Hin|]. intros celltype.
      destruct (decide (celltype ∈ [])) as [Hc|_]; [|reflexivity].
      apply elem_of_nil in Hc. contradiction.
    - destruct (IH (alter (insert ct (rows_assigned chosen_idx assignment ct))
                          child_level pa0)) as [Hother Hlevel].
      split.
      + intros level Hne. rewrite (Hother level Hne).
        apply lookup_alter_ne. congruence.
      + intros inner Hin.
        destruct (Hlevel (<[ct := rows_assigned chosen_idx assignment ct]>
                            inner)) as (inner' & Hi' & Hlook).
        { rewrite lookup_alter_eq, Hin. reflexivity. }
        exists inner'. split; [exact Hi'|]. intros celltype.
        rewrite Hlook.
        destruct (decide (celltype ∈ types)) as [Hin'|Hnin].
        * destruct (decide (celltype ∈ ct :: types)) as [_|Hn];
            [reflexivity|]. exfalso. apply Hn. right. exact Hin'.
        * destruct (decide (celltype = ct)) as [->|Hne].
          -- rewrite lookup_insert_eq.
             destruct (decide (ct ∈ ct :: types)) as [_|Hn]; [reflexivity|].
             exfalso. apply Hn. left.
          -- rewrite lookup_insert_ne by congruence.
             destruct (decide (celltype ∈ ct :: types)) as [Hc|_];
               [|reflexivity].
             apply elem_of_cons in Hc. destruct Hc; contradiction. }
  destruct (Hgen (remove_dups assignment) pa) as [Hother Hlevel].
  split; [exact Hother|].
  intros inner Hin. destruct (Hlevel inner Hin) as (inner' & Hi' & Hlook).
  exists inner'. split; [exact Hi'|]. intros celltype. rewrite Hlook.
  destruct (decide (celltype ∈ remove_dups assignment)) as [H1|H1];
    destruct (decide (celltype ∈ assignment)) as [H2|H2]; try reflexivity;
    rewrite elem_of_remove_dups in H1; contradiction.
Qed.

Lemma assigned_at_insert_eq (r : cell_result) (level : string) (c : choice) :
  assigned_at (<[level := Some (record_of c)]> r) level
  = Some (Election.result c).
Proof. unfold assigned_at. rewrite lookup_insert_eq. reflexivity. Qed.

Lemma assigned_at_agree (r r' : cell_result) (level : string) :
  r' !! level = r !! level -> assigned_at r' level = assigned_at r level.
Proof. unfold assigned_at. intros ->. reflexivity. Qed.

Lemma cell_of_parent_lt (rs : list cell_result)
    (parent : option (string * string)) (i : nat) :
  cell_of_parent rs parent i -> (i < length rs)%nat.
Proof.
  destruct parent as [[level node]|]; simpl; [|auto].
  intros (r & Hr & _). eapply lookup_lt_Some; exact Hr.
Qed.

(** A parent without cells leaves the state as it is. *)
Lemma parents_done_skip (t : TaxonomyTree) (rs0 rs : list cell_result)
    (child_level : string) (done : list (option (string * string)))
    (inner : gmap string (list nat)) (parent : option (string * string)) :
  parents_done t rs0 child_level done rs inner ->
  (forall idx, ~ cell_of_parent rs0 parent idx) ->
  parents_done t rs0 child_level (done ++ [parent]) rs inner.
Proof.
  intros (Hlen & Hagree & Hcells & Hlists) Hnone.
  split; [exact Hlen|]. split; [exact Hagree|]. split.
  - intros parent' i Hin Hcell. apply elem_of_app in Hin.
    destruct Hin as [Hin|Hin]; [apply (Hcells parent' i Hin Hcell)|].
    apply list_elem_of_singleton in Hin. subst parent'.
    exfalso. apply (Hnone i Hcell).
  - intros c idxs Hc. destruct (Hlists c idxs Hc) as (Hnd & p & cs & Hp & Hrest).
    split; [exact Hnd|]. exists p, cs. split; [|exact Hrest].
    apply elem_of_app. left. exact Hp.
Qed.

(** A parent with cells: its cells are recorded and partitioned. *)
Lemma parents_done_step (t : TaxonomyTree) (rs0 rs : list cell_result)
    (child_level : string) (done : list (option (string * string)))
    (inner inner' : gmap string (list nat))
    (parent : option (string * string))
    (chosen_idx : list nat) (choices : list choice) (cs : list string) :
  parents_done t rs0 child_level done rs inner ->
  (forall parent' idx, parent' ∈ done -> cell_of_parent rs0 parent' idx ->
     cell_of_parent rs0 parent idx -> False) ->
  (forall parent' cs' c, parent' ∈ done ->
     children t parent' = Ok cs' -> c ∈ cs' -> c ∈ cs -> False) ->
  NoDup chosen_idx ->
  (forall idx, idx ∈ chosen_idx <-> cell_of_parent rs0 parent idx) ->
  children t parent = Ok cs ->
  length choices = length chosen_idx ->
  Forall (fun ch => Election.result ch ∈ cs) choices ->
  (forall celltype,
     inner' !! celltype
     = if decide (celltype ∈ Election.result <$> choices)
       then Some (rows_assigned chosen_idx (Election.result <$> choices)
                                celltype)
       else inner !! celltype) ->
  parents_done t rs0 child_level (done ++ [parent])
               (record_results child_level chosen_idx choices rs) inner'.
Proof.
  intros (Hlen & Hagree & Hcells & Hlists) Huniq Hdisj Hnd Hchosen Hcs
         Hlc Hres Hinner.
  destruct (record_results_spec child_level chosen_idx choices rs Hnd)
    as [Hlen' Hlook].
  set (rs' := record_results child_level chosen_idx choices rs) in *.
  (* what happens to a cell of the parent *)
  assert (Hnew : forall i, i ∈ chosen_idx ->
            exists k ch r,
              chosen_idx !! k = Some i /\ choices !! k = Some ch /\
              rs !! i = Some r /\
              rs' !! i = Some (<[child_level := Some (record_of ch)]> r)).
  { intros i Hi. destruct (list_elem_of_lookup_1 _ _ Hi) as [k Hk].
    destruct (lookup_lt_is_Some_2 choices k) as [ch Hch].
    { rewrite Hlc. eapply lookup_lt_Some; exact Hk. }
    apply Hchosen, cell_of_parent_lt in Hi.
    destruct (lookup_lt_is_Some_2 rs0 i Hi) as [r0 Hr0].
    destruct (Hagree i r0 Hr0) as (r & Hr & _).
    exists k, ch, r. repeat split; try assumption.
    destruct (Hlook i) as [_ Hin]. rewrite (Hin k ch Hk Hch), Hr.
    reflexivity. }
  assert (Hold : forall i, i ∉ chosen_idx -> rs' !! i = rs !! i).
  { intros i Hi. destruct (Hlook i) as [Hout _]. exact (Hout Hi). }
  assert (Htypes : forall k ch, choices !! k = Some ch ->
            Election.result ch ∈ cs).
  { intros k ch Hch. rewrite Forall_lookup in Hres. exact (Hres k ch Hch). }
  split; [congruence|]. split; [|split].
  - intros i r0 Hr0. destruct (Hagree i r0 Hr0) as (r & Hr & Hsame).
    destruct (decide (i ∈ chosen_idx)) as [Hi|Hi].
    + destruct (Hnew i Hi) as (k & ch & r1 & _ & _ & Hr1 & Hr').
      rewrite Hr in Hr1. injection Hr1 as <-.
      eexists. split; [exact Hr'|]. intros level Hne.
      rewrite lookup_insert_ne by congruence. apply Hsame. exact Hne.
    + exists r. rewrite (Hold i Hi). auto.
  - intros parent' i Hin Hcell. apply elem_of_app in Hin.
    destruct Hin as [Hin|Hin].
    + destruct (Hcells parent' i Hin Hcell)
        as (r & c & cs' & idxs & Hr & Ha & Hcs' & Hc & Hi & Hidx).
      assert (Hni : i ∉ chosen_idx).
      { intros Hi'. apply Hchosen in Hi'.
        exact (Huniq parent' i Hin Hcell Hi'). }
      exists r, c, cs', idxs. rewrite (Hold i Hni).
      repeat split; try assumption.
      rewrite Hinner.
      destruct (decide (c ∈ Election.result <$> choices)) as [Hc'|_];
        [|exact Hi].
      exfalso. apply list_elem_of_fmap in Hc'.
      destruct Hc' as (ch & -> & Hch).
      destruct (list_elem_of_lookup_1 _ _ Hch) as [k Hk].
      exact (Hdisj parent' cs' _ Hin Hcs' Hc (Htypes k ch Hk)).
    + apply list_elem_of_singleton in Hin. subst parent'.
      apply Hchosen in Hcell.
      destruct (Hnew i Hcell) as (k & ch & r & Hk & Hch & Hr & Hr').
      exists (<[child_level := Some (record_of ch)]> r),
             (Election.result ch), cs,
             (rows_assigned chosen_idx (Election.result <$> choices)
                            (Election.result ch)).
      split; [exact Hr'|]. split; [apply assigned_at_insert_eq|].
      split; [exact Hcs|]. split; [exact (Htypes k ch Hch)|].
      split.
      * rewrite Hinner.
        destruct (decide (Election.result ch ∈ Election.result <$> choices))
          as [_|Hn]; [reflexivity|].
        exfalso. apply Hn. apply list_elem_of_fmap. exists ch.
        split; [reflexivity|]. eapply list_elem_of_lookup_2; exact Hch.
      * apply rows_assigned_elem_of. exists k. split; [exact Hk|].
        rewrite list_lookup_fmap, Hch. reflexivity.
  - intros c idxs Hc. rewrite Hinner in Hc.
    destruct (decide (c ∈ Election.result <$> choices)) as [Hc'|Hc'].
    + injection Hc as <-. split; [apply rows_assigned_NoDup; exact Hnd|].
      exists parent, cs. split; [apply elem_of_app; right; left|].
      split; [exact Hcs|]. split.
      { apply list_elem_of_fmap in Hc'. destruct Hc' as (ch & -> & Hch).
        destruct (list_elem_of_lookup_1 _ _ Hch) as [k Hk].
        exact (Htypes k ch Hk). }
      intros idx Hidx. apply rows_assigned_elem_of in Hidx.
      destruct Hidx as (k & Hk & Hak).
      assert (Hin : idx ∈ chosen_idx)
        by (eapply list_elem_of_lookup_2; exact Hk).
      split; [apply Hchosen; exact Hin|].
      destruct (Hnew idx Hin) as (k' & ch & r & Hk' & Hch & Hr & Hr').
      assert (k' = k) by (eapply NoDup_lookup; eassumption). subst k'.
      rewrite list_lookup_fmap, Hch in Hak. injection Hak as <-.
      eexists. split; [exact Hr'|]. apply assigned_at_insert_eq.
    + destruct (Hlists c idxs Hc) as (Hnd' & p & cs' & Hp & Hcs' & Hcin & Hall).
      split; [exact Hnd'|]. exists p, cs'.
      split; [apply elem_of_app; left; exact Hp|].
      split; [exact Hcs'|]. split; [exact Hcin|].
      intros idx Hidx. destruct (Hall idx Hidx) as (Hcell & r & Hr & Ha).
      split; [exact Hcell|]. exists r. split; [|exact Ha].
      rewrite Hold; [exact Hr|].
      intros Hi'. apply Hchosen in Hi'. exact (Huniq p idx Hp Hcell Hi').
Qed.

(** [choose_node] returns one choice per query row, each the type of
    one of the reference rows. *)
Lemma choose_node_results (query_gene_data reference_gene_data : array2)
    (reference_types : list string) (bootstrap_factor : Q)
    (bootstrap_iteration : nat) (rng rng' : rng_state)
    (choices : list choice) :
  choose_node query_gene_data reference_gene_data reference_types
              bootstrap_factor bootstrap_iteration rng = Ok (choices, rng') ->
  length choices = length query_gene_data /\
  Forall (fun ch => Election.result ch ∈ reference_types) choices.
Proof.
  unfold choose_node. intros Hc. inv_res.
  destruct x as [[votes corr_sum] rng1]. inv_res. subst.
  rename select (tally_votes _ _ _ _ _ = _) into Ht.
  rename select (choose_rows _ _ _ _ = _) into Hch.
  destruct (tally_votes_length _ _ _ _ _ _ _ _ Ht) as [Hlv _].
  destruct (choose_rows_lookup _ _ _ _ _ Hch) as [Hl Hrows].
  split; [congruence|]. apply Forall_lookup_2. intros i c Hi.
  destruct (Hrows i c Hi) as (vr & cr & _ & _ & Hrow).
  destruct (choose_row_spec _ _ _ _ _ Hrow)
    as (w & n & s & _ & _ & _ & _ & Hty & _).
  eapply list_elem_of_lookup_2; exact Hty.
Qed.

(** [assemble_query_data] keeps one query row per cell, and the types
    of its reference rows are children of the parent. *)
Lemma assemble_query_data_types (full_query_data : array2)
    (mean_profile_lookup : gmap string array1) (t : TaxonomyTree)
    (marker_cache : gmap string marker_group)
    (parent_node : option (string * string)) (qd : query_data) :
  assemble_query_data full_query_data mean_profile_lookup t marker_cache
                      parent_node = Ok qd ->
  length (query_data_ qd) = length full_query_data /\
  exists cs, children t parent_node = Ok cs /\
             Forall (fun c => c ∈ cs) (reference_types qd).
Proof.
  unfold assemble_query_data. intros Ha. inv_res.
  destruct x as [cs child_level]. inv_res. subst qd. simpl.
  rename select (fill_leaf_to_type _ _ _ _ = _) into Hfill.
  rename select (reference_rows _ _ _ _ = _) into Hrows.
  rename select (res_mapM _ full_query_data = _) into Hq.
  rename select (_ = Ok (cs, child_level)) into Hpar.
  split; [eapply res_mapM_length; exact Hq|].
  exists cs. split.
  - clear -Hpar.
    destruct parent_node as [[level node]|]; simpl in *; inv_res.
    + rename select (_data _ !! _ = _) into Hd.
      rename select (_ !! node = _) into Hn.
      subst. rewrite Hd. simpl. rewrite Hn. reflexivity.
    + rename select (hierarchy _ !! _ = _) into Hh.
      rename select (_data _ !! _ = _) into Hd.
      subst. rewrite Hh. simpl. rewrite Hd. reflexivity.
  - destruct (fill_leaf_to_type_spec _ _ _ _ _ Hfill) as (H1 & _ & _).
    destruct (reference_rows_spec _ _ _ _ _ Hrows) as [Hlen Hrow].
    apply Forall_lookup_2. intros i c Hi.
    rewrite list_lookup_fmap in Hi.
    destruct (x2 !! i) as [[c' row]|] eqn:Hx; [|discriminate Hi].
    simpl in Hi. injection Hi as <-.
    destruct (lookup_lt_is_Some_2 (sort_names (keys x)) i) as [leaf Hleaf].
    { rewrite <- Hlen. eapply lookup_lt_Some; exact Hx. }
    destruct (Hrow i leaf Hleaf) as (child & mu & row' & Hr & Hch & _).
    rewrite Hx in Hr. injection Hr as <- <-.
    destruct (H1 leaf c' Hch) as [He|[Hin _]].
    + rewrite lookup_empty in He. discriminate He.
    + rewrite sort_names_elem_of in Hin. exact Hin.
Qed.

(** The choices that the body of the loop over the parents obtains
    for a parent: one per chosen cell, each a child of the parent. *)
Lemma parent_choices (leaf_node_matrix : gmap string array1)
    (marker_gene_cache : gmap string marker_group) (t : TaxonomyTree)
    (bootstrap_factor : Q) (bootstrap_iteration : nat)
    (parent_node : option (string * string))
    (chosen_query_data : array2) (possible_children : list string)
    (rng0 rng1 : rng_state) (choices : list choice) :
  children t parent_node = Ok possible_children ->
  match possible_children with
  | [] => Raise RuntimeError
  | [only_child] =>
      Ok (replicate (length chosen_query_data)
            {| Election.result := only_child;
               vote_fraction := Some 1;
               Election.avg_corr := Some 1 |},
          rng0)
  | _ :: _ :: _ =>
      _run_type_assignment chosen_query_data leaf_node_matrix
                           marker_gene_cache t parent_node
                           bootstrap_factor bootstrap_iteration rng0
  end = Ok (choices, rng1) ->
  length choices = length chosen_query_data /\
  Forall (fun ch => Election.result ch ∈ possible_children) choices.
Proof.
  intros Hcs Hm. destruct possible_children as [|c1 [|c2 cs]].
  - discriminate Hm.
  - injection Hm as <- _. split; [apply length_replicate|].
    apply Forall_replicate. simpl. left.
  - unfold _run_type_assignment in Hm. inv_res.
    rename select (assemble_query_data _ _ _ _ _ = _) into Ha.
    destruct (assemble_query_data_types _ _ _ _ _ _ Ha)
      as (Hlq & cs' & Hcs' & Hty).
    rewrite Hcs in Hcs'. injection Hcs' as <-.
    destruct (choose_node_results _ _ _ _ _ _ _ _ Hm) as [Hlc Hres].
    split; [congruence|].
    eapply Forall_impl; [exact Hres|]. simpl. intros ch Hin.
    rewrite Forall_forall in Hty. apply Hty. exact Hin.
Qed.

(** One turn of the loop over the parents of a level. *)
Lemma assign_parent_inv (full_query_gene_data : array2)
    (leaf_node_matrix : gmap string array1)
    (marker_gene_cache : gmap string marker_group) (t : TaxonomyTree)
    (bootstrap_factor : Q) (bootstrap_iteration : nat)
    (child_level : string) (parent : option (string * string))
    (rs0 : list cell_result) (done : list (option (string * string)))
    (inner : gmap string (list nat)) (st st' : walk_state) :
  assign_parent full_query_gene_data leaf_node_matrix marker_gene_cache t
                bootstrap_factor bootstrap_iteration child_level parent st
    = Ok st' ->
  previously_assigned st !! child_level = Some inner ->
  parents_done t rs0 child_level done (results st) inner ->
  (forall parent' idx, parent' ∈ done -> cell_of_parent rs0 parent' idx ->
     cell_of_parent rs0 parent idx -> False) ->
  (forall parent' cs' cs c, parent' ∈ done ->
     children t parent' = Ok cs' -> children t parent = Ok cs ->
     c ∈ cs' -> c ∈ cs -> False) ->
  (forall chosen_idx,
     chosen_idx_of (length full_query_gene_data) (previously_assigned st)
                   parent = Some chosen_idx ->
     NoDup chosen_idx /\
     forall idx, idx ∈ chosen_idx <-> cell_of_parent rs0 parent idx) ->
  parents_voted full_query_gene_data leaf_node_matrix marker_gene_cache t
                bootstrap_factor bootstrap_iteration rs0 child_level done
                (results st) ->
  exists inner',
    previously_assigned st' !! child_level = Some inner' /\
    parents_done t rs0 child_level (done ++ [parent]) (results st') inner' /\
    (forall level, level <> child_level ->
       previously_assigned st' !! level = previously_assigned st !! level) /\
    parents_voted full_query_gene_data leaf_node_matrix marker_gene_cache t
                  bootstrap_factor bootstrap_iteration rs0 child_level
                  (done ++ [parent]) (results st').
Proof.
  intros Ha Hinner Hdone Huniq Hdisj Hchosen Hvoted.
  unfold assign_parent in Ha. inv_res. rename x into chosen_idx.
  rename select (chosen_idx_of _ _ _ = _) into Hci.
  destruct (Hchosen chosen_idx Hci) as [Hnd Hcells].
  destruct chosen_idx as [|i0 chosen_idx].
  - injection Ha as <-. exists inner. split; [exact Hinner|].
    split; [|split; [reflexivity|]].
    + apply parents_done_skip; [exact Hdone|].
      intros idx Hc. apply Hcells in Hc. apply elem_of_nil in Hc. exact Hc.
    + intros parent' Hin. apply elem_of_app in Hin.
      destruct Hin as [Hin|Hin]; [exact (Hvoted parent' Hin)|].
      apply list_elem_of_singleton in Hin. subst parent'.
      intros [idx Hc]. apply Hcells in Hc. apply elem_of_nil in Hc.
      contradiction.
  - inv_res. destruct x1 as [choices rng1]. inv_res. subst st'. simpl.
    rename select (downsample_cells _ _ = _) into Hds.
    rename select (children _ _ = _) into Hcs.
    rename select (_ = Ok (choices, rng1)) into Hm.
    pose proof (res_mapM_length _ _ _ Hds) as Hlds.
    destruct (parent_choices _ _ _ _ _ _ _ _ _ _ _ Hcs Hm) as [Hlc Hres].
    destruct (record_partition_spec child_level (i0 :: chosen_idx)
                (Election.result <$> choices) (previously_assigned st))
      as [Hother Hlevel].
    destruct (Hlevel inner Hinner) as (inner' & Hi' & Hlook).
    exists inner'. split; [exact Hi'|]. split; [|split; [exact Hother|]].
    + eapply parents_done_step; try eassumption.
      * intros parent' cs' c Hp Hcs' Hc Hc'.
        exact (Hdisj parent' cs' _ c Hp Hcs' Hcs Hc Hc').
      * congruence.
    + destruct (record_results_spec child_level (i0 :: chosen_idx) choices
                  (results st) Hnd) as [_ Hrec].
      intros parent' Hin. apply elem_of_app in Hin.
      destruct Hin as [Hin|Hin].
      * intros Hsome.
        destruct (Hvoted parent' Hin Hsome)
          as (cells & Hndc & Hcellsc & data & cs' & chs & g & g' & Hd & Hc'
              & Hv & Hl & Hf & Hrs).
        exists cells. split; [exact Hndc|]. split; [exact Hcellsc|].
        exists data, cs', chs, g, g'. repeat (split; [assumption|]).
        intros k j c Hk Hch. destruct (Hrs k j c Hk Hch) as (r & Hr & Hrl).
        exists r. split; [|exact Hrl].
        destruct (Hrec j) as [Hout _]. rewrite Hout; [exact Hr|].
        intros Hj. apply Hcells in Hj.
        apply (Huniq parent' j Hin); [|exact Hj].
        apply Hcellsc. eapply list_elem_of_lookup_2; exact Hk.
      * apply list_elem_of_singleton in Hin. subst parent'. intros _.
        exists (i0 :: chosen_idx). split; [exact Hnd|].
        split; [exact Hcells|].
        eexists _, _, choices, (rng st), rng1.
        split; [exact Hds|]. split; [exact Hcs|]. split; [exact Hm|].
        split; [congruence|]. split; [exact Hres|].
        intros k j c Hk Hch.
        destruct (Hrec j) as [_ Hin]. rewrite (Hin k c Hk Hch).
        destruct Hdone as (Hlen0 & _).
        destruct (lookup_lt_is_Some_2 (results st) j) as [r Hr].
        { rewrite Hlen0. apply (cell_of_parent_lt rs0 parent).
          apply Hcells. eapply list_elem_of_lookup_2; exact Hk. }
        rewrite Hr. simpl. eexists. split; [reflexivity|].
        apply lookup_insert_eq.
Qed.

(** The loop over the parents of a level. *)
Lemma for_each_parent_inv (full_query_gene_data : array2)
    (leaf_node_matrix : gmap string array1)
    (marker_gene_cache : gmap string marker_group) (t : TaxonomyTree)
    (bootstrap_factor : Q) (bootstrap_iteration : nat)
    (child_level : string) (rs0 : list cell_result)
    (pa0 : assigned_rows) (todo : list (option (string * string))) :
  forall (done : list (option (string * string)))
         (inner : gmap string (list nat)) (st st' : walk_state),
  for_each (assign_parent full_query_gene_data leaf_node_matrix
                          marker_gene_cache t bootstrap_factor
                          bootstrap_iteration child_level) todo st = Ok st' ->
  previously_assigned st !! child_level = Some inner ->
  (forall level, level <> child_level ->
     previously_assigned st !! level = pa0 !! level) ->
  parents_done t rs0 child_level done (results st) inner ->
  NoDup (done ++ todo) ->
  (forall parent parent' idx, parent ∈ done ++ todo -> parent' ∈ done ++ todo ->
     cell_of_parent rs0 parent idx -> cell_of_parent rs0 parent' idx ->
     parent = parent') ->
  (forall parent parent' cs cs' c,
     parent ∈ done ++ todo -> parent' ∈ done ++ todo ->
     children t parent = Ok cs -> children t parent' = Ok cs' ->
     c ∈ cs -> c ∈ cs' -> parent = parent') ->
  (forall parent pa chosen_idx, parent ∈ todo ->
     (forall level, level <> child_level -> pa !! level = pa0 !! level) ->
     chosen_idx_of (length full_query_gene_data) pa parent
       = Some chosen_idx ->
     NoDup chosen_idx /\
     forall idx, idx ∈ chosen_idx <-> cell_of_parent rs0 parent idx) ->
  parents_voted full_query_gene_data leaf_node_matrix marker_gene_cache t
                bootstrap_factor bootstrap_iteration rs0 child_level done
                (results st) ->
  exists inner',
    previously_assigned st' !! child_level = Some inner' /\
    parents_done t rs0 child_level (done ++ todo) (results st') inner' /\
    (forall level, level <> child_level ->
       previously_assigned st' !! level = pa0 !! level) /\
    parents_voted full_query_gene_data leaf_node_matrix marker_gene_cache t
                  bootstrap_factor bootstrap_iteration rs0 child_level
                  (done ++ todo) (results st').
Proof.
  induction todo as [|parent todo IH];
    intros done inner st st' Hloop Hinner Hother Hdone Hnd Huniq Hdisj
           Hchosen Hvoted; simpl in Hloop.
  - injection Hloop as <-. exists inner. rewrite app_nil_r. auto.
  - inv_res. rename x into st1.
    rename select (assign_parent _ _ _ _ _ _ _ _ _ = _) into Hstep.
    assert (Hnotin : parent ∉ done).
    { apply NoDup_app in Hnd. destruct Hnd as (_ & Hnd & _).
      intros Hin. apply (Hnd parent Hin). left. }
    destruct (assign_parent_inv _ _ _ _ _ _ _ _ rs0 done inner _ _
                Hstep Hinner Hdone)
      as (inner1 & Hi1 & Hdone1 & Hother1 & Hvoted1).
    + intros parent' idx Hp Hc Hc'. apply Hnotin.
      rewrite <- (Huniq parent' parent idx); try assumption.
      * apply elem_of_app. left. exact Hp.
      * apply elem_of_app. right. left.
    + intros parent' cs' cs c Hp Hcs' Hcs Hc Hc'. apply Hnotin.
      rewrite <- (Hdisj parent' parent cs' cs c); try assumption.
      * apply elem_of_app. left. exact Hp.
      * apply elem_of_app. right. left.
    + intros chosen_idx Hci.
      apply (Hchosen parent (previously_assigned st) chosen_idx);
        [left|exact Hother|exact Hci].
    + exact Hvoted.
    + replace (done ++ parent :: todo) with ((done ++ [parent]) ++ todo)
        in * by (rewrite <- app_assoc; reflexivity).
      apply (IH (done ++ [parent]) inner1 st1 st' Hloop Hi1); try assumption.
      * intros level Hne. rewrite (Hother1 level Hne). apply Hother. exact Hne.
      * intros p pa chosen_idx Hp. apply Hchosen. right. exact Hp.
Qed.

Lemma children_Some (t : TaxonomyTree) (level node : string)
    (cs : list string) :
  children t (Some (level, node)) = Ok cs <->
  exists nodes, _data t !! level = Some nodes /\ nodes !! node = Some cs.
Proof.
  simpl. split.
  - intros Hc. inv_res. subst. eauto.
  - intros (nodes & Hn & Hcs). rewrite Hn. simpl. rewrite Hcs. reflexivity.
Qed.

Lemma mjoin_disjoint {K A} (l : list (K * list A)) :
  NoDup (mjoin l.*2) ->
  forall k k' v v' c, (k, v) ∈ l -> (k', v') ∈ l -> c ∈ v -> c ∈ v' -> k = k'.
Proof.
  induction l as [|[k0 v0] l IH]; intros Hnd k k' v v' c Hk Hk' Hc Hc'.
  - apply elem_of_nil in Hk. contradiction.
  - simpl in Hnd. apply NoDup_app in Hnd. destruct Hnd as (_ & Hcross & Hnd).
    assert (Htail : forall k1 v1, (k1, v1) ∈ l -> c ∈ v1 -> c ∈ mjoin l.*2).
    { intros k1 v1 Hin Hcv. apply list_elem_of_join. exists v1.
      split; [exact Hcv|]. apply list_elem_of_fmap. exists (k1, v1). auto. }
    apply elem_of_cons in Hk. apply elem_of_cons in Hk'.
    destruct Hk as [Hk|Hk]; destruct Hk' as [Hk'|Hk'].
    + congruence.
    + injection Hk as -> ->. exfalso.
      apply (Hcross c Hc). eapply Htail; eassumption.
    + injection Hk' as -> ->. exfalso.
      apply (Hcross c Hc'). eapply Htail; eassumption.
    + eapply IH; eassumption.
Qed.

(** In a valid tree no node is a child of two parents, and a child is
    a node of the next level. *)
Lemma valid_children (t : TaxonomyTree) (lp lc : string) :
  valid_level_pair (_data t) (lp, lc) ->
  exists next, _data t !! lc = Some next /\
    (forall p cs c, children t (Some (lp, p)) = Ok cs -> c ∈ cs ->
       is_Some (next !! c)) /\
    (forall p p' cs cs' c,
       children t (Some (lp, p)) = Ok cs ->
       children t (Some (lp, p')) = Ok cs' ->
       c ∈ cs -> c ∈ cs' -> p = p').
Proof.
  intros Hv. unfold valid_level_pair in Hv. simpl in Hv.
  destruct (_data t !! lp) as [nodes|] eqn:Hn in Hv; [|contradiction].
  destruct (_data t !! lc) as [next|] eqn:Hx in Hv; [|contradiction].
  destruct Hv as [Hnd Hall]. exists next. split; [exact Hx|]. split.
  - intros p cs c Hcs Hc. apply children_Some in Hcs.
    destruct Hcs as (nodes' & Hn' & Hp). rewrite Hn in Hn'.
    injection Hn' as <-. rewrite Forall_forall in Hall. apply Hall.
    unfold all_children. apply list_elem_of_join. exists cs.
    split; [exact Hc|]. apply list_elem_of_fmap. exists (p, cs).
    split; [reflexivity|]. apply elem_of_map_to_list. exact Hp.
  - intros p p' cs cs' c Hcs Hcs' Hc Hc'.
    apply children_Some in Hcs. apply children_Some in Hcs'.
    destruct Hcs as (n1 & Hn1 & Hp). destruct Hcs' as (n2 & Hn2 & Hp').
    rewrite Hn in Hn1, Hn2. injection Hn1 as <-. injection Hn2 as <-.
    eapply (mjoin_disjoint (map_to_list nodes) Hnd);
      try (apply elem_of_map_to_list); eassumption.
Qed.

Lemma walk_ok_agree (t : TaxonomyTree) (levels : list string)
    (r r' : cell_result) :
  forall parent,
  (forall level, level ∈ levels -> r' !! level = r !! level) ->
  walk_ok t parent levels r -> walk_ok t parent levels r'.
Proof.
  induction levels as [|level levels IH]; intros parent Hsame Hw; simpl;
    [exact I|].
  destruct Hw as (c & cs & Ha & Hcs & Hc & Hrest).
  exists c, cs. split.
  - rewrite (assigned_at_agree r r' level); [exact Ha|]. apply Hsame. left.
  - split; [exact Hcs|]. split; [exact Hc|]. apply IH; [|exact Hrest].
    intros l Hl. apply Hsame. right. exact Hl.
Qed.

Lemma walk_ok_snoc (t : TaxonomyTree) (levels : list string)
    (r : cell_result) (lc c : string) (cs : list string)
    (tip : option (string * string)) :
  forall parent,
  walk_ok t parent levels r ->
  (levels = [] /\ tip = parent) \/
  (exists lp p, last levels = Some lp /\ assigned_at r lp = Some p /\
                tip = Some (lp, p)) ->
  assigned_at r lc = Some c -> children t tip = Ok cs -> c ∈ cs ->
  walk_ok t parent (levels ++ [lc]) r.
Proof.
  induction levels as [|level levels IH]; intros parent Hw Htip Ha Hcs Hc.
  - destruct Htip as [[_ ->]|(lp & p & Hl & _)]; [|discriminate Hl].
    simpl. exists c, cs. auto.
  - destruct Hw as (c0 & cs0 & Ha0 & Hcs0 & Hc0 & Hrest).
    simpl. exists c0, cs0. split; [exact Ha0|]. split; [exact Hcs0|].
    split; [exact Hc0|]. apply IH; try assumption.
    destruct Htip as [[Hnil _]|(lp & p & Hl & Hp & ->)]; [discriminate Hnil|].
    destruct levels as [|l2 levels].
    + left. simpl in Hl. injection Hl as <-. rewrite Ha0 in Hp.
      injection Hp as <-. auto.
    + right. exists lp, p. auto.
Qed.

Lemma level_pairs_cons (x y : string) (l : list string) :
  level_pairs (x :: y :: l) = (x, y) :: level_pairs (y :: l).
Proof. reflexivity. Qed.

Lemma level_pairs_snoc (levels : list string) (lc : string) :
  level_pairs (levels ++ [lc])
  = level_pairs levels
    ++ match last levels with Some lp => [(lp, lc)] | None => [] end.
Proof.
  induction levels as [|x levels IH]; [reflexivity|].
  destruct levels as [|y levels]; [reflexivity|].
  change ((x :: y :: levels) ++ [lc]) with (x :: y :: (levels ++ [lc])).
  rewrite !level_pairs_cons.
  change (y :: (levels ++ [lc])) with ((y :: levels) ++ [lc]).
  rewrite IH. reflexivity.
Qed.

Lemma level_pairs_elem_of (levels : list string) (lp lc : string) :
  (lp, lc) ∈ level_pairs levels -> lp ∈ levels /\ lc ∈ levels.
Proof.
  induction levels as [|x levels IH]; intros Hin.
  - apply elem_of_nil in Hin. contradiction.
  - destruct levels as [|y levels].
    + apply elem_of_nil in Hin. contradiction.
    + rewrite level_pairs_cons in Hin. apply elem_of_cons in Hin.
      destruct Hin as [Heq|Hin].
      * injection Heq as -> ->. split; [left|right; left].
      * destruct (IH Hin) as [H1 H2]. split; right; assumption.
Qed.

(** A level is the first, or comes after another. *)
Lemma level_step (levels : list string) (level : string) :
  level ∈ levels ->
  levels !! O = Some level \/ exists lp, (lp, level) ∈ level_pairs levels.
Proof.
  induction levels as [|x levels IH]; intros Hin.
  - apply elem_of_nil in Hin. contradiction.
  - apply elem_of_cons in Hin. destruct Hin as [->|Hin]; [left; reflexivity|].
    right. destruct levels as [|y levels].
    + apply elem_of_nil in Hin. contradiction.
    + rewrite level_pairs_cons. destruct (IH Hin) as [Hy|[lp Hlp]].
      * simpl in Hy. injection Hy as ->. exists x. left.
      * exists lp. right. exact Hlp.
Qed.

Lemma walk_step_elem_of (levels : list string)
    (parent : option (string * string)) (child_level : string) :
  walk_step levels parent child_level ->
  child_level ∈ levels /\
  forall lp p, parent = Some (lp, p) -> lp ∈ levels.
Proof.
  destruct parent as [[lp p]|]; simpl; intros Hstep.
  - apply level_pairs_elem_of in Hstep. destruct Hstep as [H1 H2].
    split; [exact H2|]. intros lp' p' Heq. injection Heq as <- <-. exact H1.
  - split; [eapply list_elem_of_lookup_2; exact Hstep|].
    intros lp p Heq. discriminate Heq.
Qed.

(** A turn over the levels [done ++ [lc]] is a turn over [done], or
    the turn of a parent of the last level of [done] with [lc]. *)
Lemma walk_step_snoc (done : list string) (lc : string)
    (parent : option (string * string)) (child_level : string) :
  walk_step (done ++ [lc]) parent child_level ->
  walk_step done parent child_level \/
  (child_level = lc /\
   ((done = [] /\ parent = None) \/
    (exists lp p, last done = Some lp /\ parent = Some (lp, p)))).
Proof.
  destruct parent as [[lp p]|]; simpl; intros Hstep.
  - rewrite level_pairs_snoc in Hstep. apply elem_of_app in Hstep.
    destruct Hstep as [Hstep|Hstep]; [left; exact Hstep|].
    destruct (last done) as [lp'|] eqn:Hl.
    + apply list_elem_of_singleton in Hstep. injection Hstep as -> ->.
      right. split; [reflexivity|]. right. exists lp', p. auto.
    + apply elem_of_nil in Hstep. contradiction.
  - destruct done as [|x done]; simpl in Hstep.
    + injection Hstep as <-. right. auto.
    + left. exact Hstep.
Qed.

Lemma levels_voted_nil (full_query_gene_data : array2)
    (leaf_node_matrix : gmap string array1)
    (marker_gene_cache : gmap string marker_group) (t : TaxonomyTree)
    (bootstrap_factor : Q) (bootstrap_iteration : nat)
    (rs : list cell_result) :
  levels_voted full_query_gene_data leaf_node_matrix marker_gene_cache t
               bootstrap_factor bootstrap_iteration [] rs.
Proof.
  intros [[lp p]|] cl Hstep; simpl in Hstep.
  - apply elem_of_nil in Hstep. contradiction.
  - discriminate Hstep.
Qed.

(** The votes after the loop over the parents [todo] of one level:
    those of the levels before, which the loop leaves as they are, and
    those of the parents of this level. *)
Lemma level_loop_voted (full_query_gene_data : array2)
    (leaf_node_matrix : gmap string array1)
    (marker_gene_cache : gmap string marker_group) (t : TaxonomyTree)
    (bootstrap_factor : Q) (bootstrap_iteration : nat)
    (done : list string) (child_level : string)
    (todo : list (option (string * string)))
    (rs0 rs : list cell_result) :
  length rs = length rs0 ->
  (forall i r0, rs0 !! i = Some r0 ->
     exists r, rs !! i = Some r /\
       forall level, level <> child_level -> r !! level = r0 !! level) ->
  child_level ∉ done ->
  (forall i r0, rs0 !! i = Some r0 ->
     exists parent, parent ∈ todo /\ cell_of_parent rs0 parent i /\
       ((done = [] /\ parent = None) \/
        (exists lp p, last done = Some lp /\ assigned_at r0 lp = Some p /\
                      parent = Some (lp, p)))) ->
  levels_voted full_query_gene_data leaf_node_matrix marker_gene_cache t
               bootstrap_factor bootstrap_iteration done rs0 ->
  parents_voted full_query_gene_data leaf_node_matrix marker_gene_cache t
                bootstrap_factor bootstrap_iteration rs0 child_level todo
                rs ->
  levels_voted full_query_gene_data leaf_node_matrix marker_gene_cache t
               bootstrap_factor bootstrap_iteration (done ++ [child_level])
               rs.
Proof.
  intros Hlen Hagree Hfresh Hcover Hvoted0 Hvoted.
  assert (Hsame : forall p j,
            (forall lp n, p = Some (lp, n) -> lp <> child_level) ->
            cell_of_parent rs p j <-> cell_of_parent rs0 p j).
  { intros [[lp n]|] j Hp; simpl.
    - specialize (Hp lp n eq_refl). split.
      + intros (r & Hr & Ha).
        destruct (lookup_lt_is_Some_2 rs0 j) as [r0 Hr0].
        { rewrite <- Hlen. eapply lookup_lt_Some; exact Hr. }
        destruct (Hagree j r0 Hr0) as (r1 & Hr1 & Hs1).
        rewrite Hr in Hr1. injection Hr1 as <-.
        exists r0. split; [exact Hr0|].
        rewrite <- (assigned_at_agree r0 r lp (Hs1 lp Hp)). exact Ha.
      + intros (r0 & Hr0 & Ha).
        destruct (Hagree j r0 Hr0) as (r1 & Hr1 & Hs1).
        exists r1. split; [exact Hr1|].
        rewrite (assigned_at_agree r0 r1 lp (Hs1 lp Hp)). exact Ha.
    - rewrite Hlen. reflexivity. }
  intros parent cl Hstep [i Hcell].
  destruct (walk_step_snoc done child_level parent cl Hstep)
    as [Hold|[-> Hnew]].
  - (* a turn of a level before *)
    destruct (walk_step_elem_of done parent cl Hold) as [Hcl Hpl].
    assert (Hp : forall lp n, parent = Some (lp, n) -> lp <> child_level).
    { intros lp n Hp ->. apply Hfresh. exact (Hpl _ _ Hp). }
    assert (Hne : cl <> child_level) by (intros ->; contradiction).
    destruct (Hvoted0 parent cl Hold) as (cells & Hnd & Hcells & Hv).
    { exists i. apply Hsame; assumption. }
    exists cells. split; [exact Hnd|]. split.
    { intros j. rewrite Hcells. symmetry. apply Hsame. exact Hp. }
    destruct Hv as (data & cs & chs & g & g' & Hd & Hc & Hpv & Hl & Hf & Hrs).
    exists data, cs, chs, g, g'. repeat (split; [assumption|]).
    intros k j c Hk Hch. destruct (Hrs k j c Hk Hch) as (r0 & Hr0 & Hrl).
    destruct (Hagree j r0 Hr0) as (r & Hr & Hs1).
    exists r. split; [exact Hr|]. rewrite (Hs1 cl Hne). exact Hrl.
  - (* a turn of this level *)
    assert (Hp : forall lp n, parent = Some (lp, n) -> lp <> child_level).
    { intros lp n -> ->.
      destruct Hnew as [[_ Hx]|(lp' & p' & Hl & Hx)]; [discriminate Hx|].
      injection Hx as <- <-. apply Hfresh. apply last_Some_elem_of.
      exact Hl. }
    assert (Hcell0 : cell_of_parent rs0 parent i)
      by (apply Hsame; assumption).
    assert (Hin : parent ∈ todo).
    { destruct (lookup_lt_is_Some_2 rs0 i (cell_of_parent_lt _ _ _ Hcell0))
        as [r0 Hr0].
      destruct (Hcover i r0 Hr0) as (parent' & Hp' & Hcell' & Htip).
      replace parent with parent'; [exact Hp'|].
      destruct Hnew as [[-> ->]|(lp & p & Hl & ->)].
      - destruct Htip as [[_ ->]|(lp & p & Hl & _)];
          [reflexivity|discriminate Hl].
      - destruct Htip as [[-> _]|(lp' & p' & Hl' & Ha' & ->)];
          [discriminate Hl|].
        rewrite Hl in Hl'. injection Hl' as <-.
        simpl in Hcell0. destruct Hcell0 as (r & Hr & Ha).
        rewrite Hr0 in Hr. injection Hr as <-. congruence. }
    destruct (Hvoted parent Hin) as (cells & Hnd & Hcells & Hv);
      [exists i; exact Hcell0|].
    exists cells. split; [exact Hnd|]. split; [|exact Hv].
    intros j. rewrite Hcells. symmetry. apply Hsame. exact Hp.
Qed.

(** The loop over the parents [todo] of one level, when every cell is
    assigned to one of them: afterwards the level [child_level] is
    through. *)
Lemma level_loop_done (full_query_gene_data : array2)
    (leaf_node_matrix : gmap string array1)
    (marker_gene_cache : gmap string marker_group) (t : TaxonomyTree)
    (bootstrap_factor : Q) (bootstrap_iteration : nat)
    (done : list string) (child_level : string)
    (todo : list (option (string * string)))
    (pa : assigned_rows) (rs0 : list cell_result) (g : rng_state)
    (nodes : gmap string (list string)) (st' : walk_state) :
  for_each (assign_parent full_query_gene_data leaf_node_matrix
                          marker_gene_cache t bootstrap_factor
                          bootstrap_iteration child_level) todo
           {| previously_assigned := <[child_level := ∅]> pa;
              results := rs0; rng := g |} = Ok st' ->
  length rs0 = length full_query_gene_data ->
  (forall i r, rs0 !! i = Some r -> walk_ok t None done r) ->
  child_level ∉ done ->
  NoDup todo ->
  (forall parent parent' idx, parent ∈ todo -> parent' ∈ todo ->
     cell_of_parent rs0 parent idx -> cell_of_parent rs0 parent' idx ->
     parent = parent') ->
  (forall parent parent' cs cs' c, parent ∈ todo -> parent' ∈ todo ->
     children t parent = Ok cs -> children t parent' = Ok cs' ->
     c ∈ cs -> c ∈ cs' -> parent = parent') ->
  (forall parent pa' chosen_idx, parent ∈ todo ->
     (forall level, level <> child_level ->
        pa' !! level = <[child_level := ∅]> pa !! level) ->
     chosen_idx_of (length full_query_gene_data) pa' parent
       = Some chosen_idx ->
     NoDup chosen_idx /\
     forall idx, idx ∈ chosen_idx <-> cell_of_parent rs0 parent idx) ->
  (forall i r0, rs0 !! i = Some r0 ->
     exists parent, parent ∈ todo /\ cell_of_parent rs0 parent i /\
       ((done = [] /\ parent = None) \/
        (exists lp p, last done = Some lp /\ assigned_at r0 lp = Some p /\
                      parent = Some (lp, p)))) ->
  _data t !! child_level = Some nodes ->
  (forall parent cs c, parent ∈ todo -> children t parent = Ok cs ->
     c ∈ cs -> is_Some (nodes !! c)) ->
  levels_voted full_query_gene_data leaf_node_matrix marker_gene_cache t
               bootstrap_factor bootstrap_iteration done rs0 ->
  levels_done t (length full_query_gene_data) (done ++ [child_level])
              (previously_assigned st') (results st') /\
  levels_voted full_query_gene_data leaf_node_matrix marker_gene_cache t
               bootstrap_factor bootstrap_iteration (done ++ [child_level])
               (results st').
Proof.
  intros Hloop Hlen Hwalk Hfresh Hnd Huniq Hdisj Hchosen Hcover Hnodes Hkids
         Hvoted0.
  destruct (for_each_parent_inv _ _ _ _ _ _ child_level rs0
              (<[child_level := ∅]> pa) todo [] ∅ _ _ Hloop)
    as (inner & Hinner & Hdone & _ & Hvoted); simpl; try assumption.
  - apply lookup_insert_eq.
  - reflexivity.
  - split; [reflexivity|]. split; [|split].
    + intros i r0 Hr0. exists r0. auto.
    + intros parent i Hin. apply elem_of_nil in Hin. contradiction.
    + intros c idxs Hc. rewrite lookup_empty in Hc. discriminate Hc.
  - intros parent Hin. apply elem_of_nil in Hin. contradiction.
  - simpl in Hdone, Hvoted.
    destruct Hdone as (Hlen' & Hagree & Hcells & Hlists).
    split; [|apply (level_loop_voted full_query_gene_data leaf_node_matrix
                      marker_gene_cache t bootstrap_factor
                      bootstrap_iteration done child_level todo rs0
                      (results st')); assumption].
    (* every cell, after the loop *)
    assert (Hall : forall i r, results st' !! i = Some r ->
              exists r0 parent c cs idxs,
                rs0 !! i = Some r0 /\
                (forall level, level <> child_level ->
                   r !! level = r0 !! level) /\
                parent ∈ todo /\
                ((done = [] /\ parent = None) \/
                 (exists lp p, last done = Some lp /\
                    assigned_at r0 lp = Some p /\ parent = Some (lp, p))) /\
                assigned_at r child_level = Some c /\
                children t parent = Ok cs /\ c ∈ cs /\
                inner !! c = Some idxs /\ i ∈ idxs).
    { intros i r Hr.
      destruct (lookup_lt_is_Some_2 rs0 i) as [r0 Hr0].
      { rewrite <- Hlen'. eapply lookup_lt_Some; exact Hr. }
      destruct (Hagree i r0 Hr0) as (r1 & Hr1 & Hsame).
      rewrite Hr in Hr1. injection Hr1 as <-.
      destruct (Hcover i r0 Hr0) as (parent & Hp & Hcell & Htip).
      destruct (Hcells parent i Hp Hcell)
        as (r2 & c & cs & idxs & Hr2 & Ha & Hcs & Hc & Hi & Hidx).
      rewrite Hr in Hr2. injection Hr2 as <-.
      exists r0, parent, c, cs, idxs. auto 10. }
    split; [congruence|]. split; [|rewrite last_snoc].
    + intros i r Hr.
      destruct (Hall i r Hr)
        as (r0 & parent & c & cs & idxs & Hr0 & Hsame & Hp & Htip & Ha
            & Hcs & Hc & _).
      assert (Hdone_same : forall level, level ∈ done ->
                r !! level = r0 !! level).
      { intros level Hl. apply Hsame. intros ->. contradiction. }
      apply (walk_ok_snoc t done r child_level c cs parent); try assumption.
      * apply (walk_ok_agree t done r0 r); [exact Hdone_same|].
        exact (Hwalk i r0 Hr0).
      * destruct Htip as [Htip|(lp & p & Hl & Hap & ->)]; [left; exact Htip|].
        right. exists lp, p. split; [exact Hl|]. split; [|reflexivity].
        rewrite (assigned_at_agree r0 r lp); [exact Hap|].
        apply Hdone_same. apply last_Some_elem_of. exact Hl.
    + exists inner, nodes. split; [exact Hinner|]. split; [|split].
      * split.
        -- intros i r Hr.
           destruct (Hall i r Hr)
             as (r0 & parent & c & cs & idxs & _ & _ & _ & _ & Ha & _ & _
                 & Hi & Hidx).
           exists c, idxs. auto.
        -- intros c idxs Hc.
           destruct (Hlists c idxs Hc) as (Hnd' & p & cs & _ & _ & _ & Hin).
           split; [exact Hnd'|]. intros idx Hidx.
           destruct (Hin idx Hidx) as (_ & r & Hr & Ha). exists r. auto.
      * exact Hnodes.
      * intros i r c Hr Ha.
        destruct (Hall i r Hr)
          as (r0 & parent & c' & cs & idxs & _ & _ & Hp & _ & Ha' & Hcs & Hc
              & _).
        rewrite Ha in Ha'. injection Ha' as <-.
        exact (Hkids parent cs c Hp Hcs Hc).
Qed.

(** One turn of the loop over the levels of [run_type_assignment]. *)
Lemma assign_level_inv (full_query_gene_data : array2)
    (leaf_node_matrix : gmap string array1)
    (marker_gene_cache : gmap string marker_group) (t : TaxonomyTree)
    (bootstrap_factor : Q) (bootstrap_iteration : nat)
    (done : list string) (parent_level : option string)
    (child_level : string) (st st' : walk_state) :
  assign_level full_query_gene_data leaf_node_matrix marker_gene_cache t
               bootstrap_factor bootstrap_iteration
               (parent_level, child_level) st = Ok st' ->
  child_level ∉ done ->
  levels_done t (length full_query_gene_data) done
              (previously_assigned st) (results st) ->
  (parent_level = None /\ done = [] /\
   hierarchy t !! O = Some child_level /\
   is_Some (_data t !! child_level)) \/
  (exists lp, parent_level = Some lp /\ last done = Some lp /\
              valid_level_pair (_data t) (lp, child_level)) ->
  levels_voted full_query_gene_data leaf_node_matrix marker_gene_cache t
               bootstrap_factor bootstrap_iteration done (results st) ->
  levels_done t (length full_query_gene_data) (done ++ [child_level])
              (previously_assigned st') (results st') /\
  levels_voted full_query_gene_data leaf_node_matrix marker_gene_cache t
               bootstrap_factor bootstrap_iteration (done ++ [child_level])
               (results st').
Proof.
  intros Hlevel Hfresh (Hlen & Hwalk & Hlast) Hcase Hvoted0.
  unfold assign_level in Hlevel. inv_res. rename x into todo.
  rename select (_ = Ok todo) into Htodo.
  destruct Hcase as [(-> & -> & Hh0 & [nodes Hnodes])
                    |(lp & -> & Hl & Hvalid)].
  - (* the root *)
    injection Htodo as <-.
    eapply (level_loop_done _ _ _ _ _ _ [] child_level [None]);
      try eassumption.
    + apply NoDup_singleton.
    + intros p p' idx Hp Hp' _ _.
      apply list_elem_of_singleton in Hp, Hp'. congruence.
    + intros p p' cs cs' c Hp Hp' _ _ _ _.
      apply list_elem_of_singleton in Hp, Hp'. congruence.
    + intros p pa' chosen_idx Hp _ Hci.
      apply list_elem_of_singleton in Hp. subst p. simpl in Hci.
      injection Hci as <-. split; [apply NoDup_seq|].
      intros idx. rewrite elem_of_seq. simpl. lia.
    + intros i r0 Hr0. exists None. split; [left|].
      split; [simpl; eapply lookup_lt_Some; exact Hr0|]. left. auto.
    + intros p cs c Hp Hcs Hc.
      apply list_elem_of_singleton in Hp. subst p. simpl in Hcs.
      rewrite Hh0 in Hcs. simpl in Hcs. rewrite Hnodes in Hcs. simpl in Hcs.
      injection Hcs as <-. apply keys_elem_of. exact Hc.
  - (* a level below *)
    rewrite Hl in Hlast.
    destruct Hlast as (inner_lp & nodes_lp & Hpa & [Hlist1 Hlist2] & Hdata
                       & Hnode).
    assert (Hne : lp <> child_level).
    { intros ->. apply Hfresh. apply last_Some_elem_of. exact Hl. }
    inv_res. rename x into k_list.
    rename select (nodes_at_level _ _ = _) into Hk.
    unfold nodes_at_level in Hk. rewrite Hdata in Hk. simpl in Hk.
    injection Hk as <-. subst todo.
    destruct (valid_children t lp child_level Hvalid)
      as (next & Hnext & Hkids & Hdisj).
    assert (Htodo : forall parent,
              parent ∈ (fun k => Some (lp, k)) <$> sort_names (keys nodes_lp)
              <-> exists k, parent = Some (lp, k) /\ is_Some (nodes_lp !! k)).
    { intros parent. rewrite list_elem_of_fmap. split.
      - intros (k & -> & Hin). exists k. split; [reflexivity|].
        apply keys_elem_of. rewrite sort_names_elem_of in Hin. exact Hin.
      - intros (k & -> & Hin). exists k. split; [reflexivity|].
        rewrite sort_names_elem_of. apply keys_elem_of. exact Hin. }
    eapply (level_loop_done _ _ _ _ _ _ done child_level); try eassumption.
    + apply NoDup_fmap_2; [intros k1 k2; congruence|].
      unfold sort_names. rewrite merge_sort_Permutation. apply keys_NoDup.
    + intros p p' idx Hp Hp' Hc Hc'.
      apply Htodo in Hp, Hp'.
      destruct Hp as (k & -> & _). destruct Hp' as (k' & -> & _).
      simpl in Hc, Hc'.
      destruct Hc as (r & Hr & Ha). destruct Hc' as (r' & Hr' & Ha').
      congruence.
    + intros p p' cs cs' c Hp Hp' Hcs Hcs' Hc Hc'.
      apply Htodo in Hp, Hp'.
      destruct Hp as (k & -> & _). destruct Hp' as (k' & -> & _).
      rewrite (Hdisj k k' cs cs' c); auto.
    + intros p pa' chosen_idx Hp Hsame Hci.
      apply Htodo in Hp. destruct Hp as (k & -> & _).
      simpl in Hci. rewrite (Hsame lp Hne) in Hci.
      rewrite lookup_insert_ne in Hci by congruence.
      rewrite Hpa in Hci. simpl in Hci. injection Hci as <-.
      destruct (inner_lp !! k) as [idxs|] eqn:Hk; simpl.
      * destruct (Hlist2 k idxs Hk) as [Hnd Hin]. split; [exact Hnd|].
        intros idx. split; [apply Hin|].
        intros (r & Hr & Ha). destruct (Hlist1 idx r Hr)
          as (c & idxs' & Ha' & Hc & Hidx).
        congruence.
      * split; [constructor|]. intros idx. split.
        -- intros Hin. apply elem_of_nil in Hin. contradiction.
        -- intros (r & Hr & Ha). destruct (Hlist1 idx r Hr)
             as (c & idxs' & Ha' & Hc & Hidx).
           congruence.
    + intros i r0 Hr0.
      destruct (Hlist1 i r0 Hr0) as (p & idxs & Ha & _ & _).
      exists (Some (lp, p)). split; [|split].
      * apply Htodo. exists p. split; [reflexivity|].
        exact (Hnode i r0 p Hr0 Ha).
      * simpl. exists r0. auto.
      * right. exists lp, p. auto.
    + intros p cs c Hp Hcs Hc. apply Htodo in Hp.
      destruct Hp as (k & -> & _). exact (Hkids k cs c Hcs Hc).
Qed.

Lemma level_pairs_mid (d : list string) (lp lc : string) (rest : list string) :
  (lp, lc) ∈ level_pairs (d ++ lp :: lc :: rest).
Proof.
  induction d as [|x d IH]; simpl app.
  - rewrite level_pairs_cons. left.
  - destruct (d ++ lp :: lc :: rest) as [|y l] eqn:E.
    + destruct d; discriminate E.
    + rewrite level_pairs_cons. right. exact IH.
Qed.

(** The loop over the levels. *)
Lemma run_levels_inv (full_query_gene_data : array2)
    (leaf_node_matrix : gmap string array1)
    (marker_gene_cache : gmap string marker_group) (t : TaxonomyTree)
    (bootstrap_factor : Q) (bootstrap_iteration : nat)
    (rest : list string) :
  forall (done : list string) (parent_level : option string)
         (st st' : walk_state),
  for_each (assign_level full_query_gene_data leaf_node_matrix
                         marker_gene_cache t bootstrap_factor
                         bootstrap_iteration)
           (zip (parent_level :: (Some <$> rest)) rest) st = Ok st' ->
  hierarchy t = done ++ rest ->
  valid_taxonomy_tree t ->
  parent_level = last done ->
  levels_done t (length full_query_gene_data) done
              (previously_assigned st) (results st) ->
  levels_voted full_query_gene_data leaf_node_matrix marker_gene_cache t
               bootstrap_factor bootstrap_iteration done (results st) ->
  levels_done t (length full_query_gene_data) (done ++ rest)
              (previously_assigned st') (results st') /\
  levels_voted full_query_gene_data leaf_node_matrix marker_gene_cache t
               bootstrap_factor bootstrap_iteration (done ++ rest)
               (results st').
Proof.
  induction rest as [|lc rest IH];
    intros done plo st st' Hloop Hh Hvalid Hplo Hdone Hvoted.
  - simpl in Hloop. injection Hloop as <-. rewrite app_nil_r. auto.
  - change (zip (plo :: (Some <$> lc :: rest)) (lc :: rest))
      with ((plo, lc) :: zip (Some lc :: (Some <$> rest)) rest) in Hloop.
    cbn [for_each] in Hloop. apply res_bind_Ok in Hloop.
    destruct Hloop as (st1 & Hstep & Hloop).
    destruct Hvalid as (Hnd & Hdata & Hpairs).
    assert (Hfresh : lc ∉ done).
    { rewrite Hh in Hnd. apply NoDup_app in Hnd.
      destruct Hnd as (_ & Hnd & _). intros Hin. apply (Hnd lc Hin). left. }
    assert (Hdone1 : levels_done t (length full_query_gene_data)
                       (done ++ [lc]) (previously_assigned st1)
                       (results st1) /\
                     levels_voted full_query_gene_data leaf_node_matrix
                       marker_gene_cache t bootstrap_factor
                       bootstrap_iteration (done ++ [lc]) (results st1)).
    { eapply assign_level_inv; try eassumption.
      destruct (last done) as [lp|] eqn:Hl.
      - right. exists lp. split; [exact Hplo|]. split; [reflexivity|].
        rewrite Forall_forall in Hpairs. apply Hpairs. rewrite Hh.
        apply last_Some in Hl. destruct Hl as [d' ->].
        rewrite <- app_assoc. apply level_pairs_mid.
      - left. apply last_None in Hl. subst done. simpl in Hh.
        split; [exact Hplo|]. split; [reflexivity|].
        rewrite Hh. split; [reflexivity|].
        rewrite Forall_forall in Hdata. apply Hdata. rewrite Hh. left. }
    destruct Hdone1 as [Hdone1 Hvoted1].
    replace (done ++ lc :: rest) with ((done ++ [lc]) ++ rest)
      by (rewrite <- app_assoc; reflexivity).
    apply (IH (done ++ [lc]) (Some lc) st1 st'); try assumption.
    + rewrite <- app_assoc. exact Hh.
    + repeat split; assumption.
    + rewrite last_snoc. reflexivity.
Qed.

(** Every cell of a run that returns has walked down the whole
    hierarchy of a valid tree. *)
Lemma run_type_assignment_walk (full_query_gene_data : array2)
    (leaf_node_matrix : gmap string array1)
    (marker_gene_cache : gmap string marker_group) (t : TaxonomyTree)
    (bootstrap_factor : Q) (bootstrap_iteration : nat)
    (rng0 rng' : rng_state) (rs : list cell_result) :
  run_type_assignment full_query_gene_data leaf_node_matrix
                      marker_gene_cache t bootstrap_factor
                      bootstrap_iteration rng0 = Ok (rs, rng') ->
  valid_taxonomy_tree t ->
  length rs = length full_query_gene_data /\
  forall i r, rs !! i = Some r -> walk_ok t None (hierarchy t) r.
Proof.
  unfold run_type_assignment. intros Hrun Hvalid. inv_res.
  rename x into st. subst.
  rename select (for_each _ _ _ = _) into Hloop.
  destruct (run_levels_inv _ _ _ _ _ _ (hierarchy t) [] None _ _ Hloop)
    as [(Hlen & Hwalk & _) _]; try reflexivity; try assumption.
  - simpl. split; [apply length_replicate|]. split; [|exact I].
    intros i r _. exact I.
  - apply levels_voted_nil.
  - simpl in Hlen, Hwalk. auto.
Qed.

(** Every parent that has a cell in the results of a run that returns
    had its vote, over the rows of exactly these cells. *)
Lemma run_type_assignment_votes (full_query_gene_data : array2)
    (leaf_node_matrix : gmap string array1)
    (marker_gene_cache : gmap string marker_group) (t : TaxonomyTree)
    (bootstrap_factor : Q) (bootstrap_iteration : nat)
    (rng0 rng' : rng_state) (rs : list cell_result) :
  run_type_assignment full_query_gene_data leaf_node_matrix
                      marker_gene_cache t bootstrap_factor
                      bootstrap_iteration rng0 = Ok (rs, rng') ->
  valid_taxonomy_tree t ->
  levels_voted full_query_gene_data leaf_node_matrix marker_gene_cache t
               bootstrap_factor bootstrap_iteration (hierarchy t) rs.
Proof.
  unfold run_type_assignment. intros Hrun Hvalid. inv_res.
  rename x into st. subst.
  rename select (for_each _ _ _ = _) into Hloop.
  destruct (run_levels_inv _ _ _ _ _ _ (hierarchy t) [] None _ _ Hloop)
    as [_ Hvoted]; try reflexivity; try assumption.
  - simpl. split; [apply length_replicate|]. split; [|exact I].
    intros i r _. exact I.
  - apply levels_voted_nil.
Qed.

(** The rows that [downsample_cells] keeps are those of the full data
    at the chosen indices, in the order of the indices. *)
Lemma downsample_cells_lookup (full_query_gene_data : array2)
    (chosen_idx : list nat) :
  forall (chosen_query_data : array2) (k i : nat),
  downsample_cells full_query_gene_data chosen_idx = Ok chosen_query_data ->
  chosen_idx !! k = Some i ->
  exists row, full_query_gene_data !! i = Some row /\
              chosen_query_data !! k = Some row.
Proof.
  unfold downsample_cells. intros data k i Hds Hk.
  apply res_mapM_Ok in Hds.
  destruct (Forall2_lookup_l _ _ _ _ _ Hds Hk) as (row & Hdk & Hrow).
  apply or_raise_Ok in Hrow. eauto.
Qed.

Lemma walk_ok_record (t : TaxonomyTree) (levels : list string)
    (r : cell_result) (level : string) :
  forall parent,
  walk_ok t parent levels r -> level ∈ levels ->
  exists rec, r !! level = Some (Some rec).
Proof.
  induction levels as [|l levels IH]; intros parent Hw Hin.
  - apply elem_of_nil in Hin. contradiction.
  - destruct Hw as (c & cs & Ha & _ & _ & Hrest).
    apply elem_of_cons in Hin. destruct Hin as [->|Hin].
    + unfold assigned_at in Ha. destruct (r !! l) as [[rec|]|]; try discriminate.
      exists rec. reflexivity.
    + eapply IH; eassumption.
Qed.


End AssignmentFacts.

Lemma small_tree_valid : Taxonomy.valid_taxonomy_tree Examples.small_tree.
Proof. apply (bool_decide_unpack _). vm_compute. exact I. Qed.



(** C10. A run over a valid taxonomy that returns gives one result per
    query cell, and the result at index [i] is that of row [i] of the
    query data: at every level of the hierarchy it holds a record, none
    is [None], and this record is the choice a vote made for a row of
    its data that is row [i] of the query data. A parent that has cells
    and no children makes the body of the loop, and so the run, raise
    [RuntimeError]. *)
Theorem every_cell_every_level `{Collaborators}
    (full_query_gene_data : array2)
    (leaf_node_matrix : gmap string array1)
    (marker_gene_cache : gmap string Matching.marker_group)
    (t : Taxonomy.TaxonomyTree)
    (bootstrap_factor : Q) (bootstrap_iteration : nat) :
  (forall (rng0 rng' : rng_state) (rs : list Assignment.cell_result),
     Assignment.run_type_assignment full_query_gene_data leaf_node_matrix
       marker_gene_cache t bootstrap_factor bootstrap_iteration rng0
       = Ok (rs, rng') ->
     Taxonomy.valid_taxonomy_tree t ->
     length rs = length full_query_gene_data /\
     forall i row, full_query_gene_data !! i = Some row ->
       exists r, rs !! i = Some r /\
         forall level, level ∈ Taxonomy.hierarchy t ->
           exists parent cells chosen_query_data possible_children choices
                  rng rng1 k c,
             walk_step (Taxonomy.hierarchy t) parent level /\
             cells !! k = Some i /\
             Assignment.downsample_cells full_query_gene_data cells
               = Ok chosen_query_data /\
             chosen_query_data !! k = Some row /\
             Taxonomy.children t parent = Ok possible_children /\
             parent_vote leaf_node_matrix marker_gene_cache t
               bootstrap_factor bootstrap_iteration parent possible_children
               chosen_query_data rng = Ok (choices, rng1) /\
             choices !! k = Some c /\
             r !! level = Some (Some (Assignment.record_of c))) /\
  (forall (child_level : string) (parent : option (string * string))
          (st : Assignment.walk_state) (i0 : nat) (chosen_idx : list nat)
          (chosen_query_data : array2),
     Assignment.chosen_idx_of (length full_query_gene_data)
       (Assignment.previously_assigned st) parent
       = Some (i0 :: chosen_idx) ->
     Assignment.downsample_cells full_query_gene_data (i0 :: chosen_idx)
       = Ok chosen_query_data ->
     Taxonomy.children t parent = Ok [] ->
     Assignment.assign_parent full_query_gene_data leaf_node_matrix
       marker_gene_cache t bootstrap_factor bootstrap_iteration
       child_level parent st = Raise RuntimeError).
Proof.
  split.
  - intros rng0 rng' rs Hrun Hvalid.
    destruct (run_type_assignment_walk _ _ _ _ _ _ _ _ _ Hrun Hvalid)
      as [Hlen Hwalk].
    pose proof (run_type_assignment_votes _ _ _ _ _ _ _ _ _ Hrun Hvalid)
      as Hvotes.
    split; [exact Hlen|]. intros i row Hrow.
    pose proof (lookup_lt_Some _ _ _ Hrow) as Hi.
    destruct (lookup_lt_is_Some_2 rs i) as [r Hr]; [lia|].
    exists r. split; [exact Hr|]. intros level Hin.
    specialize (Hwalk i r Hr).
    assert (Hparent : exists parent,
              walk_step (Taxonomy.hierarchy t) parent level /\
              cell_of_parent rs parent i).
    { destruct (level_step _ _ Hin) as [H0|[lp Hlp]].
      - exists None. split; [exact H0|]. simpl. lia.
      - destruct (level_pairs_elem_of _ _ _ Hlp) as [Hlpin _].
        destruct (walk_ok_record t _ r lp None Hwalk Hlpin) as [rec Hrec].
        exists (Some (lp, Assignment.assignment rec)).
        split; [exact Hlp|]. simpl. exists r. split; [exact Hr|].
        unfold assigned_at. rewrite Hrec. reflexivity. }
    destruct Hparent as (parent & Hstep & Hcell).
    destruct (Hvotes parent level Hstep (ex_intro _ i Hcell))
      as (cells & Hnd & Hcells & data & cs & chs & g & g' & Hd & Hc & Hpv
          & Hl & Hf & Hrs).
    apply Hcells in Hcell.
    destruct (list_elem_of_lookup_1 _ _ Hcell) as [k Hk].
    destruct (lookup_lt_is_Some_2 chs k) as [c Hch].
    { rewrite Hl. eapply lookup_lt_Some; exact Hk. }
    destruct (downsample_cells_lookup _ _ _ _ _ Hd Hk)
      as (row' & Hrow' & Hdk).
    rewrite Hrow in Hrow'. injection Hrow' as <-.
    destruct (Hrs k i c Hk Hch) as (r' & Hr' & Hrl).
    rewrite Hr in Hr'. injection Hr' as <-.
    exists parent, cells, data, cs, chs, g, g', k, c. auto 10.
  - intros child_level parent st i0 chosen_idx cqd Hci Hds Hcs.
    unfold Assignment.assign_parent. rewrite Hci. simpl.
    rewrite Hds. simpl. rewrite Hcs. reflexivity.
Qed.

(** C10, at three cells walking down [small_tree]. *)
Lemma every_cell_every_level_witness :
  exists rs rng',
    Assignment.run_type_assignment (H := Examples.replay)
      Examples.walk_query Examples.walk_means Examples.walk_cache
      Examples.small_tree 1 2 Examples.walk_draws = Ok (rs, rng') /\
    length rs = 3%nat /\
    forall i row, Examples.walk_query !! i = Some row ->
      exists r, rs !! i = Some r /\
        forall level, level ∈ ["class"; "cluster"]%string ->
          exists parent cells chosen_query_data possible_children choices
                 rng rng1 k c,
            walk_step ["class"; "cluster"]%string parent level /\
            cells !! k = Some i /\
            Assignment.downsample_cells Examples.walk_query cells
              = Ok chosen_query_data /\
            chosen_query_data !! k = Some row /\
            Taxonomy.children Examples.small_tree parent
              = Ok possible_children /\
            parent_vote (H := Examples.replay) Examples.walk_means
              Examples.walk_cache Examples.small_tree 1 2 parent
              possible_children chosen_query_data rng = Ok (choices, rng1) /\
            choices !! k = Some c /\
            r !! level = Some (Some (Assignment.record_of c)).
Proof.
  destruct (Assignment.run_type_assignment (H := Examples.replay)
              Examples.walk_query Examples.walk_means
              Examples.walk_cache Examples.small_tree 1 2
              Examples.walk_draws) as [[rs rng']|e] eqn:Hrun.
  - exists rs, rng'. split; [reflexivity|].
    destruct (every_cell_every_level (H := Examples.replay)
                Examples.walk_query Examples.walk_means
                Examples.walk_cache Examples.small_tree 1 2) as [Hok _].
    apply (Hok _ _ _ Hrun).
    apply (bool_decide_unpack _). vm_compute. exact I.
  - exfalso. vm_compute in Hrun. discriminate Hrun.
Defined.

(** The three cases of the repository's test of [assemble_query_data]:
    the expected types of the reference rows, one per leaf, and the
    rows themselves, the means of the leaves in the order of their
    names. *)
Example assemble_query_data_test_root :
  Matching.assemble_query_data [[1]] Examples.mean_lookup_fixture
    Examples.tree_fixture Examples.marker_fixture None
  = Ok {| Matching.query_data_ := [[1]];
          Matching.reference_data :=
            [[0]; [1]; [10]; [11]; [12]; [2]; [3]; [4]; [5]; [6]; [7]; [8];
             [9]];
          Matching.reference_types :=
            ["A"; "B"; "C"; "C"; "C"; "A"; "B"; "B"; "A"; "A"; "B"; "B";
             "B"]%string |}.
Proof. vm_compute. reflexivity. Qed.

Example assemble_query_data_test_subclass :
  Matching.assemble_query_data [[1]] Examples.mean_lookup_fixture
    Examples.tree_fixture Examples.marker_fixture
    (Some ("subclass", "cc")%string)
  = Ok {| Matching.query_data_ := [[1]];
          Matching.reference_data := [[0]; [5]; [6]];
          Matching.reference_types := ["0"; "5"; "6"]%string |}.
Proof. vm_compute. reflexivity. Qed.

Example assemble_query_data_test_class :
  Matching.assemble_query_data [[1]] Examples.mean_lookup_fixture
    Examples.tree_fixture Examples.marker_fixture
    (Some ("class", "B")%string)
  = Ok {| Matching.query_data_ := [[1]];
          Matching.reference_data := [[1]; [3]; [4]; [7]; [8]; [9]];
          Matching.reference_types :=
            ["aa"; "aa"; "aa"; "ee"; "dd"; "ee"]%string |}.
Proof. vm_compute. reflexivity. Qed.

(** The walk of the three cells of [walk_query] down [small_tree]: the
    first and the third go to class "A" and on to their clusters by a
    vote; the second goes to class "B" and gets its only child without
    a vote. *)
Example run_type_assignment_walk_query :
  exists rs,
    Assignment.run_type_assignment (H := Examples.replay)
      Examples.walk_query Examples.walk_means Examples.walk_cache
      Examples.small_tree 1 2 Examples.walk_draws = Ok (rs, []) /\
    (fun r => (assigned_at r "class", assigned_at r "cluster")) <$> rs
    = [(Some "A", Some "c1"); (Some "B", Some "c3");
       (Some "A", Some "c2")]%string.
Proof. eexists. split; [vm_compute; reflexivity|]. reflexivity. Qed.

(** * Further properties of the code *)

Section UtilsFacts.
Import Utils.

Lemma Sorted_le_NoDup_lt (l : list Z) :
  Sorted Z.le l -> NoDup l -> Sorted Z.lt l.
Proof.
  induction 1 as [|a l Hs IH Hhd]; intros Hnd; [constructor|].
  apply NoDup_cons in Hnd. destruct Hnd as [Hnotin Hnd].
  constructor; [auto|].
  destruct Hhd as [|b l' Hab]; constructor.
  assert (a <> b) by (intros ->; apply Hnotin; left).
  lia.
Qed.

Lemma np_unique_sorted (l : list Z) : Sorted Z.lt (np_unique l).
Proof.
  unfold np_unique. apply Sorted_le_NoDup_lt.
  - apply (Sorted_merge_sort Z.le).
  - rewrite merge_sort_Permutation. apply NoDup_remove_dups.
Qed.

Lemma np_unique_elem_of (l : list Z) (x : Z) : x ∈ np_unique l <-> x ∈ l.
Proof.
  unfold np_unique. rewrite merge_sort_Permutation.
  apply elem_of_remove_dups.
Qed.

Lemma np_unique_nil (l : list Z) : np_unique l = [] <-> l = [].
Proof.
  split.
  - intros Hu. destruct l as [|x l]; [reflexivity|].
    assert (Hin : x ∈ np_unique (x :: l)) by (apply np_unique_elem_of; left).
    rewrite Hu in Hin. apply elem_of_nil in Hin. contradiction.
  - intros ->. reflexivity.
Qed.

Lemma int64_exact_wrap (index_list : list Z) :
  int64_exact index_list ->
  (forall x, x ∈ index_list -> dtype_wrap int64 (x + 1) = (x + 1)%Z) /\
  (forall x y, x ∈ index_list -> y ∈ index_list ->
     dtype_wrap int64 (y - x) = (y - x)%Z).
Proof.
  intros [Hall Hdiff]. rewrite Forall_forall in Hall. split.
  - intros x Hx. specialize (Hall x Hx). apply int64_wrap_id.
    simpl in *. lia.
  - intros x y Hx Hy. pose proof (Hdiff x y Hx Hy) as H1.
    pose proof (Hdiff y x Hy Hx) as H2. apply int64_wrap_id.
    simpl in *. lia.
Qed.

Lemma np_where_gt1_bounds (diff_list : list Z) :
  forall (i b : nat), b ∈ np_where_gt1 i diff_list ->
    (i <= b < i + length diff_list)%nat.
Proof.
  induction diff_list as [|d diff_list IH]; intros i b Hb; simpl in Hb.
  - apply elem_of_nil in Hb. contradiction.
  - destruct (decide (1 < d)%Z).
    + apply elem_of_cons in Hb. destruct Hb as [->|Hb]; [simpl; lia|].
      apply IH in Hb. simpl. lia.
    + apply IH in Hb. simpl. lia.
Qed.

Lemma np_diff_length (a : list Z) :
  S (length (np_diff a)) = length a \/ a = [].
Proof.
  destruct a as [|x a]; [right; reflexivity|left].
  unfold np_diff. rewrite length_zip_with, length_drop. simpl length. lia.
Qed.

(** The loop of [merge_index_list] reads no index past the end of the
    list, whatever the differences are. *)
Lemma merge_loop_total (index_list : list Z) (breaks : list nat) :
  forall (min_dex : nat) (acc : list (Z * Z)),
  (min_dex < length index_list)%nat ->
  (forall b, b ∈ breaks -> (S b < length index_list)%nat) ->
  exists result min_dex',
    merge_loop index_list breaks min_dex acc = Ok (result, min_dex') /\
    (min_dex' < length index_list)%nat.
Proof.
  induction breaks as [|b breaks IH]; intros min_dex acc Hm Hb.
  - exists acc, min_dex. auto.
  - destruct (lookup_lt_is_Some_2 index_list min_dex Hm) as [lo Hlo].
    assert (Hbl : (S b < length index_list)%nat) by (apply Hb; left).
    destruct (lookup_lt_is_Some_2 index_list b) as [hi Hhi]; [lia|].
    cbn [merge_loop]. rewrite Hlo. simpl. rewrite Hhi. simpl.
    apply IH; [exact Hbl|]. intros b' Hb'. apply Hb. right. exact Hb'.
Qed.

(** [merge_index_list] returns on every list that is not empty. *)
Lemma merge_index_list_total (index_list : list Z) :
  index_list <> [] ->
  exists ranges, merge_index_list index_list = Ok ranges.
Proof.
  intros Hne. unfold merge_index_list.
  destruct (np_unique index_list) as [|p rest] eqn:Hu.
  { apply (proj1 (np_unique_nil _)) in Hu. contradiction. }
  destruct (merge_loop_total (p :: rest)
              (np_where_gt1 0 (np_diff (p :: rest))) 0 [])
    as (result & m' & Hrun & Hm').
  - simpl. lia.
  - intros b Hb. apply np_where_gt1_bounds in Hb.
    destruct (np_diff_length (p :: rest)) as [Hl|Hl]; [|discriminate Hl].
    lia.
  - rewrite Hrun. simpl.
    destruct (lookup_lt_is_Some_2 (p :: rest) m' Hm') as [lo Hlo].
    rewrite Hlo. simpl.
    destruct (last (p :: rest)) as [hi|] eqn:Hl.
    + simpl. eauto.
    + apply last_None in Hl. discriminate Hl.
Qed.

(** The loop of [merge_index_list] closes the runs of the sorted list:
    with [index_list = pre ++ p :: l], the current run started at
    [min_dex] and [p] its last element so far. *)
Lemma merge_loop_runs (l : list Z) :
  forall (pre : list Z) (p a : Z) (min_dex : nat) (acc : list (Z * Z)),
  int64_exact (pre ++ p :: l) ->
  (pre ++ p :: l) !! min_dex = Some a ->
  exists R min_dex' lo hi,
    merge_loop (pre ++ p :: l)
               (np_where_gt1 (length pre) (np_diff (p :: l))) min_dex acc
    = Ok (acc ++ R, min_dex') /\
    (pre ++ p :: l) !! min_dex' = Some lo /\
    last (p :: l) = Some hi /\
    R ++ [(lo, (hi + 1)%Z)] = runs_from a p l.
Proof.
  induction l as [|x l IH]; intros pre p a min_dex acc Hex Hm.
  - exists [], min_dex, a, p. simpl. rewrite app_nil_r. auto.
  - destruct (int64_exact_wrap _ Hex) as [Hsucc Hdiff].
    assert (Hp : p ∈ pre ++ p :: x :: l)
      by (apply elem_of_app; right; left).
    assert (Hx : x ∈ pre ++ p :: x :: l)
      by (apply elem_of_app; right; right; left).
    change (np_diff (p :: x :: l))
      with (dtype_wrap int64 (x - p) :: np_diff (x :: l)).
    rewrite (Hdiff p x Hp Hx).
    assert (Hs : pre ++ p :: x :: l = (pre ++ [p]) ++ x :: l)
      by (rewrite <- app_assoc; reflexivity).
    assert (Hl : S (length pre) = length (pre ++ [p]))
      by (rewrite length_app; simpl; lia).
    cbn [np_where_gt1 runs_from].
    destruct (decide (1 < x - p)%Z) as [Hgap|Hnogap].
    + cbn [merge_loop]. rewrite Hm. simpl.
      rewrite (list_lookup_middle pre (x :: l) p (length pre) eq_refl).
      simpl. rewrite (Hsucc p Hp). rewrite Hs, Hl.
      destruct (IH (pre ++ [p]) x x (length (pre ++ [p]))
                   (acc ++ [(a, (p + 1)%Z)]))
        as (R & m' & lo & hi & Hrun & Hlo & Hhi & HR).
      { rewrite <- Hs. exact Hex. }
      { apply list_lookup_middle. reflexivity. }
      exists ((a, (p + 1)%Z) :: R), m', lo, hi.
      rewrite Hrun. rewrite <- app_assoc. simpl.
      split; [reflexivity|]. split; [exact Hlo|]. split; [exact Hhi|].
      rewrite HR. reflexivity.
    + rewrite Hs, Hl.
      destruct (IH (pre ++ [p]) x a min_dex acc)
        as (R & m' & lo & hi & Hrun & Hlo & Hhi & HR).
      { rewrite <- Hs. exact Hex. }
      { rewrite <- Hs. exact Hm. }
      exists R, m', lo, hi. auto.
Qed.

Lemma int64_exact_unique (index_list : list Z) :
  int64_exact index_list -> int64_exact (np_unique index_list).
Proof.
  intros [Hall Hdiff]. split.
  - rewrite Forall_forall in *. intros x Hx. apply Hall.
    apply np_unique_elem_of. exact Hx.
  - intros x y Hx Hy. apply Hdiff; apply np_unique_elem_of; assumption.
Qed.

(** What [merge_index_list] returns when nothing wraps around: the runs
    of the distinct values. *)
Lemma merge_index_list_runs (index_list : list Z) (p : Z) (rest : list Z) :
  int64_exact index_list ->
  np_unique index_list = p :: rest ->
  merge_index_list index_list = Ok (runs_from p p rest).
Proof.
  intros Hex Hu. apply int64_exact_unique in Hex.
  unfold merge_index_list. rewrite Hu in *.
  destruct (merge_loop_runs rest [] p p 0 [] Hex)
    as (R & m' & lo & hi & Hrun & Hlo & Hhi & HR); [reflexivity|].
  simpl in Hrun, Hlo. rewrite Hrun. simpl. rewrite Hlo. simpl.
  rewrite Hhi. simpl.
  destruct (int64_exact_wrap _ Hex) as [Hsucc _].
  rewrite (Hsucc hi); [rewrite HR; reflexivity|].
  apply last_Some_elem_of. exact Hhi.
Qed.

Lemma runs_from_covers (l : list Z) :
  forall a p, (a <= p)%Z -> Sorted Z.lt (p :: l) ->
  forall y,
    (exists r, r ∈ runs_from a p l /\ in_range y r) <->
    ((a <= y <= p)%Z \/ y ∈ l).
Proof.
  induction l as [|x l IH]; intros a p Hap Hs y.
  - simpl. split.
    + intros (r & Hr & Hy). apply list_elem_of_singleton in Hr. subst r.
      unfold in_range in Hy. simpl in Hy. left. lia.
    + intros [Hy|Hy]; [|apply elem_of_nil in Hy; contradiction].
      exists (a, (p + 1)%Z). split; [left|]. unfold in_range. simpl. lia.
  - apply Sorted_inv in Hs. destruct Hs as [Hs Hhd].
    apply HdRel_inv in Hhd. cbn [runs_from].
    destruct (decide (1 < x - p)%Z) as [Hgap|Hnogap].
    + split.
      * intros (r & Hr & Hy). apply elem_of_cons in Hr.
        destruct Hr as [->|Hr].
        -- unfold in_range in Hy. simpl in Hy. left. lia.
        -- destruct (proj1 (IH x x ltac:(lia) Hs y)) as [Hx|Hin];
             [exists r; auto| |].
           ++ right. assert (y = x) by lia. subst. left.
           ++ right. right. exact Hin.
      * intros [Hy|Hy].
        -- exists (a, (p + 1)%Z). split; [left|].
           unfold in_range. simpl. lia.
        -- destruct (proj2 (IH x x ltac:(lia) Hs y)) as (r & Hr & Hyr).
           { apply elem_of_cons in Hy. destruct Hy as [->|Hy];
               [left; lia|right; exact Hy]. }
           exists r. split; [right; exact Hr|exact Hyr].
    + rewrite (IH a x ltac:(lia) Hs y). rewrite elem_of_cons.
      split; intros [Hy|Hy]; try (right; right; exact Hy).
      * destruct (decide (y = x)) as [->|Hne]; [right; left; reflexivity|].
        left. lia.
      * left. lia.
      * destruct Hy as [->|Hy]; [left; lia|right; exact Hy].
Qed.

Lemma runs_from_separated (l : list Z) :
  forall a p, (a <= p)%Z -> Sorted Z.lt (p :: l) ->
  separated (runs_from a p l) /\
  exists b rest, runs_from a p l = (a, b) :: rest.
Proof.
  induction l as [|x l IH]; intros a p Hap Hs.
  - simpl. split; [split; [lia|auto]|eauto].
  - apply Sorted_inv in Hs. destruct Hs as [Hs Hhd].
    apply HdRel_inv in Hhd. cbn [runs_from].
    destruct (decide (1 < x - p)%Z) as [Hgap|Hnogap].
    + destruct (IH x x ltac:(lia) Hs) as (Hsep & b & rest & Heq).
      split; [|eauto]. rewrite Heq in *.
      cbn [separated]. simpl. split; [lia|]. split; [lia|exact Hsep].
    + apply IH; [lia|exact Hs].
Qed.

Lemma runs_from_sizes (l : list Z) :
  forall a p, Sorted Z.lt (p :: l) ->
  range_sizes (runs_from a p l) = (p - a + 1 + Z.of_nat (length l))%Z.
Proof.
  induction l as [|x l IH]; intros a p Hs.
  - simpl. lia.
  - apply Sorted_inv in Hs. destruct Hs as [Hs Hhd].
    apply HdRel_inv in Hhd. cbn [runs_from].
    destruct (decide (1 < x - p)%Z) as [Hgap|Hnogap].
    + cbn [range_sizes foldr]. fold (range_sizes (runs_from x x l)).
      rewrite (IH x x Hs). simpl. lia.
    + rewrite (IH a x Hs). simpl length. lia.
Qed.

End UtilsFacts.

(** X1. [merge_index_list] of a list that is not empty, and on which
    numpy computes without wrapping around ([int64_exact]), returns
    ranges that hold exactly the integers of the list: an integer is in
    the list if and only if it lies in one of the ranges [[min, max)]. *)
Theorem merge_index_list_covers (index_list : list Z) :
  index_list <> [] -> int64_exact index_list ->
  exists ranges,
    Utils.merge_index_list index_list = Ok ranges /\
    forall x, x ∈ index_list <-> exists r, r ∈ ranges /\ in_range x r.
Proof.
  intros Hne Hex.
  destruct (Utils.np_unique index_list) as [|p rest] eqn:Hu.
  { apply (proj1 (np_unique_nil _)) in Hu. contradiction. }
  exists (runs_from p p rest).
  split; [apply merge_index_list_runs; assumption|].
  intros x. rewrite <- np_unique_elem_of, Hu.
  pose proof (np_unique_sorted index_list) as Hs. rewrite Hu in Hs.
  rewrite (runs_from_covers rest p p ltac:(lia) Hs x).
  rewrite elem_of_cons. split; intros [Hx|Hx]; auto; [left; lia|].
  left. lia.
Qed.

Lemma small_index_list_exact : int64_exact [5; 1; 2; 7; 2; 6; 3]%Z.
Proof.
  split.
  - repeat constructor; simpl; lia.
  - intros x y Hx Hy.
    assert (Hb : forall z, z ∈ [5; 1; 2; 7; 2; 6; 3]%Z -> (1 <= z <= 7)%Z).
    { intros z Hz. repeat (apply elem_of_cons in Hz; destruct Hz as [->|Hz];
        [lia|]). apply elem_of_nil in Hz. contradiction. }
    apply Hb in Hx, Hy. simpl. lia.
Defined.

Lemma merge_index_list_covers_witness :
  exists ranges,
    Utils.merge_index_list [5; 1; 2; 7; 2; 6; 3]%Z = Ok ranges /\
    forall x, x ∈ [5; 1; 2; 7; 2; 6; 3]%Z <->
              exists r, r ∈ ranges /\ in_range x r.
Proof.
  apply (merge_index_list_covers [5; 1; 2; 7; 2; 6; 3]%Z);
    [discriminate|exact small_index_list_exact].
Defined.

(** X2. When numpy computes without wrapping around ([int64_exact]),
    the ranges [merge_index_list] returns are not empty, ascend, and
    leave at least one integer out between one range and the next: no
    two of them could be merged. *)
Theorem merge_index_list_separated (index_list : list Z)
    (ranges : list (Z * Z)) :
  int64_exact index_list ->
  Utils.merge_index_list index_list = Ok ranges -> separated ranges.
Proof.
  intros Hex Hrun.
  destruct (Utils.np_unique index_list) as [|p rest] eqn:Hu.
  { unfold Utils.merge_index_list in Hrun. rewrite Hu in Hrun.
    discriminate Hrun. }
  rewrite (merge_index_list_runs _ _ _ Hex Hu) in Hrun.
  injection Hrun as <-.
  pose proof (np_unique_sorted index_list) as Hs. rewrite Hu in Hs.
  apply (runs_from_separated rest p p ltac:(lia) Hs).
Qed.

Lemma merge_index_list_separated_witness :
  separated [(1, 4); (5, 8)]%Z.
Proof.
  apply (merge_index_list_separated [5; 1; 2; 7; 2; 6; 3]%Z);
    [exact small_index_list_exact|].
  vm_compute. reflexivity.
Defined.

(** X3. When numpy computes without wrapping around ([int64_exact]),
    the ranges [merge_index_list] returns hold as many integers as the
    list has distinct values. *)
Theorem merge_index_list_sizes (index_list : list Z)
    (ranges : list (Z * Z)) :
  int64_exact index_list ->
  Utils.merge_index_list index_list = Ok ranges ->
  range_sizes ranges = Z.of_nat (length (remove_dups index_list)).
Proof.
  intros Hex Hrun.
  assert (Hlen : length (Utils.np_unique index_list)
                 = length (remove_dups index_list)).
  { unfold Utils.np_unique. apply Permutation_length.
    apply merge_sort_Permutation. }
  destruct (Utils.np_unique index_list) as [|p rest] eqn:Hu.
  { unfold Utils.merge_index_list in Hrun. rewrite Hu in Hrun.
    discriminate Hrun. }
  rewrite (merge_index_list_runs _ _ _ Hex Hu) in Hrun.
  injection Hrun as <-.
  pose proof (np_unique_sorted index_list) as Hs. rewrite Hu in Hs.
  rewrite (runs_from_sizes rest p p Hs). rewrite <- Hlen. simpl length. lia.
Qed.

Lemma merge_index_list_sizes_witness :
  range_sizes [(1, 4); (5, 8)]%Z
  = Z.of_nat (length (remove_dups [5; 1; 2; 7; 2; 6; 3]%Z)).
Proof.
  apply (merge_index_list_sizes [5; 1; 2; 7; 2; 6; 3]%Z);
    [exact small_index_list_exact|].
  vm_compute. reflexivity.
Defined.

(** X4. [merge_index_list] raises only on the empty list, and then an
    [IndexError], from reading [index_list[0]]. *)
Theorem merge_index_list_raises (index_list : list Z) (e : exn) :
  Utils.merge_index_list index_list = Raise e <->
  index_list = [] /\ e = IndexError.
Proof.
  split.
  - intros Hrun. destruct index_list as [|x index_list].
    + vm_compute in Hrun. injection Hrun as <-. auto.
    + destruct (merge_index_list_total (x :: index_list)) as [ranges Hok];
        [discriminate|].
      rewrite Hok in Hrun. discriminate Hrun.
  - intros [-> ->]. reflexivity.
Qed.

Section TaxonomyMethodsFacts.
Import Taxonomy TaxonomyMethods.

Lemma level_to_idx_snoc (l : list string) (x : string) :
  level_to_idx (l ++ [x]) = <[x := length l]> (level_to_idx l).
Proof.
  unfold level_to_idx. rewrite imap_app, foldl_app. simpl.
  rewrite Nat.add_0_r. reflexivity.
Qed.

(** [{n: i for i, n in enumerate(names)}[n] = i] only if [names[i]] is
    [n]. *)
Lemma level_to_idx_Some (names : list string) (n : string) (i : nat) :
  level_to_idx names !! n = Some i -> names !! i = Some n.
Proof.
  revert i. induction names as [|x l IH] using rev_ind; intros i Hl.
  - discriminate Hl.
  - rewrite level_to_idx_snoc in Hl.
    destruct (decide (n = x)) as [->|Hne].
    + rewrite lookup_insert_eq in Hl. injection Hl as <-.
      apply list_lookup_middle. reflexivity.
    + rewrite lookup_insert_ne in Hl by congruence.
      apply lookup_app_l_Some. apply IH. exact Hl.
Qed.

Lemma level_to_idx_is_Some (names : list string) (n : string) :
  is_Some (level_to_idx names !! n) <-> n ∈ names.
Proof.
  induction names as [|x l IH] using rev_ind.
  - split; [intros [i Hi]; discriminate Hi|].
    intros Hin. apply elem_of_nil in Hin. contradiction.
  - rewrite level_to_idx_snoc, elem_of_app, list_elem_of_singleton.
    destruct (decide (n = x)) as [->|Hne].
    + rewrite lookup_insert_eq. split; [auto|eauto].
    + rewrite lookup_insert_ne by congruence. rewrite IH. tauto.
Qed.

Lemma level_to_idx_NoDup (names : list string) (n : string) (i : nat) :
  NoDup names -> names !! i = Some n -> level_to_idx names !! n = Some i.
Proof.
  intros Hnd Hi.
  destruct (proj2 (level_to_idx_is_Some names n)) as [j Hj].
  { eapply list_elem_of_lookup_2. exact Hi. }
  rewrite Hj. f_equal. apply level_to_idx_Some in Hj.
  eapply NoDup_lookup; eassumption.
Qed.

Lemma but_last_snoc {A} (l : list A) (x : A) : but_last (l ++ [x]) = l.
Proof.
  unfold but_last. rewrite length_app. simpl.
  replace (length l + 1 - 1)%nat with (length l) by lia.
  apply take_app_length.
Qed.

(** A level that is not the last has its index and a next level. *)
Lemma but_last_next (h : list string) (level : string) :
  NoDup h -> level ∈ but_last h ->
  exists idx lc,
    level_to_idx h !! level = Some idx /\ h !! S idx = Some lc /\
    (level, lc) ∈ level_pairs h.
Proof.
  intros Hnd Hin.
  destruct h as [|x0 h0] using rev_ind.
  { apply elem_of_nil in Hin. contradiction. }
  clear IHh0. rewrite but_last_snoc in Hin.
  apply list_elem_of_lookup_1 in Hin. destruct Hin as [idx Hidx].
  pose proof (lookup_lt_Some _ _ _ Hidx) as Hlt.
  destruct ((h0 ++ [x0]) !! S idx) as [lc|] eqn:Hlc.
  2:{ apply lookup_ge_None in Hlc. rewrite length_app in Hlc.
      simpl in Hlc. lia. }
  exists idx, lc. split; [|split; [exact Hlc|]].
  - apply level_to_idx_NoDup; [exact Hnd|].
    apply lookup_app_l_Some. exact Hidx.
  - assert (Hfull : (h0 ++ [x0]) !! idx = Some level)
      by (apply lookup_app_l_Some; exact Hidx).
    destruct (list_elem_of_split_length _ _ _ Hfull) as (d & rest & Heq & Hd).
    rewrite Heq in Hlc |- *.
    rewrite lookup_app_r in Hlc by lia.
    replace (S idx - length d)%nat with 1%nat in Hlc by lia.
    destruct rest as [|lc' rest]; [discriminate Hlc|].
    simpl in Hlc. injection Hlc as ->.
    apply level_pairs_mid.
Qed.

Lemma res_mapM_total {A B} (f : A -> res B) (l : list A) :
  Forall (fun x => exists y, f x = Ok y) l -> exists k, res_mapM f l = Ok k.
Proof.
  induction 1 as [|x l [y Hy] _ [k Hk]]; [exists []; reflexivity|].
  exists (y :: k). simpl. rewrite Hy. simpl. rewrite Hk. reflexivity.
Qed.

Lemma res_mapM_elem_of {A B} (f : A -> res B) (l : list A) (k : list B)
    (y : B) :
  res_mapM f l = Ok k -> y ∈ k <-> exists x, x ∈ l /\ f x = Ok y.
Proof.
  intros Hk. apply res_mapM_Ok in Hk.
  induction Hk as [|x y' l k Hxy _ IH].
  - split; [intros Hin; apply elem_of_nil in Hin; contradiction|].
    intros (x & Hin & _). apply elem_of_nil in Hin. contradiction.
  - rewrite elem_of_cons, IH. split.
    + intros [->|(x' & Hin & Hx')]; [exists x; split; [left|exact Hxy]|].
      exists x'. split; [right; exact Hin|exact Hx'].
    + intros (x' & Hin & Hx'). apply elem_of_cons in Hin.
      destruct Hin as [->|Hin]; [left; congruence|right; eauto].
Qed.

(** The parents [all_parents] lists, when it returns. *)
Lemma all_parents_elem_of (t : TaxonomyTree)
    (ps : list (option (string * string))) (level node : string) :
  all_parents t = Ok ps ->
  Some (level, node) ∈ ps <->
  level ∈ but_last (hierarchy t) /\
  exists nodes, _data t !! level = Some nodes /\ is_Some (nodes !! node).
Proof.
  unfold all_parents. intros Hp. inv_res. rename x into per_level.
  rename select (res_mapM _ _ = _) into Hm. subst ps.
  rewrite elem_of_cons, list_elem_of_join. split.
  - intros [Hd|(l & Hin & Hl)]; [discriminate Hd|].
    apply (res_mapM_elem_of _ _ _ _ Hm) in Hl.
    destruct Hl as (lv & Hlv & Hf). inv_res. rename x into nodes. subst l.
    apply list_elem_of_fmap in Hin. destruct Hin as (n & Heq & Hn).
    injection Heq as -> ->. split; [exact Hlv|].
    exists nodes. split; [assumption|]. apply keys_elem_of. exact Hn.
  - intros (Hlv & nodes & Hn & Hnode). right.
    exists ((fun node => Some (level, node)) <$> keys nodes). split.
    + apply list_elem_of_fmap. exists node. split; [reflexivity|].
      apply keys_elem_of. exact Hnode.
    + apply (res_mapM_elem_of _ _ _ _ Hm). exists level.
      split; [exact Hlv|]. rewrite Hn. reflexivity.
Qed.

Lemma but_last_subseteq {A} (l : list A) (x : A) : x ∈ but_last l -> x ∈ l.
Proof. unfold but_last. apply (subseteq_take (length l - 1) l). Qed.

Lemma all_parents_Ok (t : TaxonomyTree) :
  Forall (fun level => is_Some (_data t !! level)) (hierarchy t) ->
  exists ps, all_parents t = Ok ps.
Proof.
  intros Hall. unfold all_parents.
  destruct (res_mapM_total
              (fun level =>
                 nodes ← or_raise KeyError (_data t !! level);
                 Ok ((fun node => Some (level, node)) <$> keys nodes))
              (but_last (hierarchy t))) as [k Hk].
  - rewrite Forall_forall in Hall |- *. intros level Hin.
    destruct (Hall level (but_last_subseteq _ _ Hin)) as [nodes Hn].
    rewrite Hn. eexists. reflexivity.
  - rewrite Hk. eexists. reflexivity.
Qed.

(** In a valid tree a parent that [all_parents] lists has its children
    among the nodes of its child level. *)
Lemma parent_children (t : TaxonomyTree)
    (ps : list (option (string * string))) (p : option (string * string)) :
  valid_taxonomy_tree t -> hierarchy t <> [] ->
  all_parents t = Ok ps -> p ∈ ps ->
  exists cs lc next,
    children t p = Ok cs /\ child_level_of t p = Some lc /\
    lc ∈ hierarchy t /\
    _data t !! lc = Some next /\ forall c, c ∈ cs -> is_Some (next !! c).
Proof.
  intros (Hnd & Hall & Hpairs) Hne Hps Hin.
  destruct p as [[level node]|].
  - apply (all_parents_elem_of _ _ _ _ Hps) in Hin.
    destruct Hin as (Hlv & nodes & Hn & [cs Hcs]).
    destruct (but_last_next _ _ Hnd Hlv) as (idx & lc & Hidx & Hlc & Hpair).
    rewrite Forall_forall in Hpairs.
    destruct (valid_children t level lc (Hpairs _ Hpair))
      as (next & Hnext & Hch & _).
    assert (Hc : children t (Some (level, node)) = Ok cs).
    { apply children_Some. eauto. }
    exists cs, lc, next. split; [exact Hc|]. split.
    + simpl. rewrite Hidx. simpl. exact Hlc.
    + split; [eapply list_elem_of_lookup_2; exact Hlc|].
      split; [exact Hnext|]. intros c Hcin. eapply Hch; eassumption.
  - destruct (hierarchy t) as [|l0 h] eqn:Hh; [contradiction|].
    apply Forall_cons in Hall. destruct Hall as [[nodes Hn] _].
    exists (keys nodes), l0, nodes. simpl. rewrite Hh. simpl. rewrite Hn.
    split; [reflexivity|]. split; [reflexivity|]. split; [left|].
    split; [reflexivity|]. intros c Hc. apply keys_elem_of. exact Hc.
Qed.

(** A level is the last one or one above it. *)
Lemma elem_of_but_last_or_last {A} (l : list A) (x : A) :
  x ∈ l -> x ∈ but_last l \/ last l = Some x.
Proof.
  destruct l as [|y l0 _] using rev_ind.
  - intros Hin. apply elem_of_nil in Hin. contradiction.
  - rewrite but_last_snoc, last_snoc, elem_of_app, list_elem_of_singleton.
    intros [Hin| ->]; [left; exact Hin|right; reflexivity].
Qed.

End TaxonomyMethodsFacts.

(** X5. In a valid taxonomy with at least one level, [all_parents]
    returns the root and exactly the nodes of the levels above the leaf
    level, and [children] succeeds for every parent it lists: the
    children it returns are nodes of the parent's child level. *)
Theorem all_parents_have_children (t : Taxonomy.TaxonomyTree) :
  Taxonomy.valid_taxonomy_tree t -> Taxonomy.hierarchy t <> [] ->
  exists ps,
    TaxonomyMethods.all_parents t = Ok ps /\
    None ∈ ps /\
    (forall level node,
       Some (level, node) ∈ ps <->
       level ∈ TaxonomyMethods.but_last (Taxonomy.hierarchy t) /\
       exists ks, Taxonomy.nodes_at_level t level = Ok ks /\ node ∈ ks) /\
    forall p, p ∈ ps ->
      exists cs lc ks,
        Taxonomy.children t p = Ok cs /\ child_level_of t p = Some lc /\
        Taxonomy.nodes_at_level t lc = Ok ks /\ cs ⊆ ks.
Proof.
  intros Hvalid Hne.
  destruct (all_parents_Ok t) as [ps Hps]; [apply Hvalid|].
  exists ps. split; [exact Hps|]. split; [|split].
  - unfold TaxonomyMethods.all_parents in Hps. inv_res. subst. left.
  - intros level node. rewrite (all_parents_elem_of _ _ _ _ Hps).
    unfold Taxonomy.nodes_at_level. split.
    + intros (Hlv & nodes & Hn & Hnode). split; [exact Hlv|].
      exists (Taxonomy.keys nodes). rewrite Hn.
      split; [reflexivity|]. apply keys_elem_of. exact Hnode.
    + intros (Hlv & ks & Hks & Hnode). split; [exact Hlv|].
      inv_res. subst ks. eexists. split; [eassumption|].
      apply keys_elem_of. exact Hnode.
  - intros p Hin.
    destruct (parent_children t ps p Hvalid Hne Hps Hin)
      as (cs & lc & next & Hcs & Hlc & _ & Hnext & Hsub).
    exists cs, lc, (Taxonomy.keys next). split; [exact Hcs|].
    split; [exact Hlc|]. unfold Taxonomy.nodes_at_level. rewrite Hnext.
    split; [reflexivity|]. intros c Hc. apply keys_elem_of. auto.
Qed.

Lemma all_parents_have_children_witness :
  exists ps,
    TaxonomyMethods.all_parents Examples.small_tree = Ok ps /\
    None ∈ ps /\
    (forall level node,
       Some (level, node) ∈ ps <->
       level ∈ TaxonomyMethods.but_last
                 (Taxonomy.hierarchy Examples.small_tree) /\
       exists ks, Taxonomy.nodes_at_level Examples.small_tree level = Ok ks /\
                  node ∈ ks) /\
    forall p, p ∈ ps ->
      exists cs lc ks,
        Taxonomy.children Examples.small_tree p = Ok cs /\
        child_level_of Examples.small_tree p = Some lc /\
        Taxonomy.nodes_at_level Examples.small_tree lc = Ok ks /\ cs ⊆ ks.
Proof.
  apply (all_parents_have_children Examples.small_tree).
  - apply (bool_decide_unpack _). vm_compute. exact I.
  - discriminate.
Defined.

(** X6. In a valid taxonomy with at least one level, a child of a
    parent that [all_parents] lists is a node of the parent's child
    level and is either itself a parent that [all_parents] lists, when
    that level is above the leaf level, or a leaf, for which
    [rows_for_leaf] returns its rows: it does not raise. *)
Theorem children_are_parents_or_leaves (t : Taxonomy.TaxonomyTree)
    (ps : list (option (string * string))) (p : option (string * string))
    (cs : list string) (c : string) :
  Taxonomy.valid_taxonomy_tree t -> Taxonomy.hierarchy t <> [] ->
  TaxonomyMethods.all_parents t = Ok ps -> p ∈ ps ->
  Taxonomy.children t p = Ok cs -> c ∈ cs ->
  exists lc,
    child_level_of t p = Some lc /\
    ((lc ∈ TaxonomyMethods.but_last (Taxonomy.hierarchy t) /\
      Some (lc, c) ∈ ps) \/
     (TaxonomyMethods.leaf_level t = Ok lc /\
      exists rows, TaxonomyMethods.rows_for_leaf t c = Ok rows)).
Proof.
  intros Hvalid Hne Hps Hin Hcs Hc.
  destruct (parent_children t ps p Hvalid Hne Hps Hin)
    as (cs' & lc & next & Hcs' & Hlc & Hlv & Hnext & Hsub).
  rewrite Hcs in Hcs'. injection Hcs' as <-.
  exists lc. split; [exact Hlc|].
  destruct (elem_of_but_last_or_last _ _ Hlv) as [Hb|Hl].
  - left. split; [exact Hb|].
    apply (all_parents_elem_of _ _ _ _ Hps). split; [exact Hb|].
    exists next. split; [exact Hnext|]. apply Hsub. exact Hc.
  - right. unfold TaxonomyMethods.rows_for_leaf, TaxonomyMethods.leaf_level.
    rewrite Hl. simpl. split; [reflexivity|]. rewrite Hnext. simpl.
    destruct (Hsub c Hc) as [rows Hrows]. rewrite Hrows.
    exists rows. reflexivity.
Qed.

Lemma children_are_parents_or_leaves_witness :
  exists lc,
    child_level_of Examples.small_tree (Some ("class", "A")%string)
    = Some lc /\
    ((lc ∈ TaxonomyMethods.but_last (Taxonomy.hierarchy Examples.small_tree) /\
      Some (lc, "c2"%string)
      ∈ [None; Some ("class", "A")%string; Some ("class", "B")%string]) \/
     (TaxonomyMethods.leaf_level Examples.small_tree = Ok lc /\
      exists rows,
        TaxonomyMethods.rows_for_leaf Examples.small_tree "c2" = Ok rows)).
Proof.
  apply (children_are_parents_or_leaves Examples.small_tree
           [None; Some ("class", "A")%string; Some ("class", "B")%string]
           (Some ("class", "A")%string) ["c1"; "c2"]%string "c2"%string).
  - apply (bool_decide_unpack _). vm_compute. exact I.
  - discriminate.
  - vm_compute. reflexivity.
  - right. left.
  - vm_compute. reflexivity.
  - right. left.
Defined.

Section MarkerCacheFacts.
Import Taxonomy Matching Assignment MarkerCache.

Variables q2i r2i : gmap string nat.

Lemma write_group_Ok (entry : option (string * string) * list string)
    (st st' : gset string * gmap string marker_group) :
  write_group q2i r2i entry st = Ok st' ->
  (parent_grp entry.1 ∉ st.1) /\
  exists grp,
    group_by q2i r2i entry.2 grp /\
    st' = ({[parent_grp entry.1]} ∪ st.1, <[parent_grp entry.1 := grp]> st.2).
Proof.
  unfold write_group. intros Hw.
  destruct (decide (parent_grp entry.1 ∈ st.1)) as [|Hnew]; [discriminate|].
  split; [exact Hnew|]. inv_res. rename x into idx. subst st'.
  rename select (res_mapM _ _ = _) into Hm. apply res_mapM_Ok in Hm.
  eexists. split; [|reflexivity]. unfold group_by. simpl.
  split; apply Forall2_fmap_r; eapply Forall2_impl; try exact Hm;
    intros gene [ri qi] Hg; simpl in *; inv_res; subst; assumption.
Qed.

(** The second loop: the groups written, and only they, are in the
    file, each under the path of its parent. *)
Lemma write_groups_inv
    (l : list (option (string * string) * list string)) :
  forall st st' : gset string * gmap string marker_group,
  for_each (write_group q2i r2i) l st = Ok st' ->
  (forall g, is_Some (st.2 !! g) -> g ∈ st.1) ->
  (forall g, is_Some (st'.2 !! g) -> g ∈ st'.1) /\
  (forall g grp, st.2 !! g = Some grp -> st'.2 !! g = Some grp) /\
  (forall parent genes, (parent, genes) ∈ l ->
     exists grp, st'.2 !! parent_grp parent = Some grp /\
                 group_by q2i r2i genes grp) /\
  (forall g grp, st'.2 !! g = Some grp ->
     st.2 !! g = Some grp \/
     exists parent genes, (parent, genes) ∈ l /\ g = parent_grp parent /\
                          group_by q2i r2i genes grp) /\
  NoDup (parent_grp <$> l.*1) /\
  (forall parent genes, (parent, genes) ∈ l -> parent_grp parent ∉ st.1).
Proof.
  induction l as [|entry l IH]; intros st st' Hl Hdom; simpl in Hl.
  - injection Hl as <-. repeat split; auto.
    + intros parent genes Hin. apply elem_of_nil in Hin. contradiction.
    + constructor.
    + intros parent genes Hin. apply elem_of_nil in Hin. contradiction.
  - inv_res. rename x into st1.
    rename select (write_group _ _ _ _ = _) into Hw.
    destruct (write_group_Ok _ _ _ Hw) as (Hnew & grp0 & Hg0 & ->).
    assert (Hnone : st.2 !! parent_grp entry.1 = None).
    { destruct (st.2 !! parent_grp entry.1) eqn:E; [|reflexivity].
      exfalso. apply Hnew, Hdom. eauto. }
    destruct (IH _ _ Hl) as (Hdom' & Hkeep & Hall & Hcome & Hnd & Hfresh).
    { simpl. intros g [grp Hg]. apply elem_of_union.
      destruct (decide (g = parent_grp entry.1)) as [->|Hne].
      - left. apply elem_of_singleton. reflexivity.
      - right. rewrite lookup_insert_ne in Hg by congruence.
        apply Hdom. eauto. }
    simpl in Hkeep, Hcome, Hfresh.
    split; [exact Hdom'|]. split; [|split; [|split; [|split]]].
    + intros g grp Hg. apply Hkeep.
      rewrite lookup_insert_ne; [exact Hg|]. intros <-. congruence.
    + intros parent genes Hin. apply elem_of_cons in Hin.
      destruct Hin as [<-|Hin]; [|apply Hall; exact Hin].
      exists grp0. split; [|exact Hg0]. apply Hkeep. simpl.
      apply lookup_insert_eq.
    + intros g grp Hg. destruct (Hcome g grp Hg) as [Hst|Hl'].
      * destruct (decide (g = parent_grp entry.1)) as [->|Hne].
        -- rewrite lookup_insert_eq in Hst. injection Hst as <-.
           right. exists entry.1, entry.2. split; [|auto].
           destruct entry; left.
        -- rewrite lookup_insert_ne in Hst by congruence. left. exact Hst.
      * right. destruct Hl' as (parent & genes & Hin & Heq & Hgrp).
        exists parent, genes. split; [right; exact Hin|auto].
    + simpl. constructor; [|exact Hnd].
      intros Hin. apply list_elem_of_fmap in Hin.
      destruct Hin as (parent & Heq & Hin).
      apply list_elem_of_fmap in Hin. destruct Hin as ([p genes] & -> & Hin).
      simpl in Heq. apply (Hfresh p genes Hin). rewrite <- Heq.
      apply elem_of_union. left. apply elem_of_singleton. reflexivity.
    + intros parent genes Hin. apply elem_of_cons in Hin.
      destruct Hin as [<-|Hin]; [exact Hnew|].
      intros Hst. apply (Hfresh parent genes Hin).
      apply elem_of_union. right. exact Hst.
Qed.

(** The first loop over the genes of one parent. *)
Lemma add_genes_inv (genes : list string) :
  forall acc acc' : gset nat * gset nat,
  for_each (add_gene q2i r2i) genes acc = Ok acc' ->
  Forall (fun gene => is_Some (q2i !! gene) /\ is_Some (r2i !! gene)) genes /\
  (forall i, i ∈ acc'.1 <->
     i ∈ acc.1 \/ exists gene, gene ∈ genes /\ q2i !! gene = Some i) /\
  (forall i, i ∈ acc'.2 <->
     i ∈ acc.2 \/ exists gene, gene ∈ genes /\ r2i !! gene = Some i).
Proof.
  induction genes as [|gene genes IH]; intros acc acc' Hl; simpl in Hl.
  - injection Hl as <-. split; [constructor|].
    split; intros i; split; auto; intros [Hi|(g & Hin & _)]; auto;
      apply elem_of_nil in Hin; contradiction.
  - inv_res. rename x into acc1.
    rename select (add_gene _ _ _ _ = _) into Ha.
    unfold add_gene in Ha. inv_res. rename x into qi. rename x0 into ri.
    subst acc1. destruct (IH _ _ Hl) as (Hall & Hq & Hr). simpl in Hq, Hr.
    split; [constructor; [eauto|exact Hall]|].
    split; intros i; [rewrite Hq|rewrite Hr];
      rewrite elem_of_union, elem_of_singleton; split.
    + intros [[->|Hi]|(g & Hin & Hg)]; auto.
      * right. exists gene. split; [left|assumption].
      * right. exists g. split; [right; exact Hin|exact Hg].
    + intros [Hi|(g & Hin & Hg)]; auto. apply elem_of_cons in Hin.
      destruct Hin as [->|Hin]; [left; left; congruence|].
      right. exists g. auto.
    + intros [[->|Hi]|(g & Hin & Hg)]; auto.
      * right. exists gene. split; [left|assumption].
      * right. exists g. split; [right; exact Hin|exact Hg].
    + intros [Hi|(g & Hin & Hg)]; auto. apply elem_of_cons in Hin.
      destruct Hin as [->|Hin]; [left; left; congruence|].
      right. exists g. auto.
Qed.

(** The first loop over the parents. *)
Lemma all_genes_inv (l : list (option (string * string) * list string)) :
  forall acc acc' : gset nat * gset nat,
  for_each (fun entry : option (string * string) * list string =>
              for_each (add_gene q2i r2i) entry.2) l acc = Ok acc' ->
  (forall parent genes gene, (parent, genes) ∈ l -> gene ∈ genes ->
     is_Some (q2i !! gene) /\ is_Some (r2i !! gene)) /\
  (forall i, i ∈ acc'.1 <->
     i ∈ acc.1 \/ exists parent genes gene,
       (parent, genes) ∈ l /\ gene ∈ genes /\ q2i !! gene = Some i) /\
  (forall i, i ∈ acc'.2 <->
     i ∈ acc.2 \/ exists parent genes gene,
       (parent, genes) ∈ l /\ gene ∈ genes /\ r2i !! gene = Some i).
Proof.
  induction l as [|entry l IH]; intros acc acc' Hl; simpl in Hl.
  - injection Hl as <-.
    split; [intros ? ? ? Hin; apply elem_of_nil in Hin; contradiction|].
    split; intros i; split; auto; intros [Hi|(p & g & x & Hin & _)]; auto;
      apply elem_of_nil in Hin; contradiction.
  - inv_res. rename x into acc1.
    rename select (for_each (add_gene _ _) _ _ = _) into Ha.
    destruct (add_genes_inv _ _ _ Ha) as (Hall1 & Hq1 & Hr1).
    destruct (IH _ _ Hl) as (Hall & Hq & Hr).
    rewrite Forall_forall in Hall1.
    split; [|split].
    + intros parent genes gene Hin Hg. apply elem_of_cons in Hin.
      destruct Hin as [<-|Hin]; [apply Hall1; exact Hg|].
      eapply Hall; eassumption.
    + intros i. rewrite Hq, Hq1. split.
      * intros [[Hi|(g & Hin & Hg)]|(p & gs & g & Hin & Hg & Hi)]; auto.
        -- right. exists entry.1, entry.2, g. split; [destruct entry; left|].
           auto.
        -- right. exists p, gs, g. split; [right; exact Hin|auto].
      * intros [Hi|(p & gs & g & Hin & Hg & Hi)]; auto.
        apply elem_of_cons in Hin. destruct Hin as [<-|Hin].
        -- left. right. exists g. auto.
        -- right. exists p, gs, g. auto.
    + intros i. rewrite Hr, Hr1. split.
      * intros [[Hi|(g & Hin & Hg)]|(p & gs & g & Hin & Hg & Hi)]; auto.
        -- right. exists entry.1, entry.2, g. split; [destruct entry; left|].
           auto.
        -- right. exists p, gs, g. split; [right; exact Hin|auto].
      * intros [Hi|(p & gs & g & Hin & Hg & Hi)]; auto.
        apply elem_of_cons in Hin. destruct Hin as [<-|Hin].
        -- left. right. exists g. auto.
        -- right. exists p, gs, g. auto.
Qed.

(** The first loop raises nothing but a [KeyError]. *)
Lemma add_genes_raises (genes : list string) :
  forall (acc : gset nat * gset nat) (e : exn),
  for_each (add_gene q2i r2i) genes acc = Raise e -> e = KeyError.
Proof.
  induction genes as [|gene genes IH]; intros acc e Hl; simpl in Hl.
  - discriminate Hl.
  - destruct (add_gene q2i r2i gene acc) as [acc1|e1] eqn:Ha; simpl in Hl.
    + eapply IH; exact Hl.
    + injection Hl as <-. unfold add_gene in Ha.
      destruct (q2i !! gene); simpl in Ha; [|congruence].
      destruct (r2i !! gene); simpl in Ha; congruence.
Qed.

Lemma all_genes_raises (l : list (option (string * string) * list string)) :
  forall (acc : gset nat * gset nat) (e : exn),
  for_each (fun entry : option (string * string) * list string =>
              for_each (add_gene q2i r2i) entry.2) l acc = Raise e ->
  e = KeyError.
Proof.
  induction l as [|entry l IH]; intros acc e Hl; simpl in Hl.
  - discriminate Hl.
  - destruct (for_each (add_gene q2i r2i) entry.2 acc) as [acc1|e1] eqn:Ha;
      simpl in Hl.
    + eapply IH; exact Hl.
    + injection Hl as <-. eapply add_genes_raises; exact Ha.
Qed.

(** When every gene is known the first loop returns. *)
Lemma add_genes_Ok (genes : list string) :
  Forall (fun gene => is_Some (q2i !! gene) /\ is_Some (r2i !! gene)) genes ->
  forall acc, exists acc', for_each (add_gene q2i r2i) genes acc = Ok acc'.
Proof.
  induction 1 as [|gene genes [[qi Hq] [ri Hr]] _ IH]; intros acc.
  - eexists; reflexivity.
  - cbn [for_each].
    assert (Ha : add_gene q2i r2i gene acc
                 = Ok ({[qi]} ∪ acc.1, {[ri]} ∪ acc.2))
      by (unfold add_gene; rewrite Hq, Hr; reflexivity).
    rewrite Ha. simpl. apply IH.
Qed.

Lemma all_genes_Ok (l : list (option (string * string) * list string)) :
  (forall parent genes gene, (parent, genes) ∈ l -> gene ∈ genes ->
     is_Some (q2i !! gene) /\ is_Some (r2i !! gene)) ->
  forall acc, exists acc',
    for_each (fun entry : option (string * string) * list string =>
                for_each (add_gene q2i r2i) entry.2) l acc = Ok acc'.
Proof.
  induction l as [|[parent genes] l IH]; intros Hk acc.
  - eexists; reflexivity.
  - simpl. destruct (add_genes_Ok genes) with (acc := acc) as [acc1 Ha].
    { apply Forall_forall. intros gene Hg. apply (Hk parent genes gene).
      - left.
      - exact Hg. }
    rewrite Ha. simpl. apply IH. intros p gs g Hin Hg.
    apply (Hk p gs g); [right; exact Hin|exact Hg].
Qed.

End MarkerCacheFacts.

Section MarkerCacheFile.
Import Taxonomy Matching Assignment MarkerCache.

Lemma Sorted_le_NoDup_lt_nat (l : list nat) :
  Sorted le l -> NoDup l -> Sorted lt l.
Proof.
  induction 1 as [|a l Hs IH Hhd]; intros Hnd; [constructor|].
  apply NoDup_cons in Hnd. destruct Hnd as [Hnotin Hnd].
  constructor; [auto|].
  destruct Hhd as [|b l' Hab]; constructor.
  assert (a <> b) by (intros ->; apply Hnotin; left).
  lia.
Qed.

Lemma np_sort_set_elem_of (s : gset nat) (i : nat) :
  i ∈ np_sort_set s <-> i ∈ s.
Proof.
  unfold np_sort_set. rewrite merge_sort_Permutation. apply elem_of_elements.
Qed.

Lemma np_sort_set_sorted (s : gset nat) : Sorted lt (np_sort_set s).
Proof.
  unfold np_sort_set. apply Sorted_le_NoDup_lt_nat.
  - apply (Sorted_merge_sort le).
  - rewrite merge_sort_Permutation. apply NoDup_elements.
Qed.

Lemma group_by_names (qnames rnames genes : list string) (grp : marker_group) :
  group_by (name_to_int qnames) (name_to_int rnames) genes grp ->
  group_of_genes qnames rnames genes grp.
Proof.
  intros [Hq Hr]. split; eapply Forall2_impl; try eassumption;
    intros gene i Hi; apply level_to_idx_Some; exact Hi.
Qed.

(** What a returned file holds. *)
Lemma create_marker_cache_Ok
    (marker_lookup : list (option (string * string) * list string))
    (qnames rnames : list string) (cache : marker_cache_file) :
  create_marker_cache_from_reference_markers marker_lookup qnames rnames
    = Ok cache ->
  exists query_genes reference_genes created,
    for_each (fun entry : option (string * string) * list string =>
                for_each (add_gene (name_to_int qnames) (name_to_int rnames))
                         entry.2)
             marker_lookup (∅, ∅) = Ok (query_genes, reference_genes) /\
    for_each (write_group (name_to_int qnames) (name_to_int rnames))
             marker_lookup (∅, ∅) = Ok (created, groups cache) /\
    all_query_markers cache = np_sort_set query_genes /\
    all_reference_markers cache = np_sort_set reference_genes.
Proof.
  unfold create_marker_cache_from_reference_markers. intros Hc.
  apply res_bind_Ok in Hc. destruct Hc as ([qg rg] & H1 & Hc).
  apply res_bind_Ok in Hc. destruct Hc as ([created gs] & H2 & Hc).
  injection Hc as <-. exists qg, rg, created. simpl. auto.
Qed.

End MarkerCacheFile.

(** X7. The marker cache returned by
    [create_marker_cache_from_reference_markers] holds, for every parent
    of [marker_lookup], a group under the path [assemble_query_data]
    reads, whose datasets [query] and [reference] give, gene by gene,
    the positions of the parent's marker genes in the query and in the
    reference gene names; and it holds no other group. *)
Theorem marker_cache_round_trip
    (marker_lookup : list (option (string * string) * list string))
    (qnames rnames : list string) (cache : MarkerCache.marker_cache_file) :
  MarkerCache.create_marker_cache_from_reference_markers
    marker_lookup qnames rnames = Ok cache ->
  (forall parent genes, (parent, genes) ∈ marker_lookup ->
     exists grp,
       MarkerCache.groups cache !! Matching.parent_grp parent = Some grp /\
       group_of_genes qnames rnames genes grp) /\
  (forall path grp, MarkerCache.groups cache !! path = Some grp ->
     exists parent genes,
       (parent, genes) ∈ marker_lookup /\
       path = Matching.parent_grp parent /\
       group_of_genes qnames rnames genes grp).
Proof.
  intros Hc.
  destruct (create_marker_cache_Ok _ _ _ _ Hc)
    as (qg & rg & created & _ & Hw & _).
  destruct (write_groups_inv _ _ _ _ _ Hw) as (_ & _ & Hall & Hcome & _).
  { simpl. intros g [grp Hg]. rewrite lookup_empty in Hg. discriminate Hg. }
  simpl in Hall, Hcome. split.
  - intros parent genes Hin. destruct (Hall parent genes Hin) as (grp & Hg & Hb).
    exists grp. split; [exact Hg|]. apply group_by_names. exact Hb.
  - intros path grp Hg. destruct (Hcome path grp Hg) as [He|Hl].
    + rewrite lookup_empty in He. discriminate He.
    + destruct Hl as (parent & genes & Hin & Heq & Hb).
      exists parent, genes. split; [exact Hin|]. split; [exact Heq|].
      apply group_by_names. exact Hb.
Qed.

Lemma marker_cache_round_trip_witness :
  exists cache,
    MarkerCache.create_marker_cache_from_reference_markers
      Examples.small_marker_lookup Examples.small_query_genes
      Examples.small_reference_genes = Ok cache /\
    (forall parent genes, (parent, genes) ∈ Examples.small_marker_lookup ->
       exists grp,
         MarkerCache.groups cache !! Matching.parent_grp parent = Some grp /\
         group_of_genes Examples.small_query_genes
                        Examples.small_reference_genes genes grp) /\
    (forall path grp, MarkerCache.groups cache !! path = Some grp ->
       exists parent genes,
         (parent, genes) ∈ Examples.small_marker_lookup /\
         path = Matching.parent_grp parent /\
         group_of_genes Examples.small_query_genes
                        Examples.small_reference_genes genes grp).
Proof.
  destruct (MarkerCache.create_marker_cache_from_reference_markers
              Examples.small_marker_lookup Examples.small_query_genes
              Examples.small_reference_genes) as [cache|e] eqn:Hc.
  - exists cache. split; [reflexivity|].
    apply (marker_cache_round_trip _ _ _ _ Hc).
  - exfalso. vm_compute in Hc. discriminate Hc.
Defined.

(** X8. The datasets [all_query_markers] and [all_reference_markers] of
    the marker cache ascend strictly, hold exactly the indices that
    occur in the [query] and the [reference] datasets of the groups,
    and every one of them is a position of the list of gene names it
    refers to. *)
Theorem marker_cache_all_markers
    (marker_lookup : list (option (string * string) * list string))
    (qnames rnames : list string) (cache : MarkerCache.marker_cache_file) :
  MarkerCache.create_marker_cache_from_reference_markers
    marker_lookup qnames rnames = Ok cache ->
  Sorted lt (MarkerCache.all_query_markers cache) /\
  Sorted lt (MarkerCache.all_reference_markers cache) /\
  (forall i, i ∈ MarkerCache.all_query_markers cache <->
     exists path grp, MarkerCache.groups cache !! path = Some grp /\
                      i ∈ Matching.query grp) /\
  (forall i, i ∈ MarkerCache.all_reference_markers cache <->
     exists path grp, MarkerCache.groups cache !! path = Some grp /\
                      i ∈ Matching.reference grp) /\
  Forall (fun i => i < length qnames)%nat
         (MarkerCache.all_query_markers cache) /\
  Forall (fun i => i < length rnames)%nat
         (MarkerCache.all_reference_markers cache).
Proof.
  intros Hc.
  destruct (create_marker_cache_Ok _ _ _ _ Hc)
    as (qg & rg & created & Hg & Hw & -> & ->).
  destruct (write_groups_inv _ _ _ _ _ Hw) as (_ & _ & Hall & Hcome & _).
  { simpl. intros g [grp Hgrp]. rewrite lookup_empty in Hgrp.
    discriminate Hgrp. }
  destruct (all_genes_inv _ _ _ _ _ Hg) as (_ & Hq & Hr).
  simpl in Hall, Hcome, Hq, Hr.
  assert (Hqi : forall i, i ∈ MarkerCache.np_sort_set qg <->
            exists path grp, MarkerCache.groups cache !! path = Some grp /\
                             i ∈ Matching.query grp).
  { intros i. rewrite np_sort_set_elem_of, Hq. split.
    - intros [Hi|(parent & genes & gene & Hin & Hgene & Hi)];
        [apply elem_of_empty in Hi; contradiction|].
      destruct (Hall parent genes Hin) as (grp & Hgrp & [Hb _]).
      exists (Matching.parent_grp parent), grp. split; [exact Hgrp|].
      apply list_elem_of_lookup_1 in Hgene. destruct Hgene as [k Hk].
      destruct (Forall2_lookup_l _ _ _ _ _ Hb Hk) as (qi & Hqk & Hqe).
      rewrite Hi in Hqe. injection Hqe as <-.
      eapply list_elem_of_lookup_2. exact Hqk.
    - intros (path & grp & Hgrp & Hi). right.
      destruct (Hcome path grp Hgrp) as [He|Hl];
        [rewrite lookup_empty in He; discriminate He|].
      destruct Hl as (parent & genes & Hin & _ & [Hb _]).
      apply list_elem_of_lookup_1 in Hi. destruct Hi as [k Hk].
      destruct (Forall2_lookup_r _ _ _ _ _ Hb Hk) as (gene & Hgk & Hgi).
      exists parent, genes, gene. split; [exact Hin|].
      split; [eapply list_elem_of_lookup_2; exact Hgk|exact Hgi]. }
  assert (Hri : forall i, i ∈ MarkerCache.np_sort_set rg <->
            exists path grp, MarkerCache.groups cache !! path = Some grp /\
                             i ∈ Matching.reference grp).
  { intros i. rewrite np_sort_set_elem_of, Hr. split.
    - intros [Hi|(parent & genes & gene & Hin & Hgene & Hi)];
        [apply elem_of_empty in Hi; contradiction|].
      destruct (Hall parent genes Hin) as (grp & Hgrp & [_ Hb]).
      exists (Matching.parent_grp parent), grp. split; [exact Hgrp|].
      apply list_elem_of_lookup_1 in Hgene. destruct Hgene as [k Hk].
      destruct (Forall2_lookup_l _ _ _ _ _ Hb Hk) as (qi & Hqk & Hqe).
      rewrite Hi in Hqe. injection Hqe as <-.
      eapply list_elem_of_lookup_2. exact Hqk.
    - intros (path & grp & Hgrp & Hi). right.
      destruct (Hcome path grp Hgrp) as [He|Hl];
        [rewrite lookup_empty in He; discriminate He|].
      destruct Hl as (parent & genes & Hin & _ & [_ Hb]).
      apply list_elem_of_lookup_1 in Hi. destruct Hi as [k Hk].
      destruct (Forall2_lookup_r _ _ _ _ _ Hb Hk) as (gene & Hgk & Hgi).
      exists parent, genes, gene. split; [exact Hin|].
      split; [eapply list_elem_of_lookup_2; exact Hgk|exact Hgi]. }
  split; [apply np_sort_set_sorted|]. split; [apply np_sort_set_sorted|].
  split; [exact Hqi|]. split; [exact Hri|].
  split; apply Forall_forall; intros i Hi.
  - apply np_sort_set_elem_of, Hq in Hi.
    destruct Hi as [Hi|(parent & genes & gene & _ & _ & Hi)];
      [apply elem_of_empty in Hi; contradiction|].
    apply level_to_idx_Some in Hi. eapply lookup_lt_Some. exact Hi.
  - apply np_sort_set_elem_of, Hr in Hi.
    destruct Hi as [Hi|(parent & genes & gene & _ & _ & Hi)];
      [apply elem_of_empty in Hi; contradiction|].
    apply level_to_idx_Some in Hi. eapply lookup_lt_Some. exact Hi.
Qed.

Lemma marker_cache_all_markers_witness :
  exists cache,
    MarkerCache.create_marker_cache_from_reference_markers
      Examples.small_marker_lookup Examples.small_query_genes
      Examples.small_reference_genes = Ok cache /\
    MarkerCache.all_query_markers cache = [0; 1; 2]%nat /\
    MarkerCache.all_reference_markers cache = [1; 2; 3]%nat /\
    Sorted lt (MarkerCache.all_query_markers cache) /\
    Forall (fun i => i < 4)%nat (MarkerCache.all_query_markers cache).
Proof.
  destruct (MarkerCache.create_marker_cache_from_reference_markers
              Examples.small_marker_lookup Examples.small_query_genes
              Examples.small_reference_genes) as [cache|e] eqn:Hc.
  - exists cache. split; [reflexivity|].
    destruct (marker_cache_all_markers _ _ _ _ Hc)
      as (Hs & _ & _ & _ & Hlt & _).
    vm_compute in Hc. injection Hc as <-.
    split; [reflexivity|]. split; [reflexivity|]. split; [exact Hs|exact Hlt].
  - exfalso. vm_compute in Hc. discriminate Hc.
Defined.

(** X9. When a marker gene of some parent is missing from the query
    gene names or from the reference gene names,
    [create_marker_cache_from_reference_markers] raises a [KeyError],
    whatever else is wrong with its input. *)
Theorem marker_cache_unknown_gene
    (marker_lookup : list (option (string * string) * list string))
    (qnames rnames : list string)
    (parent : option (string * string)) (genes : list string)
    (gene : string) :
  (parent, genes) ∈ marker_lookup -> gene ∈ genes ->
  gene ∉ qnames \/ gene ∉ rnames ->
  MarkerCache.create_marker_cache_from_reference_markers
    marker_lookup qnames rnames = Raise KeyError.
Proof.
  intros Hin Hgene Hmissing.
  unfold MarkerCache.create_marker_cache_from_reference_markers.
  destruct (Assignment.for_each
              (fun entry : option (string * string) * list string =>
                 Assignment.for_each
                   (MarkerCache.add_gene (MarkerCache.name_to_int qnames)
                                         (MarkerCache.name_to_int rnames))
                   entry.2)
              marker_lookup (∅, ∅)) as [acc|e] eqn:Hg.
  - exfalso. destruct (all_genes_inv _ _ _ _ _ Hg) as (Hall & _).
    destruct (Hall parent genes gene Hin Hgene) as [Hq Hr].
    apply level_to_idx_is_Some in Hq. apply level_to_idx_is_Some in Hr.
    destruct Hmissing; contradiction.
  - apply all_genes_raises in Hg. subst e. reflexivity.
Qed.

Lemma marker_cache_unknown_gene_witness :
  MarkerCache.create_marker_cache_from_reference_markers
    Examples.small_marker_lookup ["g0"; "g1"]%string
    Examples.small_reference_genes = Raise KeyError.
Proof.
  apply (marker_cache_unknown_gene Examples.small_marker_lookup
           ["g0"; "g1"]%string Examples.small_reference_genes
           None ["g2"; "g0"]%string "g2"%string).
  - left.
  - left.
  - left. intros Hin. apply (bool_decide_pack _) in Hin.
    vm_compute in Hin. exact Hin.
Defined.

(** X10. When [create_marker_cache_from_reference_markers] returns, no
    two parents of [marker_lookup] have the same group path: the check
    of [created_groups] lets no path through twice. So
    [parent_node_list] names no parent twice, and the file has as many
    groups as [marker_lookup] has parents. *)
Theorem marker_cache_group_paths
    (marker_lookup : list (option (string * string) * list string))
    (qnames rnames : list string) (cache : MarkerCache.marker_cache_file) :
  MarkerCache.create_marker_cache_from_reference_markers
    marker_lookup qnames rnames = Ok cache ->
  NoDup (Matching.parent_grp <$> marker_lookup.*1) /\
  NoDup (MarkerCache.parent_node_list cache) /\
  size (MarkerCache.groups cache) = length marker_lookup.
Proof.
  intros Hc.
  destruct (create_marker_cache_Ok _ _ _ _ Hc)
    as (qg & rg & created & _ & Hw & _).
  destruct (write_groups_inv _ _ _ _ _ Hw)
    as (_ & _ & Hall & Hcome & Hnd & _).
  { simpl. intros g [grp Hg]. rewrite lookup_empty in Hg. discriminate Hg. }
  simpl in Hall, Hcome.
  split; [exact Hnd|]. split.
  - unfold MarkerCache.create_marker_cache_from_reference_markers in Hc.
    apply res_bind_Ok in Hc. destruct Hc as ([qg' rg'] & _ & Hc).
    apply res_bind_Ok in Hc. destruct Hc as ([created' gs] & _ & Hc).
    injection Hc as <-. simpl. eapply NoDup_fmap_1. exact Hnd.
  - assert (Hdom : dom (MarkerCache.groups cache)
                   = list_to_set (Matching.parent_grp <$> marker_lookup.*1)).
    { apply set_eq. intros g.
      rewrite elem_of_dom, elem_of_list_to_set, list_elem_of_fmap. split.
      - intros [grp Hg]. destruct (Hcome g grp Hg) as [He|Hl].
        + rewrite lookup_empty in He. discriminate He.
        + destruct Hl as (parent & genes & Hin & -> & _).
          exists parent. split; [reflexivity|].
          apply list_elem_of_fmap. exists (parent, genes). auto.
      - intros (parent & -> & Hin). apply list_elem_of_fmap in Hin.
        destruct Hin as ([p genes] & -> & Hin).
        destruct (Hall p genes Hin) as (grp & Hg & _). eauto. }
    rewrite <- size_dom, Hdom, size_list_to_set by exact Hnd.
    rewrite !length_fmap. reflexivity.
Qed.

Lemma marker_cache_group_paths_witness :
  exists cache,
    MarkerCache.create_marker_cache_from_reference_markers
      Examples.small_marker_lookup Examples.small_query_genes
      Examples.small_reference_genes = Ok cache /\
    NoDup (Matching.parent_grp <$> Examples.small_marker_lookup.*1) /\
    NoDup (MarkerCache.parent_node_list cache) /\
    size (MarkerCache.groups cache) = 2%nat.
Proof.
  destruct (MarkerCache.create_marker_cache_from_reference_markers
              Examples.small_marker_lookup Examples.small_query_genes
              Examples.small_reference_genes) as [cache|e] eqn:Hc.
  - exists cache. split; [reflexivity|].
    apply (marker_cache_group_paths Examples.small_marker_lookup
             Examples.small_query_genes Examples.small_reference_genes).
    exact Hc.
  - exfalso. vm_compute in Hc. discriminate Hc.
Defined.

Section WorkerFacts.
Import Taxonomy Matching Election Assignment AnnDataIterator Worker.

Lemma set_cell_ids_Ok (assignment : list cell_result)
    (query_cell_names : list string) (named : list named_result) :
  set_cell_ids assignment query_cell_names = Ok named ->
  length named = length assignment /\
  forall idx r, assignment !! idx = Some r ->
    exists name,
      query_cell_names !! idx = Some name /\
      named !! idx = Some (<["cell_id" := CellId name]> (LevelValue <$> r)).
Proof.
  unfold set_cell_ids. intros Hs.
  pose proof (res_mapM_length _ _ _ Hs) as Hlen.
  rewrite length_imap in Hlen. split; [exact Hlen|].
  apply res_mapM_Ok in Hs. intros idx r Hr.
  assert (Hi : imap pair assignment !! idx = Some (idx, r)).
  { rewrite list_lookup_imap, Hr. reflexivity. }
  destruct (Forall2_lookup_l _ _ _ _ _ Hs Hi) as (d & Hd & Hf).
  simpl in Hf. inv_res. rename x into name. subst d.
  exists name. auto.
Qed.

Lemma set_cell_ids_short (assignment : list cell_result)
    (query_cell_names : list string) :
  (length query_cell_names < length assignment)%nat ->
  set_cell_ids assignment query_cell_names = Raise IndexError.
Proof.
  unfold set_cell_ids. intros Hlt.
  assert (Hgen : forall (l : list cell_result) (k : nat),
             (k <= length query_cell_names < k + length l)%nat ->
             res_mapM (fun ir : nat * cell_result =>
                         name ← or_raise IndexError
                                  (query_cell_names !! ir.1);
                         Ok (<["cell_id" := CellId name]>
                               (LevelValue <$> ir.2)))
                      (imap (fun i => pair (k + i)%nat) l)
             = Raise IndexError).
  { induction l as [|r l IH]; intros k Hk; [simpl in Hk; lia|].
    simpl. rewrite Nat.add_0_r.
    destruct (query_cell_names !! k) as [name|] eqn:Hn; [|reflexivity].
    simpl. pose proof (lookup_lt_Some _ _ _ Hn) as Hlk.
    rewrite (imap_ext _ (fun i => pair (S k + i)%nat));
      [|intros i x _; simpl; f_equal; lia].
    rewrite IH; [reflexivity|]. simpl in Hk. lia. }
  apply (Hgen assignment 0%nat). simpl. lia.
Qed.

Lemma slice_app {A} (l : list A) (a b c : nat) :
  (a <= b <= c)%nat -> slice l a b ++ slice l b c = slice l a c.
Proof.
  intros Habc. unfold slice.
  replace (drop b l) with (drop (b - a) (drop a l))
    by (rewrite drop_drop; f_equal; lia).
  rewrite take_take_drop. f_equal. lia.
Qed.

Lemma tiles_le (chunks : list (array2 * nat * nat)) :
  forall start stop, tiles start stop chunks -> (start <= stop)%nat.
Proof.
  induction chunks as [|[[c x] y] cs IH]; intros start stop Ht; simpl in Ht.
  - lia.
  - destruct Ht as (-> & Hxy & Ht). apply IH in Ht. lia.
Qed.

Lemma tiles_names (names : list string) :
  forall (chunks : list (array2 * nat * nat)) (start stop : nat),
  tiles start stop chunks -> (stop <= length names)%nat ->
  mjoin (name_chunk names <$> chunks) = slice names start stop /\
  Forall (fun c => length (name_chunk names c) = (c.2 - c.1.2)%nat) chunks.
Proof.
  induction chunks as [|[[chunk a] b] chunks IH]; intros start stop Ht Hs.
  - simpl in Ht. subst stop. simpl. unfold slice.
    rewrite Nat.sub_diag. split; [reflexivity|constructor].
  - simpl in Ht. destruct Ht as (Heq & Hab & Ht). subst start.
    pose proof (tiles_le _ _ _ Ht) as Hb.
    destruct (IH b stop Ht Hs) as [Hj Hl].
    split.
    + change (mjoin (name_chunk names <$> (chunk, a, b) :: chunks))
        with (name_chunk names (chunk, a, b)
              ++ mjoin (name_chunk names <$> chunks)).
      rewrite Hj. unfold name_chunk. simpl. apply slice_app. lia.
    + constructor; [|exact Hl]. unfold name_chunk, slice. simpl.
      rewrite length_take, length_drop. lia.
Qed.

(** The ceiling of a quotient of integers. *)
Lemma Qceiling_div_bounds (n p : Z) :
  (0 < p)%Z ->
  (n <= Qceiling (inject_Z n / inject_Z p) * p)%Z /\
  ((Qceiling (inject_Z n / inject_Z p) - 1) * p < n)%Z.
Proof.
  intros Hp. set (x := inject_Z n / inject_Z p).
  pose proof (Qle_ceiling x) as Hle. pose proof (Qceiling_lt x) as Hlt.
  assert (Hpq : 0 < inject_Z p)
    by (change 0 with (inject_Z 0); rewrite <- Zlt_Qlt; exact Hp).
  assert (Hx : x * inject_Z p == inject_Z n).
  { unfold x. field. intros E. rewrite E in Hpq. apply (Qlt_irrefl 0). exact Hpq. }
  split.
  - rewrite Zle_Qle, inject_Z_mult, <- Hx.
    apply Qmult_le_compat_r; [exact Hle|]. apply Qlt_le_weak. exact Hpq.
  - rewrite Zlt_Qlt, inject_Z_mult, <- Hx.
    apply Qmult_lt_compat_r; [exact Hpq|exact Hlt].
Qed.

End WorkerFacts.

(** X11. When [run_type_assignment] returns on a valid taxonomy and the
    worker returns, the results it writes, to its file or behind what
    the shared list held, are one dict per cell of the chunk: the dict
    of cell [idx] holds under ['cell_id'] the name
    [query_cell_names[idx]] and, under every level of the hierarchy not
    called ['cell_id'], a record. *)
Theorem worker_names_every_cell `{Collaborators} (r0 r1 : nat)
    (query_cell_chunk : array2) (query_cell_names : list string)
    (leaf_node_matrix : gmap string array1)
    (marker_gene_cache : gmap string Matching.marker_group)
    (t : Taxonomy.TaxonomyTree)
    (bootstrap_factor : Q) (bootstrap_iteration : nat) (rng : rng_state)
    (output_list : list Worker.named_result)
    (results_output_path : option string) (out : Worker.worker_output) :
  Worker._run_type_assignment_on_h5ad_worker r0 r1 query_cell_chunk
    query_cell_names leaf_node_matrix marker_gene_cache t bootstrap_factor
    bootstrap_iteration rng output_list results_output_path = Ok out ->
  Taxonomy.valid_taxonomy_tree t ->
  exists result,
    written output_list out result /\
    length result = length query_cell_chunk /\
    forall idx, (idx < length query_cell_chunk)%nat ->
      exists d name,
        result !! idx = Some d /\
        query_cell_names !! idx = Some name /\
        d !! "cell_id"%string = Some (Worker.CellId name) /\
        forall level, level ∈ Taxonomy.hierarchy t ->
          level <> "cell_id"%string ->
          exists rec, d !! level = Some (Worker.LevelValue (Some rec)).
Proof.
  unfold Worker._run_type_assignment_on_h5ad_worker. intros Hw Hvalid.
  apply res_bind_Ok in Hw. destruct Hw as ([rs rng'] & Hrun & Hw).
  apply res_bind_Ok in Hw. destruct Hw as (named & Hset & Hw).
  destruct (run_type_assignment_walk _ _ _ _ _ _ _ _ _ Hrun Hvalid)
    as [Hlen Hwalk].
  destruct (set_cell_ids_Ok _ _ _ Hset) as [Hlen' Hnamed].
  exists named. split; [|split; [congruence|]].
  - destruct results_output_path as [path|]; [destruct (decide (path = ""))|];
      injection Hw as <-; reflexivity.
  - intros idx Hidx.
    destruct (lookup_lt_is_Some_2 rs idx) as [r Hr]; [lia|].
    destruct (Hnamed idx r Hr) as (name & Hname & Hd).
    eexists _, name. split; [exact Hd|]. split; [exact Hname|].
    split; [apply lookup_insert_eq|].
    intros level Hin Hne. rewrite lookup_insert_ne by congruence.
    destruct (walk_ok_record t (Taxonomy.hierarchy t) r level None
                (Hwalk idx r Hr) Hin) as [rec Hrec].
    exists rec. rewrite lookup_fmap, Hrec. reflexivity.
Qed.

Lemma worker_names_every_cell_witness :
  exists out result,
    Worker._run_type_assignment_on_h5ad_worker (H := Examples.replay)
      3 6 Examples.walk_query ["x"; "y"; "z"]%string Examples.walk_means
      Examples.walk_cache Examples.small_tree 1 2 Examples.walk_draws
      [] (Some "out"%string) = Ok out /\
    written [] out result /\
    length result = 3%nat /\
    forall idx, (idx < 3)%nat ->
      exists d name,
        result !! idx = Some d /\
        ["x"; "y"; "z"]%string !! idx = Some name /\
        d !! "cell_id"%string = Some (Worker.CellId name) /\
        forall level, level ∈ ["class"; "cluster"]%string ->
          level <> "cell_id"%string ->
          exists rec, d !! level = Some (Worker.LevelValue (Some rec)).
Proof.
  destruct (Worker._run_type_assignment_on_h5ad_worker (H := Examples.replay)
              3 6 Examples.walk_query ["x"; "y"; "z"]%string
              Examples.walk_means Examples.walk_cache Examples.small_tree
              1 2 Examples.walk_draws [] (Some "out"%string))
    as [out|e] eqn:Hw.
  - exists out.
    destruct (worker_names_every_cell (H := Examples.replay) _ _ _ _ _ _ _
                _ _ _ _ _ _ Hw) as (result & Hres).
    + apply (bool_decide_unpack _). vm_compute. exact I.
    + exists result. split; [reflexivity|exact Hres].
  - exfalso. vm_compute in Hw. discriminate Hw.
Defined.

(** X12. When [run_type_assignment] returns on a valid taxonomy and
    the worker was handed fewer names than the chunk has cells, the
    worker raises an [IndexError]: nothing is saved or appended. *)
Theorem worker_short_of_names `{Collaborators} (r0 r1 : nat)
    (query_cell_chunk : array2) (query_cell_names : list string)
    (leaf_node_matrix : gmap string array1)
    (marker_gene_cache : gmap string Matching.marker_group)
    (t : Taxonomy.TaxonomyTree)
    (bootstrap_factor : Q) (bootstrap_iteration : nat) (rng rng' : rng_state)
    (rs : list Assignment.cell_result)
    (output_list : list Worker.named_result)
    (results_output_path : option string) :
  Assignment.run_type_assignment query_cell_chunk leaf_node_matrix
    marker_gene_cache t bootstrap_factor bootstrap_iteration rng
    = Ok (rs, rng') ->
  Taxonomy.valid_taxonomy_tree t ->
  (length query_cell_names < length query_cell_chunk)%nat ->
  Worker._run_type_assignment_on_h5ad_worker r0 r1 query_cell_chunk
    query_cell_names leaf_node_matrix marker_gene_cache t bootstrap_factor
    bootstrap_iteration rng output_list results_output_path
  = Raise IndexError.
Proof.
  intros Hrun Hvalid Hlt.
  unfold Worker._run_type_assignment_on_h5ad_worker. rewrite Hrun. simpl.
  destruct (run_type_assignment_walk _ _ _ _ _ _ _ _ _ Hrun Hvalid)
    as [Hlen _].
  rewrite set_cell_ids_short by lia. reflexivity.
Qed.

Lemma worker_short_of_names_witness :
  Worker._run_type_assignment_on_h5ad_worker (H := Examples.replay)
    3 6 Examples.walk_query ["x"; "y"]%string Examples.walk_means
    Examples.walk_cache Examples.small_tree 1 2 Examples.walk_draws
    [] None = Raise IndexError.
Proof.
  destruct (Assignment.run_type_assignment (H := Examples.replay)
              Examples.walk_query Examples.walk_means
              Examples.walk_cache Examples.small_tree 1 2
              Examples.walk_draws) as [[rs rng']|e] eqn:Hrun.
  - apply (worker_short_of_names (H := Examples.replay) _ _ _ _ _ _ _ _ _
             _ _ _ _ _ Hrun).
    + apply (bool_decide_unpack _). vm_compute. exact I.
    + simpl. lia.
  - exfalso. vm_compute in Hrun. discriminate Hrun.
Defined.

(** X13. With at least one process and a requested chunk size of at
    least one, the chunk size [run_type_assignment_on_h5ad_cpu] uses is
    at least one and at most the requested one; when it is smaller than
    requested, [n_processors] chunks of that size hold all rows, and,
    unless it is one, chunks one row shorter would not: the division
    does not raise. *)
Theorem chunk_size_of_bounds (n_rows : nat) (n_processors chunk_size : Z) :
  (1 <= n_processors)%Z -> (1 <= chunk_size)%Z ->
  exists c,
    Worker.chunk_size_of n_rows n_processors chunk_size = inr c /\
    (1 <= c <= chunk_size)%Z /\
    ((c < chunk_size)%Z ->
     (Z.of_nat n_rows <= c * n_processors)%Z /\
     (c = 1 \/ (c - 1) * n_processors < Z.of_nat n_rows)%Z).
Proof.
  intros Hp Hc. unfold Worker.chunk_size_of.
  destruct (decide (n_processors = 0)%Z) as [E|_]; [lia|].
  eexists. split; [reflexivity|].
  destruct (Qceiling_div_bounds (Z.of_nat n_rows) n_processors)
    as [Hup Hlow]; [lia|].
  split; [lia|]. intros Hlt. split; [nia|].
  destruct (Z.max_spec 1 (Qceiling (inject_Z (Z.of_nat n_rows)
                                    / inject_Z n_processors)))
    as [[Hm ->]|[Hm ->]]; [right|left].
  - rewrite Z.min_l by lia. exact Hlow.
  - rewrite Z.min_l by lia. reflexivity.
Qed.

Lemma chunk_size_of_bounds_witness :
  exists c,
    Worker.chunk_size_of 10 4 100 = inr c /\
    (1 <= c <= 100)%Z /\
    ((c < 100)%Z ->
     (Z.of_nat 10 <= c * 4)%Z /\ (c = 1 \/ (c - 1) * 4 < Z.of_nat 10)%Z).
Proof. apply (chunk_size_of_bounds 10 4 100); lia. Defined.

(** X14. For a well-formed CSR matrix, at least one process, a requested
    chunk size of at least one and as many cell names as rows, the
    chunks the iterator yields at the chunk size of
    [run_type_assignment_on_h5ad_cpu], with the names handed to their
    workers, split the list of names: the chunks of names, one after
    the other, are the list itself, and each has as many names as its
    chunk has rows. *)
Theorem chunks_split_the_names (g : AnnDataIterator.csr_group)
    (shape : nat * nat) (n_processors chunk_size : Z)
    (query_cell_names : list string) :
  AnnDataIterator.csr_wf g shape ->
  (1 <= n_processors)%Z -> (1 <= chunk_size)%Z ->
  length query_cell_names = shape.1 ->
  exists c chunks final,
    Worker.chunk_size_of shape.1 n_processors chunk_size = inr c /\
    (forall fuel, (shape.1 < fuel)%nat ->
       AnnDataIterator.iterate fuel
         (AnnDataIterator.init g (Z.to_nat c) shape)
       = Some (Ok (chunks, final))) /\
    mjoin (Worker.name_chunk query_cell_names <$> chunks)
    = query_cell_names /\
    Forall (fun chunk => length (Worker.name_chunk query_cell_names chunk)
                         = length chunk.1.1) chunks.
Proof.
  intros Hwf Hp Hc Hnames.
  destruct (chunk_size_of_bounds shape.1 n_processors chunk_size Hp Hc)
    as (c & Hcs & Hc1 & _).
  destruct (iterate_from shape.1 (AnnDataIterator.init g (Z.to_nat c) shape))
    as (chunks & final & Hrun & Ht & Hd & _); simpl; try lia.
  { destruct shape; exact Hwf. }
  simpl in Ht, Hd.
  destruct (tiles_names query_cell_names chunks 0 shape.1 Ht) as [Hj Hl];
    [lia|].
  exists c, chunks, final. split; [exact Hcs|]. split; [exact Hrun|].
  split.
  - rewrite Hj. unfold AnnDataIterator.slice. rewrite drop_0, Nat.sub_0_r.
    apply take_ge. lia.
  - rewrite Forall_forall in Hl, Hd |- *. intros chunk Hin.
    rewrite (Hl chunk Hin). destruct (Hd chunk Hin) as [Hrows _].
    symmetry. destruct chunk as [[m a] b]. exact Hrows.
Qed.

Lemma chunks_split_the_names_witness :
  exists c chunks final,
    Worker.chunk_size_of 3 2 10 = inr c /\
    (forall fuel, (3 < fuel)%nat ->
       AnnDataIterator.iterate fuel
         (AnnDataIterator.init Examples.csr_3x2 (Z.to_nat c) (3, 2)%nat)
       = Some (Ok (chunks, final))) /\
    mjoin (Worker.name_chunk ["x"; "y"; "z"]%string <$> chunks)
    = ["x"; "y"; "z"]%string /\
    Forall (fun chunk =>
              length (Worker.name_chunk ["x"; "y"; "z"]%string chunk)
              = length chunk.1.1) chunks.
Proof.
  apply (chunks_split_the_names Examples.csr_3x2 (3, 2)%nat 2 10
           ["x"; "y"; "z"]%string).
  - unfold AnnDataIterator.csr_wf. simpl.
    repeat split; repeat constructor; lia.
  - lia.
  - lia.
  - reflexivity.
Defined.

(** X15. A [CSRRowIterator] with a [row_chunk_size] of 0 that has rows
    left never gets through: each call of [__next__] yields an empty
    chunk and leaves the iterator where it was, so that the loop over
    it does not end, whatever the number of calls allowed. *)
Theorem csr_row_iterator_zero_chunk (self : AnnDataIterator.CSRRowIterator) :
  AnnDataIterator.row_chunk_size self = 0%nat ->
  (AnnDataIterator.r0 self < AnnDataIterator.n_rows self)%nat ->
  AnnDataIterator.next self
  = (AnnDataIterator.Yield [] (AnnDataIterator.r0 self)
                           (AnnDataIterator.r0 self), self) /\
  forall fuel, AnnDataIterator.iterate fuel self = None.
Proof.
  intros Hz Hlt.
  assert (Hnext : AnnDataIterator.next self
                  = (AnnDataIterator.Yield [] (AnnDataIterator.r0 self)
                                           (AnnDataIterator.r0 self), self)).
  { unfold AnnDataIterator.next.
    destruct (decide (AnnDataIterator.n_rows self
                      <= AnnDataIterator.r0 self)%nat); [lia|].
    rewrite Hz, Nat.add_0_r, Nat.min_r by lia.
    unfold AnnDataIterator.load_csr. simpl. rewrite Nat.sub_diag. simpl.
    destruct self; simpl in *. subst. reflexivity. }
  split; [exact Hnext|].
  induction fuel as [|fuel IH]; [reflexivity|].
  simpl. rewrite Hnext, IH. reflexivity.
Qed.

Lemma csr_row_iterator_zero_chunk_witness :
  AnnDataIterator.next (AnnDataIterator.init Examples.csr_3x2 0 (3, 2)%nat)
  = (AnnDataIterator.Yield [] 0 0,
     AnnDataIterator.init Examples.csr_3x2 0 (3, 2)%nat) /\
  forall fuel,
    AnnDataIterator.iterate fuel
      (AnnDataIterator.init Examples.csr_3x2 0 (3, 2)%nat) = None.
Proof.
  apply (csr_row_iterator_zero_chunk
           (AnnDataIterator.init Examples.csr_3x2 0 (3, 2)%nat)).
  - reflexivity.
  - simpl. lia.
Defined.

Section PrecomputeFacts.
Import AnnDataIterator Assignment Worker Precompute.

Lemma dict_set_fresh {V} (d : dict V) (k : string) (v : V) :
  k ∉ d.*1 -> dict_set d k v = d ++ [(k, v)].
Proof.
  induction d as [|[k' v'] d IH]; intros Hk; [reflexivity|].
  simpl in *. apply not_elem_of_cons in Hk. destruct Hk as [Hne Hk].
  destruct (decide (k' = k)); [congruence|]. rewrite IH by exact Hk.
  reflexivity.
Qed.

Lemma dict_get_elem_of {V} (d : dict V) (k : string) (v : V) :
  NoDup d.*1 -> (k, v) ∈ d -> dict_get d k = Some v.
Proof.
  induction d as [|[k' v'] d IH]; intros Hnd Hin.
  - apply elem_of_nil in Hin. contradiction.
  - simpl in *. apply NoDup_cons in Hnd. destruct Hnd as [Hnotin Hnd].
    apply elem_of_cons in Hin. destruct Hin as [Heq|Hin].
    + injection Heq as <- <-. destruct (decide (k = k)); congruence.
    + destruct (decide (k' = k)) as [->|Hne]; [|apply IH; assumption].
      exfalso. apply Hnotin. apply list_elem_of_fmap. exists (k, v). auto.
Qed.

Lemma slice_length {A} (l : list A) (a b : nat) :
  (length (slice l a b) <= b - a)%nat.
Proof. unfold slice. rewrite length_take. lia. Qed.

Lemma slice_snoc {A} (l : list A) (x : A) (a b k : nat) :
  l !! k = Some x -> (a <= k < b)%nat ->
  slice (take (S k) l) a b = slice (take k l) a b ++ [x].
Proof.
  intros Hk Hab. unfold slice.
  rewrite (take_S_r l k x Hk).
  rewrite drop_app_le by (rewrite length_take; apply lookup_lt_Some in Hk; lia).
  rewrite take_app_ge.
  - rewrite (take_ge (drop a (take k l)))
      by (rewrite length_drop, length_take; lia).
    f_equal. apply lookup_lt_Some in Hk.
    rewrite take_ge; [reflexivity|].
    rewrite length_drop, length_take. simpl. lia.
  - rewrite length_drop, length_take. lia.
Qed.

Lemma slice_take_below {A} (l : list A) (a b k : nat) :
  (b <= k)%nat -> slice (take (S k) l) a b = slice (take k l) a b.
Proof.
  intros Hb. unfold slice.
  destruct (decide (a <= b)%nat) as [Hab|Hab].
  - rewrite !take_drop_commute. rewrite !take_take.
    replace (Nat.min (a + (b - a)) (S k)) with (a + (b - a))%nat by lia.
    replace (Nat.min (a + (b - a)) k) with (a + (b - a))%nat by lia.
    reflexivity.
  - replace (b - a)%nat with 0%nat by lia. reflexivity.
Qed.

Lemma slice_take_above {A} (l : list A) (a b k : nat) :
  (S k <= a)%nat -> slice (take (S k) l) a b = slice (take k l) a b.
Proof.
  intros Ha. unfold slice.
  rewrite !drop_ge by (rewrite length_take; lia). reflexivity.
Qed.

(** The loop dividing the clusters: with [k] clusters through, the
    dicts hold the first [k] items in runs of [q]. *)
Lemma divide_loop_by (q n_workers : nat) (items : dict (list nat)) :
  (1 <= q)%nat -> NoDup items.*1 -> (length items <= n_workers * q)%nat ->
  forall (rest : dict (list nat)) (k : nat),
  drop k items = rest ->
  divide_loop (Z.of_nat q) rest k (division_by q (take k items) n_workers)
  = Ok (division_by q items n_workers).
Proof.
  intros Hq Hnd Hn rest. induction rest as [|[cluster this] rest IH];
    intros k Hdrop.
  - simpl. f_equal. f_equal. apply take_ge.
    apply drop_nil_inv in Hdrop. exact Hdrop.
  - assert (Hk : items !! k = Some (cluster, this)).
    { rewrite <- (Nat.add_0_r k), <- lookup_drop, Hdrop. reflexivity. }
    pose proof (lookup_lt_Some _ _ _ Hk) as Hlt.
    cbn [divide_loop].
    assert (Hjj : (Z.of_nat k / Z.of_nat q)%Z = Z.of_nat (k / q))
      by (symmetry; apply Nat2Z.inj_div).
    assert (Hjlt : (k / q < n_workers)%nat).
    { apply Nat.Div0.div_lt_upper_bound. lia. }
    assert (Hpos : py_position (division_by q (take k items) n_workers)
                               (Z.of_nat k / Z.of_nat q)
                   = Some (k / q)%nat).
    { unfold py_position, division_by.
      rewrite length_fmap, length_seq, Hjj.
      destruct (decide (Z.of_nat (k / q) < 0)%Z); [lia|].
      destruct (decide (0 <= Z.of_nat (k / q) < Z.of_nat n_workers)%Z);
        [|lia].
      rewrite Nat2Z.id. reflexivity. }
    rewrite Hpos. simpl.
    replace (alter _ (k / q)%nat (division_by q (take k items) n_workers))
      with (division_by q (take (S k) items) n_workers).
    + apply IH. replace (S k) with (k + 1)%nat by lia.
      rewrite <- drop_drop, Hdrop. reflexivity.
    + pose proof (Nat.div_mod_eq k q) as Hdm.
      pose proof (Nat.mod_upper_bound k q ltac:(lia)) as Hmod.
      apply list_eq. intros j. unfold division_by.
      destruct (decide (j = k / q)%nat) as [->|Hne].
      * rewrite list_lookup_alter_eq, !list_lookup_fmap.
        rewrite lookup_seq_lt by exact Hjlt. simpl. f_equal.
        rewrite (slice_snoc items (cluster, this)) by (try exact Hk; nia).
        rewrite dict_set_fresh; [reflexivity|].
        intros Hin. apply list_elem_of_fmap in Hin.
        destruct Hin as ([c v] & Hc & Hin). simpl in Hc. subst c.
        unfold slice in Hin. apply elem_of_take in Hin.
        destruct Hin as (i & Hi & _). rewrite lookup_drop in Hi.
        apply lookup_take_Some in Hi. destruct Hi as [Hi Hik].
        assert (Heq : items.*1 !! (k / q * q + i)%nat = Some cluster)
          by (rewrite list_lookup_fmap, Hi; reflexivity).
        assert (Hkk : items.*1 !! k = Some cluster)
          by (rewrite list_lookup_fmap, Hk; reflexivity).
        pose proof (NoDup_lookup _ _ _ _ Hnd Heq Hkk). lia.
      * rewrite list_lookup_alter_ne by congruence.
        rewrite !list_lookup_fmap.
        destruct (seq 0 n_workers !! j) as [j'|] eqn:Hj; [|reflexivity].
        apply lookup_seq in Hj. destruct Hj as [-> _]. simpl. f_equal.
        destruct (decide (j < k / q)%nat) as [Hlo|Hhi].
        -- apply slice_take_below. nia.
        -- apply slice_take_above. nia.
Qed.

Lemma division_by_join (q : nat) (items : dict (list nat)) (n_workers : nat) :
  mjoin (division_by q items n_workers) = take (n_workers * q) items.
Proof.
  unfold division_by. induction n_workers as [|n IH].
  - reflexivity.
  - rewrite seq_S, fmap_app, join_app, IH. simpl. rewrite app_nil_r.
    replace (take (n * q) items) with (slice items 0 (n * q))
      by (unfold slice; rewrite drop_0, Nat.sub_0_r; reflexivity).
    rewrite slice_app by lia. unfold slice.
    rewrite drop_0, Nat.sub_0_r. f_equal. lia.
Qed.

Lemma division_by_nil (q n_workers : nat) :
  division_by q [] n_workers = replicate n_workers [].
Proof.
  unfold division_by. apply list_eq. intros j.
  rewrite list_lookup_fmap.
  destruct (decide (j < n_workers)%nat) as [Hlt|Hge].
  - rewrite lookup_seq_lt by exact Hlt. rewrite lookup_replicate_2 by exact Hlt.
    simpl. unfold slice. rewrite drop_nil, take_nil. reflexivity.
  - rewrite lookup_ge_None_2 by (rewrite length_seq; lia).
    rewrite lookup_ge_None_2 by (rewrite length_replicate; lia). reflexivity.
Qed.

Section WorkerLoop.
Context {stats : Type}.
Variable load_disjoint_csr : list nat -> res array2.
Variable summary_stats_for_chunk : array2 -> stats.
Variable row_of : nat -> array1.
Variable n_cells : nat.
Variable rows_at_a_time : Z.
Variable d : dict (list nat).
Variable c2o : gmap string nat.

Hypothesis load_rows : loads_rows load_disjoint_csr n_cells row_of.
Hypothesis d_rows : clusters_have_rows n_cells d.
Hypothesis d_NoDup : NoDup d.*1.
Hypothesis c2o_total : forall c, c ∈ d.*1 -> is_Some (c2o !! c).

(** The inner loop takes at least one cluster when there is one and no
    row has been gathered, and lays the clusters it takes out one
    after the other. *)
Lemma gather_rows_segment (seg : dict (list nat)) :
  forall (i : nat) (these_rows : list nat) (srm : dict (nat * nat)),
  (forall c rows, (c, rows) ∈ seg -> dict_get d c = Some rows) ->
  NoDup (srm.*1 ++ seg.*1) ->
  exists m,
    (m <= length seg)%nat /\
    gather_rows rows_at_a_time d seg.*1 i these_rows srm
    = Ok ((i + m)%nat, these_rows ++ mjoin (take m seg).*2,
          srm ++ layout (take m seg) (length these_rows)) /\
    ((Z.of_nat (length these_rows) < rows_at_a_time)%Z -> seg <> [] ->
     (1 <= m)%nat).
Proof.
  induction seg as [|[c rows] seg IH]; intros i these_rows srm Hget Hnd.
  - exists 0%nat. simpl. rewrite Nat.add_0_r, !app_nil_r.
    split; [lia|]. split; [reflexivity|]. intros _ Hne. contradiction.
  - cbn [fmap list_fmap gather_rows]. simpl fst.
    destruct (decide (Z.of_nat (length these_rows) < rows_at_a_time)%Z)
      as [Hlt|Hge].
    + rewrite (Hget c rows) by left. simpl.
      assert (Hfresh : c ∉ srm.*1).
      { apply NoDup_app in Hnd. destruct Hnd as (_ & Hcross & _).
        intros Hin. apply (Hcross c Hin). left. }
      rewrite dict_set_fresh by exact Hfresh.
      destruct (IH (S i) (these_rows ++ rows)
                   (srm ++ [(c, (length these_rows,
                                 length (these_rows ++ rows)))]))
        as (m & Hm & Hrun & _).
      { intros c' rows' Hin. apply Hget. right. exact Hin. }
      { rewrite fmap_app. simpl. rewrite <- app_assoc. exact Hnd. }
      exists (S m). split; [simpl; lia|]. split; [|intros; lia].
      rewrite Hrun. simpl. rewrite <- !app_assoc. simpl.
      rewrite !length_app. replace (i + S m)%nat with (S (i + m)) by lia.
      reflexivity.
    + exists 0%nat. simpl. rewrite Nat.add_0_r, !app_nil_r.
      split; [lia|]. split; [reflexivity|]. intros Hlt. contradiction.
Qed.

(** The statistics of the clusters of one load. *)
Lemma chunk_stats_layout (seg : dict (list nat)) :
  forall (pre : list nat) (post : list nat) (results : gmap nat stats),
  (forall c, c ∈ seg.*1 -> is_Some (c2o !! c)) ->
  chunk_stats summary_stats_for_chunk c2o
    (row_of <$> (pre ++ mjoin seg.*2 ++ post))
    (layout seg (length pre)) results
  = Ok (stats_of summary_stats_for_chunk row_of c2o seg results).
Proof.
  unfold chunk_stats, stats_of.
  induction seg as [|[c rows] seg IH]; intros pre post results Hc2o.
  - reflexivity.
  - simpl. destruct (Hc2o c) as [idx Hidx]; [left|]. rewrite Hidx. simpl.
    assert (Hslice : forall tail,
              slice (row_of <$> pre ++ (rows ++ tail) ++ post)
                    (length pre) (length pre + length rows)
              = row_of <$> rows).
    { intros tail. unfold slice. rewrite <- fmap_drop, <- fmap_take.
      rewrite drop_app_length.
      replace (length pre + length rows - length pre)%nat
        with (length rows) by lia.
      rewrite <- app_assoc, take_app_length. reflexivity. }
    rewrite Hslice.
    specialize (IH (pre ++ rows) post
                   (<[idx := summary_stats_for_chunk (row_of <$> rows)]>
                      results)).
    rewrite length_app, <- !app_assoc in IH. rewrite <- !app_assoc.
    apply IH. intros c' Hin. apply Hc2o. right. exact Hin.
Qed.

Lemma stats_of_app (seg1 seg2 : dict (list nat)) (results : gmap nat stats) :
  stats_of summary_stats_for_chunk row_of c2o (seg1 ++ seg2) results
  = stats_of summary_stats_for_chunk row_of c2o seg2
      (stats_of summary_stats_for_chunk row_of c2o seg1 results).
Proof. unfold stats_of. apply foldl_app. Qed.

Lemma d_get (c : string) (rows : list nat) :
  (c, rows) ∈ d -> dict_get d c = Some rows.
Proof. apply dict_get_elem_of. exact d_NoDup. Qed.

(** One round of the outer loop with a cluster left: it takes [m]
    clusters, at least one, and either is through or goes on after
    them. *)
Lemma worker_loop_round (i : nat) (results : gmap nat stats) :
  (1 <= rows_at_a_time)%Z -> (i < length d)%nat ->
  exists m,
    (1 <= m <= length d - i)%nat /\
    forall fuel,
      worker_loop load_disjoint_csr summary_stats_for_chunk (S fuel)
                  rows_at_a_time d c2o i results
      = if decide (length d <= i + m)%nat
        then Some (Ok (stats_of summary_stats_for_chunk row_of c2o
                                (take m (drop i d)) results))
        else worker_loop load_disjoint_csr summary_stats_for_chunk fuel
                         rows_at_a_time d c2o (i + m)
                         (stats_of summary_stats_for_chunk row_of c2o
                                   (take m (drop i d)) results).
Proof.
  intros Hr Hi.
  destruct (gather_rows_segment (drop i d) i [] [])
    as (m & Hm & Hrun & Hone).
  { intros c rows Hin. apply d_get. eapply subseteq_drop. exact Hin. }
  { simpl. rewrite fmap_drop. eapply sublist_NoDup; [exact d_NoDup|].
    apply sublist_drop. }
  rewrite length_drop in Hm.
  assert (H1 : (1 <= m)%nat).
  { apply Hone; [simpl; lia|]. intros Hnil.
    apply (f_equal length) in Hnil. rewrite length_drop in Hnil.
    simpl in Hnil. lia. }
  exists m. split; [lia|].
  assert (Hsub : take m (drop i d) ⊆ d).
  { intros cr Hin. eapply subseteq_drop, subseteq_take. exact Hin. }
  assert (Hrows : mjoin (take m (drop i d)).*2 <> [] /\
                  Forall (fun i => i < n_cells)%nat
                         (mjoin (take m (drop i d)).*2)).
  { unfold clusters_have_rows in d_rows. rewrite Forall_forall in d_rows.
    split.
    - destruct (take m (drop i d)) as [|[c rows] seg] eqn:Hseg.
      + apply (f_equal length) in Hseg.
        rewrite length_take, length_drop in Hseg. simpl in Hseg. lia.
      + destruct (d_rows (c, rows)) as [Hne _]; [apply Hsub; left|].
        simpl in *. intros Happ. apply app_eq_nil in Happ.
        destruct Happ as [Happ _]. contradiction.
    - apply Forall_forall. intros r Hin. apply list_elem_of_join in Hin.
      destruct Hin as (rows & Hr1 & Hr2).
      apply list_elem_of_fmap in Hr2. destruct Hr2 as ([c rows'] & -> & Hin).
      destruct (d_rows (c, rows')) as [_ Hall]; [apply Hsub; exact Hin|].
      rewrite Forall_forall in Hall. apply Hall. exact Hr1. }
  destruct Hrows as [Hne Hrange].
  intros fuel. cbn [worker_loop]. rewrite <- fmap_drop, Hrun.
  cbn [app length]. rewrite (load_rows _ Hne Hrange).
  pose proof (chunk_stats_layout (take m (drop i d)) [] [] results) as Hcs.
  cbn [app length] in Hcs. rewrite app_nil_r in Hcs. rewrite Hcs.
  - rewrite length_fmap. reflexivity.
  - intros c Hin. apply c2o_total.
    apply list_elem_of_fmap in Hin. destruct Hin as (cr & -> & Hin).
    apply list_elem_of_fmap. exists cr. split; [reflexivity|].
    apply Hsub. exact Hin.
Qed.

(** From any cluster on the outer loop gets through, in no more
    rounds than clusters are left. *)
Lemma worker_loop_from (n : nat) :
  (1 <= rows_at_a_time)%Z ->
  forall (i : nat) (results : gmap nat stats),
  (length d - i <= n)%nat -> (i < length d)%nat ->
  forall fuel, (n <= fuel)%nat ->
  worker_loop load_disjoint_csr summary_stats_for_chunk fuel rows_at_a_time
              d c2o i results
  = Some (Ok (stats_of summary_stats_for_chunk row_of c2o (drop i d)
                       results)).
Proof.
  intros Hr. induction n as [|n IH]; intros i results Hn Hi fuel Hfuel;
    [lia|].
  destruct fuel as [|fuel]; [lia|].
  destruct (worker_loop_round i results Hr Hi) as (m & Hm & Hround).
  rewrite Hround.
  destruct (decide (length d <= i + m)%nat) as [Hdone|Hmore].
  - rewrite take_ge by (rewrite length_drop; lia). reflexivity.
  - rewrite IH by lia.
    rewrite <- (take_drop m (drop i d)) at 2.
    rewrite stats_of_app, drop_drop. reflexivity.
Qed.

(** Whenever the outer loop returns, it returns these results. *)
Lemma worker_loop_returns (fuel : nat) :
  (1 <= rows_at_a_time)%Z ->
  forall (i : nat) (results results' : gmap nat stats),
  (i < length d)%nat ->
  worker_loop load_disjoint_csr summary_stats_for_chunk fuel rows_at_a_time
              d c2o i results = Some (Ok results') ->
  results' = stats_of summary_stats_for_chunk row_of c2o (drop i d) results.
Proof.
  intros Hr. induction fuel as [|fuel IH]; intros i results results' Hi Hrun;
    [discriminate Hrun|].
  destruct (worker_loop_round i results Hr Hi) as (m & Hm & Hround).
  rewrite Hround in Hrun.
  destruct (decide (length d <= i + m)%nat) as [Hdone|Hmore].
  - injection Hrun as <-. rewrite take_ge by (rewrite length_drop; lia).
    reflexivity.
  - apply IH in Hrun; [|lia]. rewrite Hrun.
    rewrite <- (take_drop m (drop i d)) at 2.
    rewrite stats_of_app, drop_drop. reflexivity.
Qed.

(** With [rows_at_a_time] below one the inner loop takes no cluster:
    the outer loop goes round for ever, unless loading no rows
    raises. *)
Lemma worker_loop_stuck (i : nat) :
  (rows_at_a_time <= 0)%Z -> (i < length d)%nat ->
  forall fuel (results results' : gmap nat stats),
  worker_loop load_disjoint_csr summary_stats_for_chunk fuel rows_at_a_time
              d c2o i results <> Some (Ok results').
Proof.
  intros Hr Hi. induction fuel as [|fuel IH]; intros results results';
    [discriminate|].
  cbn [worker_loop].
  destruct (drop i d.*1) as [|c todo] eqn:Hdrop.
  { apply (f_equal length) in Hdrop.
    rewrite length_drop, length_fmap in Hdrop. simpl in Hdrop. lia. }
  cbn [gather_rows length].
  destruct (decide (Z.of_nat 0 < rows_at_a_time)%Z); [lia|].
  destruct (load_disjoint_csr []) as [parent_csr|e]; [|discriminate].
  unfold chunk_stats. cbn [for_each].
  destruct (decide (length d.*1 <= i)%nat) as [Hle|_];
    [rewrite length_fmap in Hle; lia|].
  apply IH.
Qed.

(** The rows of [results] that [stats_of] sets. *)
Lemma stats_of_lookup (seg : dict (list nat)) :
  forall results : gmap nat stats,
  NoDup seg.*1 ->
  (forall c c' idx, c ∈ seg.*1 -> c' ∈ seg.*1 ->
     c2o !! c = Some idx -> c2o !! c' = Some idx -> c = c') ->
  (forall c rows idx, (c, rows) ∈ seg -> c2o !! c = Some idx ->
     stats_of summary_stats_for_chunk row_of c2o seg results !! idx
     = Some (summary_stats_for_chunk (row_of <$> rows))) /\
  (forall idx,
     (forall c, c ∈ seg.*1 -> c2o !! c <> Some idx) ->
     stats_of summary_stats_for_chunk row_of c2o seg results !! idx
     = results !! idx).
Proof.
  induction seg as [|[c0 rows0] seg IH]; intros results Hnd Hinj.
  - split; [|reflexivity]. intros c rows idx Hin.
    apply elem_of_nil in Hin. contradiction.
  - simpl in Hnd. apply NoDup_cons in Hnd. destruct Hnd as [Hnotin Hnd].
    assert (Hinj' : forall c c' idx, c ∈ seg.*1 -> c' ∈ seg.*1 ->
              c2o !! c = Some idx -> c2o !! c' = Some idx -> c = c').
    { intros c c' idx Hc Hc'. apply Hinj; right; assumption. }
    unfold stats_of. cbn [foldl fst snd].
    fold (stats_of summary_stats_for_chunk row_of c2o seg).
    split.
    + intros c rows idx Hin Hidx. apply elem_of_cons in Hin.
      destruct Hin as [Heq|Hin].
      * injection Heq as -> ->. rewrite Hidx.
        destruct (IH (<[idx := summary_stats_for_chunk (row_of <$> rows0)]>
                        results) Hnd Hinj') as [_ Hkeep].
        rewrite Hkeep; [apply lookup_insert_eq|].
        intros c Hc Hcidx. apply Hnotin.
        rewrite (Hinj c0 c idx); [exact Hc|left|right; exact Hc| |];
          assumption.
      * destruct (IH (match c2o !! c0 with
                      | Some output_idx =>
                          <[output_idx :=
                              summary_stats_for_chunk (row_of <$> rows0)]>
                            results
                      | None => results
                      end) Hnd Hinj') as [Hset _].
        eapply Hset; eassumption.
    + intros idx Hnone.
      destruct (IH (match c2o !! c0 with
                    | Some output_idx =>
                        <[output_idx :=
                            summary_stats_for_chunk (row_of <$> rows0)]>
                          results
                    | None => results
                    end) Hnd Hinj') as [_ Hkeep].
      rewrite Hkeep by (intros c Hc; apply Hnone; right; exact Hc).
      destruct (c2o !! c0) as [idx0|] eqn:H0; [|reflexivity].
      rewrite lookup_insert_ne; [reflexivity|].
      intros ->. apply (Hnone c0); [left|exact H0].
Qed.

End WorkerLoop.

(** What the division returns. *)
Lemma divide_clusters_by (items : dict (list nat)) (n_processors : Z) :
  (1 <= n_processors)%Z -> NoDup items.*1 ->
  exists q : nat,
    n_per_of (length items) n_processors = inr (Z.of_nat q) /\
    (length items <= Z.to_nat n_processors * q)%nat /\
    (items <> [] -> (1 <= q)%nat) /\
    divide_clusters items n_processors
    = inr (Ok (division_by q items (Z.to_nat n_processors))).
Proof.
  intros Hp Hnd. unfold divide_clusters, n_per_of.
  destruct (decide (n_processors = 0)%Z) as [E|_]; [lia|].
  destruct (Qceiling_div_bounds (Z.of_nat (length items)) n_processors)
    as [Hup Hlow]; [lia|].
  set (n_per := Qceiling (inject_Z (Z.of_nat (length items))
                          / inject_Z n_processors)) in *.
  assert (Hq0 : (0 <= n_per)%Z) by nia.
  exists (Z.to_nat n_per). rewrite Z2Nat.id by exact Hq0.
  split; [reflexivity|]. split; [nia|].
  assert (Hq1 : items <> [] -> (1 <= Z.to_nat n_per)%nat).
  { intros Hne. destruct items; [contradiction|]. simpl in Hup. nia. }
  split; [exact Hq1|]. do 2 f_equal.
  destruct items as [|item items'] eqn:Hitems.
  - simpl. rewrite division_by_nil. reflexivity.
  - rewrite <- Hitems in *.
    rewrite <- (Z2Nat.id n_per) at 1 by exact Hq0.
    rewrite <- (division_by_nil (Z.to_nat n_per) (Z.to_nat n_processors)).
    change [] with (take 0 items) at 1.
    apply divide_loop_by.
    + apply Hq1. rewrite Hitems. discriminate.
    + exact Hnd.
    + nia.
    + reflexivity.
Qed.

Lemma elem_of_slice {A} (l : list A) (a b : nat) (x : A) :
  x ∈ slice l a b <-> exists k, l !! k = Some x /\ (a <= k < b)%nat.
Proof.
  unfold slice. rewrite elem_of_take. split.
  - intros (i & Hi & Hlt). rewrite lookup_drop in Hi.
    exists (a + i)%nat. split; [exact Hi|lia].
  - intros (k & Hk & Hab). exists (k - a)%nat.
    rewrite lookup_drop. replace (a + (k - a))%nat with k by lia.
    split; [exact Hk|lia].
Qed.

End PrecomputeFacts.

(** X16. With at least one process, [precompute_summary_stats] divides
    the clusters among exactly [n_processors] workers without raising:
    the dicts of the workers, one after the other, are the items of
    [cluster_to_input_row] in their order, so that every cluster goes
    with its rows to one worker, and no worker gets more than [n_per]
    clusters. *)
Theorem divide_clusters_partition
    (cluster_to_input_row : Precompute.dict (list nat)) (n_processors : Z) :
  (1 <= n_processors)%Z -> NoDup cluster_to_input_row.*1 ->
  exists n_per worker_division,
    Precompute.n_per_of (length cluster_to_input_row) n_processors
    = inr n_per /\
    Precompute.divide_clusters cluster_to_input_row n_processors
    = inr (Ok worker_division) /\
    length worker_division = Z.to_nat n_processors /\
    mjoin worker_division = cluster_to_input_row /\
    Forall (fun d => (Z.of_nat (length d) <= n_per)%Z) worker_division.
Proof.
  intros Hp Hnd.
  destruct (divide_clusters_by cluster_to_input_row n_processors Hp Hnd)
    as (q & Hq & Hn & _ & Hdiv).
  exists (Z.of_nat q), (division_by q cluster_to_input_row
                                    (Z.to_nat n_processors)).
  split; [exact Hq|]. split; [exact Hdiv|]. split; [|split].
  - unfold division_by. rewrite length_fmap, length_seq. reflexivity.
  - rewrite division_by_join. apply take_ge. exact Hn.
  - unfold division_by. apply Forall_fmap, Forall_forall. intros j _.
    simpl. pose proof (slice_length cluster_to_input_row (j * q)
                                    (j * q + q)). lia.
Qed.

Lemma divide_clusters_partition_witness :
  exists n_per worker_division,
    Precompute.n_per_of 3 2 = inr n_per /\
    Precompute.divide_clusters Examples.small_clusters 2
    = inr (Ok worker_division) /\
    length worker_division = 2%nat /\
    mjoin worker_division = Examples.small_clusters /\
    Forall (fun d => (Z.of_nat (length d) <= n_per)%Z) worker_division.
Proof.
  apply (divide_clusters_partition Examples.small_clusters 2).
  - lia.
  - apply (bool_decide_unpack _). vm_compute. exact I.
Defined.

(** A worker without clusters writes nothing. *)
Lemma summary_stats_worker_idle {stats : Type}
    (load_disjoint_csr : list nat -> res array2)
    (summary_stats_for_chunk : array2 -> stats)
    (cluster_to_output_row : gmap string nat) (rows_at_a_time : Z)
    (fuel : nat) (results : gmap nat stats) :
  Precompute._summary_stats_worker load_disjoint_csr summary_stats_for_chunk
    fuel [] cluster_to_output_row rows_at_a_time = Some (Ok results) ->
  results = ∅.
Proof.
  unfold Precompute._summary_stats_worker.
  destruct fuel as [|fuel]; [discriminate|]. simpl.
  destruct (load_disjoint_csr []); simpl; congruence.
Qed.

(** X17. When [_load_disjoint_csr] returns the rows it is asked for,
    [rows_at_a_time] is at least one, every cluster of the worker has
    rows and its own output row, [_summary_stats_worker] gets through
    in no more rounds than it has clusters; the results it writes
    hold, at the output row of each of its clusters, the statistics of
    the rows of that cluster alone, and nothing at any other row. *)
Theorem summary_stats_worker_results {stats : Type}
    (load_disjoint_csr : list nat -> res array2)
    (summary_stats_for_chunk : array2 -> stats) (row_of : nat -> array1)
    (n_cells : nat) (cluster_to_input_row : Precompute.dict (list nat))
    (cluster_to_output_row : gmap string nat) (rows_at_a_time : Z) :
  loads_rows load_disjoint_csr n_cells row_of ->
  (1 <= rows_at_a_time)%Z ->
  cluster_to_input_row <> [] ->
  NoDup cluster_to_input_row.*1 ->
  clusters_have_rows n_cells cluster_to_input_row ->
  (forall c, c ∈ cluster_to_input_row.*1 ->
     is_Some (cluster_to_output_row !! c)) ->
  (forall c c' idx,
     c ∈ cluster_to_input_row.*1 -> c' ∈ cluster_to_input_row.*1 ->
     cluster_to_output_row !! c = Some idx ->
     cluster_to_output_row !! c' = Some idx -> c = c') ->
  exists results,
    (forall fuel, (length cluster_to_input_row <= fuel)%nat ->
       Precompute._summary_stats_worker load_disjoint_csr
         summary_stats_for_chunk fuel cluster_to_input_row
         cluster_to_output_row rows_at_a_time = Some (Ok results)) /\
    (forall c rows, (c, rows) ∈ cluster_to_input_row ->
       exists idx,
         cluster_to_output_row !! c = Some idx /\
         results !! idx = Some (summary_stats_for_chunk (row_of <$> rows))) /\
    (forall idx, is_Some (results !! idx) ->
       exists c, c ∈ cluster_to_input_row.*1 /\
                 cluster_to_output_row !! c = Some idx).
Proof.
  intros Hload Hr Hne Hnd Hrows Htotal Hinj.
  exists (stats_of summary_stats_for_chunk row_of cluster_to_output_row
                   cluster_to_input_row ∅).
  destruct (stats_of_lookup summary_stats_for_chunk row_of
              cluster_to_output_row cluster_to_input_row ∅ Hnd Hinj)
    as [Hset Hkeep].
  split; [|split].
  - intros fuel Hfuel. unfold Precompute._summary_stats_worker.
    rewrite (worker_loop_from load_disjoint_csr summary_stats_for_chunk
               row_of n_cells rows_at_a_time cluster_to_input_row
               cluster_to_output_row Hload Hrows Hnd Htotal
               (length cluster_to_input_row) Hr 0 ∅); try lia.
    + rewrite drop_0. reflexivity.
    + destruct cluster_to_input_row; [contradiction|simpl; lia].
  - intros c rows Hin. destruct (Htotal c) as [idx Hidx].
    { apply list_elem_of_fmap. exists (c, rows). auto. }
    exists idx. split; [exact Hidx|]. eapply Hset; eassumption.
  - intros idx Hsome.
    destruct (decide (Exists (fun c => cluster_to_output_row !! c = Some idx)
                             cluster_to_input_row.*1)) as [Hex|Hnex].
    + apply Exists_exists in Hex. exact Hex.
    + exfalso. rewrite Hkeep, lookup_empty in Hsome.
      * destruct Hsome as [x Hx]. discriminate Hx.
      * intros c Hc Hidx. apply Hnex. apply Exists_exists. eauto.
Qed.

Lemma load_small_rows_loads :
  loads_rows Examples.load_small_rows 6 Examples.small_rows.
Proof.
  intros rows Hne Hall. unfold Examples.load_small_rows.
  destruct rows as [|i rows]; [contradiction|].
  apply res_mapM_Ok. apply Forall2_fmap_r, Forall_Forall2_diag.
  eapply Forall_impl; [exact Hall|]. intros k Hk. simpl in *.
  destruct (decide (k < 6)%nat); [reflexivity|lia].
Qed.

Lemma summary_stats_worker_results_witness :
  exists results,
    (forall fuel, (3 <= fuel)%nat ->
       Precompute._summary_stats_worker Examples.load_small_rows
         Examples.count_cells fuel Examples.small_clusters
         (Taxonomy.level_to_idx Examples.small_clusters.*1) 2
       = Some (Ok results)) /\
    results !! 0%nat = Some 2%nat /\ results !! 1%nat = Some 1%nat /\
    results !! 2%nat = Some 3%nat.
Proof.
  destruct (summary_stats_worker_results Examples.load_small_rows
              Examples.count_cells Examples.small_rows 6
              Examples.small_clusters
              (Taxonomy.level_to_idx Examples.small_clusters.*1) 2)
    as (results & Hrun & Hset & _).
  - exact load_small_rows_loads.
  - lia.
  - discriminate.
  - apply (bool_decide_unpack _). vm_compute. exact I.
  - unfold clusters_have_rows, Examples.small_clusters.
    repeat constructor; simpl; try discriminate; lia.
  - intros c Hc. apply level_to_idx_is_Some. exact Hc.
  - intros c c' idx _ _ Hc Hc'. apply level_to_idx_Some in Hc, Hc'.
    congruence.
  - exists results. split; [exact Hrun|].
    specialize (Hrun 3%nat ltac:(simpl; lia)). vm_compute in Hrun.
    injection Hrun as <-. repeat split; reflexivity.
Defined.

(** X18. With a [rows_at_a_time] below one and at least one cluster,
    [_summary_stats_worker] never returns: no round of its outer loop
    takes a cluster, however many rounds it is allowed. *)
Theorem summary_stats_worker_never_returns {stats : Type}
    (load_disjoint_csr : list nat -> res array2)
    (summary_stats_for_chunk : array2 -> stats)
    (cluster_to_input_row : Precompute.dict (list nat))
    (cluster_to_output_row : gmap string nat) (rows_at_a_time : Z) :
  (rows_at_a_time <= 0)%Z -> cluster_to_input_row <> [] ->
  forall fuel results,
    Precompute._summary_stats_worker load_disjoint_csr
      summary_stats_for_chunk fuel cluster_to_input_row
      cluster_to_output_row rows_at_a_time <> Some (Ok results).
Proof.
  intros Hr Hne fuel results. unfold Precompute._summary_stats_worker.
  apply worker_loop_stuck; [exact Hr|].
  destruct cluster_to_input_row; [contradiction|simpl; lia].
Qed.

Lemma summary_stats_worker_never_returns_witness :
  Examples.small_clusters <> [] /\
  forall fuel results,
    Precompute._summary_stats_worker Examples.load_small_rows
      Examples.count_cells fuel Examples.small_clusters
      (Taxonomy.level_to_idx Examples.small_clusters.*1) 0
    <> Some (Ok results).
Proof.
  split; [discriminate|].
  apply (summary_stats_worker_never_returns Examples.load_small_rows
           Examples.count_cells Examples.small_clusters
           (Taxonomy.level_to_idx Examples.small_clusters.*1) 0).
  - lia.
  - discriminate.
Defined.

(** X19. [precompute_summary_stats] as a whole, with at least one
    process, a [rows_at_a_time] of at least one, clusters that all
    have rows and a [_load_disjoint_csr] that returns the rows it is
    asked for: the clusters are divided among the workers, and for the
    cluster at position [ii] of [cluster_to_input_row] the worker that
    got it gets through and writes row [ii] of the output, with the
    statistics of the rows of that cluster; no other worker writes
    that row, whether it gets through or not. *)
Theorem precompute_every_cluster {stats : Type}
    (load_disjoint_csr : list nat -> res array2)
    (summary_stats_for_chunk : array2 -> stats) (row_of : nat -> array1)
    (n_cells : nat) (cluster_to_input_row : Precompute.dict (list nat))
    (n_processors rows_at_a_time : Z) :
  loads_rows load_disjoint_csr n_cells row_of ->
  (1 <= n_processors)%Z -> (1 <= rows_at_a_time)%Z ->
  NoDup cluster_to_input_row.*1 ->
  clusters_have_rows n_cells cluster_to_input_row ->
  exists worker_division,
    Precompute.divide_clusters cluster_to_input_row n_processors
    = inr (Ok worker_division) /\
    forall ii cluster rows,
      cluster_to_input_row !! ii = Some (cluster, rows) ->
      exists jj d results,
        worker_division !! jj = Some d /\ (cluster, rows) ∈ d /\
        (forall fuel, (length d <= fuel)%nat ->
           Precompute._summary_stats_worker load_disjoint_csr
             summary_stats_for_chunk fuel d
             (Taxonomy.level_to_idx cluster_to_input_row.*1)
             rows_at_a_time = Some (Ok results)) /\
        results !! ii = Some (summary_stats_for_chunk (row_of <$> rows)) /\
        forall jj' d' fuel results',
          worker_division !! jj' = Some d' -> jj' <> jj ->
          Precompute._summary_stats_worker load_disjoint_csr
            summary_stats_for_chunk fuel d'
            (Taxonomy.level_to_idx cluster_to_input_row.*1)
            rows_at_a_time = Some (Ok results') ->
          results' !! ii = None.
Proof.
  intros Hload Hp Hr Hnd Hrows.
  set (c2o := Taxonomy.level_to_idx cluster_to_input_row.*1).
  destruct (divide_clusters_by cluster_to_input_row n_processors Hp Hnd)
    as (q & _ & Hn & Hq1 & Hdiv).
  set (p := Z.to_nat n_processors) in *.
  set (wd := division_by q cluster_to_input_row p).
  assert (Hsub : forall j d, wd !! j = Some d ->
            d = AnnDataIterator.slice cluster_to_input_row (j * q) (j * q + q)
            /\ (j < p)%nat).
  { intros j d Hd. unfold wd, division_by in Hd.
    rewrite list_lookup_fmap in Hd.
    destruct (seq 0 p !! j) as [j'|] eqn:Hj; [|discriminate Hd].
    apply lookup_seq in Hj. destruct Hj as [-> Hlt]. simpl in Hd.
    injection Hd as <-. auto. }
  assert (Hkeys : forall j d c, wd !! j = Some d -> c ∈ d.*1 ->
            exists k rows, cluster_to_input_row !! k = Some (c, rows) /\
                           (j * q <= k < j * q + q)%nat).
  { intros j d c Hd Hc. destruct (Hsub j d Hd) as [-> _].
    apply list_elem_of_fmap in Hc. destruct Hc as ([c' rows] & -> & Hin).
    apply elem_of_slice in Hin. destruct Hin as (k & Hk & Hab).
    exists k, rows. auto. }
  assert (Hd_sub : forall j d, wd !! j = Some d ->
            d `sublist_of` cluster_to_input_row).
  { intros j d Hd. destruct (Hsub j d Hd) as [-> _].
    unfold AnnDataIterator.slice.
    etransitivity; [apply sublist_take|apply sublist_drop]. }
  assert (Hinj : forall c c' idx,
            c2o !! c = Some idx -> c2o !! c' = Some idx -> c = c').
  { intros c c' idx Hc Hc'. apply level_to_idx_Some in Hc, Hc'. congruence. }
  assert (Hd_nd : forall j d, wd !! j = Some d -> NoDup d.*1).
  { intros j d Hd. eapply sublist_NoDup; [exact Hnd|].
    apply fmap_sublist. eapply Hd_sub. exact Hd. }
  assert (Hd_rows : forall j d, wd !! j = Some d ->
            clusters_have_rows n_cells d).
  { intros j d Hd. unfold clusters_have_rows in *.
    rewrite Forall_forall in Hrows |- *. intros cr Hin. apply Hrows.
    eapply sublist_subseteq; [eapply Hd_sub; exact Hd|exact Hin]. }
  assert (Hd_total : forall j d c, wd !! j = Some d -> c ∈ d.*1 ->
            is_Some (c2o !! c)).
  { intros j d c Hd Hc. apply level_to_idx_is_Some.
    destruct (Hkeys j d c Hd Hc) as (k & rows & Hk & _).
    apply list_elem_of_fmap. exists (c, rows). split; [reflexivity|].
    eapply list_elem_of_lookup_2. exact Hk. }
  exists wd. split; [exact Hdiv|].
  intros ii cluster rows Hii.
  pose proof (lookup_lt_Some _ _ _ Hii) as Hlt.
  assert (Hq : (1 <= q)%nat).
  { apply Hq1. intros E. rewrite E in Hii. discriminate Hii. }
  assert (Hc2o : c2o !! cluster = Some ii).
  { apply level_to_idx_NoDup; [exact Hnd|].
    rewrite list_lookup_fmap, Hii. reflexivity. }
  pose proof (Nat.div_mod_eq ii q) as Hdm.
  pose proof (Nat.mod_upper_bound ii q ltac:(lia)) as Hmod.
  assert (Hjj : (ii / q < p)%nat).
  { apply Nat.Div0.div_lt_upper_bound. lia. }
  set (d := AnnDataIterator.slice cluster_to_input_row
              (ii / q * q) (ii / q * q + q)).
  assert (Hd : wd !! (ii / q)%nat = Some d).
  { unfold wd, division_by. rewrite list_lookup_fmap.
    rewrite lookup_seq_lt by exact Hjj. reflexivity. }
  assert (Hin : (cluster, rows) ∈ d).
  { apply elem_of_slice. exists ii. split; [exact Hii|nia]. }
  exists (ii / q)%nat, d, (stats_of summary_stats_for_chunk row_of c2o d ∅).
  split; [exact Hd|]. split; [exact Hin|]. split; [|split].
  - intros fuel Hfuel. unfold Precompute._summary_stats_worker.
    rewrite (worker_loop_from load_disjoint_csr summary_stats_for_chunk
               row_of n_cells rows_at_a_time d c2o Hload
               (Hd_rows _ d Hd) (Hd_nd _ d Hd)
               (fun c => Hd_total _ d c Hd) (length d) Hr 0 ∅); try lia.
    + rewrite drop_0. reflexivity.
    + destruct d; [apply elem_of_nil in Hin; contradiction|simpl; lia].
  - destruct (stats_of_lookup summary_stats_for_chunk row_of c2o d ∅)
      as [Hset _].
    + eapply Hd_nd. exact Hd.
    + intros c c' idx _ _. apply Hinj.
    + apply (Hset cluster rows ii); assumption.
  - intros jj' d' fuel results' Hd' Hne Hrun.
    destruct (decide (d' = [])) as [->|Hne'].
    { apply summary_stats_worker_idle in Hrun. subst results'.
      apply lookup_empty. }
    unfold Precompute._summary_stats_worker in Hrun.
    apply (worker_loop_returns load_disjoint_csr summary_stats_for_chunk
             row_of n_cells rows_at_a_time d' c2o Hload
             (Hd_rows _ d' Hd') (Hd_nd _ d' Hd')
             (fun c => Hd_total _ d' c Hd') fuel Hr) in Hrun;
      [|destruct d'; [contradiction|simpl; lia]].
    rewrite drop_0 in Hrun. subst results'.
    destruct (stats_of_lookup summary_stats_for_chunk row_of c2o d' ∅)
      as [_ Hkeep].
    + eapply Hd_nd. exact Hd'.
    + intros c c' idx _ _. apply Hinj.
    + rewrite Hkeep; [apply lookup_empty|].
      intros c Hc Hidx.
      destruct (Hkeys jj' d' c Hd' Hc) as (k & rows' & Hk & Hab).
      assert (c = cluster) by (eapply Hinj; eassumption). subst c.
      assert (k = ii).
      { eapply NoDup_lookup; [exact Hnd| |];
          rewrite list_lookup_fmap; [rewrite Hk|rewrite Hii]; reflexivity. }
      subst k. apply Hne.
      apply (Nat.div_unique ii q jj' (ii - jj' * q)); lia.
Qed.

Lemma precompute_every_cluster_witness :
  exists worker_division,
    Precompute.divide_clusters Examples.small_clusters 2
    = inr (Ok worker_division) /\
    forall ii cluster rows,
      Examples.small_clusters !! ii = Some (cluster, rows) ->
      exists jj d results,
        worker_division !! jj = Some d /\ (cluster, rows) ∈ d /\
        (forall fuel, (length d <= fuel)%nat ->
           Precompute._summary_stats_worker Examples.load_small_rows
             Examples.count_cells fuel d
             (Taxonomy.level_to_idx Examples.small_clusters.*1)
             2 = Some (Ok results)) /\
        results !! ii = Some (Examples.count_cells
                                (Examples.small_rows <$> rows)) /\
        forall jj' d' fuel results',
          worker_division !! jj' = Some d' -> jj' <> jj ->
          Precompute._summary_stats_worker Examples.load_small_rows
            Examples.count_cells fuel d'
            (Taxonomy.level_to_idx Examples.small_clusters.*1)
            2 = Some (Ok results') ->
          results' !! ii = None.
Proof.
  apply (precompute_every_cluster Examples.load_small_rows
           Examples.count_cells Examples.small_rows 6
           Examples.small_clusters 2 2).
  - exact load_small_rows_loads.
  - lia.
  - lia.
  - apply (bool_decide_unpack _). vm_compute. exact I.
  - unfold clusters_have_rows, Examples.small_clusters.
    repeat constructor; simpl; try discriminate; lia.
Defined.

Section ElectionReturns.
Context `{Collaborators}.
Import Election.

Lemma take_columns_Ok (a : array2) (chosen_idx : list nat) (n : nat) :
  Forall (fun row => length row = n) a ->
  Forall (fun j => j < n)%nat chosen_idx ->
  exists out,
    take_columns a chosen_idx = Ok out /\ length out = length a /\
    Forall (fun row => length row = length chosen_idx) out.
Proof.
  intros Ha Hidx. unfold take_columns.
  destruct (res_mapM_total
              (fun row =>
                 res_mapM (fun j => or_raise IndexError (row !! j)) chosen_idx)
              a) as [out Hout].
  - eapply Forall_impl; [exact Ha|]. intros row Hrow. simpl.
    apply res_mapM_total. eapply Forall_impl; [exact Hidx|].
    intros j Hj. cbv beta in *.
    destruct (lookup_lt_is_Some_2 row j) as [x Hx]; [lia|].
    rewrite Hx. eexists. reflexivity.
  - exists out. split; [exact Hout|].
    split; [eapply res_mapM_length; exact Hout|].
    apply res_mapM_Ok in Hout. apply Forall_lookup_2. intros i row Hi.
    destruct (Forall2_lookup_r _ _ _ _ _ Hout Hi) as (row0 & _ & Hrow).
    eapply res_mapM_length. exact Hrow.
Qed.

Lemma n_bootstrap_of_bounds (bootstrap_factor : Q) (n_markers : nat) :
  bootstrap_factor <= 1 ->
  (1 # 2) < bootstrap_factor * inject_Z (Z.of_nat n_markers) ->
  (1 <= n_bootstrap_of bootstrap_factor n_markers <= Z.of_nat n_markers)%Z.
Proof.
  intros Hle Hhalf. unfold n_bootstrap_of.
  set (x := bootstrap_factor * inject_Z (Z.of_nat n_markers)) in *.
  assert (Hn0 : 0 <= inject_Z (Z.of_nat n_markers)).
  { change 0 with (inject_Z 0). rewrite <- Zle_Qle. lia. }
  assert (Hx0 : 0 <= x).
  { apply Qlt_le_weak. eapply Qlt_trans; [|exact Hhalf]. reflexivity. }
  assert (Hxn : x <= inject_Z (Z.of_nat n_markers)).
  { unfold x. rewrite <- (Qmult_1_l (inject_Z (Z.of_nat n_markers))) at 2.
    apply Qmult_le_compat_r; assumption. }
  destruct (np_round_bounds x 0 (Z.of_nat n_markers) Hx0 Hxn) as [Hb _].
  pose proof (proj2 (np_round_ge_1 x Hx0) Hhalf). lia.
Qed.

(** One iteration of the bootstrap returns. *)
Lemma bootstrap_step_Ok (query_gene_data reference_gene_data : array2)
    (n_markers : nat) (n_bootstrap : Z) (rng : rng_state) :
  rng_choice_sound -> rng_choice_total -> nearest_neighbors_total ->
  Forall (fun row => length row = n_markers) query_gene_data ->
  Forall (fun row => length row = n_markers) reference_gene_data ->
  reference_gene_data <> [] ->
  (1 <= n_bootstrap <= Z.of_nat n_markers)%Z ->
  exists chosen_idx nc rng',
    bootstrap_step query_gene_data reference_gene_data
                   (seq 0 n_markers) n_bootstrap rng
    = Ok (chosen_idx, nc, rng') /\
    neighbors_ok (length query_gene_data) (length reference_gene_data) nc.
Proof.
  intros Hsound Htotal Hnn Hq Hr Hne Hnb. unfold bootstrap_step.
  destruct (Htotal rng (seq 0 n_markers) n_bootstrap) as (sample & rng1 & Hc).
  { rewrite length_seq. lia. }
  destruct (Hsound _ _ _ _ _ Hc) as (Hlen & Hsub & _).
  rewrite Hc. simpl.
  assert (Hidx : Forall (fun j => j < n_markers)%nat (merge_sort le sample)).
  { apply Forall_forall. intros j Hj. rewrite merge_sort_Permutation in Hj.
    apply Hsub in Hj. apply elem_of_seq in Hj. lia. }
  assert (Hls : length (merge_sort le sample) = Z.to_nat n_bootstrap).
  { rewrite (Permutation_length (merge_sort_Permutation le sample)). lia. }
  destruct (take_columns_Ok query_gene_data _ n_markers Hq Hidx)
    as (bq & Hbq & Hlq & Hrq).
  destruct (take_columns_Ok reference_gene_data _ n_markers Hr Hidx)
    as (br & Hbr & Hlr & Hrr).
  rewrite Hbq. simpl. rewrite Hbr. simpl.
  destruct (Hnn br bq (Z.to_nat n_bootstrap)) as (nn & corr & Hn & H1 & H2 & H3).
  - intros E. rewrite E in Hlr. simpl in Hlr.
    destruct reference_gene_data; [contradiction|discriminate].
  - lia.
  - rewrite <- Hls. exact Hrr.
  - rewrite <- Hls. exact Hrq.
  - rewrite Hn. simpl. eexists _, _, _. split; [reflexivity|].
    unfold neighbors_ok. simpl. rewrite <- Hlq, <- Hlr. auto.
Qed.

(** The loop over the iterations returns. *)
Lemma bootstrap_loop_Ok (query_gene_data reference_gene_data : array2)
    (n_markers : nat) (n_bootstrap : Z) (n_iteration : nat) :
  rng_choice_sound -> rng_choice_total -> nearest_neighbors_total ->
  Forall (fun row => length row = n_markers) query_gene_data ->
  Forall (fun row => length row = n_markers) reference_gene_data ->
  reference_gene_data <> [] ->
  (1 <= n_bootstrap <= Z.of_nat n_markers)%Z ->
  forall rng : rng_state,
  exists ncs rng',
    bootstrap_loop query_gene_data reference_gene_data (seq 0 n_markers)
                   n_bootstrap n_iteration rng = Ok (ncs, rng') /\
    Forall (neighbors_ok (length query_gene_data)
                         (length reference_gene_data)) ncs.
Proof.
  intros Hsound Htotal Hnn Hq Hr Hne Hnb.
  induction n_iteration as [|n IH]; intros rng.
  - eexists _, _. split; [reflexivity|constructor].
  - cbn [bootstrap_loop].
    destruct (bootstrap_step_Ok query_gene_data reference_gene_data
                n_markers n_bootstrap rng Hsound Htotal Hnn Hq Hr Hne Hnb)
      as (chosen & nc & rng1 & Hstep & Hnc).
    rewrite Hstep. simpl.
    destruct (IH rng1) as (ncs & rng2 & Hloop & Hncs).
    rewrite Hloop. simpl. eexists _, _. split; [reflexivity|].
    constructor; assumption.
Qed.

Lemma vote_rows_Ok (d : int_dtype) (n_reference : nat) :
  forall (votes : list (list Z)) (nn : list nat),
  length nn = length votes ->
  Forall (fun row => length row = n_reference) votes ->
  Forall (fun j => j < n_reference)%nat nn ->
  exists votes',
    vote_rows d votes nn = Ok votes' /\
    Forall (fun row => length row = n_reference) votes'.
Proof.
  induction votes as [|row votes IH]; intros [|j nn] Hlen Hrows Hnn;
    try discriminate Hlen.
  - exists []. split; [reflexivity|constructor].
  - apply Forall_cons in Hrows. destruct Hrows as [Hrow Hrows].
    apply Forall_cons in Hnn. destruct Hnn as [Hj Hnn].
    destruct (IH nn) as (votes' & Hv & Hf); [simpl in Hlen; lia|assumption..|].
    destruct (lookup_lt_is_Some_2 row j) as [v Hv0]; [lia|].
    cbn [vote_rows]. unfold add_vote. rewrite Hv0. simpl. rewrite Hv. simpl.
    eexists. split; [reflexivity|].
    constructor; [rewrite length_insert; exact Hrow|exact Hf].
Qed.

Lemma corr_rows_Ok (n_reference : nat) :
  forall (corr_sum : array2) (nn : list nat) (corr : list Q),
  length nn = length corr_sum -> length corr = length corr_sum ->
  Forall (fun row => length row = n_reference) corr_sum ->
  Forall (fun j => j < n_reference)%nat nn ->
  exists corr_sum',
    corr_rows corr_sum nn corr = Ok corr_sum' /\
    Forall (fun row => length row = n_reference) corr_sum'.
Proof.
  induction corr_sum as [|row corr_sum IH]; intros [|j nn] [|c corr] Hl1 Hl2
    Hrows Hnn; try discriminate Hl1; try discriminate Hl2.
  - exists []. split; [reflexivity|constructor].
  - apply Forall_cons in Hrows. destruct Hrows as [Hrow Hrows].
    apply Forall_cons in Hnn. destruct Hnn as [Hj Hnn].
    destruct (IH nn corr) as (cs' & Hc & Hf);
      [simpl in Hl1; lia|simpl in Hl2; lia|assumption..|].
    destruct (lookup_lt_is_Some_2 row j) as [v Hv0]; [lia|].
    cbn [corr_rows]. unfold add_corr. rewrite Hv0. simpl. rewrite Hc. simpl.
    eexists. split; [reflexivity|].
    constructor; [rewrite length_insert; exact Hrow|exact Hf].
Qed.

Lemma tally_loop_Ok (d : int_dtype) (n_query n_reference : nat)
    (ncs : list (list nat * list Q)) :
  Forall (neighbors_ok n_query n_reference) ncs ->
  forall (votes : list (list Z)) (corr_sum : array2),
  length votes = n_query -> length corr_sum = n_query ->
  Forall (fun row => length row = n_reference) votes ->
  Forall (fun row => length row = n_reference) corr_sum ->
  exists votes' corr_sum',
    tally_loop d votes corr_sum ncs = Ok (votes', corr_sum') /\
    length votes' = n_query /\ length corr_sum' = n_query /\
    Forall (fun row => length row = n_reference) votes' /\
    Forall (fun row => length row = n_reference) corr_sum'.
Proof.
  induction 1 as [|[nn corr] ncs (Hl1 & Hl2 & Hin) _ IH];
    intros votes corr_sum Hv Hc Hvr Hcr.
  - eexists _, _. split; [reflexivity|]. auto.
  - simpl in Hl1, Hl2, Hin. cbn [tally_loop].
    destruct (vote_rows_Ok d n_reference votes nn) as (votes1 & Hv1 & Hvr1);
      [congruence|assumption..|].
    destruct (corr_rows_Ok n_reference corr_sum nn corr)
      as (corr1 & Hc1 & Hcr1); [congruence|congruence|assumption..|].
    rewrite Hv1. simpl. rewrite Hc1. simpl.
    apply IH; try assumption.
    + rewrite (vote_rows_length _ _ _ _ Hv1). exact Hv.
    + rewrite (corr_rows_length _ _ _ _ Hc1). exact Hc.
Qed.

Lemma choose_rows_Ok (reference_types : list string)
    (bootstrap_iteration : nat) :
  forall (votes : list (list Z)) (corr_sum : array2),
  length corr_sum = length votes ->
  reference_types <> [] ->
  Forall (fun row => length row = length reference_types) votes ->
  Forall (fun row => length row = length reference_types) corr_sum ->
  exists choices,
    choose_rows reference_types bootstrap_iteration votes corr_sum
    = Ok choices.
Proof.
  induction votes as [|row votes IH]; intros [|crow corr_sum] Hlen Hne Hv Hc;
    try discriminate Hlen.
  - exists []. reflexivity.
  - apply Forall_cons in Hv. destruct Hv as [Hrow Hv].
    apply Forall_cons in Hc. destruct Hc as [Hcrow Hc].
    destruct (IH corr_sum) as [rest Hrest];
      [simpl in Hlen; lia|assumption..|].
    assert (Hw : exists w, np_argmax row = Ok w).
    { destruct row; [|eexists; reflexivity].
      destruct reference_types; [contradiction|discriminate]. }
    destruct Hw as [w Hw].
    destruct (np_argmax_first_max _ _ Hw) as (v & Hwv & _).
    pose proof (lookup_lt_Some _ _ _ Hwv) as Hlt.
    destruct (lookup_lt_is_Some_2 reference_types w) as [ty Hty]; [lia|].
    destruct (lookup_lt_is_Some_2 crow w) as [s Hs]; [lia|].
    cbn [choose_rows]. unfold choose_row.
    rewrite Hw. simpl. rewrite Hty. simpl. rewrite Hwv. simpl.
    rewrite Hs. simpl. rewrite Hrest. simpl. eexists. reflexivity.
Qed.

(** [choose_node] returns on arrays of the right shapes. *)
Lemma choose_node_Ok (query_gene_data reference_gene_data : array2)
    (reference_types : list string) (n_markers : nat)
    (bootstrap_factor : Q) (bootstrap_iteration : nat) (rng : rng_state) :
  rng_choice_sound -> rng_choice_total -> nearest_neighbors_total ->
  query_gene_data <> [] -> reference_gene_data <> [] ->
  Forall (fun row => length row = n_markers) query_gene_data ->
  Forall (fun row => length row = n_markers) reference_gene_data ->
  length reference_types = length reference_gene_data ->
  bootstrap_factor <= 1 ->
  (1 # 2) < bootstrap_factor * inject_Z (Z.of_nat n_markers) ->
  exists choices rng',
    choose_node query_gene_data reference_gene_data reference_types
                bootstrap_factor bootstrap_iteration rng
    = Ok (choices, rng').
Proof.
  intros Hsound Htotal Hnn Hqne Hrne Hq Hr Hty Hle Hhalf.
  unfold choose_node, tally_votes.
  assert (Hshape : shape1 query_gene_data = n_markers).
  { destruct query_gene_data as [|row q]; [contradiction|].
    apply Forall_cons in Hq. destruct Hq as [Hrow _]. exact Hrow. }
  rewrite Hshape.
  pose proof (n_bootstrap_of_bounds bootstrap_factor n_markers Hle Hhalf)
    as Hnb.
  destruct (bootstrap_loop_Ok query_gene_data reference_gene_data n_markers
              (n_bootstrap_of bootstrap_factor n_markers)
              bootstrap_iteration Hsound Htotal Hnn Hq Hr Hrne Hnb rng)
    as (ncs & rng1 & Hloop & Hncs).
  rewrite Hloop. simpl.
  destruct (tally_loop_Ok
              (choose_int_dtype (0%Z, Z.of_nat bootstrap_iteration))
              (length query_gene_data) (length reference_gene_data) ncs Hncs
              (replicate (length query_gene_data)
                         (replicate (length reference_gene_data) 0%Z))
              (replicate (length query_gene_data)
                         (replicate (length reference_gene_data) 0)))
    as (votes & corr_sum & Ht & Hlv & Hlc & Hvr & Hcr);
    try apply length_replicate;
    try (apply Forall_replicate; apply length_replicate).
  rewrite Ht. simpl.
  destruct (choose_rows_Ok reference_types bootstrap_iteration votes corr_sum)
    as [choices Hch].
  - congruence.
  - intros E. rewrite E in Hty. simpl in Hty.
    destruct reference_gene_data; [contradiction|discriminate].
  - rewrite Hty. exact Hvr.
  - rewrite Hty. exact Hcr.
  - rewrite Hch. simpl. eexists _, _. reflexivity.
Qed.

End ElectionReturns.

(** The generator [first_choice] keeps to what numpy documents. *)
Lemma first_choice_sound : rng_choice_sound (H := Examples.steady).
Proof.
  intros rng population size sample rng' Hc. simpl in Hc.
  unfold Examples.first_choice in Hc.
  destruct (decide (0 <= size <= Z.of_nat (length population))%Z);
    [|discriminate].
  injection Hc as <- _. split; [|split].
  - rewrite length_take. lia.
  - apply subseteq_take.
  - intros Hnd. eapply sublist_NoDup; [exact Hnd|apply sublist_take].
Qed.

Lemma first_choice_total : rng_choice_total (H := Examples.steady).
Proof.
  intros rng population size Hs. simpl. unfold Examples.first_choice.
  destruct (decide (0 <= size <= Z.of_nat (length population))%Z);
    [|contradiction].
  eexists _, _. reflexivity.
Qed.

Lemma q_argmax_from_lt (l : array1) :
  forall (best_i i : nat) (best : Q),
  (best_i < i)%nat ->
  ((Examples.q_argmax_from best_i best i l).1 < i + length l)%nat.
Proof.
  induction l as [|x l IH]; intros best_i i best Hlt; simpl; [lia|].
  destruct (Qlt_le_dec best x).
  - specialize (IH i (S i) x). lia.
  - specialize (IH best_i (S i) best). lia.
Qed.

Lemma pearson_nearest_neighbors_total :
  nearest_neighbors_total (H := Examples.steady).
Proof.
  intros baseline query n Hne _ _ _. simpl.
  unfold Examples.pearson_nearest_neighbors.
  destruct baseline as [|b0 baseline]; [contradiction|].
  set (f := fun q : array1 =>
              match map (Examples.pearson q) (b0 :: baseline) with
              | [] => Raise ValueError
              | c :: cs => Ok (Examples.q_argmax_from 0 c 1 cs)
              end).
  destruct (res_mapM_total f query) as [pairs Hp].
  { apply Forall_forall. intros q _. unfold f. simpl. eexists. reflexivity. }
  fold f. rewrite Hp. simpl. eexists _, _. split; [reflexivity|].
  pose proof (res_mapM_length _ _ _ Hp) as Hlen.
  rewrite !length_fmap. split; [exact Hlen|]. split; [exact Hlen|].
  apply Forall_fmap, Forall_forall. intros pr Hin.
  apply (res_mapM_elem_of _ _ _ _ Hp) in Hin. destruct Hin as (q & _ & Hq).
  unfold f in Hq. simpl in Hq. injection Hq as <-. simpl.
  pose proof (q_argmax_from_lt (map (Examples.pearson q) baseline)
                0 1 (Examples.pearson q b0) ltac:(lia)) as Hlt.
  rewrite length_map in Hlt. lia.
Qed.

(** X20. When the generator returns any sample that is no larger than
    the population, and what it returns has the size asked for and is
    drawn from the population without repeats, the nearest-neighbour
    search returns a neighbour for every query row, the query is not
    empty, query and reference rows all have [n_markers] entries,
    there is at least one reference row and one type for each, and the
    bootstrap factor is at most 1 and large enough for one marker to
    be drawn, [choose_node] returns one choice per query row, each the
    type of a reference row: it does not raise. *)
Theorem choose_node_returns `{Collaborators}
    (query_gene_data reference_gene_data : array2)
    (reference_types : list string) (n_markers : nat)
    (bootstrap_factor : Q) (bootstrap_iteration : nat) (rng : rng_state) :
  rng_choice_sound -> rng_choice_total -> nearest_neighbors_total ->
  query_gene_data <> [] -> reference_gene_data <> [] ->
  Forall (fun row => length row = n_markers) query_gene_data ->
  Forall (fun row => length row = n_markers) reference_gene_data ->
  length reference_types = length reference_gene_data ->
  bootstrap_factor <= 1 ->
  (1 # 2) < bootstrap_factor * inject_Z (Z.of_nat n_markers) ->
  exists choices rng',
    Election.choose_node query_gene_data reference_gene_data reference_types
                         bootstrap_factor bootstrap_iteration rng
    = Ok (choices, rng') /\
    length choices = length query_gene_data /\
    Forall (fun ch => Election.result ch ∈ reference_types) choices.
Proof.
  intros Hsound Htotal Hnn Hqne Hrne Hq Hr Hty Hle Hhalf.
  destruct (choose_node_Ok query_gene_data reference_gene_data
              reference_types n_markers bootstrap_factor bootstrap_iteration
              rng Hsound Htotal Hnn Hqne Hrne Hq Hr Hty Hle Hhalf)
    as (choices & rng' & Hc).
  exists choices, rng'. split; [exact Hc|].
  apply (choose_node_results _ _ _ _ _ _ _ _ Hc).
Qed.

Lemma choose_node_returns_witness :
  exists choices rng',
    Election.choose_node (H := Examples.steady)
      Examples.tie_query Examples.tie_reference
      Examples.tie_types (3 # 4) 2 tt = Ok (choices, rng') /\
    length choices = 1%nat /\
    Forall (fun ch => Election.result ch ∈ Examples.tie_types) choices.
Proof.
  apply (choose_node_returns (H := Examples.steady)
           Examples.tie_query Examples.tie_reference
           Examples.tie_types 4 (3 # 4) 2 tt).
  - exact first_choice_sound.
  - exact first_choice_total.
  - exact pearson_nearest_neighbors_total.
  - discriminate.
  - discriminate.
  - repeat constructor.
  - repeat constructor.
  - reflexivity.
  - unfold Qle. simpl. lia.
  - reflexivity.
Defined.

Section MatchingReturns.
Import Taxonomy TaxonomyMethods Matching.

Lemma zip_drop {A B} (n : nat) :
  forall (l : list A) (l' : list B),
  zip (drop n l) (drop n l') = drop n (zip l l').
Proof.
  induction n as [|n IH]; intros l l'; [reflexivity|].
  destruct l as [|x l]; [reflexivity|].
  destruct l' as [|y l']; simpl.
  - destruct (drop n l); reflexivity.
  - apply IH.
Qed.

Lemma level_pairs_drop {A} (l : list A) (n : nat) :
  level_pairs (drop n l) = drop n (level_pairs l).
Proof.
  unfold level_pairs. rewrite <- zip_drop, !drop_drop.
  do 2 f_equal. lia.
Qed.

Lemma but_last_cons {A} (x y : A) (l : list A) :
  but_last (x :: y :: l) = x :: but_last (y :: l).
Proof. unfold but_last. simpl. rewrite Nat.sub_0_r. reflexivity. Qed.

Lemma leaves_below_step (data : gmap string (gmap string (list string)))
    (l l2 : string) (levels : list string) (node : string) :
  leaves_below data (l :: l2 :: levels) node
  = match data !! l ≫= (fun nodes => nodes !! node) with
    | Some value => flat_map (leaves_below data (l2 :: levels)) value
    | None => []
    end.
Proof. reflexivity. Qed.

(** The leaves below a node are nodes of the last level, and there is
    one when no node above the last level is without children. *)
Lemma leaves_below_leaves (data : gmap string (gmap string (list string)))
    (levels : list string) :
  Forall (valid_level_pair data) (level_pairs levels) ->
  forall node l0 nodes0,
  levels !! 0%nat = Some l0 -> data !! l0 = Some nodes0 ->
  is_Some (nodes0 !! node) ->
  (forall leaf, leaf ∈ leaves_below data levels node ->
     exists ll nodes, last levels = Some ll /\ data !! ll = Some nodes /\
                      is_Some (nodes !! leaf)) /\
  ((forall level nodes n cs, level ∈ but_last levels ->
      data !! level = Some nodes -> nodes !! n = Some cs -> cs <> []) ->
   leaves_below data levels node <> []).
Proof.
  induction levels as [|l levels IH]; intros Hpairs node l0 nodes0 Hl0 Hn0 Hnode;
    [discriminate Hl0|].
  simpl in Hl0. injection Hl0 as <-.
  destruct levels as [|l2 levels].
  - simpl. split; [|discriminate].
    intros leaf Hin. apply list_elem_of_singleton in Hin. subst leaf.
    exists l, nodes0. auto.
  - change (level_pairs (l :: l2 :: levels))
      with ((l, l2) :: level_pairs (l2 :: levels)) in Hpairs.
    apply Forall_cons in Hpairs. destruct Hpairs as [Hpair Hpairs].
    rewrite leaves_below_step, Hn0. cbn [mbind option_bind].
    destruct Hnode as [value Hvalue]. rewrite Hvalue.
    unfold valid_level_pair in Hpair. simpl in Hpair. rewrite Hn0 in Hpair.
    destruct (data !! l2) as [next|] eqn:Hnext; [|contradiction].
    destruct Hpair as [_ Hall]. rewrite Forall_forall in Hall.
    assert (Hchild : forall c, c ∈ value -> is_Some (next !! c)).
    { intros c Hc. apply Hall. unfold all_children.
      apply list_elem_of_join. exists value. split; [exact Hc|].
      apply list_elem_of_fmap. exists (node, value). split; [reflexivity|].
      apply elem_of_map_to_list. exact Hvalue. }
    split.
    + intros leaf Hin. apply list_elem_of_In, in_flat_map in Hin.
      destruct Hin as (c & Hc & Hleaf).
      apply list_elem_of_In in Hc, Hleaf.
      destruct (IH Hpairs c l2 next eq_refl Hnext (Hchild c Hc)) as [Hin _].
      destruct (Hin leaf Hleaf) as (ll & nodes & Hll & Hd & Hsome).
      exists ll, nodes. split; [|auto].
      rewrite last_cons_cons. exact Hll.
    + intros Hne.
      assert (Hv : value <> []).
      { apply (Hne l nodes0 node value); [|exact Hn0|exact Hvalue].
        rewrite but_last_cons. left. }
      destruct value as [|c value]; [contradiction|].
      destruct (IH Hpairs c l2 next eq_refl Hnext (Hchild c ltac:(left)))
        as [_ Hsome].
      cbn [flat_map]. intros Happ. apply app_eq_nil in Happ.
      destruct Happ as [Happ _]. revert Happ. apply Hsome.
      intros level nodes n cs Hlv. apply Hne.
      rewrite but_last_cons. right. exact Hlv.
Qed.

Lemma last_drop {A} (l : list A) (n : nat) :
  (n < length l)%nat -> last (drop n l) = last l.
Proof.
  intros Hn. rewrite <- (take_drop n l) at 2.
  destruct (drop n l) as [|x l'] eqn:Hd.
  - apply (f_equal length) in Hd. rewrite length_drop in Hd. simpl in Hd. lia.
  - rewrite last_app_cons. reflexivity.
Qed.

Lemma but_last_drop {A} (l : list A) (n : nat) (x : A) :
  x ∈ but_last (drop n l) -> x ∈ but_last l.
Proof.
  unfold but_last. rewrite length_drop. intros Hin.
  destruct (decide (n < length l)%nat) as [Hlt|Hge].
  - rewrite take_drop_commute in Hin. apply subseteq_drop in Hin.
    replace (n + (length l - n - 1))%nat with (length l - 1)%nat in Hin
      by lia.
    exact Hin.
  - rewrite drop_ge in Hin by lia. rewrite take_nil in Hin.
    apply elem_of_nil in Hin. contradiction.
Qed.

(** In a valid tree [as_leaves] returns for a node of a level, and the
    leaves it returns are leaves of the tree. *)
Lemma as_leaves_Ok (t : TaxonomyTree) (lc c : string)
    (next : gmap string (list string)) :
  valid_taxonomy_tree t -> lc ∈ hierarchy t ->
  _data t !! lc = Some next -> is_Some (next !! c) ->
  exists leaves,
    as_leaves t lc c = Ok leaves /\
    (forall leaf, leaf ∈ leaves ->
       exists all, all_leaves t = Ok all /\ leaf ∈ all) /\
    (no_childless_parent t -> leaves <> []).
Proof.
  intros Hvalid Hlc Hnext Hc.
  pose proof Hvalid as (Hnd & Hall & Hpairs).
  destruct (proj2 (level_to_idx_is_Some (hierarchy t) lc) Hlc) as [idx Hidx].
  pose proof (level_to_idx_Some _ _ _ Hidx) as Hh.
  pose proof (lookup_lt_Some _ _ _ Hh) as Hlt.
  unfold as_leaves. rewrite Hidx. simpl. rewrite Hnext. simpl.
  destruct Hc as [v Hv]. rewrite Hv. simpl.
  eexists. split; [reflexivity|].
  destruct (leaves_below_leaves (_data t) (drop idx (hierarchy t)))
    with (node := c) (l0 := lc) (nodes0 := next) as [Hleaves Hsome].
  - rewrite level_pairs_drop. apply Forall_drop. exact Hpairs.
  - rewrite lookup_drop, Nat.add_0_r. exact Hh.
  - exact Hnext.
  - eauto.
  - split.
    + intros leaf Hin.
      destruct (Hleaves leaf Hin) as (ll & nodes & Hll & Hd & Hleaf).
      rewrite last_drop in Hll by exact Hlt.
      exists (keys nodes). unfold all_leaves, leaf_to_rows, leaf_level.
      rewrite Hll. simpl. rewrite Hd. simpl.
      split; [reflexivity|]. apply keys_elem_of. exact Hleaf.
    + intros Hchild. apply Hsome.
      intros level nodes n cs Hlv Hd Hn.
      destruct (all_parents_Ok t Hall) as [ps Hps].
      apply (Hchild ps (Some (level, n)) cs Hps).
      * apply (all_parents_elem_of _ _ _ _ Hps).
        split; [eapply but_last_drop; exact Hlv|]. eauto.
      * apply children_Some. eauto.
Qed.

Lemma fill_leaf_to_type_Ok (t : TaxonomyTree) (child_level : string)
    (cs : list string) :
  (forall c, c ∈ cs -> exists leaves, as_leaves t child_level c = Ok leaves) ->
  forall d, exists d', fill_leaf_to_type t child_level cs d = Ok d'.
Proof.
  induction cs as [|c cs IH]; intros Hcs d.
  - eexists. reflexivity.
  - destruct (Hcs c) as [leaves Hl]; [left|].
    cbn [fill_leaf_to_type]. rewrite Hl. simpl. apply IH.
    intros c' Hc'. apply Hcs. right. exact Hc'.
Qed.

Lemma take_indices_Ok (a : array1) (idx : list nat) :
  Forall (fun j => j < length a)%nat idx ->
  exists out, take_indices a idx = Ok out /\ length out = length idx.
Proof.
  intros Hidx. unfold take_indices.
  destruct (res_mapM_total (fun j => or_raise IndexError (a !! j)) idx)
    as [out Hout].
  - eapply Forall_impl; [exact Hidx|]. intros j Hj. cbv beta in *.
    destruct (lookup_lt_is_Some_2 a j) as [x Hx]; [lia|].
    rewrite Hx. eexists. reflexivity.
  - exists out. split; [exact Hout|]. eapply res_mapM_length. exact Hout.
Qed.

Lemma reference_rows_Ok (leaf_to_type : gmap string string)
    (mean_profile_lookup : gmap string array1) (markers : list nat)
    (leaves : list string) :
  (forall leaf, leaf ∈ leaves ->
     is_Some (leaf_to_type !! leaf) /\
     exists mu, mean_profile_lookup !! leaf = Some mu /\
                Forall (fun j => j < length mu)%nat markers) ->
  exists rows,
    reference_rows leaf_to_type mean_profile_lookup markers leaves = Ok rows /\
    length rows = length leaves /\
    Forall (fun r : string * array1 => length r.2 = length markers) rows.
Proof.
  induction leaves as [|leaf leaves IH]; intros Hl.
  - exists []. split; [reflexivity|]. split; [reflexivity|constructor].
  - destruct (Hl leaf) as ([ty Hty] & mu & Hmu & Hidx); [left|].
    destruct (take_indices_Ok mu markers Hidx) as (row & Hrow & Hlen).
    destruct IH as (rows & Hrows & Hlr & Hall).
    { intros leaf' Hin. apply Hl. right. exact Hin. }
    cbn [reference_rows]. rewrite Hty. simpl. rewrite Hmu. simpl.
    rewrite Hrow. simpl. rewrite Hrows. simpl.
    eexists. split; [reflexivity|]. split; [simpl; congruence|].
    constructor; [exact Hlen|exact Hall].
Qed.

(** [assemble_query_data] returns for a parent of a valid tree whose
    group is in the marker cache and reads entries that are there. *)
Lemma assemble_query_data_Ok (full_query_data : array2)
    (mean_profile_lookup : gmap string array1) (t : TaxonomyTree)
    (marker_cache : gmap string marker_group)
    (ps : list (option (string * string)))
    (parent_node : option (string * string)) (grp : marker_group) :
  valid_taxonomy_tree t -> hierarchy t <> [] -> no_childless_parent t ->
  all_parents t = Ok ps -> parent_node ∈ ps ->
  marker_cache !! parent_grp parent_node = Some grp ->
  markers_in_range t full_query_data mean_profile_lookup grp ->
  exists qd,
    assemble_query_data full_query_data mean_profile_lookup t marker_cache
                        parent_node = Ok qd /\
    length (query_data_ qd) = length full_query_data /\
    Forall (fun row => length row = length (query grp)) (query_data_ qd) /\
    Forall (fun row => length row = length (query grp)) (reference_data qd) /\
    length (reference_types qd) = length (reference_data qd) /\
    reference_data qd <> [].
Proof.
  intros Hvalid Hne Hchild Hps Hin Hgrp (Hlens & Hq & all & Hall & Hmeans).
  destruct (parent_children t ps parent_node Hvalid Hne Hps Hin)
    as (cs & lc & next & Hcs & Hlc & Hlch & Hnext & Hnodes).
  pose proof (Hchild ps parent_node cs Hps Hin Hcs) as Hcs_ne.
  unfold assemble_query_data.
  assert (Hpar : match parent_node with
                 | None =>
                     level0 ← or_raise IndexError (hierarchy t !! 0%nat);
                     nodes ← or_raise KeyError (_data t !! level0);
                     Ok (keys nodes, level0)
                 | Some (level, node) =>
                     nodes ← or_raise KeyError (_data t !! level);
                     value ← or_raise KeyError (nodes !! node);
                     idx ← or_raise KeyError
                             (level_to_idx (hierarchy t) !! level);
                     child_level ← or_raise IndexError
                                     (hierarchy t !! S idx);
                     Ok (value, child_level)
                 end = Ok (cs, lc)).
  { destruct parent_node as [[level node]|].
    - apply children_Some in Hcs. destruct Hcs as (nodes & Hn & Hv).
      rewrite Hn. simpl. rewrite Hv. simpl. simpl in Hlc.
      destruct (level_to_idx (hierarchy t) !! level) as [idx|];
        [|discriminate Hlc].
      simpl in *. rewrite Hlc. reflexivity.
    - simpl in Hcs, Hlc. rewrite Hlc in *. simpl in *.
      destruct (_data t !! lc) as [nodes|]; [|discriminate Hcs].
      simpl in *. injection Hcs as <-. reflexivity. }
  rewrite Hpar. cbn [mbind res_bind].
  assert (Hleaves : forall c, c ∈ sort_names cs ->
            exists leaves, as_leaves t lc c = Ok leaves /\
              (forall leaf, leaf ∈ leaves -> leaf ∈ all) /\ leaves <> []).
  { intros c Hc. rewrite sort_names_elem_of in Hc.
    destruct (as_leaves_Ok t lc c next Hvalid Hlch Hnext (Hnodes c Hc))
      as (leaves & Hl & Hsub & Hsome).
    exists leaves. split; [exact Hl|]. split; [|auto].
    intros leaf Hleaf. destruct (Hsub leaf Hleaf) as (all' & Hall' & Hin').
    rewrite Hall in Hall'. injection Hall' as <-. exact Hin'. }
  destruct (fill_leaf_to_type_Ok t lc (sort_names cs)) with (d := @empty (gmap string string) _)
    as [l2t Hfill].
  { intros c Hc. destruct (Hleaves c Hc) as (leaves & Hl & _). eauto. }
  rewrite Hfill. cbn [mbind res_bind]. rewrite Hgrp.
  cbn [or_raise mbind res_bind].
  destruct (res_mapM_total (fun row => take_indices row (query grp))
                           full_query_data) as [qdata Hqd].
  { eapply Forall_impl; [exact Hq|]. intros row Hrow. cbv beta in *.
    destruct (take_indices_Ok row (query grp) Hrow) as (out & Hout & _).
    eauto. }
  rewrite Hqd. cbn [mbind res_bind].
  destruct (fill_leaf_to_type_spec _ _ _ _ _ Hfill) as (Hfrom & _ & Hto).
  destruct (reference_rows_Ok l2t mean_profile_lookup (reference grp)
                              (sort_names (keys l2t))) as (rows & Hrows & Hlr & Hrl).
  { intros leaf Hleaf. rewrite sort_names_elem_of in Hleaf.
    apply keys_elem_of in Hleaf. split; [exact Hleaf|].
    destruct Hleaf as [child Hchild'].
    destruct (Hfrom leaf child Hchild') as [He|[Hc (leaves & Hl & Hleaf)]].
    - rewrite lookup_empty in He. discriminate He.
    - destruct (Hleaves child Hc) as (leaves' & Hl' & Hsub & _).
      rewrite Hl in Hl'. injection Hl' as <-.
      apply Hmeans, Hsub. exact Hleaf. }
  rewrite Hrows. cbn [mbind res_bind].
  eexists. split; [reflexivity|]. cbn [query_data_ reference_data reference_types].
  split; [eapply res_mapM_length; exact Hqd|]. split; [|split; [|split]].
  - apply res_mapM_Ok in Hqd. apply Forall_lookup_2. intros i row Hi.
    destruct (Forall2_lookup_r _ _ _ _ _ Hqd Hi) as (row0 & _ & Hrow).
    eapply res_mapM_length. exact Hrow.
  - apply Forall_fmap. eapply Forall_impl; [exact Hrl|].
    intros r Hr. simpl in *. congruence.
  - rewrite !length_fmap. reflexivity.
  - intros Hnil. apply (f_equal length) in Hnil.
    rewrite length_fmap, Hlr in Hnil. simpl in Hnil.
    destruct cs as [|c cs]; [contradiction|].
    destruct (Hleaves c) as (leaves & Hl & _ & Hsome).
    { rewrite sort_names_elem_of. left. }
    destruct leaves as [|leaf leaves]; [contradiction|].
    destruct (Hto leaf c) as [ty Hty].
    { split; [rewrite sort_names_elem_of; left|].
      exists (leaf :: leaves). split; [exact Hl|left]. }
    assert (Hk : leaf ∈ sort_names (keys l2t)).
    { rewrite sort_names_elem_of. apply keys_elem_of. eauto. }
    destruct (sort_names (keys l2t)); [|discriminate Hnil].
    apply elem_of_nil in Hk. exact Hk.
Qed.

End MatchingReturns.

(** [small_tree] has no parent without children. *)
Lemma small_tree_no_childless_parent :
  no_childless_parent Examples.small_tree.
Proof.
  intros ps p cs Hps Hin Hcs. vm_compute in Hps. injection Hps as <-.
  repeat (apply elem_of_cons in Hin; destruct Hin as [->|Hin]);
    try (apply elem_of_nil in Hin; contradiction);
    vm_compute in Hcs; injection Hcs as <-; discriminate.
Qed.

(** The groups of [walk_cache] read entries that [walk_query] and
    [walk_means] have. *)
Lemma walk_markers_in_range :
  markers_in_range Examples.small_tree Examples.walk_query
                   Examples.walk_means Examples.three_markers.
Proof.
  split; [reflexivity|]. split.
  - repeat constructor.
  - eexists. split; [vm_compute; reflexivity|].
    intros leaf Hin.
    repeat (apply elem_of_cons in Hin; destruct Hin as [->|Hin]);
      try (apply elem_of_nil in Hin; contradiction);
      eexists; (split; [vm_compute; reflexivity|repeat constructor]).
Qed.

(** X21. For a parent that [all_parents] lists in a valid taxonomy
    without childless parents, whose group is in the marker cache, has
    as many reference as query markers and reads columns that the
    query rows have and entries that the mean profile of every leaf
    has, [assemble_query_data] returns: one query row per cell and at
    least one reference row, all with as many entries as the parent
    has markers, and a type for every reference row. *)
Theorem assemble_query_data_returns (full_query_data : array2)
    (mean_profile_lookup : gmap string array1) (t : Taxonomy.TaxonomyTree)
    (marker_cache : gmap string Matching.marker_group)
    (ps : list (option (string * string)))
    (parent_node : option (string * string)) (grp : Matching.marker_group) :
  Taxonomy.valid_taxonomy_tree t -> Taxonomy.hierarchy t <> [] ->
  no_childless_parent t ->
  TaxonomyMethods.all_parents t = Ok ps -> parent_node ∈ ps ->
  marker_cache !! Matching.parent_grp parent_node = Some grp ->
  markers_in_range t full_query_data mean_profile_lookup grp ->
  exists qd,
    Matching.assemble_query_data full_query_data mean_profile_lookup t
                                 marker_cache parent_node = Ok qd /\
    length (Matching.query_data_ qd) = length full_query_data /\
    Forall (fun row => length row = length (Matching.query grp))
           (Matching.query_data_ qd) /\
    Forall (fun row => length row = length (Matching.query grp))
           (Matching.reference_data qd) /\
    length (Matching.reference_types qd)
    = length (Matching.reference_data qd) /\
    Matching.reference_data qd <> [].
Proof. apply assemble_query_data_Ok. Qed.

Lemma assemble_query_data_returns_witness :
  exists qd,
    Matching.assemble_query_data Examples.walk_query
      Examples.walk_means Examples.small_tree
      Examples.walk_cache (Some ("class", "A")%string) = Ok qd /\
    length (Matching.query_data_ qd) = 3%nat /\
    Forall (fun row => length row = 3%nat) (Matching.query_data_ qd) /\
    Forall (fun row => length row = 3%nat) (Matching.reference_data qd) /\
    length (Matching.reference_types qd)
    = length (Matching.reference_data qd) /\
    Matching.reference_data qd <> [].
Proof.
  apply (assemble_query_data_returns Examples.walk_query
           Examples.walk_means Examples.small_tree
           Examples.walk_cache
           [None; Some ("class", "A")%string; Some ("class", "B")%string]
           (Some ("class", "A")%string) Examples.three_markers).
  - apply (bool_decide_unpack _). vm_compute. exact I.
  - discriminate.
  - exact small_tree_no_childless_parent.
  - vm_compute. reflexivity.
  - right. left.
  - vm_compute. reflexivity.
  - exact walk_markers_in_range.
Defined.

Section AssignmentReturns.
Context `{Collaborators}.
Import Taxonomy TaxonomyMethods Matching Election Assignment.

Lemma downsample_cells_Ok (full_query_gene_data : array2)
    (chosen_idx : list nat) :
  Forall (fun i => i < length full_query_gene_data)%nat chosen_idx ->
  exists rows,
    downsample_cells full_query_gene_data chosen_idx = Ok rows /\
    length rows = length chosen_idx /\
    Forall (fun row => row ∈ full_query_gene_data) rows.
Proof.
  intros Hidx. unfold downsample_cells.
  destruct (res_mapM_total
              (fun i => or_raise IndexError (full_query_gene_data !! i))
              chosen_idx) as [rows Hrows].
  - eapply Forall_impl; [exact Hidx|]. intros i Hi. cbv beta in *.
    destruct (lookup_lt_is_Some_2 full_query_gene_data i) as [x Hx]; [lia|].
    rewrite Hx. eexists. reflexivity.
  - exists rows. split; [exact Hrows|].
    split; [eapply res_mapM_length; exact Hrows|].
    apply res_mapM_Ok in Hrows. clear Hidx.
    induction Hrows as [|i row l k Hi _ IH]; constructor; [|exact IH].
    apply or_raise_Ok in Hi. eapply list_elem_of_lookup_2. exact Hi.
Qed.

(** Fewer query rows are read through the same markers. *)
Lemma markers_in_range_rows (t : TaxonomyTree) (full rows : array2)
    (mean_profile_lookup : gmap string array1) (grp : marker_group) :
  Forall (fun row => row ∈ full) rows ->
  markers_in_range t full mean_profile_lookup grp ->
  markers_in_range t rows mean_profile_lookup grp.
Proof.
  intros Hrows (Hlen & Hq & Hleaves). split; [exact Hlen|].
  split; [|exact Hleaves].
  rewrite Forall_forall in Hq. eapply Forall_impl; [exact Hrows|].
  intros row Hin. apply Hq. exact Hin.
Qed.

(** The vote at a parent with at least two children returns. *)
Lemma _run_type_assignment_Ok (full_query_gene_data rows : array2)
    (leaf_node_matrix : gmap string array1)
    (marker_gene_cache : gmap string marker_group) (t : TaxonomyTree)
    (bootstrap_factor : Q) (bootstrap_iteration : nat)
    (ps : list (option (string * string)))
    (parent_node : option (string * string)) (cs : list string)
    (g : rng_state) :
  rng_choice_sound -> rng_choice_total -> nearest_neighbors_total ->
  valid_taxonomy_tree t -> hierarchy t <> [] -> no_childless_parent t ->
  cache_ready t full_query_gene_data leaf_node_matrix marker_gene_cache
              bootstrap_factor ->
  bootstrap_factor <= 1 ->
  all_parents t = Ok ps -> parent_node ∈ ps ->
  children t parent_node = Ok cs -> (2 <= length cs)%nat ->
  rows <> [] -> Forall (fun row => row ∈ full_query_gene_data) rows ->
  exists choices g',
    _run_type_assignment rows leaf_node_matrix marker_gene_cache t
                         parent_node bootstrap_factor bootstrap_iteration g
    = Ok (choices, g').
Proof.
  intros Hsound Htotal Hnn Hvalid Hne Hchild Hcache Hle Hps Hin Hcs Htwo
         Hrows Hsub.
  destruct (Hcache ps parent_node cs Hps Hin Hcs Htwo)
    as (grp & Hgrp & Hrange & Hhalf).
  destruct (assemble_query_data_Ok rows leaf_node_matrix t marker_gene_cache
              ps parent_node grp Hvalid Hne Hchild Hps Hin Hgrp
              (markers_in_range_rows _ _ _ _ _ Hsub Hrange))
    as (qd & Hqd & Hlq & Hq & Hr & Hty & Hrne).
  unfold _run_type_assignment. rewrite Hqd. simpl.
  apply (choose_node_Ok _ _ _ (length (query grp))); try assumption.
  intros Hnil. rewrite Hnil in Hlq. simpl in Hlq.
  destruct rows; [contradiction|discriminate Hlq].
Qed.

(** One turn of the loop over the parents of a level returns, and
    leaves rows of the query in what it records. *)
Lemma assign_parent_Ok (full_query_gene_data : array2)
    (leaf_node_matrix : gmap string array1)
    (marker_gene_cache : gmap string marker_group) (t : TaxonomyTree)
    (bootstrap_factor : Q) (bootstrap_iteration : nat)
    (ps : list (option (string * string)))
    (child_level : string) (parent : option (string * string))
    (st : walk_state) (chosen_idx : list nat) :
  rng_choice_sound -> rng_choice_total -> nearest_neighbors_total ->
  valid_taxonomy_tree t -> hierarchy t <> [] -> no_childless_parent t ->
  cache_ready t full_query_gene_data leaf_node_matrix marker_gene_cache
              bootstrap_factor ->
  bootstrap_factor <= 1 ->
  all_parents t = Ok ps -> parent ∈ ps ->
  chosen_idx_of (length full_query_gene_data) (previously_assigned st) parent
  = Some chosen_idx ->
  Forall (fun i => i < length full_query_gene_data)%nat chosen_idx ->
  exists st',
    assign_parent full_query_gene_data leaf_node_matrix marker_gene_cache t
                  bootstrap_factor bootstrap_iteration child_level parent st
    = Ok st' /\
    (forall level, level <> child_level ->
       previously_assigned st' !! level = previously_assigned st !! level) /\
    forall inner,
      previously_assigned st !! child_level = Some inner ->
      (forall node rows, inner !! node = Some rows ->
         Forall (fun i => i < length full_query_gene_data)%nat rows) ->
      exists inner',
        previously_assigned st' !! child_level = Some inner' /\
        forall node rows, inner' !! node = Some rows ->
          Forall (fun i => i < length full_query_gene_data)%nat rows.
Proof.
  intros Hsound Htotal Hnn Hvalid Hne Hchild Hcache Hle Hps Hin Hci Hidx.
  unfold assign_parent. rewrite Hci. cbn [or_raise mbind res_bind].
  destruct chosen_idx as [|i0 chosen_idx].
  { exists st. split; [reflexivity|]. split; [reflexivity|].
    intros inner Hinner Hrows. exists inner. auto. }
  destruct (downsample_cells_Ok full_query_gene_data (i0 :: chosen_idx) Hidx)
    as (rows & Hrows & Hlen & Hsub).
  rewrite Hrows. cbn [mbind res_bind].
  destruct (parent_children t ps parent Hvalid Hne Hps Hin)
    as (cs & lc & next & Hcs & _).
  rewrite Hcs. cbn [mbind res_bind].
  assert (Hvote : exists choices g',
    match cs with
    | [] => Raise RuntimeError
    | [only_child] =>
        Ok (replicate (length rows)
              {| Election.result := only_child;
                 vote_fraction := Some 1;
                 Election.avg_corr := Some 1 |},
            rng st)
    | _ :: _ :: _ =>
        _run_type_assignment rows leaf_node_matrix marker_gene_cache t
                             parent bootstrap_factor bootstrap_iteration
                             (rng st)
    end = Ok (choices, g')).
  { pose proof (Hchild ps parent cs Hps Hin Hcs) as Hcne.
    destruct cs as [|c1 [|c2 cs]]; [contradiction|eauto|].
    apply (_run_type_assignment_Ok full_query_gene_data rows leaf_node_matrix
             marker_gene_cache t bootstrap_factor bootstrap_iteration ps
             parent (c1 :: c2 :: cs)); try assumption.
    - simpl. lia.
    - intros Hnil. rewrite Hnil in Hlen. discriminate Hlen. }
  destruct Hvote as (choices & g' & Hvote). rewrite Hvote.
  cbn [mbind res_bind]. eexists. split; [reflexivity|]. simpl.
  destruct (record_partition_spec child_level (i0 :: chosen_idx)
              (Election.result <$> choices) (previously_assigned st))
    as [Hother Hlevel].
  split; [exact Hother|].
  intros inner Hinner Hin_range.
  destruct (Hlevel inner Hinner) as (inner' & Hi' & Hlook).
  exists inner'. split; [exact Hi'|].
  intros node rows' Hnode. rewrite Hlook in Hnode.
  destruct (decide (node ∈ Election.result <$> choices)) as [_|_].
  - injection Hnode as <-. rewrite Forall_forall. intros idx Hidx'.
    apply rows_assigned_elem_of in Hidx'. destruct Hidx' as (k & Hk & _).
    rewrite Forall_forall in Hidx. apply Hidx.
    eapply list_elem_of_lookup_2. exact Hk.
  - eapply Hin_range. exact Hnode.
Qed.

(** The loop over the parents of a level returns. *)
Lemma for_each_parent_Ok (full_query_gene_data : array2)
    (leaf_node_matrix : gmap string array1)
    (marker_gene_cache : gmap string marker_group) (t : TaxonomyTree)
    (bootstrap_factor : Q) (bootstrap_iteration : nat)
    (ps : list (option (string * string)))
    (child_level : string) (pa0 : assigned_rows)
    (todo : list (option (string * string))) :
  rng_choice_sound -> rng_choice_total -> nearest_neighbors_total ->
  valid_taxonomy_tree t -> hierarchy t <> [] -> no_childless_parent t ->
  cache_ready t full_query_gene_data leaf_node_matrix marker_gene_cache
              bootstrap_factor ->
  bootstrap_factor <= 1 ->
  all_parents t = Ok ps -> todo ⊆ ps ->
  (forall parent pa, parent ∈ todo ->
     (forall level, level <> child_level -> pa !! level = pa0 !! level) ->
     exists chosen_idx,
       chosen_idx_of (length full_query_gene_data) pa parent
       = Some chosen_idx /\
       Forall (fun i => i < length full_query_gene_data)%nat chosen_idx) ->
  forall (st : walk_state) (inner : gmap string (list nat)),
  (forall level, level <> child_level ->
     previously_assigned st !! level = pa0 !! level) ->
  previously_assigned st !! child_level = Some inner ->
  (forall node rows, inner !! node = Some rows ->
     Forall (fun i => i < length full_query_gene_data)%nat rows) ->
  exists st' inner',
    for_each (assign_parent full_query_gene_data leaf_node_matrix
                            marker_gene_cache t bootstrap_factor
                            bootstrap_iteration child_level) todo st
    = Ok st' /\
    (forall level, level <> child_level ->
       previously_assigned st' !! level = pa0 !! level) /\
    previously_assigned st' !! child_level = Some inner' /\
    forall node rows, inner' !! node = Some rows ->
      Forall (fun i => i < length full_query_gene_data)%nat rows.
Proof.
  intros Hsound Htotal Hnn Hvalid Hne Hchild Hcache Hle Hps.
  induction todo as [|parent todo IH]; intros Hsub Hchosen st inner Hother
    Hinner Hrange.
  - exists st, inner. simpl. auto.
  - destruct (Hchosen parent (previously_assigned st)) as (ci & Hci & Hidx);
      [left|exact Hother|].
    destruct (assign_parent_Ok full_query_gene_data leaf_node_matrix
                marker_gene_cache t bootstrap_factor bootstrap_iteration ps
                child_level parent st ci)
      as (st1 & Hstep & Hother1 & Hlevel1); try assumption.
    { apply Hsub. left. }
    destruct (Hlevel1 inner Hinner Hrange) as (inner1 & Hinner1 & Hrange1).
    destruct (IH) with (st := st1) (inner := inner1)
      as (st' & inner' & Hloop & Hrest); try assumption.
    + intros p Hp. apply Hsub. right. exact Hp.
    + intros p pa Hp. apply Hchosen. right. exact Hp.
    + intros level Hlv. rewrite (Hother1 level Hlv). apply Hother. exact Hlv.
    + exists st', inner'. split; [|exact Hrest].
      cbn [for_each]. rewrite Hstep. exact Hloop.
Qed.

Lemma elem_of_but_last_mid {A} (d : list A) (x y : A) (rest : list A) :
  x ∈ but_last (d ++ x :: y :: rest).
Proof.
  unfold but_last. apply (list_elem_of_lookup_2 _ (length d)).
  apply lookup_take_Some. split.
  - apply list_lookup_middle. reflexivity.
  - rewrite length_app. simpl. lia.
Qed.

(** One turn of the loop over the levels returns: the root, or a level
    whose nodes already have their rows. *)
Lemma assign_level_Ok (full_query_gene_data : array2)
    (leaf_node_matrix : gmap string array1)
    (marker_gene_cache : gmap string marker_group) (t : TaxonomyTree)
    (bootstrap_factor : Q) (bootstrap_iteration : nat)
    (ps : list (option (string * string)))
    (parent_level : option string) (child_level : string)
    (st : walk_state) :
  rng_choice_sound -> rng_choice_total -> nearest_neighbors_total ->
  valid_taxonomy_tree t -> hierarchy t <> [] -> no_childless_parent t ->
  cache_ready t full_query_gene_data leaf_node_matrix marker_gene_cache
              bootstrap_factor ->
  bootstrap_factor <= 1 ->
  all_parents t = Ok ps ->
  match parent_level with
  | None => True
  | Some lp =>
      lp <> child_level /\ lp ∈ but_last (hierarchy t) /\
      exists inner,
        previously_assigned st !! lp = Some inner /\
        forall node rows, inner !! node = Some rows ->
          Forall (fun i => i < length full_query_gene_data)%nat rows
  end ->
  exists st' inner',
    assign_level full_query_gene_data leaf_node_matrix marker_gene_cache t
                 bootstrap_factor bootstrap_iteration
                 (parent_level, child_level) st = Ok st' /\
    previously_assigned st' !! child_level = Some inner' /\
    forall node rows, inner' !! node = Some rows ->
      Forall (fun i => i < length full_query_gene_data)%nat rows.
Proof.
  intros Hsound Htotal Hnn Hvalid Hne Hchild Hcache Hle Hps Hpl.
  pose proof Hvalid as (Hnd & Hall & Hpairs).
  unfold assign_level.
  assert (Htodo : exists todo,
    match parent_level with
    | None => Ok [None]
    | Some parent_level =>
        k_list ← nodes_at_level t parent_level;
        Ok ((fun k => Some (parent_level, k)) <$> sort_names k_list)
    end = Ok todo /\
    todo ⊆ ps /\
    forall parent pa, parent ∈ todo ->
      (forall level, level <> child_level ->
         pa !! level
         = (<[child_level := ∅]> (previously_assigned st)) !! level) ->
      exists chosen_idx,
        chosen_idx_of (length full_query_gene_data) pa parent
        = Some chosen_idx /\
        Forall (fun i => i < length full_query_gene_data)%nat chosen_idx).
  { destruct parent_level as [lp|].
    - destruct Hpl as (Hlp & Hbl & inner & Hinner & Hrange).
      rewrite Forall_forall in Hall.
      destruct (Hall lp (but_last_subseteq _ _ Hbl)) as [nodes Hnodes].
      unfold nodes_at_level. rewrite Hnodes. cbn [or_raise mbind res_bind].
      eexists. split; [reflexivity|]. split.
      + intros p Hp. apply list_elem_of_fmap in Hp.
        destruct Hp as (k & -> & Hk).
        apply (proj1 (sort_names_elem_of _ _)) in Hk.
        apply (all_parents_elem_of _ _ _ _ Hps). split; [exact Hbl|].
        exists nodes. split; [exact Hnodes|]. apply keys_elem_of. exact Hk.
      + intros p pa Hp Hpa. apply list_elem_of_fmap in Hp.
        destruct Hp as (k & -> & _). simpl.
        rewrite (Hpa lp Hlp), lookup_insert_ne by congruence.
        rewrite Hinner. simpl. eexists. split; [reflexivity|].
        destruct (inner !! k) as [rows|] eqn:Hk; simpl.
        * eapply Hrange. exact Hk.
        * constructor.
    - eexists. split; [reflexivity|]. split.
      + intros p Hp. apply list_elem_of_singleton in Hp. subst p.
        unfold all_parents in Hps. inv_res. subst ps. left.
      + intros p pa Hp _. apply list_elem_of_singleton in Hp. subst p.
        simpl. eexists. split; [reflexivity|].
        apply Forall_forall. intros i Hi. apply elem_of_seq in Hi. lia. }
  destruct Htodo as (todo & Htodo & Hsub & Hchosen). rewrite Htodo.
  cbn [mbind res_bind].
  destruct (for_each_parent_Ok full_query_gene_data leaf_node_matrix
              marker_gene_cache t bootstrap_factor bootstrap_iteration ps
              child_level (<[child_level := ∅]> (previously_assigned st))
              todo Hsound Htotal Hnn Hvalid Hne Hchild Hcache Hle Hps Hsub
              Hchosen
              {| previously_assigned :=
                   <[child_level := ∅]> (previously_assigned st);
                 results := results st; rng := rng st |} ∅)
    as (st' & inner' & Hloop & _ & Hinner' & Hrange').
  - reflexivity.
  - simpl. apply lookup_insert_eq.
  - intros node rows Hn. rewrite lookup_empty in Hn. discriminate Hn.
  - exists st', inner'. auto.
Qed.

(** The loop over the levels returns. *)
Lemma run_levels_Ok (full_query_gene_data : array2)
    (leaf_node_matrix : gmap string array1)
    (marker_gene_cache : gmap string marker_group) (t : TaxonomyTree)
    (bootstrap_factor : Q) (bootstrap_iteration : nat)
    (ps : list (option (string * string))) :
  rng_choice_sound -> rng_choice_total -> nearest_neighbors_total ->
  valid_taxonomy_tree t -> hierarchy t <> [] -> no_childless_parent t ->
  cache_ready t full_query_gene_data leaf_node_matrix marker_gene_cache
              bootstrap_factor ->
  bootstrap_factor <= 1 ->
  all_parents t = Ok ps ->
  forall (rest done : list string) (st : walk_state),
  hierarchy t = done ++ rest ->
  match last done with
  | None => True
  | Some lp =>
      exists inner,
        previously_assigned st !! lp = Some inner /\
        forall node rows, inner !! node = Some rows ->
          Forall (fun i => i < length full_query_gene_data)%nat rows
  end ->
  exists st',
    for_each (assign_level full_query_gene_data leaf_node_matrix
                           marker_gene_cache t bootstrap_factor
                           bootstrap_iteration)
             (zip (last done :: (Some <$> rest)) rest) st = Ok st'.
Proof.
  intros Hsound Htotal Hnn Hvalid Hne Hchild Hcache Hle Hps.
  pose proof Hvalid as (Hnd & _ & _).
  induction rest as [|lc rest IH]; intros done st Hh Hlast.
  - exists st. reflexivity.
  - change (zip (last done :: (Some <$> lc :: rest)) (lc :: rest))
      with ((last done, lc) :: zip (Some lc :: (Some <$> rest)) rest).
    cbn [for_each].
    destruct (assign_level_Ok full_query_gene_data leaf_node_matrix
                marker_gene_cache t bootstrap_factor bootstrap_iteration ps
                (last done) lc st)
      as (st1 & inner1 & Hstep & Hinner1 & Hrange1); try assumption.
    { destruct (last done) as [lp|] eqn:Hl; [|exact I].
      apply last_Some in Hl. destruct Hl as [d' ->].
      rewrite <- app_assoc in Hh. simpl in Hh.
      split; [|split; [|exact Hlast]].
      - intros ->. rewrite Hh in Hnd. apply NoDup_app in Hnd.
        destruct Hnd as (_ & _ & Hnd). apply NoDup_cons in Hnd.
        destruct Hnd as [Hnotin _]. apply Hnotin. left.
      - rewrite Hh. apply elem_of_but_last_mid. }
    rewrite Hstep. cbn [mbind res_bind].
    specialize (IH (done ++ [lc]) st1). rewrite last_snoc in IH.
    apply IH.
    + rewrite <- app_assoc. exact Hh.
    + exists inner1. auto.
Qed.

End AssignmentReturns.

(** The groups of [walk_cache] serve every parent of [small_tree]. *)
Lemma walk_cache_ready :
  cache_ready Examples.small_tree Examples.walk_query
              Examples.walk_means Examples.walk_cache (3 # 4).
Proof.
  intros ps p cs Hps Hin Hcs Htwo. vm_compute in Hps. injection Hps as <-.
  exists Examples.three_markers.
  split; [|split; [exact walk_markers_in_range|reflexivity]].
  repeat (apply elem_of_cons in Hin; destruct Hin as [->|Hin]);
    try (apply elem_of_nil in Hin; contradiction);
    reflexivity.
Qed.

(** X22. [run_type_assignment] returns, with one result per query
    cell, when the taxonomy is valid and has no parent without
    children, the marker cache holds for every parent with two or more
    children a group of as many reference as query markers that reads
    columns which the query rows have and entries which every leaf's
    mean profile has, the bootstrap factor is at most 1 and draws at
    least one marker of every such group, the generator returns any
    sample no larger than its population, of the size asked for and
    without repeats, and the nearest-neighbour search returns a
    neighbour for every query row: none of its lookups fails and no
    level raises. *)
Theorem run_type_assignment_returns `{Collaborators}
    (full_query_gene_data : array2) (leaf_node_matrix : gmap string array1)
    (marker_gene_cache : gmap string Matching.marker_group)
    (t : Taxonomy.TaxonomyTree)
    (bootstrap_factor : Q) (bootstrap_iteration : nat)
    (rng0 : rng_state) :
  rng_choice_sound -> rng_choice_total -> nearest_neighbors_total ->
  Taxonomy.valid_taxonomy_tree t -> Taxonomy.hierarchy t <> [] ->
  no_childless_parent t ->
  cache_ready t full_query_gene_data leaf_node_matrix marker_gene_cache
              bootstrap_factor ->
  bootstrap_factor <= 1 ->
  exists rs rng',
    Assignment.run_type_assignment full_query_gene_data leaf_node_matrix
      marker_gene_cache t bootstrap_factor bootstrap_iteration rng0
    = Ok (rs, rng') /\
    length rs = length full_query_gene_data.
Proof.
  intros Hsound Htotal Hnn Hvalid Hne Hchild Hcache Hle.
  destruct (all_parents_Ok t) as [ps Hps]; [apply Hvalid|].
  destruct (run_levels_Ok full_query_gene_data leaf_node_matrix
              marker_gene_cache t bootstrap_factor bootstrap_iteration ps
              Hsound Htotal Hnn Hvalid Hne Hchild Hcache Hle Hps
              (Taxonomy.hierarchy t) []
              {| Assignment.previously_assigned := ∅;
                 Assignment.results :=
                   replicate (length full_query_gene_data)
                     (foldl (fun d level => <[level := None]> d)
                            (∅ : Assignment.cell_result)
                            (Taxonomy.hierarchy t));
                 Assignment.rng := rng0 |})
    as [st Hloop]; [reflexivity|exact I|].
  assert (Hrun : Assignment.run_type_assignment full_query_gene_data
                   leaf_node_matrix marker_gene_cache t bootstrap_factor
                   bootstrap_iteration rng0
                 = Ok (Assignment.results st, Assignment.rng st)).
  { unfold Assignment.run_type_assignment. simpl in Hloop |- *.
    rewrite Hloop. reflexivity. }
  exists (Assignment.results st), (Assignment.rng st).
  split; [exact Hrun|].
  apply (run_type_assignment_walk _ _ _ _ _ _ _ _ _ Hrun Hvalid).
Qed.

Lemma run_type_assignment_returns_witness :
  exists rs rng',
    Assignment.run_type_assignment (H := Examples.steady)
      Examples.walk_query Examples.walk_means
      Examples.walk_cache Examples.small_tree (3 # 4) 2 tt
    = Ok (rs, rng') /\
    length rs = 3%nat.
Proof.
  apply (run_type_assignment_returns (H := Examples.steady)
           Examples.walk_query Examples.walk_means
           Examples.walk_cache Examples.small_tree (3 # 4) 2 tt).
  - exact first_choice_sound.
  - exact first_choice_total.
  - exact pearson_nearest_neighbors_total.
  - apply (bool_decide_unpack _). vm_compute. exact I.
  - discriminate.
  - exact small_tree_no_childless_parent.
  - exact walk_cache_ready.
  - unfold Qle. simpl. lia.
Defined.

Section PrecomputeFromAnndataFacts.
Import AnnDataIterator Assignment Precompute PrecomputeFromAnndata.

Lemma set_rows_foldl (v : nat) (rows : list nat) :
  forall arr : list nat,
  length (foldl (fun arr r => <[r := v]> arr) arr rows) = length arr /\
  forall r, (r < length arr)%nat ->
    foldl (fun arr r => <[r := v]> arr) arr rows !! r
    = if decide (r ∈ rows) then Some v else arr !! r.
Proof.
  induction rows as [|x rows IH]; intros arr; simpl.
  - split; [reflexivity|]. intros r _.
    destruct (decide (r ∈ [])) as [Hin|_]; [|reflexivity].
    apply elem_of_nil in Hin. contradiction.
  - destruct (IH (<[x := v]> arr)) as [Hlen Hlook].
    rewrite length_insert in Hlen, Hlook.
    split; [exact Hlen|]. intros r Hr. rewrite (Hlook r Hr).
    destruct (decide (r ∈ rows)) as [Hin|Hnotin].
    + destruct (decide (r ∈ x :: rows)) as [_|Hn]; [reflexivity|].
      exfalso. apply Hn. right. exact Hin.
    + destruct (decide (r = x)) as [->|Hne].
      * rewrite list_lookup_insert_eq by exact Hr.
        destruct (decide (x ∈ x :: rows)) as [_|Hn]; [reflexivity|].
        exfalso. apply Hn. left.
      * rewrite list_lookup_insert_ne by congruence.
        destruct (decide (r ∈ x :: rows)) as [Hin|_]; [|reflexivity].
        apply elem_of_cons in Hin. destruct Hin; [congruence|contradiction].
Qed.

Lemma set_rows_Ok (rows : list nat) (v : nat) (arr : list nat) :
  rows <> [] -> Forall (fun r => r < length arr)%nat rows ->
  exists arr',
    set_rows rows v arr = Ok arr' /\ length arr' = length arr /\
    forall r, (r < length arr)%nat ->
      arr' !! r = if decide (r ∈ rows) then Some v else arr !! r.
Proof.
  intros Hne Hrange. unfold set_rows.
  destruct rows as [|x rows]; [contradiction|].
  destruct (decide (Forall (fun r => r < length arr)%nat (x :: rows)))
    as [_|Hn]; [|contradiction].
  eexists. split; [reflexivity|]. apply set_rows_foldl.
Qed.

(** The loop over the clusters, from the cluster at position
    [length done] on. *)
Lemma row_map_from (items : dict (list nat)) (n_cells : nat) :
  NoDup items.*1 -> clusters_have_rows n_cells items ->
  forall (todo done : dict (list nat)) (arr : list nat),
  items = done ++ todo -> length arr = n_cells ->
  exists m,
    for_each (fun (cluster : string) (arr : list nat) =>
                these_rows ← or_raise KeyError (dict_get items cluster);
                output_idx ← or_raise KeyError
                               (Taxonomy.level_to_idx items.*1 !! cluster);
                set_rows these_rows output_idx arr)
             todo.*1 arr = Ok m /\
    length m = n_cells /\
    forall r, (r < n_cells)%nat ->
      ((forall cr, cr ∈ todo -> r ∉ cr.2) -> m !! r = arr !! r) /\
      (forall j cr, todo !! j = Some cr -> r ∈ cr.2 ->
         (forall j' cr', (j < j')%nat -> todo !! j' = Some cr' -> r ∉ cr'.2) ->
         m !! r = Some (length done + j)%nat).
Proof.
  intros Hnd Hrows.
  induction todo as [|[c rows] todo IH]; intros done arr Hitems Hlen.
  - exists arr. split; [reflexivity|]. split; [exact Hlen|].
    intros r _. split; [reflexivity|]. intros j cr Hj. discriminate Hj.
  - assert (Hget : dict_get items c = Some rows).
    { apply dict_get_elem_of; [exact Hnd|]. rewrite Hitems.
      apply elem_of_app. right. left. }
    assert (Hidx : Taxonomy.level_to_idx items.*1 !! c = Some (length done)).
    { apply level_to_idx_NoDup; [exact Hnd|]. rewrite Hitems, fmap_app.
      rewrite lookup_app_r by (rewrite length_fmap; lia).
      rewrite length_fmap, Nat.sub_diag. reflexivity. }
    assert (Hcr : rows <> [] /\ Forall (fun i => i < n_cells)%nat rows).
    { unfold clusters_have_rows in Hrows. rewrite Forall_forall in Hrows.
      apply (Hrows (c, rows)). rewrite Hitems. apply elem_of_app.
      right. left. }
    destruct Hcr as [Hne Hrange].
    destruct (set_rows_Ok rows (length done) arr Hne)
      as (arr1 & Hset & Hlen1 & Hlook1).
    { rewrite Hlen. exact Hrange. }
    destruct (IH (done ++ [(c, rows)]) arr1) as (m & Hloop & Hlm & Hm).
    { rewrite <- app_assoc. exact Hitems. }
    { congruence. }
    exists m. split.
    { cbn [fmap list_fmap for_each]. simpl. rewrite Hget, Hidx. simpl.
      rewrite Hset. simpl. exact Hloop. }
    split; [exact Hlm|]. intros r Hr.
    destruct (Hm r Hr) as [Hnone Hlast].
    assert (Hr1 : arr1 !! r = if decide (r ∈ rows) then Some (length done)
                              else arr !! r)
      by (apply Hlook1; lia).
    split.
    + intros Hno. rewrite Hnone.
      * rewrite Hr1. destruct (decide (r ∈ rows)) as [Hin|_]; [|reflexivity].
        exfalso. apply (Hno (c, rows)); [left|exact Hin].
      * intros cr Hcr. apply Hno. right. exact Hcr.
    + intros j cr Hj Hin Hlater. destruct j as [|j].
      * simpl in Hj. injection Hj as <-. simpl in Hin.
        rewrite Hnone.
        -- rewrite Hr1. destruct (decide (r ∈ rows)); [|contradiction].
           f_equal. lia.
        -- intros cr' Hcr'. apply list_elem_of_lookup_1 in Hcr'.
           destruct Hcr' as [j' Hj']. apply (Hlater (S j')); [lia|exact Hj'].
      * simpl in Hj. rewrite (Hlast j cr Hj Hin).
        -- rewrite length_app. simpl. f_equal. lia.
        -- intros j' cr' Hlt Hj'. apply (Hlater (S j')); [lia|exact Hj'].
Qed.

(** Every entry of the array is the output row of a cluster. *)
Lemma row_map_bound (items : dict (list nat)) (n_cells : nat) (m : list nat) :
  items <> [] ->
  (forall r, (r < n_cells)%nat ->
     ((forall cr, cr ∈ items -> r ∉ cr.2) -> m !! r = Some 0%nat) /\
     (forall j cr, items !! j = Some cr -> r ∈ cr.2 ->
        (forall j' cr', (j < j')%nat -> items !! j' = Some cr' ->
           r ∉ cr'.2) ->
        m !! r = Some j)) ->
  length m = n_cells ->
  Forall (fun k => k < length items)%nat m.
Proof.
  intros Hne Hm Hlen. apply Forall_forall. intros k Hk.
  apply list_elem_of_lookup_1 in Hk. destruct Hk as [r Hr].
  pose proof (lookup_lt_Some _ _ _ Hr) as Hlt. rewrite Hlen in Hlt.
  destruct (Hm r Hlt) as [Hnone Hlast].
  assert (Hcase : (forall cr, cr ∈ items -> r ∉ cr.2) \/
                  exists j cr, items !! j = Some cr /\ r ∈ cr.2 /\
                    forall j' cr', (j < j')%nat -> items !! j' = Some cr' ->
                      r ∉ cr'.2).
  { clear. induction items as [|cr items IH] using rev_ind.
    - left. intros cr Hin. apply elem_of_nil in Hin. contradiction.
    - destruct (decide (r ∈ cr.2)) as [Hin|Hnotin].
      + right. exists (length items), cr.
        split; [apply list_lookup_middle; reflexivity|].
        split; [exact Hin|]. intros j' cr' Hlt Hj'.
        apply lookup_lt_Some in Hj'. rewrite length_app in Hj'.
        simpl in Hj'. lia.
      + destruct IH as [Hno|(j & cr0 & Hj & Hin & Hlater)].
        * left. intros cr' Hcr'. apply elem_of_app in Hcr'.
          destruct Hcr' as [Hcr'|Hcr']; [apply Hno; exact Hcr'|].
          apply list_elem_of_singleton in Hcr'. subst cr'. exact Hnotin.
        * right. exists j, cr0.
          split; [apply lookup_app_l_Some; exact Hj|].
          split; [exact Hin|]. intros j' cr' Hlt Hj'.
          destruct (decide (j' < length items)%nat) as [Hl|Hl].
          -- rewrite lookup_app_l in Hj' by exact Hl. eapply Hlater; eauto.
          -- rewrite lookup_app_r in Hj' by lia.
             destruct (j' - length items)%nat as [|d]; [|destruct d; discriminate].
             simpl in Hj'. injection Hj' as <-. exact Hnotin. }
  destruct Hcase as [Hno|(j & cr & Hj & Hin & Hlater)].
  - rewrite (Hnone Hno) in Hr. injection Hr as <-.
    destruct items; [contradiction|simpl; lia].
  - rewrite (Hlast j cr Hj Hin Hlater) in Hr. injection Hr as <-.
    eapply lookup_lt_Some. exact Hj.
Qed.

(** A cluster with a row past the end of the matrix stops the loop
    over the clusters. *)
Lemma row_map_raises (items : dict (list nat)) (n_cells : nat) :
  NoDup items.*1 ->
  forall (todo done : dict (list nat)) (arr : list nat),
  items = done ++ todo -> length arr = n_cells ->
  (exists cr r, cr ∈ todo /\ r ∈ cr.2 /\ (n_cells <= r)%nat) ->
  for_each (fun (cluster : string) (arr : list nat) =>
              these_rows ← or_raise KeyError (dict_get items cluster);
              output_idx ← or_raise KeyError
                             (Taxonomy.level_to_idx items.*1 !! cluster);
              set_rows these_rows output_idx arr)
           todo.*1 arr = Raise IndexError.
Proof.
  intros Hnd.
  induction todo as [|[c rows] todo IH]; intros done arr Hitems Hlen Hbad.
  - destruct Hbad as (cr & r & Hin & _). apply elem_of_nil in Hin.
    contradiction.
  - assert (Hget : dict_get items c = Some rows).
    { apply dict_get_elem_of; [exact Hnd|]. rewrite Hitems.
      apply elem_of_app. right. left. }
    assert (Hidx : Taxonomy.level_to_idx items.*1 !! c = Some (length done)).
    { apply level_to_idx_NoDup; [exact Hnd|]. rewrite Hitems, fmap_app.
      rewrite lookup_app_r by (rewrite length_fmap; lia).
      rewrite length_fmap, Nat.sub_diag. reflexivity. }
    cbn [fmap list_fmap for_each]. simpl. rewrite Hget, Hidx. simpl.
    destruct (set_rows rows (length done) arr) as [arr'|e] eqn:Hs.
    + unfold set_rows in Hs. destruct rows as [|x rows]; [discriminate Hs|].
      destruct (decide (Forall (fun r => r < length arr)%nat (x :: rows)))
        as [Hall|_]; [|discriminate Hs].
      injection Hs as <-. cbn [mbind res_bind].
      apply (IH (done ++ [(c, x :: rows)])).
      * rewrite <- app_assoc. exact Hitems.
      * rewrite (proj1 (set_rows_foldl _ _ _)), length_insert. exact Hlen.
      * destruct Hbad as (cr & r & Hin & Hr & Hle).
        apply elem_of_cons in Hin. destruct Hin as [->|Hin]; [|eauto].
        exfalso. simpl in Hr. rewrite Forall_forall in Hall.
        specialize (Hall r Hr). lia.
    + unfold set_rows in Hs. destruct rows as [|x rows].
      * injection Hs as <-. reflexivity.
      * destruct (decide (Forall (fun r => r < length arr)%nat (x :: rows)));
          [discriminate Hs|]. injection Hs as <-. reflexivity.
Qed.

Lemma np_unique_nat_NoDup (a : list nat) : NoDup (np_unique a).
Proof.
  unfold np_unique. rewrite merge_sort_Permutation. apply NoDup_remove_dups.
Qed.

Lemma np_unique_nat_elem_of (a : list nat) (x : nat) :
  x ∈ np_unique a <-> x ∈ a.
Proof.
  unfold np_unique. rewrite merge_sort_Permutation. apply elem_of_remove_dups.
Qed.

(** The rows of the chunk at the positions of a cluster. *)
Lemma select_valid (v : nat) (cc : list nat) :
  forall (rows pre : array2),
  length cc = length rows ->
  res_mapM (fun i => or_raise IndexError ((pre ++ rows) !! i))
           (np_where_eq (length pre) cc v)
  = Ok (cluster_rows cc rows v).
Proof.
  unfold cluster_rows.
  induction cc as [|c cc IH]; intros rows pre Hlen.
  - reflexivity.
  - destruct rows as [|row rows]; [discriminate Hlen|].
    simpl in Hlen. injection Hlen as Hlen.
    specialize (IH rows (pre ++ [row]) Hlen).
    rewrite <- app_assoc, length_app in IH. simpl in IH.
    replace (length pre + 1)%nat with (S (length pre)) in IH by lia.
    cbn [np_where_eq zip zip_with]. rewrite filter_cons. simpl.
    destruct (decide (c = v)) as [->|Hne].
    + cbn [res_mapM]. rewrite list_lookup_middle by reflexivity. simpl.
      change (zip_with pair cc rows) with (zip cc rows).
      rewrite IH. reflexivity.
    + exact IH.
Qed.

Lemma cluster_rows_nil (cc : list nat) (rows : array2) (k : nat) :
  length cc = length rows ->
  cluster_rows cc rows k = [] <-> k ∉ cc.
Proof.
  unfold cluster_rows. revert rows.
  induction cc as [|c cc IH]; intros rows Hlen.
  - simpl. split; [intros _ Hin; apply elem_of_nil in Hin; contradiction|].
    reflexivity.
  - destruct rows as [|row rows]; [discriminate Hlen|].
    simpl in Hlen. injection Hlen as Hlen.
    cbn [zip zip_with]. rewrite filter_cons. simpl.
    rewrite not_elem_of_cons.
    destruct (decide (c = k)) as [->|Hne].
    + simpl. split; [discriminate|]. intros [Hn _]. congruence.
    + change (zip_with pair cc rows) with (zip cc rows).
      rewrite (IH rows Hlen). split; [intros Hn; split; congruence|tauto].
Qed.

Lemma cluster_rows_slice (m : list nat) (X : array2) (k a b c : nat) :
  (a <= b <= c)%nat ->
  cluster_rows (slice m a b) (slice X a b) k
  ++ cluster_rows (slice m b c) (slice X b c) k
  = cluster_rows (slice m a c) (slice X a c) k.
Proof.
  intros Habc. unfold cluster_rows.
  assert (Hz : forall x y, zip (slice m x y) (slice X x y)
                           = slice (zip m X) x y).
  { intros x y. unfold slice.
    rewrite zip_with_drop, zip_with_take. reflexivity. }
  rewrite !Hz, <- fmap_app, <- filter_app, slice_app by exact Habc.
  reflexivity.
Qed.

Section Accumulate.
Context {stats : Type}.
Variable to_log2CPM : array2 -> array2.
Variable summary_stats_for_chunk : array2 -> stats.
Variable zero : stats.
Variable add : stats -> stats -> stats.
Variable normalization : string.


(** The loop over the clusters [us] of a chunk. *)
Lemma accumulate_clusters (data : array2) (cc : list nat) :
  length cc = length data ->
  forall (us : list nat) (buffer : list stats),
  NoDup us -> Forall (fun k => k < length buffer)%nat us ->
  exists buffer',
    for_each (accumulate_cluster to_log2CPM summary_stats_for_chunk add
                                 normalization data cc) us buffer
    = Ok buffer' /\
    length buffer' = length buffer /\
    forall k,
      buffer' !! k
      = if decide (k ∈ us)
        then (fun b =>
                add b (chunk_summary to_log2CPM summary_stats_for_chunk
                                     normalization (cluster_rows cc data k)))
             <$> buffer !! k
        else buffer !! k.
Proof.
  intros Hlen. induction us as [|u us IH]; intros buffer Hnd Hus.
  - exists buffer. split; [reflexivity|]. split; [reflexivity|].
    intros k. destruct (decide (k ∈ [])) as [Hin|_]; [|reflexivity].
    apply elem_of_nil in Hin. contradiction.
  - apply NoDup_cons in Hnd. destruct Hnd as [Hu Hnd].
    apply Forall_cons in Hus. destruct Hus as [Hub Hus].
    pose proof (select_valid u cc data [] Hlen) as Hsel. simpl in Hsel.
    destruct (IH (alter
                   (fun b =>
                      add b (chunk_summary to_log2CPM summary_stats_for_chunk
                               normalization (cluster_rows cc data u)))
                   u buffer) Hnd)
      as (buffer' & Hloop & Hlb & Hlook).
    { rewrite length_alter. exact Hus. }
    assert (Hstep : accumulate_cluster to_log2CPM summary_stats_for_chunk add
                      normalization data cc u buffer
                    = Ok (alter
                            (fun b =>
                               add b (chunk_summary
                                        to_log2CPM summary_stats_for_chunk
                                        normalization
                                        (cluster_rows cc data u)))
                            u buffer)).
    { unfold accumulate_cluster. rewrite Hsel. cbn [mbind res_bind].
      destruct (decide (u < length buffer)%nat) as [_|Hn]; [|contradiction].
      reflexivity. }
    exists buffer'. split.
    { cbn [for_each]. rewrite Hstep. cbn [mbind res_bind]. exact Hloop. }
    rewrite length_alter in Hlb. split; [exact Hlb|].
    intros k. rewrite Hlook.
    destruct (decide (k = u)) as [->|Hne].
    + destruct (decide (u ∈ us)) as [Hin|_]; [contradiction|].
      destruct (decide (u ∈ u :: us)) as [_|Hn];
        [|exfalso; apply Hn; left].
      apply list_lookup_alter_eq.
    + rewrite list_lookup_alter_ne by congruence.
      destruct (decide (k ∈ us)) as [Hin|Hnotin].
      * destruct (decide (k ∈ u :: us)) as [_|Hn]; [reflexivity|].
        exfalso. apply Hn. right. exact Hin.
      * destruct (decide (k ∈ u :: us)) as [Hin|_]; [|reflexivity].
        apply elem_of_cons in Hin. destruct Hin; [congruence|contradiction].
Qed.

Hypothesis add_zero : forall s, add zero s = s.
Hypothesis stat_additive :
  additive add
           (chunk_summary to_log2CPM summary_stats_for_chunk normalization).

Lemma stats_of_rows_app (l1 l2 : array2) :
  stats_of_rows zero
    (chunk_summary to_log2CPM summary_stats_for_chunk normalization)
    (l1 ++ l2)
  = match l2 with
    | [] =>
        stats_of_rows zero
          (chunk_summary to_log2CPM summary_stats_for_chunk normalization) l1
    | _ :: _ =>
        add (stats_of_rows zero
               (chunk_summary to_log2CPM summary_stats_for_chunk
                              normalization) l1)
            (chunk_summary to_log2CPM summary_stats_for_chunk normalization
                           l2)
    end.
Proof.
  destruct l2 as [|r2 l2]; [rewrite app_nil_r; reflexivity|].
  destruct l1 as [|r1 l1].
  - simpl. rewrite add_zero. reflexivity.
  - unfold stats_of_rows. simpl.
    apply (stat_additive (r1 :: l1) (r2 :: l2)); discriminate.
Qed.

(** One chunk: every cluster gets the statistics of its cells in the
    chunk added. *)
Lemma accumulate_chunk_Ok (m : list nat) (X : array2) (data : array2)
    (a b : nat) (buffer : list stats) :
  length m = length X -> (a <= b <= length X)%nat ->
  data = slice X a b ->
  Forall (fun k => k < length buffer)%nat m ->
  (forall k, (k < length buffer)%nat ->
     buffer !! k
     = Some (stats_of_rows zero
               (chunk_summary to_log2CPM summary_stats_for_chunk
                              normalization)
               (cluster_rows (slice m 0 a) (slice X 0 a) k))) ->
  exists buffer',
    accumulate_chunk to_log2CPM summary_stats_for_chunk add normalization m
                     (data, a, b) buffer = Ok buffer' /\
    length buffer' = length buffer /\
    forall k, (k < length buffer)%nat ->
      buffer' !! k
      = Some (stats_of_rows zero
               (chunk_summary to_log2CPM summary_stats_for_chunk
                              normalization)
               (cluster_rows (slice m 0 b) (slice X 0 b) k)).
Proof.
  intros Hlen Hab -> Hm Hbuf. unfold accumulate_chunk. simpl.
  assert (Hl : length (slice m a b) = length (slice X a b)).
  { unfold slice. rewrite !length_take, !length_drop. lia. }
  destruct (accumulate_clusters (slice X a b) (slice m a b) Hl
              (np_unique (slice m a b)) buffer)
    as (buffer' & Hloop & Hlb & Hlook).
  { apply np_unique_nat_NoDup. }
  { apply Forall_forall. intros k Hk.
    apply (proj1 (np_unique_nat_elem_of _ _)) in Hk.
    rewrite Forall_forall in Hm. apply Hm.
    unfold slice in Hk. apply subseteq_take, subseteq_drop in Hk. exact Hk. }
  exists buffer'. split; [exact Hloop|]. split; [exact Hlb|].
  intros k Hk. rewrite Hlook, (Hbuf k Hk).
  rewrite <- (cluster_rows_slice m X k 0 a b) by lia.
  rewrite stats_of_rows_app.
  destruct (decide (k ∈ np_unique (slice m a b))) as [Hin|Hnotin].
  - apply (proj1 (np_unique_nat_elem_of _ _)) in Hin.
    destruct (cluster_rows (slice m a b) (slice X a b) k) as [|r rs] eqn:Hc.
    + apply (proj1 (cluster_rows_nil _ _ _ Hl)) in Hc. contradiction.
    + reflexivity.
  - rewrite np_unique_nat_elem_of in Hnotin.
    apply (proj2 (cluster_rows_nil _ _ _ Hl)) in Hnotin. rewrite Hnotin.
    reflexivity.
Qed.

(** The loop over the chunks, from row [a] on. *)
Lemma accumulate_chunks_Ok (m : list nat) (X : array2) :
  length m = length X ->
  forall (chunks : list (array2 * nat * nat)) (a : nat)
         (buffer : list stats),
  tiles a (length X) chunks -> chunks_of X chunks ->
  Forall (fun k => k < length buffer)%nat m ->
  (forall k, (k < length buffer)%nat ->
     buffer !! k
     = Some (stats_of_rows zero
               (chunk_summary to_log2CPM summary_stats_for_chunk
                              normalization)
               (cluster_rows (slice m 0 a) (slice X 0 a) k))) ->
  exists buffer',
    for_each (accumulate_chunk to_log2CPM summary_stats_for_chunk add
                               normalization m) chunks buffer
    = Ok buffer' /\
    length buffer' = length buffer /\
    forall k, (k < length buffer)%nat ->
      buffer' !! k
      = Some (stats_of_rows zero
                (chunk_summary to_log2CPM summary_stats_for_chunk
                               normalization)
                (cluster_rows m X k)).
Proof.
  intros Hlen.
  induction chunks as [|[[data x] b] chunks IH]; intros a buffer Ht Hc Hm Hbuf.
  - simpl in Ht. subst a. exists buffer. split; [reflexivity|].
    split; [reflexivity|]. intros k Hk. rewrite (Hbuf k Hk).
    unfold slice. rewrite Nat.sub_0_r, !drop_0.
    rewrite !take_ge by lia. reflexivity.
  - simpl in Ht. destruct Ht as (-> & Hab & Ht).
    pose proof (tiles_le _ _ _ Ht) as Hb.
    apply Forall_cons in Hc. destruct Hc as [Hdata Hc]. simpl in Hdata.
    destruct (accumulate_chunk_Ok m X data a b buffer Hlen ltac:(lia)
                Hdata Hm Hbuf) as (buffer1 & Hstep & Hl1 & Hb1).
    destruct (IH b buffer1 Ht Hc) as (buffer' & Hloop & Hl' & Hb').
    + rewrite Hl1. exact Hm.
    + rewrite Hl1. exact Hb1.
    + exists buffer'. split.
      * cbn [for_each]. rewrite Hstep. exact Hloop.
      * split; [congruence|]. rewrite Hl1 in Hb'. exact Hb'.
Qed.

End Accumulate.

End PrecomputeFromAnndataFacts.

(** X23. When every cluster has rows, all of them rows of the matrix,
    the array [anndata_row_to_output_row] built by
    [precompute_summary_stats_from_h5ad_and_tree] has an entry for
    every cell: the position, in [cluster_to_input_row], of the last
    cluster that lists the cell, and 0, the output row of the first
    cluster, for a cell that no cluster lists. *)
Theorem row_map_last_cluster (cluster_to_input_row : Precompute.dict (list nat))
    (n_cells : nat) :
  NoDup cluster_to_input_row.*1 ->
  clusters_have_rows n_cells cluster_to_input_row ->
  exists m,
    PrecomputeFromAnndata.anndata_row_to_output_row cluster_to_input_row
                                                    n_cells = Ok m /\
    length m = n_cells /\
    forall r, (r < n_cells)%nat ->
      ((forall cr, cr ∈ cluster_to_input_row -> r ∉ cr.2) ->
       m !! r = Some 0%nat) /\
      (forall j cr, cluster_to_input_row !! j = Some cr -> r ∈ cr.2 ->
         (forall j' cr', (j < j')%nat ->
            cluster_to_input_row !! j' = Some cr' -> r ∉ cr'.2) ->
         m !! r = Some j).
Proof.
  intros Hnd Hrows.
  destruct (row_map_from cluster_to_input_row n_cells Hnd Hrows
              cluster_to_input_row [] (replicate n_cells 0%nat) eq_refl
              (length_replicate _ _)) as (m & Hm & Hlen & Hlook).
  exists m. split; [exact Hm|]. split; [exact Hlen|].
  intros r Hr. destruct (Hlook r Hr) as [Hnone Hlast].
  split; [|exact Hlast].
  intros Hno. rewrite (Hnone Hno). apply lookup_replicate_2. exact Hr.
Qed.

Lemma row_map_last_cluster_witness :
  exists m,
    PrecomputeFromAnndata.anndata_row_to_output_row
      [("c1", [0; 3]); ("c2", [1; 3])]%string%nat 5 = Ok m /\
    length m = 5%nat /\
    forall r, (r < 5)%nat ->
      ((forall cr, cr ∈ [("c1", [0; 3]); ("c2", [1; 3])]%string%nat ->
          r ∉ cr.2) ->
       m !! r = Some 0%nat) /\
      (forall j cr,
         [("c1", [0; 3]); ("c2", [1; 3])]%string%nat !! j = Some cr ->
         r ∈ cr.2 ->
         (forall j' cr', (j < j')%nat ->
            [("c1", [0; 3]); ("c2", [1; 3])]%string%nat !! j' = Some cr' ->
            r ∉ cr'.2) ->
         m !! r = Some j).
Proof.
  apply (row_map_last_cluster [("c1", [0; 3]); ("c2", [1; 3])]%string%nat 5).
  - apply (bool_decide_unpack _). vm_compute. exact I.
  - unfold clusters_have_rows.
    repeat constructor; simpl; try discriminate; lia.
Defined.

(** X24. When there is a cluster, every cluster has rows, all of them
    rows of the matrix, the chunks follow one another through all rows
    of the matrix, the statistics of two chunks of cells add up to
    those of the cells of both and adding to zero changes nothing,
    [precompute_summary_stats_from_h5ad_and_tree] returns a buffer
    with an entry for every cluster: the statistics of all the cells
    that [anndata_row_to_output_row] sends to the output row of the
    cluster, taken at once, or zero when there is no such cell. The
    buffer is the same however the matrix is cut into chunks. *)
Theorem precompute_from_h5ad_statistics {stats : Type}
    (to_log2CPM : array2 -> array2)
    (summary_stats_for_chunk : array2 -> stats)
    (zero : stats) (add : stats -> stats -> stats)
    (cluster_to_input_row : Precompute.dict (list nat)) (X : array2)
    (chunks : list (array2 * nat * nat)) (normalization : string) :
  (forall s, add zero s = s) ->
  additive add (PrecomputeFromAnndata.chunk_summary
                  to_log2CPM summary_stats_for_chunk normalization) ->
  NoDup cluster_to_input_row.*1 -> cluster_to_input_row <> [] ->
  clusters_have_rows (length X) cluster_to_input_row ->
  AnnDataIterator.tiles 0 (length X) chunks -> chunks_of X chunks ->
  exists m buffer,
    PrecomputeFromAnndata.anndata_row_to_output_row cluster_to_input_row
                                                    (length X) = Ok m /\
    PrecomputeFromAnndata.precompute_summary_stats_from_h5ad_and_tree
      to_log2CPM summary_stats_for_chunk zero add cluster_to_input_row
      (length X) chunks normalization = Ok buffer /\
    length buffer = length cluster_to_input_row /\
    forall k, (k < length cluster_to_input_row)%nat ->
      buffer !! k
      = Some (stats_of_rows zero
                (PrecomputeFromAnndata.chunk_summary
                   to_log2CPM summary_stats_for_chunk normalization)
                (cluster_rows m X k)).
Proof.
  intros Hzero Hadd Hnd Hne Hrows Ht Hc.
  destruct (row_map_from cluster_to_input_row (length X) Hnd Hrows
              cluster_to_input_row [] (replicate (length X) 0%nat) eq_refl
              (length_replicate _ _)) as (m & Hm & Hlen & Hlook).
  assert (Hbound : Forall (fun k => k < length cluster_to_input_row)%nat m).
  { apply (row_map_bound cluster_to_input_row (length X) m Hne);
      [|exact Hlen].
    intros r Hr. destruct (Hlook r Hr) as [Hnone Hlast].
    split; [|exact Hlast]. intros Hno. rewrite (Hnone Hno).
    apply lookup_replicate_2. exact Hr. }
  destruct (accumulate_chunks_Ok to_log2CPM summary_stats_for_chunk zero add
              normalization Hzero Hadd m X Hlen chunks 0%nat
              (replicate (length cluster_to_input_row) zero) Ht Hc)
    as (buffer & Hloop & Hlb & Hb).
  - rewrite length_replicate. exact Hbound.
  - intros k Hk. rewrite length_replicate in Hk.
    rewrite lookup_replicate_2 by exact Hk. reflexivity.
  - rewrite length_replicate in Hlb, Hb.
    exists m, buffer. split; [exact Hm|]. split; [|split; assumption].
    unfold PrecomputeFromAnndata.precompute_summary_stats_from_h5ad_and_tree.
    unfold PrecomputeFromAnndata.anndata_row_to_output_row in Hm |- *.
    rewrite Hm. cbn [mbind res_bind]. rewrite length_fmap. exact Hloop.
Qed.

Lemma precompute_from_h5ad_statistics_witness :
  exists m buffer,
    PrecomputeFromAnndata.anndata_row_to_output_row
      Examples.small_clusters (length Examples.small_matrix) = Ok m /\
    PrecomputeFromAnndata.precompute_summary_stats_from_h5ad_and_tree
      (fun a => a) Examples.count_cells 0%nat Nat.add
      Examples.small_clusters (length Examples.small_matrix)
      Examples.small_chunks "log2CPM" = Ok buffer /\
    length buffer = length Examples.small_clusters /\
    forall k, (k < length Examples.small_clusters)%nat ->
      buffer !! k
      = Some (stats_of_rows 0%nat
                (PrecomputeFromAnndata.chunk_summary
                   (fun a => a) Examples.count_cells "log2CPM")
                (cluster_rows m Examples.small_matrix k)).
Proof.
  apply (precompute_from_h5ad_statistics (fun a => a)
           Examples.count_cells 0%nat Nat.add
           Examples.small_clusters Examples.small_matrix
           Examples.small_chunks "log2CPM").
  - reflexivity.
  - intros a b _ _. unfold PrecomputeFromAnndata.chunk_summary. simpl.
    unfold Examples.count_cells. apply length_app.
  - apply (bool_decide_unpack _). vm_compute. exact I.
  - discriminate.
  - unfold clusters_have_rows.
    repeat constructor; simpl; try discriminate; lia.
  - simpl. lia.
  - repeat constructor.
Defined.

(** X25. When a cluster lists a row past the end of the matrix,
    [precompute_summary_stats_from_h5ad_and_tree] raises an
    [IndexError] while it builds [anndata_row_to_output_row]: no chunk
    is read and nothing is written, whatever the other clusters list. *)
Theorem precompute_from_h5ad_row_past_end {stats : Type}
    (to_log2CPM : array2 -> array2)
    (summary_stats_for_chunk : array2 -> stats)
    (zero : stats) (add : stats -> stats -> stats)
    (cluster_to_input_row : Precompute.dict (list nat)) (n_cells : nat)
    (chunks : list (array2 * nat * nat)) (normalization : string)
    (cluster : string) (rows : list nat) (r : nat) :
  NoDup cluster_to_input_row.*1 ->
  (cluster, rows) ∈ cluster_to_input_row -> r ∈ rows -> (n_cells <= r)%nat ->
  PrecomputeFromAnndata.precompute_summary_stats_from_h5ad_and_tree
    to_log2CPM summary_stats_for_chunk zero add cluster_to_input_row
    n_cells chunks normalization = Raise IndexError.
Proof.
  intros Hnd Hin Hr Hle.
  unfold PrecomputeFromAnndata.precompute_summary_stats_from_h5ad_and_tree,
    PrecomputeFromAnndata.anndata_row_to_output_row.
  rewrite (row_map_raises cluster_to_input_row n_cells Hnd
             cluster_to_input_row [] (replicate n_cells 0%nat) eq_refl
             (length_replicate _ _)); [reflexivity|].
  exists (cluster, rows), r. auto.
Qed.

Lemma precompute_from_h5ad_row_past_end_witness :
  PrecomputeFromAnndata.precompute_summary_stats_from_h5ad_and_tree
    (fun a => a) Examples.count_cells 0%nat Nat.add
    Examples.small_clusters 5 [] "raw" = Raise IndexError.
Proof.
  apply (precompute_from_h5ad_row_past_end (fun a => a)
           Examples.count_cells 0%nat Nat.add
           Examples.small_clusters 5 [] "raw"
           "c3"%string [2; 4; 5]%nat 5%nat).
  - apply (bool_decide_unpack _). vm_compute. exact I.
  - right. right. left.
  - right. right. left.
  - lia.
Defined.
